(* ===== verification/_CoqProject ===== *)
-Q . S2P
Prelude.v
GoErrors.v
Config.v
Spreading.v
RateLimit.v
Conditions.v
Executor.v
Requeue.v
ApiTypes.v
Merge.v
RulesetMerge.v
RulesetResolve.v
RulesetMapper.v
RulesetSync.v
Sha256.v
HashSync.v
RepoLists.v
Webhooks.v
TeamRec.v
PresetIndex.v
RepoRec.v
RulesetRec.v
IdResolver.v
CustomProps.v
OrgRec.v
OrgActions.v
Csc.v
Parallel.v
Rely.v
Shared.v
SharedResolver.v
Groups.v
GoStrings.v
ErrorText.v
Transport.v
Caching.v
ClientFactory.v
Validation.v
Factory.v
Startup.v
Liveness.v
Apply.v
Watches.v
Events.v
Wrapper.v
Services.v
Logging.v
Main.v
Ready.v
Stored.v
Slug.v
TeamGroups.v
Process.v
