(* ===== verification/Prelude.v ===== *)
(** * git-hubby: a verification library

    git-hubby is a Kubernetes operator.  Custom resources (Organization, Repository, Team, and presets they refer
    to: RulesetPreset, WebhookPreset, WebhookIgnorePreset, AutolinksPreset, CodeSecurityConfiguration) declare what
    an organization on GitHub should look like; the controllers compare GitHub with the declarations and change it
    until both agree.  This library models the code of internal/, api/v1alpha1/ and cmd/ that decides what is changed.

    ** How the program's parts interact

    A controller (internal/controller) is called with the name of a resource, when the resource or one that it refers
    to has changed (Events) or when the last run asked for it (Requeue).  It asks the factory
    (internal/reconciler/reconcilerfactory) for an executor; the factory may refuse because the resource is spread
    over time after a restart (internal/reconciler/spreading) or because the rate limit of the GitHub organization
    is low (internal/ghclient, internal/ratelimit).  The executor (internal/reconciler/executor.go) handles
    deletion and the finalizer, runs the groups of reconciliations of the resource, each group in parallel, turns
    the results into conditions and returns a joined error, which the requeue policy of the controller turns into
    the time of the next run.  The reconciliations themselves (internal/reconciler/orgrec, reporec, teamrec) read
    GitHub and the cluster and make the calls that change GitHub; internal/mapper translates between the resources
    and the GitHub API and compares them.

    ** How the code is modelled

    A function without calls is a Rocq function, with Go's branches and early returns.  A function that calls GitHub,
    the cluster or the clock is a program of type [prog W A] (below): a tree of atomic actions on a world [W].  The
    actions a component needs are the fields of a class ([RepoApi], [WebhookApi], [TeamApi], ...), with an operation
    per method of the client it calls; what GitHub and the cluster do is stated in a second class of laws about
    these operations, as far as a theorem relies on it, and every such class has an instance (the Modules Toy...),
    against which the witnesses run.  [run] executes a program alone; where goroutines run in parallel (Executor),
    a schedule interleaves their actions.

    Errors are the trees of the type [gerror] (GoErrors), a call with result [(value, error)] returns a sum, a call
    with result [error] an option.  Pointers are options, slices lists (an option of a list where nil and empty are
    told apart), maps are [gmap]s; code that ranges over a map takes the iteration order as an argument
    ([MapOrder]) and the theorems hold for every order.  [time.Duration] and [int64] are integers with wrap-around
    ([wrap64]) or saturation ([sat64]) where the code computes with them; times are nanoseconds since 1970.  Log
    output, metrics and contexts (but for their cancellation where it matters) are left out; an error is
    kept as its parts, its text is in ErrorText.

    ** The files
    - Prelude: tactics, integers, defaults (internal/utils), programs, loops, maps and their iteration order.
    - GoErrors: error trees and their classification (internal/reconciler/user_action.go, stop.go).
    - Config, Spreading, RateLimit: the configuration, the spreading of reconciliations after a restart and the
      registry of rate limits; the registry invariant, when a reconciliation is delayed or stalled and for how long.
    - Conditions, Executor, Requeue: status conditions, the executor and the policy that decides about the next run;
      the Ready condition agrees with the returned error and with the requeue decision, groups run in order, deletion;
      and every run but those of finished or missing resources ends with an error or a positive delay, so that there
      is a next one.
    - Parallel, Shared, Groups: the goroutines of a group that work on different parts of the world do not interfere,
      and what may happen to a part that two of them share; a successful run of a repository or an organization has the
      effect of all its reconciliations alone.
    - SharedResolver: the resolver of names that the rulesets and the code security configurations of an organization
      share, whose maps each may replace while the other one reads them; with a directory that does not change they
      succeed as if it had answered.
    - ApiTypes: the resources (api/v1alpha1).
    - Merge, RulesetMerge, RulesetResolve, RulesetMapper, RulesetSync, RulesetRec: rulesets from presets and inline
      definitions to GitHub (common/merge, common/rulesets, mapper/github_ruleset_mapper.go, rec_rulesets.go).  What a
      ruleset inherits, which rulesets are desired and which are unresolved, that mapping and comparison agree, and
      that synchronising updates, creates and deletes exactly what it should, keeping unresolved rulesets.
    - IdResolver: names to ids; what cached maps resolve, and that a lookup which they cannot answer gets what the
      directory has now.
    - Sha256, HashSync, RepoLists, Webhooks: collections of a repository that are synchronised by a hash of their
      content: afterwards exactly the desired items exist, without touching those that were right (up to collisions).
    - CustomProps, OrgRec, OrgActions, Csc: the other settings of organizations and repositories; after a successful
      run GitHub has what the spec declares, polling for attachments ends, an organization in use is not deleted.
    - RepoRec: repositories: found by id or name, created, renamed, updated, archived, deleted.
    - TeamRec, Slug: teams over several organizations: settings, members, roles, identity provider groups, deletion; and
      the slug of a name.
    - PresetIndex: which resources a changed preset affects; none is missed.
    - Rely, GoStrings: programs that run among others under an invariant; the string functions of Go that are used.
    - ErrorText: the texts of errors and conditions; a user reads GitHub's message instead of the dump of a response.
    - Transport, Caching, ClientFactory: the client of GitHub (internal/ghclient).  A rejected request's token is replaced,
      only safe requests are retried, an exhausted quota stalls, cached answers are recent, and a client is the one of
      the organization and its credentials.
    - Wrapper, Services: the methods of ghclient/wrapper.go, those with logic of their own and those that pass on a
      call; paging collects every page and an error keeps what its type says.
    - Validation: the admission webhooks (internal/webhook); what is admitted and what an admitted resource guarantees.
    - Factory, Startup, Liveness: how a controller gets a reconciler (reconcilerfactory); after a restart unchanged
      resources are spread, those with a changed sub-resource are not, and a resource that is held back is reconciled
      in the end.
    - Apply: the status and the metadata that are written back; nothing is lost on the way, so that the generations
      recorded by one run are those the next run compares with.
    - Watches, Events: the field indexes of the controllers, their watches and their registration with event filters;
      every resource that refers to a changed one is requested, and the operator's own writes request nothing.
    - Logging, Main, Process: the fields of a log line; with which components the process starts and what they then
      satisfy; flags, options, and the order of the start: the manager runs only when all is registered.
    - Ready, TeamGroups: the executor with the groups of a repository, of an organization and of a team: what a Ready
      status promises.
    - Stored: what the status in the cluster says after a run, and what a restarted operator does with it
      (repositories and organizations).

    ** Fuel and bounds

    Programs are trees, so they terminate; the recursion of every loop is over the list it ranges over.  Exceptions:
    the walks over extends references of rulesets are bounded by [MaxExtendsDepth] in the code itself, and the model
    counts the same levels ([RulesetResolve.Resolve], [PresetIndex.presetWithDescendants]).  The
    polling loop of Csc takes fuel, one round per query interval of its timeout and a slack for the rounds in which a
    due tick wins against the timeout; [Csc.getAndWait_terminates] shows that it is never used up.  SHA-256 runs over
    the blocks of its input.  The paging loops of Wrapper need one unit of fuel for each page but the first
    ([Wrapper.paging_complete]), the loop of [Slug.TeamNameToSlug] at most one for each rune, since every round makes
    the text shorter ([Slug.TeamNameToSlug_spec]).

    ** Not modelled

    The work queue of a controller, with its priorities, its backoff and its workers, is controller-runtime's; the options
    that the controllers set are recorded (Events).  Of cmd/main.go it is left out what the libraries do with flags,
    options of servers and of the logger (Process); those themselves are modelled.  Left out for good:
    generated code that the operator does not call (deep copies, builders of specs), and the mocks and helpers under
    test/.  An attempt of the resolver of names reads its maps once: that another goroutine
    replaces one of the three maps within the attempt, which the code does not rule out, is not modelled. *)
From stdpp Require Export base option list gmap sets fin_maps strings sorting pretty.
From Stdlib Require Export ZArith Lia.

(** ** Scope and tactics *)

Declare Scope hubby_scope.
Delimit Scope hubby_scope with hubby.
#[global] Open Scope hubby_scope.
#[global] Open Scope Z_scope.

Create HintDb hubby.
Create Rewrite HintDb hubby.

(** Case analysis on every [match] and [decide] of the goal, closing the easy branches. *)
Ltac split_cases := repeat (case_match || case_decide); simplify_eq/=; try done.

(** Destruct existentials and conjunctions of the hypotheses. *)
Ltac deex :=
  repeat match goal with
  | H : ∃ _, _ |- _ => destruct H
  | H : _ ∧ _ |- _ => destruct H
  end.

(** ** Machine integers and durations (Go [int], [int64], [time.Duration]) *)

Definition min_int64 : Z := -(2 ^ 63).
Definition max_int64 : Z := 2 ^ 63 - 1.

(** Two's complement wrap-around of the 64-bit arithmetic of Go. *)
Definition wrap64 (z : Z) : Z := (z + 2 ^ 63) mod 2 ^ 64 - 2 ^ 63.

Definition in_int64 (z : Z) : Prop := min_int64 ≤ z ≤ max_int64.

(** [time.Time.Sub] saturates instead of wrapping. *)
Definition sat64 (z : Z) : Z := Z.max min_int64 (Z.min max_int64 z).

(** Nanosecond units of package [time]. *)
Definition Nanosecond : Z := 1.
Definition Second : Z := 1000000000.
Definition Minute : Z := 60 * Second.

(** The zero [time.Time] (year 1) in nanoseconds since the Unix epoch. *)
Definition zero_time : Z := -62135596800 * Second.

Lemma wrap64_range z : in_int64 (wrap64 z).
Proof.
  unfold in_int64, wrap64, min_int64, max_int64.
  pose proof (Z.mod_pos_bound (z + 2 ^ 63) (2 ^ 64) ltac:(lia)). lia.
Qed.

Lemma wrap64_id z : in_int64 z → wrap64 z = z.
Proof.
  unfold in_int64, wrap64, min_int64, max_int64. intros H.
  rewrite Z.mod_small; lia.
Qed.

Lemma sat64_range z : in_int64 (sat64 z).
Proof. unfold in_int64, sat64, min_int64, max_int64. lia. Qed.

Lemma sat64_id z : in_int64 z → sat64 z = z.
Proof. unfold in_int64, sat64, min_int64, max_int64. lia. Qed.

(** A saturated difference keeps the comparison with any [int64] bound. *)
Lemma sat64_gt z b : min_int64 ≤ b < max_int64 → (b < sat64 z ↔ b < z).
Proof. unfold sat64, min_int64, max_int64. lia. Qed.

Lemma sat64_pos z : 0 < sat64 z ↔ 0 < z.
Proof. unfold sat64, min_int64, max_int64. lia. Qed.

Lemma sat64_le_pos z : 0 ≤ z → sat64 z ≤ z.
Proof. unfold sat64, min_int64, max_int64. lia. Qed.

#[export] Hint Resolve wrap64_range sat64_range : hubby.

(** ** Default values (package [internal/utils]) *)

(** [utils.WithDefault]: the pointed-to value, or the default for a nil pointer. *)
Definition WithDefault {A} (o : option A) (d : A) : A :=
  match o with Some v => v | None => d end.

(** [utils.WithDefaultAsPtr]: never nil. *)
Definition WithDefaultAsPtr {A} (o : option A) (d : A) : option A :=
  match o with Some _ => o | None => Some d end.

(** [utils.WithEmptyDefault]: a nil slice becomes an empty one.  Where the code tells a nil slice from
    an empty one, a slice is an [option (list A)] with [None] for nil. *)
Definition WithEmptyDefault {A} (l : option (list A)) : option (list A) :=
  match l with None => Some [] | Some _ => l end.

Lemma WithDefaultAsPtr_WithDefault {A} (o : option A) d :
  WithDefaultAsPtr o d = Some (WithDefault o d).
Proof. by destruct o. Qed.

#[export] Hint Rewrite @WithDefaultAsPtr_WithDefault : hubby.

(** ** Programs: sequences of atomic actions on a world

    A Go function that calls clients is a program: every client call is one atomic action on the
    world [W] (GitHub, the Kubernetes API server, the clock and the in-memory resource), and the code
    between two calls is pure.  The type is inductive, so every program terminates; [run] executes a
    program without interruption, [steps] exposes its single actions to a scheduler. *)

Inductive prog (W A : Type) : Type :=
  | Ret (a : A)
  | Act (B : Type) (op : W → B * W) (k : B → prog W A).
Arguments Ret {W A} a.
Arguments Act {W A B} op k.

Fixpoint bind {W A B} (p : prog W A) (f : A → prog W B) : prog W B :=
  match p with
  | Ret a => f a
  | Act op k => Act op (λ b, bind (k b) f)
  end.

(** One client call. *)
Definition call {W A} (op : W → A * W) : prog W A := Act op Ret.

(** Reading or updating the in-memory part of the world. *)
Definition gets {W A} (f : W → A) : prog W A := call (λ w, (f w, w)).
Definition modify {W} (f : W → W) : prog W unit := call (λ w, (tt, f w)).

Notation "'let!' x ':=' p 'in' k" := (bind p (λ x, k))
  (at level 10, x pattern, p at level 100, k at level 200) : hubby_scope.

Fixpoint run {W A} (p : prog W A) (w : W) : A * W :=
  match p with
  | Ret a => (a, w)
  | Act op k => let '(b, w') := op w in run (k b) w'
  end.

Lemma run_bind {W A B} (p : prog W A) (f : A → prog W B) w :
  run (bind p f) w = let '(a, w') := run p w in run (f a) w'.
Proof.
  revert w. induction p as [a|C op k IH]; intros w; simpl; [done|].
  destruct (op w) as [b w']. apply IH.
Qed.

Lemma run_call {W A} (op : W → A * W) w : run (call op) w = op w.
Proof. unfold call. simpl. by destruct (op w). Qed.

Lemma run_gets {W A} (f : W → A) w : run (gets f) w = (f w, w).
Proof. done. Qed.

Lemma run_modify {W} (f : W → W) w : run (modify f) w = (tt, f w).
Proof. done. Qed.

(** Reduce the [let] of an executed action without unfolding programs. *)
Ltac step_run := cbv beta iota.

#[export] Hint Rewrite @run_bind @run_call @run_gets @run_modify : hubby.

(** Sequencing of fallible calls: [let?] propagates the error of a [(value, error)] call to the
    caller, [check] the error of a call that only returns an [error] ([None] is nil). *)
Notation "'let?' x ':=' p 'in' k" :=
  (bind p (λ r, match r with inl x => k | inr e => Ret (inr e) end))
  (at level 10, x name, p at level 100, k at level 200) : hubby_scope.
Notation "'check' p 'in' k" :=
  (bind p (λ r, match r with None => k | Some e => Ret (Some e) end))
  (at level 10, p at level 100, k at level 200) : hubby_scope.

(** [for _, x := range l { if err := f(x); err != nil { return err } }] *)
Fixpoint for_each {W A E} (l : list A) (f : A → prog W (option E)) : prog W (option E) :=
  match l with
  | [] => Ret None
  | x :: l => check f x in for_each l f
  end.

(** An invariant-style rule for [for_each]: [P] holds before, is kept by every successful
    iteration, and [Q] describes the world in which an iteration fails. *)
Lemma for_each_inv {W A E} (P : list A → W → Prop) (Q : E → W → Prop) (f : A → prog W (option E)) l :
  (∀ done x rest w, l = done ++ x :: rest → P done w →
     match run (f x) w with
     | (None, w') => P (done ++ [x]) w'
     | (Some e, w') => Q e w'
     end) →
  ∀ w, P [] w →
  match run (for_each l f) w with
  | (None, w') => P l w'
  | (Some e, w') => Q e w'
  end.
Proof.
  intros Hstep.
  enough (∀ rest done w, l = done ++ rest → P done w →
    match run (for_each rest f) w with
    | (None, w') => P l w' | (Some e, w') => Q e w' end) as H by (intros; by apply (H l [])).
  induction rest as [|x rest IH]; intros done w Hl HP; simpl.
  { by rewrite Hl, app_nil_r. }
  rewrite run_bind. specialize (Hstep done x rest w Hl HP).
  destruct (run (f x) w) as [[e|] w']; simpl; [done|].
  apply (IH (done ++ [x])); [by rewrite <-app_assoc|done].
Qed.

(** Programs that leave an observation [f] of the world as it is. *)
Definition keeps {W A V} (f : W → V) (p : prog W A) : Prop := ∀ w, f (run p w).2 = f w.

Lemma keeps_ret {W A V} (f : W → V) (a : A) : keeps f (Ret a).
Proof. done. Qed.
Lemma keeps_bind {W A B V} (f : W → V) (p : prog W A) (k : A → prog W B) :
  keeps f p → (∀ a, keeps f (k a)) → keeps f (bind p k).
Proof. intros Hp Hk w. rewrite run_bind. specialize (Hp w). destruct (run p w) as [a w']. by rewrite (Hk a w'). Qed.
Lemma keeps_for_each {W A E V} (f : W → V) (l : list A) (g : A → prog W (option E)) :
  (∀ x, keeps f (g x)) → keeps f (for_each l g).
Proof.
  intros Hg. induction l as [|x l IH]; [apply keeps_ret|]. apply keeps_bind; [done|]. by intros [e|]; [apply keeps_ret|].
Qed.
(** Decompose a program into its calls. *)
Ltac solve_keeps := repeat first
  [ assumption
  | match goal with
    | |- keeps _ (Ret _) => apply keeps_ret
    | |- keeps _ (bind _ _) => apply keeps_bind; [|intros ?]
    | |- keeps _ (for_each _ _) => apply keeps_for_each; intros ?
    end
  | progress cbv beta | case_match ].

(** ** Go maps

    The iteration order of a Go map is unspecified.  Functions that range over a map take an
    enumeration order as an argument; theorems hold for every order. *)

Record MapOrder : Type := {
  range : ∀ {A : Type}, gmap string A → list (string * A);
  range_perm : ∀ (A : Type) (m : gmap string A), range m ≡ₚ map_to_list m
}.

(** One concrete order, used by the witnesses. *)
Definition default_order : MapOrder := {| range A m := map_to_list m; range_perm A m := reflexivity _ |}.

Lemma elem_of_range (o : MapOrder) {A} (m : gmap string A) k x :
  (k, x) ∈ range o m ↔ m !! k = Some x.
Proof. by rewrite (range_perm o), elem_of_map_to_list. Qed.

Lemma NoDup_range_keys (o : MapOrder) {A} (m : gmap string A) : NoDup (range o m).*1.
Proof. rewrite (range_perm o). apply NoDup_fst_map_to_list. Qed.

(** Distinct keys identify the elements of a list. *)
Lemma NoDup_key_inj {A B} (f : A → B) (l : list A) x y :
  NoDup (f <$> l) → x ∈ l → y ∈ l → f x = f y → x = y.
Proof.
  intros Hnd [i Hi]%list_elem_of_lookup_1 [j Hj]%list_elem_of_lookup_1 Heq.
  assert (i = j) as ->.
  { eapply (NoDup_lookup (f <$> l)); [done|rewrite list_lookup_fmap, Hi; done|rewrite list_lookup_fmap, Hj; simpl; by rewrite Heq]. }
  congruence.
Qed.

(** [m[key(x)] = x] for every element of a slice, later elements overwriting earlier ones. *)
Definition index_by `{Countable K} {A} (key : A → K) (l : list A) : gmap K A :=
  foldl (λ m x, <[key x := x]> m) ∅ l.

Section IndexBy.
Context `{Countable K} {A : Type} (key : A → K).
Implicit Types (l : list A).

Lemma index_by_app l1 x : index_by key (l1 ++ [x]) = <[key x := x]> (index_by key l1).
Proof. unfold index_by. by rewrite foldl_app. Qed.

Lemma index_by_Some l k x : index_by key l !! k = Some x → x ∈ l ∧ key x = k.
Proof.
  induction l as [|y l IH] using rev_ind; [done|].
  rewrite index_by_app, lookup_insert. case_decide; intros ?; simplify_eq; set_solver.
Qed.

Lemma index_by_None l k : index_by key l !! k = None ↔ ∀ x, x ∈ l → key x ≠ k.
Proof.
  induction l as [|y l IH] using rev_ind; [set_solver|].
  rewrite index_by_app, lookup_insert. case_decide as Hk; [set_solver|].
  rewrite IH. set_solver.
Qed.

Lemma index_by_elem l x : x ∈ l → ∃ y, index_by key l !! key x = Some y.
Proof.
  intros Hx. destruct (index_by key l !! key x) as [y|] eqn:E; [eauto|].
  exfalso. by eapply index_by_None.
Qed.

(** Indexing commutes with a function that keeps the keys. *)
Lemma index_by_fmap {B} (g : A → B) (key' : B → K) l :
  (∀ x, key' (g x) = key x) → index_by key' (g <$> l) = g <$> index_by key l.
Proof.
  intros Hg. induction l as [|x l IH] using rev_ind; [unfold index_by; simpl; by rewrite fmap_empty|].
  rewrite fmap_app, index_by_app, fmap_insert. cbn [fmap list_fmap].
  unfold index_by in *. rewrite foldl_app. cbn [foldl]. by rewrite IH, Hg.
Qed.

(** With distinct keys the index finds every element. *)
Lemma index_by_NoDup l x : NoDup (key <$> l) → x ∈ l → index_by key l !! key x = Some x.
Proof.
  induction l as [|y l IH] using rev_ind; [set_solver|].
  rewrite fmap_app, NoDup_app, index_by_app, lookup_insert. intros (H1 & H2 & _) Hx.
  apply elem_of_app in Hx as [Hx|Hx%list_elem_of_singleton]; [|subst; by rewrite decide_True].
  rewrite decide_False; [by auto|]. intros Heq.
  apply (H2 (key x)); [by apply list_elem_of_fmap_2|]. simpl. rewrite Heq. set_solver.
Qed.
End IndexBy.

(** [for k, x := range m { if f(k, x) { return true } } return false]: whether some entry satisfies [f],
    which does not depend on the iteration order. *)
Definition map_exists `{Countable K} {A} (f : K → A → bool) (m : gmap K A) : bool :=
  existsb (λ '(k, x), f k x) (map_to_list m).

Lemma map_exists_true `{Countable K} {A} (f : K → A → bool) (m : gmap K A) :
  map_exists f m = true ↔ ∃ k x, m !! k = Some x ∧ f k x = true.
Proof.
  unfold map_exists. rewrite existsb_exists. split.
  - intros ([k x] & Hin & Hf). apply list_elem_of_In, elem_of_map_to_list in Hin. eauto.
  - intros (k & x & Hm & Hf). exists (k, x). split; [|done]. by apply list_elem_of_In, elem_of_map_to_list.
Qed.

Lemma map_exists_false `{Countable K} {A} (f : K → A → bool) (m : gmap K A) :
  map_exists f m = false ↔ ∀ k x, m !! k = Some x → f k x = false.
Proof.
  rewrite <-not_true_iff_false, map_exists_true. split.
  - intros Hn k x Hm. apply not_true_iff_false. naive_solver.
  - intros Hall (k & x & Hm & Hf). rewrite (Hall k x Hm) in Hf. done.
Qed.

(** [slices.Sort]/[slices.Sorted] on strings. *)
Definition sort_strings (l : list string) : list string := merge_sort String.le l.

Lemma sort_strings_perm l : sort_strings l ≡ₚ l.
Proof. apply merge_sort_Permutation. Qed.

(** Sorting is canonical: two slices with the same elements sort to the same slice. *)
Lemma sort_strings_canonical l1 l2 : l1 ≡ₚ l2 ↔ sort_strings l1 = sort_strings l2.
Proof.
  split.
  - intros H. apply (Sorted_unique String.le).
    1,2: apply Sorted_merge_sort; apply _.
    by rewrite !sort_strings_perm.
  - intros H. by rewrite <-(sort_strings_perm l1), H, sort_strings_perm.
Qed.
