(* ===== verification/GoErrors.v ===== *)
(** * Error trees and their classification

    The errors the reconcilers return (internal/reconciler/user_action.go, stop.go and the error
    types of the other packages) as one inductive type, with [errors.Is]/[errors.AsType] as
    traversals of the tree, [RequiresUserAction], [AwaitsGitHubChange] and
    [unprocessableEntityErrors].  An error keeps the data its message is built
    from; the texts are in ErrorText.v. *)
From S2P Require Import Prelude.

(** One entry of [github.ErrorResponse.Errors]. *)
Record GitHubFieldError := { fe_field : string; fe_code : string; fe_message : string }.

(** [github.ErrorResponse]; [er_status] is [Response.StatusCode], [None] if [Response] is nil. *)
Record ErrorResponse := {
  er_status : option Z;
  er_message : string;
  er_errors : list GitHubFieldError
}.

(** [rulesets.UnresolvedReason]. *)
Inductive UnresolvedReason :=
  | ReasonParentNotFound | ReasonParentUnavailable | ReasonExtendsCycle
  | ReasonExtendsTooDeep | ReasonNoEnforcement.
#[export] Instance UnresolvedReason_eq_dec : EqDecision UnresolvedReason.
Proof. solve_decision. Defined.

Inductive gerror : Type :=
  | EPlain (msg : string)                       (* errors.New, fmt.Errorf without %w *)
  | EWrap (ctx : string) (e : gerror)           (* fmt.Errorf("...: %w", err) *)
  | EJoin (es : list gerror)                    (* errors.Join *)
  | EReadable (e : gerror)                      (* reconciler.readableError *)
  | EStop (msg : string)                        (* reconciler.StopReconciliation *)
  | EGitHub (r : ErrorResponse)                 (* *github.ErrorResponse *)
  | EStatus (reason : string)                   (* apierrors.APIStatus *)
  | ECanceled                                   (* context.Canceled *)
  | EDeadlineExceeded                           (* context.DeadlineExceeded *)
  | ERateLimitReached (reset : option Z)        (* github_primary_ratelimit.RateLimitReachedError *)
  | ERateLimited (reset : Z)                    (* ghclient.RateLimitedError *)
  | ERequiresSpread (after : Z)                 (* spreading.RequiresSpreadError *)
  | EAccepted                                   (* github.AcceptedError *)
  | EConflict (name : string) (sources : list string)             (* rulesets.ConflictError *)
  | EAutolinkConflict (prefix : string) (sources : list string)   (* reporec.AutolinkConflictError *)
  | EWebhookConflict (url hash : string) (sources : list string)  (* reporec.WebhookConflictError *)
  | EInvalidWebhookSecretRef (msg : string)     (* reporec.InvalidWebhookSecretRefError *)
  | EUnresolved (ruleset : string) (chain : list string) (reason : UnresolvedReason) (err : option gerror)
                                                (* rulesets.UnresolvedError *)
  | EUnresolvableReference (msg : string) (notFound : bool) (* idresolver.UnresolvableReferenceError *)
  | EDefaultBranchNotFound (owner name branch : string)     (* reporec.DefaultBranchNotFoundError *)
  | ENewRepositoryUpdate (e : gerror)           (* reporec.NewRepositoryUpdateError *)
  | EFinalizationFailed (msg : string).         (* orgrec.FinalizationFailedError *)

(** The result of a Go call returning [(value, error)]. *)
Abbreviation res A := (A + gerror)%type.

(** [Unwrap() error] and [Unwrap() []error] of each type: the errors directly below an error. *)
Definition unwrap (e : gerror) : list gerror :=
  match e with
  | EWrap _ e | EReadable e | ENewRepositoryUpdate e => [e]
  | EUnresolved _ _ _ (Some e) => [e]
  | EJoin es => es
  | _ => []
  end.

(** Induction over error trees: an error may use the property of everything it wraps. *)
Lemma gerror_tree_ind (P : gerror → Prop) :
  (∀ e, Forall P (unwrap e) → P e) → ∀ e, P e.
Proof.
  intros HP. fix IH 1. intros e. apply HP.
  destruct e as [| | es | | | | | | | | | | | | | | | n c r [e|] | | | |]; simpl;
    repeat first [apply Forall_nil_2 | apply Forall_cons_2; [apply IH|]].
  induction es as [|e es IHes]; constructor; [apply IH|apply IHes].
Qed.

(** [errors.Join] drops nil errors and returns nil if none is left. *)
Definition errors_join (es : list (option gerror)) : option gerror :=
  match omap id es with [] => None | es' => Some (EJoin es') end.

(** The first error of a list that yields a value. *)
Fixpoint first_some {A} (f : gerror → option A) (es : list gerror) : option A :=
  match es with
  | [] => None
  | e :: es => match f e with Some a => Some a | None => first_some f es end
  end.

(** [errors.AsType]/[errors.As]: the first match in depth-first pre-order. *)
Fixpoint as_type {A} (f : gerror → option A) (e : gerror) : option A :=
  match f e with
  | Some a => Some a
  | None =>
    match e with
    | EWrap _ e | EReadable e | ENewRepositoryUpdate e | EUnresolved _ _ _ (Some e) => as_type f e
    | EJoin es => first_some (as_type f) es
    | _ => None
    end
  end.

Lemma first_some_singleton {A} (f : gerror → option A) e : first_some f [e] = f e.
Proof. simpl. by destruct (f e). Qed.

(** The traversal in terms of [Unwrap]. *)
Lemma as_type_unwrap {A} (f : gerror → option A) e :
  as_type f e = match f e with Some a => Some a | None => first_some (as_type f) (unwrap e) end.
Proof.
  destruct e as [| | | | | | | | | | | | | | | | | n c r [e|] | | | |];
    simpl; split_cases.
Qed.

Lemma first_some_None {A} (f : gerror → option A) es :
  first_some f es = None ↔ Forall (λ e, f e = None) es.
Proof.
  induction es as [|e es IH]; simpl; [done|].
  rewrite Forall_cons. destruct (f e) eqn:E; [naive_solver|]. rewrite IH. naive_solver.
Qed.

(** All errors of a tree, in the order of the traversal. *)
Fixpoint nodes (e : gerror) : list gerror :=
  e :: match e with
  | EWrap _ e | EReadable e | ENewRepositoryUpdate e | EUnresolved _ _ _ (Some e) => nodes e
  | EJoin es => flat_map nodes es
  | _ => []
  end.

Lemma nodes_unwrap e : nodes e = e :: flat_map nodes (unwrap e).
Proof. destruct e as [| | | | | | | | | | | | | | | | | n c r [e|] | | | |]; simpl; by rewrite ?app_nil_r. Qed.

(** [errors.As] fails only if no error of the tree matches. *)
Lemma as_type_None {A} (f : gerror → option A) e : as_type f e = None ↔ Forall (λ e, f e = None) (nodes e).
Proof.
  induction e as [e IH] using gerror_tree_ind. rewrite as_type_unwrap, nodes_unwrap, Forall_cons.
  destruct (f e); [naive_solver|]. rewrite first_some_None.
  assert (Forall (λ e, as_type f e = None) (unwrap e) ↔ Forall (λ e, f e = None) (flat_map nodes (unwrap e))) as ->;
    [|naive_solver].
  induction IH as [|x l Hx _ IHl]; simpl; [by rewrite !Forall_nil|]. by rewrite Forall_cons, Forall_app, Hx, IHl.
Qed.

(** [errors.Is] with a comparable target. *)
Definition errors_is (p : gerror → bool) (e : gerror) : bool :=
  bool_decide (is_Some (as_type (λ e, if p e then Some tt else None) e)).

(** [errors.As(err, &ghErr) && ghErr.Response.StatusCode == http.StatusNotFound]. *)
Definition isNotFoundResponse (err : gerror) : bool :=
  match as_type (λ e, match e with EGitHub r => Some r | _ => None end) err with
  | Some r => bool_decide (er_status r = Some 404)
  | None => false
  end.

(** [asStopReconciliation] (stop.go). *)
Definition asStopReconciliation (err : option gerror) : option string :=
  match err with
  | None => None
  | Some e => as_type (λ e, match e with EStop msg => Some msg | _ => None end) e
  end.

(** ** RequiresUserAction (user_action.go)

    [isUnprocessableEntity] is the test for a 422 response. *)
Definition isUnprocessableEntity (r : ErrorResponse) : bool :=
  match er_status r with Some c => c =? 422 | None => false end.

(** [UserActionRequiredError]: the error types with a [UserActionRequired] method and its value. *)
Definition UserActionRequired (e : gerror) : option bool :=
  match e with
  | EConflict _ _ | EAutolinkConflict _ _ | EWebhookConflict _ _ _
  | EInvalidWebhookSecretRef _ | EUnresolvableReference _ _ | EDefaultBranchNotFound _ _ _ => Some true
  | EUnresolved _ _ reason _ => Some (negb (bool_decide (reason = ReasonParentUnavailable)))
  | ENewRepositoryUpdate _ => Some false
  | _ => None
  end.

(** [GitHubStateError]: the error types with an [AwaitsGitHubChange] method and its value. *)
Definition AwaitsGitHubChangeMethod (e : gerror) : option bool :=
  match e with
  | EUnresolvableReference _ notFound => Some notFound
  | EDefaultBranchNotFound _ _ _ => Some true
  | _ => None
  end.

Fixpoint RequiresUserAction (e : gerror) : bool :=
  match UserActionRequired e with
  | Some b => b
  | None =>
    match e with
    | EGitHub r => isUnprocessableEntity r
    | EStatus reason => bool_decide (reason = "NotFound"%string)
    | EJoin es => forallb RequiresUserAction es && negb (bool_decide (es = []))
    | EWrap _ e | EReadable e => RequiresUserAction e
    | _ => false
    end
  end.

Fixpoint AwaitsGitHubChange (e : gerror) : bool :=
  match AwaitsGitHubChangeMethod e with
  | Some true => true
  | _ =>
    match e with
    | EGitHub r => isUnprocessableEntity r
    | EJoin es => existsb AwaitsGitHubChange es
    | EWrap _ e | EReadable e | ENewRepositoryUpdate e | EUnresolved _ _ _ (Some e) => AwaitsGitHubChange e
    | _ => false
    end
  end.

(** The same on a Go [error], where nil is not an error. *)
Definition RequiresUserAction_opt (err : option gerror) : bool :=
  match err with None => false | Some e => RequiresUserAction e end.

Fixpoint unprocessableEntityErrors (e : gerror) : list ErrorResponse :=
  match e with
  | EGitHub r => if isUnprocessableEntity r then [r] else []
  | EJoin es => flat_map unprocessableEntityErrors es
  | EWrap _ e | EReadable e | ENewRepositoryUpdate e | EUnresolved _ _ _ (Some e) =>
      unprocessableEntityErrors e
  | _ => []
  end.

(** [withReadableMessage]: only errors that contain a 422 response are wrapped. *)
Definition withReadableMessage (e : gerror) : gerror :=
  match unprocessableEntityErrors e with [] => e | _ => EReadable e end.

(** Wrapping for readability changes neither classification nor what [errors.As] finds. *)
Lemma RequiresUserAction_readable e : RequiresUserAction (withReadableMessage e) = RequiresUserAction e.
Proof. unfold withReadableMessage. by case_match. Qed.

Lemma AwaitsGitHubChange_readable e : AwaitsGitHubChange (withReadableMessage e) = AwaitsGitHubChange e.
Proof. unfold withReadableMessage. by case_match. Qed.

Lemma as_type_readable {A} (f : gerror → option A) e :
  (∀ e, f (EReadable e) = None) → as_type f (withReadableMessage e) = as_type f e.
Proof. intros Hf. unfold withReadableMessage. case_match; [done|]. simpl. by rewrite Hf. Qed.

#[export] Hint Rewrite RequiresUserAction_readable AwaitsGitHubChange_readable : hubby.

Lemma RequiresUserAction_join es :
  RequiresUserAction (EJoin es) = true ↔ es ≠ [] ∧ Forall (λ e, RequiresUserAction e = true) es.
Proof.
  simpl. rewrite andb_true_iff, forallb_forall, negb_true_iff, bool_decide_eq_false, Forall_forall.
  setoid_rewrite list_elem_of_In. tauto.
Qed.

Lemma errors_join_Some es : errors_join (Some <$> es) = match es with [] => None | _ => Some (EJoin es) end.
Proof.
  unfold errors_join. assert (omap id (Some <$> es) = es) as ->; [|by destruct es].
  induction es as [|e es IH]; [done|]. rewrite fmap_cons. simpl. unfold id at 1. by f_equal.
Qed.

Lemma errors_join_None es : errors_join es = None ↔ Forall (λ e, e = None) es.
Proof.
  unfold errors_join. induction es as [|[e|] es IH]; simpl; [done| |].
  - split; [done|]. inversion 1. done.
  - rewrite Forall_cons, IH. naive_solver.
Qed.

(** ** Specification of the classification

    The leaves that decide whether an error can only be fixed by a user: an error type with a
    [UserActionRequired] method decides for its whole subtree, every other inner node defers to
    what it wraps. *)
Fixpoint deciding (e : gerror) : list gerror :=
  match UserActionRequired e with
  | Some _ => [e]
  | None =>
    match e with
    | EJoin es => flat_map deciding es
    | EWrap _ e | EReadable e => deciding e
    | _ => [e]
    end
  end.

Definition leaf_requires (e : gerror) : bool :=
  match e with
  | EGitHub r => isUnprocessableEntity r
  | EStatus reason => bool_decide (reason = "NotFound"%string)
  | _ => WithDefault (UserActionRequired e) false
  end.

(** A tree without an empty join (which [errors.Join] never builds). *)
Fixpoint no_empty_join (e : gerror) : bool :=
  match e with
  | EJoin es => forallb no_empty_join es && negb (bool_decide (es = []))
  | EWrap _ e | EReadable e | ENewRepositoryUpdate e | EUnresolved _ _ _ (Some e) => no_empty_join e
  | _ => true
  end.

Lemma deciding_nonempty e : no_empty_join e = true → deciding e ≠ [].
Proof.
  induction e as [e IH] using gerror_tree_ind.
  destruct e as [| | es | | | | | | | | | | | | | | | n c r [e|] | | | |]; simpl in *; try done;
    try (rewrite Forall_singleton in IH; exact IH); try (intros _; discriminate).
  intros [Hall Hne%negb_true_iff%bool_decide_eq_false]%andb_true_iff.
  destruct es as [|e es]; [done|]. simpl in *. apply andb_true_iff in Hall as [He _].
  apply Forall_cons in IH as [IHe _]. intros [? _]%app_eq_nil. by apply IHe.
Qed.

(** An error requires user action, i.e. is requeued without backoff, exactly if every error that
    decides about its part of the tree does: one transient error anywhere below joins and wrappers
    makes the whole error retryable, and a node with its own classification hides what it wraps. *)
Theorem RequiresUserAction_deciding e :
  no_empty_join e = true →
  (RequiresUserAction e = true ↔ Forall (λ l, leaf_requires l = true) (deciding e)).
Proof.
  induction e as [e IH] using gerror_tree_ind.
  destruct e as [| | es | | | | | | | | | | | | | | | n c r [e|] | | | |];
    try (intros _; simpl; rewrite Forall_singleton; done);
    try (intros Hne; simpl in *; rewrite Forall_singleton in IH; by apply IH).
  intros [Hall Hne]%andb_true_iff. rewrite RequiresUserAction_join. change (deciding (EJoin es)) with (flat_map deciding es). rewrite Forall_flat_map.
  apply negb_true_iff, bool_decide_eq_false in Hne.
  rewrite forallb_forall in Hall. rewrite !Forall_forall in *.
  setoid_rewrite list_elem_of_In in IH. setoid_rewrite list_elem_of_In.
  split; [intros [_ H] x Hx|intros H; split; [done|]; intros x Hx]; apply IH; auto.
Qed.

Definition notFoundStatus : gerror := EStatus "NotFound".

Lemma RequiresUserAction_deciding_witness :
  RequiresUserAction (EJoin [EWrap "preset" notFoundStatus; EGitHub (Build_ErrorResponse (Some 422) "" [])]) = true.
Proof. apply RequiresUserAction_deciding; [done|]. repeat constructor. Defined.

(** A slice mapped by a fallible function, up to the first error. *)
Fixpoint try_map {A B} (f : A → res B) (l : list A) : res (list B) :=
  match l with
  | [] => inl []
  | x :: l =>
    match f x with
    | inr err => inr err
    | inl y => match try_map f l with inl l => inl (y :: l) | inr err => inr err end
    end
  end.

Lemma try_map_inl {A B} (f : A → res B) l l' : try_map f l = inl l' ↔ Forall2 (λ x y, f x = inl y) l l'.
Proof.
  revert l'. induction l as [|x l IH]; intros l'; simpl.
  - split; [by intros [= <-]|by inversion 1].
  - split.
    + destruct (f x) as [y|e] eqn:E; [|done]. destruct (try_map f l) as [l0|e]; [|done].
      intros [= <-]. constructor; [done|by apply IH].
    + inversion 1 as [|? y ? l0 Hy Hl]; subst. rewrite Hy. by apply IH in Hl as ->.
Qed.

Lemma try_map_inr {A B} (f : A → res B) l e : try_map f l = inr e → ∃ x, x ∈ l ∧ f x = inr e.
Proof.
  induction l as [|x l IH]; simpl; [done|]. destruct (f x) as [y|e'] eqn:E.
  - destruct (try_map f l) as [l0|e'']; [done|]. intros Heq. destruct (IH Heq) as (x' & ? & ?). exists x'. set_solver.
  - intros [= ->]. exists x. set_solver.
Qed.
