(* ===== verification/Config.v ===== *)
(** * Operator configuration (internal/config/config.go)

    The fields the modelled components read and the durations derived from them, with the 64-bit
    wrap-around of [time.Duration] arithmetic. *)
From S2P Require Import Prelude.

Record Features := {
  EnableRequiredReviewersRules : bool;
  EnableWebhooks : bool;
  EnableStartupSpreading : bool;
  EnableResilientGitHubAuth : bool
}.

Record RateLimitConfig := {
  StallThresholdCore : Z;
  ResetGracePeriodSeconds : Z;
  StalenessThresholdMinutes : Z
}.

(** [RateLimitConfig.ResetGracePeriod] and [StalenessThreshold]. *)
Definition ResetGracePeriod (c : RateLimitConfig) : Z := wrap64 (ResetGracePeriodSeconds c * Second).
Definition StalenessThreshold (c : RateLimitConfig) : Z := wrap64 (StalenessThresholdMinutes c * Minute).

Record Config := {
  cfg_Features : Features;
  cfg_RateLimitConfig : RateLimitConfig;
  WatchNamespace : string;
  AppCredentialsSecretNamespace : string;
  RepositoryFinalizerMode : string;
  GitHubMemberSuffix : string;
  SpreadPeriodMinutes : Z;
  SpreadIntervalMinutes : Z;
  SuccessRequeueJitterPercent : Z;
  GitHubStateRequeueIntervalMinutes : Z;
  LogLevel : string;
  LogFormat : string
}.

Definition SpreadPeriod (c : Config) : Z := wrap64 (SpreadPeriodMinutes c * Minute).
Definition SpreadInterval (c : Config) : Z := wrap64 (SpreadIntervalMinutes c * Minute).
Definition SuccessRequeueInterval (c : Config) : Z := SpreadInterval c.
Definition SuccessRequeueJitter (c : Config) : Z :=
  let pct := Z.min (Z.max (SuccessRequeueJitterPercent c) 0) 100 in
  Z.quot (wrap64 (SuccessRequeueInterval c * pct)) 100.
Definition GitHubStateRequeueInterval (c : Config) : Z := wrap64 (GitHubStateRequeueIntervalMinutes c * Minute).

(** The values of the [envDefault] tags; two namespaces have to be set. *)
Definition default_config : Config := {|
  cfg_Features := {| EnableRequiredReviewersRules := false; EnableWebhooks := true;
                     EnableStartupSpreading := true; EnableResilientGitHubAuth := false |};
  cfg_RateLimitConfig := {| StallThresholdCore := 100; ResetGracePeriodSeconds := 10;
                            StalenessThresholdMinutes := 5 |};
  WatchNamespace := "github-configuration"; AppCredentialsSecretNamespace := "git-hubby";
  RepositoryFinalizerMode := ""; GitHubMemberSuffix := "";
  SpreadPeriodMinutes := 5; SpreadIntervalMinutes := 180;
  SuccessRequeueJitterPercent := 10; GitHubStateRequeueIntervalMinutes := 15;
  LogLevel := ""; LogFormat := ""
|}.

(** Largest interval (in minutes) for which no product of the derived durations overflows. *)
Definition max_interval_minutes : Z := 1537228.

Lemma wrap64_minutes m : 0 ≤ m ≤ max_interval_minutes → wrap64 (m * Minute) = m * Minute.
Proof. intros H. apply wrap64_id. unfold in_int64, min_int64, max_int64, Minute, Second, max_interval_minutes in *. lia. Qed.

(** For every non-negative interval that does not overflow and every configured percentage, also
    one outside 0..100, the jitter lies between 0 and the interval, so a success requeue happens at
    the earliest after the interval and at the latest after twice the interval. *)
Lemma SuccessRequeueJitter_bounds (c : Config) :
  0 ≤ SpreadIntervalMinutes c ≤ max_interval_minutes →
  0 ≤ SuccessRequeueJitter c ≤ SuccessRequeueInterval c ∧
  in_int64 (SuccessRequeueInterval c + SuccessRequeueJitter c).
Proof.
  intros H. unfold SuccessRequeueJitter, SuccessRequeueInterval, SpreadInterval.
  rewrite wrap64_minutes by done.
  set (pct := Z.min (Z.max (SuccessRequeueJitterPercent c) 0) 100).
  assert (0 ≤ pct ≤ 100) by (unfold pct; lia).
  unfold max_interval_minutes, Minute, Second in *.
  set (d := SpreadIntervalMinutes c * _).
  assert (0 ≤ d ≤ 92233680000000000) by (unfold d; lia).
  rewrite wrap64_id by (unfold in_int64, min_int64, max_int64; nia).
  rewrite Z.quot_div_nonneg by nia.
  assert (0 ≤ d * pct / 100 ≤ d).
  { split; [apply Z.div_pos; nia|]. apply Z.div_le_upper_bound; nia. }
  split; [done|]. unfold in_int64, min_int64, max_int64. lia.
Qed.
