(* ===== verification/Spreading.v ===== *)
(** * Startup spreading (internal/reconciler/spreading/spreading.go)

    [Manager.Spread] decides from the state of a resource and the clock whether a reconciliation is
    delayed.  The clock readings of one call are taken at one instant [now]; the random offset
    ([rand.IntN]) is an argument.  The mutex only guards the start time, so reading and resetting it
    are atomic. *)
From S2P Require Import Prelude GoErrors Config.

Record SpreadConfig := {
  StartTime : Z;
  sc_SpreadPeriod : Z;
  sc_SpreadInterval : Z;
  Enabled : bool
}.

(** [Manager]; a nil manager is [None] at the call of [Spread]. *)
Abbreviation Manager := SpreadConfig.

(** The view of [SpreadableResource]: what the interface methods return. *)
Record SpreadableResource := {
  GetGeneration : Z;
  GetObservedGeneration : Z;
  (* [None] for a nil map *)
  GetObservedSubResourceGenerations : option (gmap string Z);
  IsHealthy : bool;
  (* [GetDeletionTimestamp], nil or zero if not deleted *)
  Deleted : bool
}.

Definition NewManager (cfg : Config) (now : Z) : Manager := {|
  StartTime := now;
  sc_SpreadPeriod := SpreadPeriod cfg;
  sc_SpreadInterval := SpreadInterval cfg;
  Enabled := EnableStartupSpreading (cfg_Features cfg)
|}.

Definition ResetStartTime (m : Manager) (now : Z) : Manager := {|
  StartTime := now;
  sc_SpreadPeriod := sc_SpreadPeriod m;
  sc_SpreadInterval := sc_SpreadInterval m;
  Enabled := Enabled m
|}.

(** [subResourcesChanged]; the loop over the map only depends on its entries. *)
Definition subResourcesChanged (g1 g2 : option (gmap string Z)) : bool :=
  match g1, g2 with
  | None, None => false
  | None, _ | _, None => true
  | Some g1, Some g2 =>
    negb (Nat.eqb (size g1) (size g2)) ||
    existsb (λ '(k, gen), negb (bool_decide (g2 !! k = Some gen))) (map_to_list g1)
  end.

(** [calculateSpreadDelay].  [int(d.Minutes())] is the quotient by a minute, exact for the whole
    minutes the configuration yields.  [rnd n] is [rand.IntN(n)]. *)
Definition calculateSpreadDelay (rnd : Z → Z) (m : Manager) (now : Z) : Z :=
  let intervalLength := Z.quot (sc_SpreadInterval m) Minute in
  if intervalLength <? 1 then 0 else
  let offset := wrap64 (rnd intervalLength * Minute) in
  let spreadIntervalStart := StartTime m + sc_SpreadPeriod m in
  let targetTime := spreadIntervalStart + offset in
  let delay := sat64 (targetTime - now) in
  if delay <? 0 then 0 else delay.

(** [Spread]: [None] is nil (reconcile now), otherwise a [RequiresSpreadError]. *)
Definition Spread (rnd : Z → Z) (m : option Manager) (now : Z) (r : SpreadableResource)
    (current : option (gmap string Z)) : option gerror :=
  match m with
  | None => None
  | Some m =>
    if negb (Enabled m) then None
    else if sc_SpreadPeriod m <? sat64 (now - StartTime m) then None
    else if negb (GetGeneration r =? GetObservedGeneration r) then None
    else if negb (IsHealthy r) then None
    else if Deleted r then None
    else if subResourcesChanged current (GetObservedSubResourceGenerations r) then None
    else
      let delay := calculateSpreadDelay rnd m now in
      if delay <=? 0 then None else Some (ERequiresSpread delay)
  end.

(** ** Lemmas *)

Lemma size_eq_subseteq (g1 g2 : gmap string Z) : size g1 = size g2 → g1 ⊆ g2 → g1 = g2.
Proof.
  intros Hs Hsub. destruct (decide (g1 = g2)) as [|Hne]; [done|].
  assert (g1 ⊂ g2) as Hlt. { split; [done|]. intros H. apply Hne. by apply (anti_symm (⊆)). }
  apply map_subset_size in Hlt. lia.
Qed.

(** The comparison is inequality of the maps, a nil map differing from an empty one. *)
Lemma subResourcesChanged_spec g1 g2 : subResourcesChanged g1 g2 = false ↔ g1 = g2.
Proof.
  destruct g1 as [g1|], g2 as [g2|]; simpl; try done; [|naive_solver..].
  rewrite orb_false_iff, negb_false_iff, Nat.eqb_eq. split.
  - intros [Hs He]. f_equal. apply size_eq_subseteq; [done|].
    apply map_subseteq_spec. intros k gen Hk.
    destruct (decide (g2 !! k = Some gen)) as [|Hn]; [done|].
    apply Bool.not_true_iff_false in He. exfalso. apply He.
    apply existsb_exists. exists (k, gen). split.
    + by apply list_elem_of_In, elem_of_map_to_list.
    + by rewrite bool_decide_eq_false_2.
  - intros [= ->]. split; [done|]. apply Bool.not_true_iff_false. intros ([k gen] & Hin & Hn)%existsb_exists.
    apply list_elem_of_In, elem_of_map_to_list in Hin. by rewrite bool_decide_eq_true_2 in Hn.
Qed.

(** What [rand.IntN] guarantees. *)
Definition rand_ok (rnd : Z → Z) : Prop := ∀ n, 0 < n → 0 ≤ rnd n < n.

(** The delay of a manager built from a non-overflowing configuration. *)
Definition interval_ok (m : Manager) : Prop :=
  0 ≤ sc_SpreadInterval m ≤ max_interval_minutes * Minute.

Lemma calculateSpreadDelay_target rnd m now d :
  rand_ok rnd → interval_ok m → calculateSpreadDelay rnd m now = d → 0 < d →
  now + d < StartTime m + sc_SpreadPeriod m + sc_SpreadInterval m ∧
  (d < max_int64 → StartTime m + sc_SpreadPeriod m ≤ now + d).
Proof.
  intros Hrnd Hint <-. unfold calculateSpreadDelay.
  assert (0 < Minute) by done.
  destruct (Z.ltb_spec (Z.quot (sc_SpreadInterval m) Minute) 1); [lia|].
  unfold interval_ok in Hint. rewrite Z.quot_div_nonneg in * by lia.
  set (n := sc_SpreadInterval m / Minute) in *.
  assert (n * Minute ≤ sc_SpreadInterval m) by (unfold n; pose proof (Z.mul_div_le (sc_SpreadInterval m) Minute); lia).
  pose proof (Hrnd n ltac:(lia)) as Hr.
  assert (n ≤ max_interval_minutes) by (unfold n; apply Z.div_le_upper_bound; lia).
  rewrite wrap64_minutes by lia.
  assert (rnd n * Minute < n * Minute) by nia. assert (0 ≤ rnd n * Minute) by nia.
  set (off := rnd n * Minute) in *.
  case_match eqn:E; [lia|]. apply Z.ltb_ge in E. revert E.
  unfold sat64, min_int64, max_int64. lia.
Qed.

(** Only warm starts are spread: a reconciliation is delayed only when spreading is enabled, the
    spread period is running, the generation was observed, the resource is healthy and not deleted
    and its sub-resource generations are exactly the observed ones. *)
Theorem Spread_only_warm_start rnd m now r current e :
  Spread rnd (Some m) now r current = Some e →
  Enabled m = true ∧ sat64 (now - StartTime m) ≤ sc_SpreadPeriod m ∧
  GetGeneration r = GetObservedGeneration r ∧ IsHealthy r = true ∧ Deleted r = false ∧
  current = GetObservedSubResourceGenerations r ∧
  ∃ d, 0 < d ∧ e = ERequiresSpread d.
Proof.
  unfold Spread. destruct (Enabled m); simpl; [|done].
  destruct (Z.ltb_spec (sc_SpreadPeriod m) (sat64 (now - StartTime m))); [done|].
  destruct (Z.eqb_spec (GetGeneration r) (GetObservedGeneration r)); simpl; [|done].
  destruct (IsHealthy r), (Deleted r); simpl; try done.
  destruct (subResourcesChanged current _) eqn:Hsub; [done|].
  apply subResourcesChanged_spec in Hsub.
  destruct (Z.leb_spec (calculateSpreadDelay rnd m now) 0); [done|].
  intros [= <-]. repeat split; eauto.
Qed.

(** A spread resource is requeued inside the spread window and never spread a second time: its
    delay ends before period plus interval have passed since the start, and a reconciliation after
    the delay finds the period over, whatever the state of the resource is then. *)
Theorem Spread_once rnd rnd' m now r current d now' r' current' :
  rand_ok rnd → interval_ok m → 0 ≤ sc_SpreadPeriod m < max_int64 →
  now ≤ StartTime m + sc_SpreadPeriod m → d < max_int64 →
  Spread rnd (Some m) now r current = Some (ERequiresSpread d) →
  now + d < StartTime m + sc_SpreadPeriod m + sc_SpreadInterval m ∧
  (now + d < now' → Spread rnd' (Some m) now' r' current' = None).
Proof.
  intros Hrnd Hint Hp Hnow Hd Hs.
  assert (calculateSpreadDelay rnd m now = d ∧ 0 < d) as [Hc Hpos].
  { revert Hs. unfold Spread. split_cases. intros [= <-]. split; [done|]. by apply Z.leb_gt. }
  destruct (calculateSpreadDelay_target rnd m now d Hrnd Hint Hc Hpos) as [Hup Hlow].
  split; [done|]. intros Hafter. unfold Spread. destruct (Enabled m); simpl; [|done].
  case_match eqn:E; [done|]. apply Z.ltb_ge in E.
  assert (sc_SpreadPeriod m < sat64 (now' - StartTime m)); [|lia].
  apply sat64_gt; [unfold min_int64 in *; lia|]. specialize (Hlow Hd). lia.
Qed.

(** Witnesses: a healthy resource right after the start of a pod with the default configuration. *)
Definition warm_resource : SpreadableResource := {|
  GetGeneration := 3; GetObservedGeneration := 3;
  GetObservedSubResourceGenerations := Some {[ "RulesetPreset/ns/base" := 7 ]};
  IsHealthy := true; Deleted := false |}.
Definition fresh_manager : Manager := NewManager default_config 0.

Lemma Spread_only_warm_start_witness :
  IsHealthy warm_resource = true ∧ Spread (λ n, n - 1) (Some fresh_manager) (10 * Second) warm_resource
    (Some {[ "RulesetPreset/ns/base" := 7 ]}) = Some (ERequiresSpread 11030000000000).
Proof.
  assert (Spread (λ n, n - 1) (Some fresh_manager) (10 * Second) warm_resource
    (Some {[ "RulesetPreset/ns/base" := 7 ]}) = Some (ERequiresSpread 11030000000000)) as H by (vm_compute; reflexivity).
  split; [|exact H]. exact (proj1 (proj2 (proj2 (proj2 (Spread_only_warm_start _ _ _ _ _ _ H))))).
Defined.

Lemma Spread_once_witness :
  Spread (λ n, 0) (Some fresh_manager) (200 * Minute) warm_resource None = None.
Proof.
  apply (Spread_once (λ n, n - 1) (λ n, 0) fresh_manager (10 * Second) warm_resource
    (Some {[ "RulesetPreset/ns/base" := 7 ]}) 11030000000000).
  - intros n. lia.
  - vm_compute. split; discriminate.
  - vm_compute. split; [discriminate|reflexivity].
  - vm_compute. discriminate.
  - vm_compute. reflexivity.
  - vm_compute. reflexivity.
  - vm_compute. reflexivity.
Defined.
