(* ===== verification/RateLimit.v ===== *)
(** * Per-organization rate limit registry (internal/ratelimit)

    [OrgRateLimitRegistry] as a record of its state; every method holds the registry's lock, so it is
    one atomic step.  [now] is the clock reading of the call. *)
From S2P Require Import Prelude GoErrors Config.

(** Categories are strings, as in Go. *)
Definition CategoryCore : string := "core".
Definition CategoryGraphQL : string := "graphql".
Definition CategorySearch : string := "search".
Definition CategoryCodeSearch : string := "code_search".
Definition MonitoredCategories : list string :=
  [CategoryCore; CategoryGraphQL; CategorySearch; CategoryCodeSearch].

(** [ClassifyByPath] and [ClassifyRequest] (category.go). *)
Definition ClassifyByPath (path : string) : string :=
  if bool_decide (path = "/graphql"%string) then CategoryGraphQL
  else if String.prefix "/search/code" path then CategoryCodeSearch
  else if String.prefix "/search/" path then CategorySearch
  else CategoryCore.

Definition ClassifyRequest (path resourceHeader : string) : string :=
  if bool_decide (resourceHeader = ""%string) then ClassifyByPath path else resourceHeader.

Record CategoryState := { Remaining : Z; Limit : Z; ResetTime : Z; LastUpdated : Z }.
Record OrgState := { OrgLogin : string; AppID : Z; Categories : gmap string CategoryState }.
Record OrgRegistryConfig := {
  CategoryThresholds : gmap string Z;
  rc_ResetGracePeriod : Z;
  rc_StalenessThreshold : Z
}.
Record Registry := {
  states : gmap string OrgState;
  reg_config : OrgRegistryConfig;
  warnedUncovered : gset string
}.

Definition NewOrgRateLimitRegistry (c : OrgRegistryConfig) : Registry :=
  {| states := ∅; reg_config := c; warnedUncovered := ∅ |}.

Definition DefaultOrgRegistryConfig : OrgRegistryConfig := {|
  CategoryThresholds := {[ CategoryCore := 100 ]};
  rc_ResetGracePeriod := 10 * Second; rc_StalenessThreshold := 5 * Minute |}.

Definition ConfiguredThresholds (cfg : Config) : gmap string Z :=
  list_to_map [(CategoryCore, StallThresholdCore (cfg_RateLimitConfig cfg));
               (CategorySearch, 0); (CategoryCodeSearch, 0); (CategoryGraphQL, 0)].

Definition NewOrgRateLimitRegistryFromConfig (cfg : Config) : Registry :=
  NewOrgRateLimitRegistry {|
    CategoryThresholds := filter (λ kv, 0 < kv.2) (ConfiguredThresholds cfg);
    rc_ResetGracePeriod := ResetGracePeriod (cfg_RateLimitConfig cfg);
    rc_StalenessThreshold := StalenessThreshold (cfg_RateLimitConfig cfg) |}.

Definition isMonitored (cat : string) : bool := bool_decide (cat ∈ MonitoredCategories).

(** [warnIfUncovered]; the warning itself is a log line, the state records that it was emitted. *)
Definition warnIfUncovered (r : Registry) (org cat : string) : Registry :=
  match CategoryThresholds (reg_config r) !! cat with
  | Some _ => r
  | None => {| states := states r; reg_config := reg_config r;
               warnedUncovered := {[ org +:+ "/" +:+ cat ]} ∪ warnedUncovered r |}
  end.

Definition getOrCreateOrgState (r : Registry) (org : string) (appID : Z) : OrgState :=
  match states r !! org with
  | Some s => s
  | None => {| OrgLogin := org; AppID := appID; Categories := ∅ |}
  end.

Definition set_category (s : OrgState) (cat : string) (c : CategoryState) : OrgState :=
  {| OrgLogin := OrgLogin s; AppID := AppID s; Categories := <[cat := c]> (Categories s) |}.

Definition set_org (r : Registry) (org : string) (s : OrgState) : Registry :=
  {| states := <[org := s]> (states r); reg_config := reg_config r; warnedUncovered := warnedUncovered r |}.

(** [Update]. *)
Definition Update (r : Registry) (org cat : string) (remaining limit reset appID now : Z) : Registry :=
  if negb (isMonitored cat) then r else
  let r := warnIfUncovered r org cat in
  let s := getOrCreateOrgState r org appID in
  set_org r org (set_category s cat
    {| Remaining := remaining; Limit := limit; ResetTime := reset; LastUpdated := now |}).

(** [github.Rate] and [github.RateLimits]: the parts the registry reads. *)
Record Rate := { rate_Remaining : Z; rate_Limit : Z; rate_Reset : Z }.
Record RateLimits := { rl_Core : option Rate; rl_GraphQL : option Rate;
                       rl_Search : option Rate; rl_CodeSearch : option Rate }.

Definition set_rate (now : Z) (cat : string) (rate : option Rate) (s : OrgState) : OrgState :=
  match rate with
  | None => s
  | Some x => set_category s cat {| Remaining := rate_Remaining x; Limit := rate_Limit x;
                                    ResetTime := rate_Reset x; LastUpdated := now |}
  end.

(** [UpdateFromRateLimitResponse]. *)
Definition UpdateFromRateLimitResponse (r : Registry) (org : string) (rl : option RateLimits) (appID now : Z)
    : Registry :=
  match rl with
  | None => r
  | Some rl =>
    let s := getOrCreateOrgState r org appID in
    set_org r org
      (set_rate now CategoryCodeSearch (rl_CodeSearch rl)
        (set_rate now CategorySearch (rl_Search rl)
          (set_rate now CategoryGraphQL (rl_GraphQL rl)
            (set_rate now CategoryCore (rl_Core rl) s))))
  end.

(** One iteration of the loop of [ShouldStall]. *)
Definition stall_step (r : Registry) (s : OrgState) (now : Z) (acc : bool * Z) (cat : string) : bool * Z :=
  let '(stalled, maxDelay) := acc in
  match CategoryThresholds (reg_config r) !! cat with
  | None => acc
  | Some threshold =>
    match Categories s !! cat with
    | None => acc
    | Some c =>
      if Remaining c <? threshold then
        let delay := sat64 (ResetTime c + rc_ResetGracePeriod (reg_config r) - now) in
        if delay <=? 0 then acc
        else (true, if maxDelay <? delay then delay else maxDelay)
      else acc
    end
  end.

(** [ShouldStall]. *)
Definition ShouldStall (r : Registry) (org : string) (categories : list string) (now : Z) : bool * Z :=
  match states r !! org with
  | None => (false, 0)
  | Some s =>
    let categories := match categories with [] => MonitoredCategories | _ => categories end in
    foldl (stall_step r s now) (false, 0) categories
  end.

(** [IsStale]; [o] is the iteration order of the categories map. *)
Definition IsStale (o : MapOrder) (r : Registry) (org : string) (now : Z) : bool :=
  match states r !! org with
  | None => true
  | Some s =>
    let mostRecent := foldl (λ m '(_, c), if m <? LastUpdated c then LastUpdated c else m)
                        zero_time (range o (Categories s)) in
    if mostRecent =? zero_time then true
    else rc_StalenessThreshold (reg_config r) <? sat64 (now - mostRecent)
  end.

Definition GetState (r : Registry) (org : string) : option OrgState := states r !! org.
Definition GetCategoryState (r : Registry) (org cat : string) : option CategoryState :=
  s ← states r !! org; Categories s !! cat.

(** ** Reachable registries *)

(** The operations other components call on a registry, with the time of the call. *)
Inductive reg_op :=
  | OpUpdate (org cat : string) (remaining limit reset appID now : Z)
  | OpRateLimit (org : string) (rl : option RateLimits) (appID now : Z).

Definition apply_op (r : Registry) (op : reg_op) : Registry :=
  match op with
  | OpUpdate org cat rem lim reset app now => Update r org cat rem lim reset app now
  | OpRateLimit org rl app now => UpdateFromRateLimitResponse r org rl app now
  end.

Inductive reg_reachable (r0 : Registry) : Registry → Prop :=
  | reach_init : reg_reachable r0 r0
  | reach_step r op : reg_reachable r0 r → reg_reachable r0 (apply_op r op).

(** Well-formedness: an organization is stored under its own login and only monitored categories
    are stored. *)
Definition org_ok (s : OrgState) : Prop :=
  map_Forall (λ cat _, cat ∈ MonitoredCategories) (Categories s).
Definition reg_ok (r : Registry) : Prop :=
  map_Forall (λ org s, OrgLogin s = org ∧ org_ok s) (states r).

Lemma set_category_ok s cat c : cat ∈ MonitoredCategories → org_ok s → org_ok (set_category s cat c).
Proof. intros Hc Hs. by apply map_Forall_insert_2. Qed.

Lemma set_rate_ok now cat x s : cat ∈ MonitoredCategories → org_ok s → org_ok (set_rate now cat x s).
Proof. destruct x; [apply set_category_ok|done]. Qed.

Lemma set_rate_login now cat x s : OrgLogin (set_rate now cat x s) = OrgLogin s.
Proof. by destruct x. Qed.

Lemma getOrCreate_ok r org app :
  reg_ok r → OrgLogin (getOrCreateOrgState r org app) = org ∧ org_ok (getOrCreateOrgState r org app).
Proof.
  intros Hr. unfold getOrCreateOrgState. destruct (states r !! org) as [s|] eqn:E.
  - by apply (map_Forall_lookup_1 _ _ _ _ Hr) in E.
  - split; [done|]. apply map_Forall_empty.
Qed.

Lemma set_org_ok r org s : reg_ok r → OrgLogin s = org → org_ok s → reg_ok (set_org r org s).
Proof. intros. by apply map_Forall_insert_2. Qed.

Lemma warnIfUncovered_states r org cat : states (warnIfUncovered r org cat) = states r.
Proof. unfold warnIfUncovered. by case_match. Qed.

Lemma warnIfUncovered_config r org cat : reg_config (warnIfUncovered r org cat) = reg_config r.
Proof. unfold warnIfUncovered. by case_match. Qed.

#[export] Hint Rewrite set_rate_login warnIfUncovered_states warnIfUncovered_config : hubby.
#[export] Hint Resolve set_category_ok set_rate_ok set_org_ok : hubby.

Lemma warnIfUncovered_ok r org cat : reg_ok r → reg_ok (warnIfUncovered r org cat).
Proof. unfold reg_ok. by rewrite warnIfUncovered_states. Qed.

(** C36: whatever sequence of header and rate-limit responses a registry processes, every stored
    organization keeps its own login and only monitored categories are tracked; the configuration
    never changes. *)
Theorem registry_invariant r0 r :
  reg_ok r0 → reg_reachable r0 r → reg_ok r ∧ reg_config r = reg_config r0.
Proof.
  intros H0. induction 1 as [|r op Hr [IH Hc]]; [done|]. destruct op as [org cat ?????|org [rl|] app now]; simpl.
  - unfold Update. unfold isMonitored. case_bool_decide as Hcat; simpl; [|done].
    pose proof (warnIfUncovered_ok r org cat IH) as Hw.
    destruct (getOrCreate_ok (warnIfUncovered r org cat) org appID Hw).
    split; [by eauto with hubby|]. by rewrite warnIfUncovered_config.
  - destruct (getOrCreate_ok r org app IH). split; [|done].
    apply set_org_ok; [done|by autorewrite with hubby|].
    repeat (apply set_rate_ok; [set_solver|]). done.
  - done.
Qed.

(** ** Stalling *)

(** A category blocks an organization: it is below its threshold and its reset time plus the grace
    period is still ahead. *)
Definition blocking (r : Registry) (s : OrgState) (now : Z) (cat : string) (d : Z) : Prop :=
  ∃ threshold c, CategoryThresholds (reg_config r) !! cat = Some threshold ∧
    Categories s !! cat = Some c ∧ Remaining c < threshold ∧
    d = sat64 (ResetTime c + rc_ResetGracePeriod (reg_config r) - now) ∧ 0 < d.

Lemma stall_step_blocking r s now st m cat :
  (∃ d, blocking r s now cat d ∧ stall_step r s now (st, m) cat = (true, Z.max m d)) ∨
  ((∀ d, ¬ blocking r s now cat d) ∧ stall_step r s now (st, m) cat = (st, m)).
Proof.
  unfold stall_step, blocking.
  destruct (CategoryThresholds (reg_config r) !! cat) as [t|]; [|right; naive_solver].
  destruct (Categories s !! cat) as [c|]; [|right; naive_solver].
  destruct (Z.ltb_spec (Remaining c) t); [|right; split; [|done]; intros d; naive_solver lia].
  destruct (Z.leb_spec (sat64 (ResetTime c + rc_ResetGracePeriod (reg_config r) - now)) 0).
  - right; split; [|done]. intros d; naive_solver lia.
  - left. eexists. split; [naive_solver|]. f_equal. case_match eqn:E; lia.
Qed.

#[local] Arguments stall_step : simpl never.

(** The fold computes the maximum over the blocking categories. *)
Lemma stall_fold r s now cats : ∀ st m, 0 ≤ m →
  let '(st', m') := foldl (stall_step r s now) (st, m) cats in
  (st' = true ↔ st = true ∨ ∃ cat d, cat ∈ cats ∧ blocking r s now cat d) ∧
  m ≤ m' ∧
  (∀ cat d, cat ∈ cats → blocking r s now cat d → d ≤ m') ∧
  (m' = m ∨ ∃ cat, cat ∈ cats ∧ blocking r s now cat m').
Proof.
  induction cats as [|cat cats IH]; intros st m Hm; simpl.
  { split_and!; [set_solver|lia|set_solver|auto]. }
  destruct (stall_step_blocking r s now st m cat) as [(d & Hb & ->)|[Hn ->]].
  - assert (0 < d) by (destruct Hb as (? & ? & ? & ? & ? & ? & ?); done).
    specialize (IH true (Z.max m d) ltac:(lia)). destruct (foldl _ _ cats) as [st' m'].
    destruct IH as (Hst & Hle & Hall & Hex). split_and!.
    + split; [|naive_solver]. intros _. right. exists cat, d. set_solver.
    + lia.
    + intros cat' d' [->|Hin]%elem_of_cons Hb'; [|by eapply Hall].
      assert (d' = d) as -> by (destruct Hb as (?&?&?&?&?&?&?), Hb' as (?&?&?&?&?&?&?); simplify_eq; done). lia.
    + destruct Hex as [->|(c & ? & ?)]; [|right; exists c; set_solver].
      destruct (Z.max_spec m d) as [[? ->]|[? ->]]; [right; exists cat; set_solver|by left].
  - specialize (IH st m Hm). destruct (foldl _ _ cats) as [st' m'].
    destruct IH as (Hst & Hle & Hall & Hex). split_and!; [|done| |].
    + rewrite Hst. split; [intros [?|(c & d & ? & ?)]; [by left|right; exists c, d; set_solver]|].
      intros [?|(c & d & [->|?]%elem_of_cons & ?)]; [by left|by destruct (Hn d)|right; eauto].
    + intros c d [->|?]%elem_of_cons ?; [by destruct (Hn d)|eauto].
    + destruct Hex as [|(c & ? & ?)]; [by left|right; exists c; set_solver].
Qed.

(** C31: an organization is stalled exactly if some requested category blocks it, and the returned
    delay is the longest of the blocking categories (0 if none blocks). *)
Theorem ShouldStall_spec r org cats now s :
  states r !! org = Some s →
  let cats' := match cats with [] => MonitoredCategories | _ => cats end in
  let '(stalled, d) := ShouldStall r org cats now in
  (stalled = true ↔ ∃ cat d', cat ∈ cats' ∧ blocking r s now cat d') ∧
  (stalled = true → ∃ cat, cat ∈ cats' ∧ blocking r s now cat d) ∧
  (∀ cat d', cat ∈ cats' → blocking r s now cat d' → d' ≤ d) ∧
  (stalled = false → d = 0).
Proof.
  intros Hs. unfold ShouldStall. rewrite Hs. simpl.
  pose proof (stall_fold r s now (match cats with [] => MonitoredCategories | _ => cats end) false 0 ltac:(done)) as H.
  destruct (foldl _ _ _) as [st d]. destruct H as (Hst & Hle & Hall & Hex). split_and!.
  - rewrite Hst. naive_solver.
  - intros Ht. destruct Hex as [->|]; [|done]. apply Hst in Ht as [|(c & d & Hin & Hb)]; [done|].
    pose proof (Hall c d Hin Hb). destruct Hb as (? & ? & ? & ? & ? & ? & ?). lia.
  - done.
  - intros ->. destruct Hex as [|(c & Hin & Hb)]; [done|].
    assert (false = true) by (apply Hst; eauto). done.
Qed.

(** One blocking category is enough. *)
Lemma blocking_stalls r org s now cat d :
  states r !! org = Some s → cat ∈ MonitoredCategories → blocking r s now cat d → (ShouldStall r org [] now).1 = true.
Proof.
  intros Hs Hc Hb. unfold ShouldStall. rewrite Hs. pose proof (stall_fold r s now MonitoredCategories false 0 ltac:(done)) as H.
  destruct (foldl _ _ _) as [st m]. destruct H as [Hst _]. apply Hst. right. eauto.
Qed.

(** ** Lookups after an update *)

(** Recording a rate limit is visible for exactly the updated organization and category, and an
    unmonitored category changes nothing at all. *)
Theorem Update_lookup r org cat rem lim reset app now org' cat' :
  GetCategoryState (Update r org cat rem lim reset app now) org' cat' =
    if decide (cat ∈ MonitoredCategories ∧ org = org' ∧ cat = cat')
    then Some {| Remaining := rem; Limit := lim; ResetTime := reset; LastUpdated := now |}
    else GetCategoryState r org' cat'.
Proof.
  unfold Update, isMonitored, GetCategoryState.
  case_bool_decide as Hcat; simpl; [|case_decide; [tauto|done]].
  autorewrite with hubby. destruct (decide (org = org')) as [<-|Hne].
  - rewrite lookup_insert_eq. simpl. rewrite lookup_insert. unfold getOrCreateOrgState.
    autorewrite with hubby.
    destruct (decide (cat = cat')); destruct (decide (cat ∈ MonitoredCategories ∧ org = org ∧ cat = cat')); try tauto;
      by destruct (states r !! org).
  - rewrite lookup_insert_ne by done. case_decide; [tauto|done].
Qed.

(** ** Staleness *)

Lemma most_recent_fold (l : list (string * CategoryState)) : ∀ m,
  let m' := foldl (λ m '(_, c), if m <? LastUpdated c then LastUpdated c else m) m l in
  m ≤ m' ∧ Forall (λ kc, LastUpdated kc.2 ≤ m') l ∧
  (m' = m ∨ Exists (λ kc, LastUpdated kc.2 = m') l).
Proof.
  induction l as [|[k c] l IH]; intros m; simpl; [by split_and!; auto|].
  set (m1 := if m <? LastUpdated c then LastUpdated c else m).
  destruct (IH m1) as (Hle & Hall & Hex).
  assert (m ≤ m1 ∧ LastUpdated c ≤ m1 ∧ (m1 = m ∨ m1 = LastUpdated c)) as (? & ? & Hm1).
  { unfold m1. destruct (Z.ltb_spec m (LastUpdated c)); lia. }
  split_and!; [lia|constructor; [simpl; lia|done]|].
  destruct Hex as [->|Hex]; [|right; by apply Exists_cons_tl].
  destruct Hm1 as [->| ->]; [by left|right; by apply Exists_cons_hd].
Qed.

(** The data of an organization is fresh exactly if some category was updated within the
    staleness threshold, in whatever order the categories are visited. *)
Theorem IsStale_spec o r org now s :
  states r !! org = Some s →
  map_Forall (λ _ c, zero_time < LastUpdated c) (Categories s) →
  0 ≤ rc_StalenessThreshold (reg_config r) →
  (IsStale o r org now = false ↔
   ∃ cat c, Categories s !! cat = Some c ∧
     sat64 (now - LastUpdated c) ≤ rc_StalenessThreshold (reg_config r)).
Proof.
  intros Hs Hpos Hthr. unfold IsStale. rewrite Hs.
  pose proof (most_recent_fold (range o (Categories s)) zero_time) as H.
  set (m := foldl _ _ _) in *. simpl in H. destruct H as (Hle & Hall & Hex).
  rewrite Forall_forall in Hall.
  assert (∀ cat c, Categories s !! cat = Some c → LastUpdated c ≤ m) as Hub.
  { intros cat c Hc. by apply (Hall (cat, c)), elem_of_range. }
  rewrite Exists_exists in Hex.
  destruct (Z.eqb_spec m zero_time) as [Hz|Hz].
  - split; [done|]. intros (cat & c & Hc & _). specialize (Hub _ _ Hc).
    apply (map_Forall_lookup_1 _ _ _ _ Hpos) in Hc. lia.
  - destruct Hex as [?|((cat & c) & Hin%elem_of_range & Heq)]; [done|]. simpl in Heq.
    rewrite Z.ltb_ge. split.
    + intros Hfresh. exists cat, c. rewrite Heq. done.
    + intros (cat' & c' & Hc' & Hfresh). specialize (Hub _ _ Hc').
      unfold sat64, min_int64, max_int64 in *. lia.
Qed.

(** ** Witnesses *)

Definition demo_registry : Registry :=
  Update (NewOrgRateLimitRegistryFromConfig default_config) "acme" "core" 5 5000 (600 * Second) 42 0.

Lemma registry_invariant_witness : reg_ok demo_registry ∧ reg_config demo_registry =
  reg_config (NewOrgRateLimitRegistryFromConfig default_config).
Proof.
  apply (registry_invariant (NewOrgRateLimitRegistryFromConfig default_config)).
  - apply map_Forall_empty.
  - apply (reach_step _ _ (OpUpdate "acme" "core" 5 5000 (600 * Second) 42 0)), reach_init.
Defined.

Lemma ShouldStall_spec_witness :
  ShouldStall demo_registry "acme" [] 0 = (true, 610 * Second) ∧
  ∃ s cat d', cat ∈ MonitoredCategories ∧ blocking demo_registry s 0 cat d'.
Proof.
  destruct (states demo_registry !! "acme"%string) as [s|] eqn:Hs; [|vm_compute in Hs; discriminate].
  pose proof (ShouldStall_spec demo_registry "acme" [] 0 s Hs) as H.
  assert (ShouldStall demo_registry "acme" [] 0 = (true, 610 * Second)) as E by (vm_compute; reflexivity).
  rewrite E in H. split; [reflexivity|]. exists s. apply (proj1 H). reflexivity.
Defined.

Lemma IsStale_spec_witness :
  IsStale default_order demo_registry "acme" (Minute) = false ∧
  ∃ s cat c, Categories s !! cat = Some c ∧ sat64 (Minute - LastUpdated c) ≤ 5 * Minute.
Proof.
  destruct (states demo_registry !! "acme"%string) as [s|] eqn:Hs; [|vm_compute in Hs; discriminate].
  assert (IsStale default_order demo_registry "acme" (Minute) = false) as E by (vm_compute; reflexivity).
  split; [exact E|]. exists s. apply (IsStale_spec default_order demo_registry "acme" Minute s Hs).
  - vm_compute in Hs. injection Hs as <-. intros k c Hk.
    destruct (decide (k = "core"%string)) as [->|Hn]; vm_compute in Hk; [injection Hk as <-; reflexivity|].
    apply (map_Forall_insert_2 (λ _ c, zero_time < LastUpdated c) ∅ "core"%string
      {| Remaining := 5; Limit := 5000; ResetTime := 600 * Second; LastUpdated := 0 |}) with k; [reflexivity|apply map_Forall_empty|].
    exact Hk.
  - vm_compute. discriminate.
  - exact E.
Defined.
