(* ===== verification/Conditions.v ===== *)
(** * Status conditions and Kubernetes helpers (internal/conditions, apimachinery interfaces)

    The condition types and reasons of internal/conditions/conditions.go, and the helpers of
    apimachinery and controller-runtime that the reconcilers call on a resource.  The helpers are not
    part of the repository: they are the operations of the class [K8sHelpers], and the class
    [K8sHelpersLaws] states their documented behaviour. *)
From S2P Require Import Prelude GoErrors.

Definition TypeReady : string := "Ready".
Definition TypeBaseSettingsSynced : string := "GitHubSynced".
Definition TypeRulesetsSynced : string := "RulesetsSynced".
Definition TypeActionsConfigurationSynced : string := "ActionsConfigurationSynced".
Definition TypeCustomPropertyDefinitionsSynced : string := "CustomPropertyDefinitionsSynced".
Definition TypeCodeSecurityConfigurationsSynced : string := "CodeSecurityConfigurationsSynced".
Definition TypeWebhooksSynced : string := "WebhooksSynced".
Definition TypeCustomPropertiesValuesSynced : string := "CustomPropertiesValuesSynced".
Definition TypeTopicsSynced : string := "TopicsSynced".
Definition TypeAutolinksSynced : string := "AutolinksSynced".
Definition TypeDeployKeysSynced : string := "DeployKeysSynced".
Definition TypeTeamMembersSynced : string := "TeamMembersSynced".
Definition TypeOutdatedOrganizationRefsSynced : string := "OutdatedOrganizationRefsSynced".
Definition TypeTeamRoleAssignmentsSynced : string := "TeamRoleAssignmentsSynced".
Definition TypeIDPTeamGroupSettingsSynced : string := "TypeIDPTeamGroupSettingsSynced".

Definition ReasonReconcileStarted : string := "ReconcileStarted".
Definition ReasonReconcileCompleted : string := "ReconcileCompleted".
Definition ReasonReconcileFailed : string := "ReconcileFailed".
Definition ReasonSyncCompleted : string := "SyncCompleted".
Definition ReasonSyncFailed : string := "SyncFailed".
Definition ReasonUserActionRequired : string := "UserActionRequired".
Definition ReasonSkipped : string := "Skipped".

Inductive ConditionStatus := ConditionTrue | ConditionFalse | ConditionUnknown.
#[export] Instance ConditionStatus_eq_dec : EqDecision ConditionStatus.
Proof. solve_decision. Defined.

(** The texts of the conditions, unformatted: the constructor is the format string, the arguments
    are what it prints. *)
Inductive Message :=
  | MsgSyncCompleted (at_ : Z)
  | MsgSyncFailed (err : gerror) (at_ : Z)
  | MsgSyncStopped (reason : string) (at_ : Z)
  | MsgSkipped (reason : string) (at_ : Z)
  | MsgStarted (at_ : Z)
  | MsgCompletedSkipped (reason : string) (at_ : Z)
  | MsgAllSynced (at_ : Z)
  | MsgUserAction (at_ : Z)
  | MsgFailed (at_ : Z).

(** [metav1.Condition]. *)
Record Condition := {
  c_Type : string;
  c_Status : ConditionStatus;
  c_ObservedGeneration : Z;
  c_LastTransitionTime : Z;
  c_Reason : string;
  c_Message : Message
}.

Class K8sHelpers := {
  SetStatusCondition : list Condition → Condition → list Condition;
  FindStatusCondition : list Condition → string → option Condition;
  MergeLabels : gmap string string → gmap string string → gmap string string;
  ContainsFinalizer : list string → string → bool;
  AddFinalizer : list string → string → list string;
  RemoveFinalizer : list string → string → list string
}.

(** Everything but the transition time of a condition, which [SetStatusCondition] may keep. *)
Definition same_condition (c c' : Condition) : Prop :=
  c_Type c = c_Type c' ∧ c_Status c = c_Status c' ∧ c_Reason c = c_Reason c' ∧
  c_Message c = c_Message c' ∧ c_ObservedGeneration c = c_ObservedGeneration c'.

Class K8sHelpersLaws (H : K8sHelpers) : Prop := {
  find_set_eq cs c : ∃ c', FindStatusCondition (SetStatusCondition cs c) (c_Type c) = Some c' ∧ same_condition c' c;
  find_set_ne cs c t : c_Type c ≠ t → FindStatusCondition (SetStatusCondition cs c) t = FindStatusCondition cs t;
  contains_add fs f : ContainsFinalizer (AddFinalizer fs f) f = true;
  contains_remove fs f : ContainsFinalizer (RemoveFinalizer fs f) f = false;
  merge_labels_lookup l1 l2 k : MergeLabels l1 l2 !! k = union_with (λ _ v, Some v) (l1 !! k) (l2 !! k)
}.

(** A concrete implementation, used by the witnesses: conditions are replaced in place or appended. *)
Module SimpleHelpers.
Fixpoint set_cond (cs : list Condition) (c : Condition) : list Condition :=
  match cs with
  | [] => [c]
  | c0 :: cs => if decide (c_Type c0 = c_Type c) then c :: cs else c0 :: set_cond cs c
  end.
Fixpoint find_cond (cs : list Condition) (t : string) : option Condition :=
  match cs with
  | [] => None
  | c0 :: cs => if decide (c_Type c0 = t) then Some c0 else find_cond cs t
  end.

#[export] Instance helpers : K8sHelpers := {|
  SetStatusCondition := set_cond;
  FindStatusCondition := find_cond;
  MergeLabels l1 l2 := union_with (λ _ v, Some v) l1 l2;
  ContainsFinalizer fs f := bool_decide (f ∈ fs);
  AddFinalizer fs f := if decide (f ∈ fs) then fs else fs ++ [f];
  RemoveFinalizer fs f := filter (λ g, g ≠ f) fs
|}.

Lemma find_set cs c t :
  find_cond (set_cond cs c) t = if decide (c_Type c = t) then Some c else find_cond cs t.
Proof.
  induction cs as [|c0 cs IH]; simpl; [done|].
  destruct (decide (c_Type c0 = c_Type c)) as [E|]; simpl.
  - rewrite E. case_decide; done.
  - destruct (decide (c_Type c0 = t)) as [<-|]; [|done]. by rewrite decide_False.
Qed.

#[export] Instance laws : K8sHelpersLaws helpers.
Proof.
  split; simpl.
  - intros cs c. exists c. rewrite find_set, decide_True by done. by split_and!.
  - intros cs c t Hne. by rewrite find_set, decide_False.
  - intros fs f. case_decide; apply bool_decide_eq_true; set_solver.
  - intros fs f. apply bool_decide_eq_false. rewrite list_elem_of_filter. tauto.
  - intros l1 l2 k. apply lookup_union_with.
Qed.
End SimpleHelpers.
