(* ===== verification/Executor.v ===== *)
(** * The reconciliation executor (internal/reconciler/executor.go, stop.go, types.go)

    [ReconciliationExecutor.Reconcile] and everything below it.  The reconciliations of a group run
    concurrently: a group is a list of programs whose atomic actions a schedule interleaves, and the
    group ends when all of them have finished ([wg.Wait]).  Groups run one after the other. *)
From S2P Require Import Prelude GoErrors Conditions.

(** The in-memory Kubernetes resource, as far as the executor reads or writes it. *)
Record Resource := {
  GetGeneration : Z;
  GetDeletionTimestamp : option Z;
  GetConditions : list Condition;
  ObservedSubResourceGeneration : option (gmap string Z);
  GetLabels : gmap string string;
  Finalizers : list string
}.

Definition set_conditions (cs : list Condition) (r : Resource) : Resource :=
  {| GetGeneration := GetGeneration r; GetDeletionTimestamp := GetDeletionTimestamp r;
     GetConditions := cs; ObservedSubResourceGeneration := ObservedSubResourceGeneration r;
     GetLabels := GetLabels r; Finalizers := Finalizers r |}.
Definition set_observed (g : option (gmap string Z)) (r : Resource) : Resource :=
  {| GetGeneration := GetGeneration r; GetDeletionTimestamp := GetDeletionTimestamp r;
     GetConditions := GetConditions r; ObservedSubResourceGeneration := g;
     GetLabels := GetLabels r; Finalizers := Finalizers r |}.
Definition set_meta (ls : gmap string string) (fs : list string) (r : Resource) : Resource :=
  {| GetGeneration := GetGeneration r; GetDeletionTimestamp := GetDeletionTimestamp r;
     GetConditions := GetConditions r; ObservedSubResourceGeneration := ObservedSubResourceGeneration r;
     GetLabels := ls; Finalizers := fs |}.

(** [Reconciliation]. *)
Record Reconciliation W := { Function : prog W (option gerror); rec_Condition : string }.
Arguments Function {W} _.
Arguments rec_Condition {W} _.

(** [reconciliationResult]; stops are represented by their message. *)
Record reconciliationResult := {
  rr_Condition : string;
  rr_Error : option gerror;
  FinishedAt : Z;
  Stop : option string;
  SkippedBy : option string
}.

(** What the executor needs from its surroundings: the in-memory resource and the clock as parts of
    the world, and the two server-side apply calls. *)
Class Env (W : Type) := {
  resource : W → Resource;
  set_resource : Resource → W → W;
  now : W → Z;
  (* Status().Apply of the status built from the in-memory resource *)
  apply_status_config : W → option gerror * W;
  (* Apply of labels and finalizers *)
  apply_metadata_config : gmap string string → list string → W → option gerror * W
}.

(** [Reconciler[T]]: the resource specific part. *)
Record Reconciler W := {
  RequiredReconciliations : list (list (Reconciliation W));
  FinalizerName : string;
  ReconcileDeletion : prog W (option gerror);
  GetAdditionalLabels : gmap string string;
  CurrentSubResourceGenerations : option (gmap string Z)
}.
Arguments RequiredReconciliations {W} _.
Arguments FinalizerName {W} _.
Arguments ReconcileDeletion {W} _.
Arguments GetAdditionalLabels {W} _.
Arguments CurrentSubResourceGenerations {W} _.

(** ** Concurrent execution of a group *)
Section Threads.
Context {W R : Type}.

(** One action of thread [i]; nothing happens if it does not exist or has finished. *)
Definition step_at (i : nat) (ts : list (prog W R)) (w : W) : list (prog W R) * W :=
  match ts !! i with
  | Some (Act op k) => let '(b, w') := op w in (<[i := k b]> ts, w')
  | _ => (ts, w)
  end.

Fixpoint interleave (sched : list nat) (ts : list (prog W R)) (w : W) : list (prog W R) * W :=
  match sched with
  | [] => (ts, w)
  | i :: sched => let '(ts', w') := step_at i ts w in interleave sched ts' w'
  end.

(** Threads that the schedule left unfinished run to their end, one after the other. *)
Fixpoint finish_all (ts : list (prog W R)) (w : W) : list R * W :=
  match ts with
  | [] => ([], w)
  | t :: ts =>
    let '(r, w1) := run t w in
    let '(rs, w2) := finish_all ts w1 in (r :: rs, w2)
  end.

Definition run_threads (sched : list nat) (ts : list (prog W R)) (w : W) : list R * W :=
  let '(ts', w') := interleave sched ts w in finish_all ts' w'.

Lemma step_at_length i ts w : length (step_at i ts w).1 = length ts.
Proof.
  unfold step_at. destruct (ts !! i) as [[|B op k]|]; [done| |done].
  destruct (op w). simpl. apply length_insert.
Qed.

Lemma interleave_length sched : ∀ ts w, length (interleave sched ts w).1 = length ts.
Proof.
  induction sched as [|i sched IH]; intros ts w; simpl; [done|].
  pose proof (step_at_length i ts w) as H. destruct (step_at i ts w) as [ts' w'].
  by rewrite IH.
Qed.

Lemma finish_all_length ts : ∀ w, length (finish_all ts w).1 = length ts.
Proof.
  induction ts as [|t ts IH]; intros w; simpl; [done|].
  destruct (run t w) as [r w1]. specialize (IH w1). destruct (finish_all ts w1). simpl in *. lia.
Qed.

(** [ends Q p]: whatever the actions of [p] observe, its result satisfies [Q]. *)
Fixpoint ends (Q : R → Prop) (p : prog W R) : Prop :=
  match p with
  | Ret r => Q r
  | Act _ k => ∀ b, ends Q (k b)
  end.

Lemma ends_run Q p : ends Q p → ∀ w, Q (run p w).1.
Proof.
  induction p as [r|B op k IH]; simpl; [done|]. intros H w. destruct (op w). by apply IH.
Qed.

(** A property of every thread's result holds index by index under every schedule. *)
Lemma run_threads_ends {I} (Q : I → R → Prop) sched (js : list I) ts w :
  Forall2 (λ i, ends (Q i)) js ts → Forall2 Q js (run_threads sched ts w).1.
Proof.
  intros H. unfold run_threads.
  assert (∀ sched ts w, Forall2 (λ i, ends (Q i)) js ts →
    Forall2 (λ i, ends (Q i)) js (interleave sched ts w).1) as Hint.
  { clear. induction sched as [|j sched IH]; intros ts w H; simpl; [done|].
    unfold step_at. destruct (ts !! j) as [[r|B op k]|] eqn:E; [by apply IH| |by apply IH].
    destruct (op w) as [b w']. apply IH.
    destruct (Forall2_lookup_r _ _ _ _ _ H E) as (i & Hi & He).
    rewrite <-(list_insert_id js j i) by done. apply Forall2_insert; [done|]. apply He. }
  specialize (Hint sched ts w H). destruct (interleave sched ts w) as [ts' w']. simpl in Hint.
  clear H. revert w'. induction Hint as [|i t js ts' He _ IH]; intros w'; simpl; [constructor|].
  pose proof (ends_run _ _ He w'). destruct (run t w') as [r w1]. specialize (IH w1).
  destruct (finish_all ts' w1). by constructor.
Qed.
End Threads.

(** ** The executor *)
Section Executor.
Context {W : Type} {KH : K8sHelpers} {HE : Env W}.

(** One goroutine of [runReconciliationGroup]. *)
Definition goroutine (r : Reconciliation W) : prog W reconciliationResult :=
  let! err := Function r in
  let! finished := gets now in
  Ret {| rr_Condition := rec_Condition r; rr_Error := err; FinishedAt := finished;
         Stop := None; SkippedBy := None |}.

Definition runReconciliationGroup (sched : list nat) (group : list (Reconciliation W))
    : prog W (list reconciliationResult) :=
  call (run_threads sched (goroutine <$> group)).

(** The loop over the results of a group: intended stops are separated from errors. *)
Definition mark_stop (r : reconciliationResult) : reconciliationResult :=
  match asStopReconciliation (rr_Error r) with
  | Some msg => {| rr_Condition := rr_Condition r; rr_Error := None; FinishedAt := FinishedAt r;
                   Stop := Some msg; SkippedBy := SkippedBy r |}
  | None => r
  end.

Fixpoint first_stop (rs : list reconciliationResult) : option string :=
  match rs with
  | [] => None
  | r :: rs => match asStopReconciliation (rr_Error r) with Some s => Some s | None => first_stop rs end
  end.

Definition skippedResults (groups : list (list (Reconciliation W))) (stop : string) (t : Z)
    : list reconciliationResult :=
  (λ r, {| rr_Condition := rec_Condition r; rr_Error := None; FinishedAt := t; Stop := None;
           SkippedBy := Some stop |}) <$> concat groups.

(** [runReconciliations]; [scheds] gives the schedule of each group.  The errors of a group are joined
    when it is the last one to run, because the loop breaks on the first group with an error. *)
Fixpoint run_groups (scheds : nat → list nat) (idx : nat) (groups : list (list (Reconciliation W)))
    (results : list reconciliationResult) : prog W (list reconciliationResult * option gerror) :=
  match groups with
  | [] => Ret (results, None)
  | group :: rest =>
    let! groupResults := runReconciliationGroup (scheds idx) group in
    let marked := mark_stop <$> groupResults in
    let allErrors := omap rr_Error marked in
    let results := results ++ marked in
    if negb (bool_decide (allErrors = [])) then Ret (results, errors_join (Some <$> allErrors))
    else match first_stop groupResults with
    | Some stop =>
      let! t := gets now in
      Ret (results ++ skippedResults rest stop t, None)
    | None => run_groups scheds (S idx) rest results
    end
  end.

Definition runReconciliations (scheds : nat → list nat) (x : Reconciler W)
    : prog W (list reconciliationResult * option gerror) :=
  run_groups scheds 0 (RequiredReconciliations x) [].

(** [conditionFromResult]. *)
Definition conditionFromResult (r : reconciliationResult) : Condition :=
  let mk status reason msg := {|
    c_Type := rr_Condition r; c_Status := status; c_ObservedGeneration := 0;
    c_LastTransitionTime := FinishedAt r; c_Reason := reason; c_Message := msg |} in
  match rr_Error r with
  | Some err =>
    mk ConditionFalse (if RequiresUserAction err then ReasonUserActionRequired else ReasonSyncFailed)
      (MsgSyncFailed err (FinishedAt r))
  | None =>
    match Stop r, SkippedBy r with
    | Some s, _ => mk ConditionTrue ReasonSyncCompleted (MsgSyncStopped s (FinishedAt r))
    | None, Some s => mk ConditionUnknown ReasonSkipped (MsgSkipped s (FinishedAt r))
    | None, None => mk ConditionTrue ReasonSyncCompleted (MsgSyncCompleted (FinishedAt r))
    end
  end.

(** The accumulators of the loop of [updateConditionsFromResults]. *)
Definition results_all_ready (rs : list reconciliationResult) : bool :=
  forallb (λ r, match rr_Error r with Some _ => false | None => true end) rs.
Definition results_all_user_action (rs : list reconciliationResult) : bool :=
  forallb (λ r, match rr_Error r with Some e => RequiresUserAction e | None => true end) rs.
Fixpoint results_stop (rs : list reconciliationResult) : option string :=
  match rs with
  | [] => None
  | r :: rs => match Stop r with Some s => Some s | None => results_stop rs end
  end.

Definition readyCondition (generation t : Z) (rs : list reconciliationResult) : Condition :=
  let mk status reason msg := {|
    c_Type := TypeReady; c_Status := status; c_ObservedGeneration := generation;
    c_LastTransitionTime := zero_time; c_Reason := reason; c_Message := msg |} in
  match results_all_ready rs, results_stop rs with
  | true, Some s => mk ConditionTrue ReasonReconcileCompleted (MsgCompletedSkipped s t)
  | true, None => mk ConditionTrue ReasonReconcileCompleted (MsgAllSynced t)
  | false, _ =>
    if results_all_user_action rs then mk ConditionFalse ReasonUserActionRequired (MsgUserAction t)
    else mk ConditionFalse ReasonReconcileFailed (MsgFailed t)
  end.

Definition conditions_from_results (cs : list Condition) (generation t : Z)
    (rs : list reconciliationResult) : list Condition :=
  SetStatusCondition (foldl SetStatusCondition cs (conditionFromResult <$> rs))
    (readyCondition generation t rs).

Definition update_resource (f : Resource → Resource) (w : W) : W := set_resource (f (resource w)) w.

Definition updateConditionsFromResults (rs : list reconciliationResult) : prog W unit :=
  modify (λ w, update_resource (λ r,
    set_conditions (conditions_from_results (GetConditions r) (GetGeneration r) (now w) rs) r) w).

Definition startCondition (t : Z) : Condition := {|
  c_Type := TypeReady; c_Status := ConditionUnknown; c_ObservedGeneration := 0;
  c_LastTransitionTime := zero_time; c_Reason := ReasonReconcileStarted; c_Message := MsgStarted t |}.

Definition updateStartCondition : prog W unit :=
  modify (λ w, update_resource (λ r,
    set_conditions (SetStatusCondition (GetConditions r) (startCondition (now w))) r) w).

Definition applyStatus : prog W (option gerror) := call apply_status_config.

Definition managed_by : gmap string string := {[ "app.kubernetes.io/managed-by" := "git-hubby" ]}.

(** [applyMetadata]. *)
Definition applyMetadata (x : Reconciler W) (includeFinalizer : bool) : prog W (option gerror) :=
  let allLabels := MergeLabels managed_by (GetAdditionalLabels x) in
  let finalizers := if includeFinalizer then [FinalizerName x] else [] in
  check call (apply_metadata_config allLabels finalizers) in
  let! _ := modify (update_resource (λ r,
    set_meta (MergeLabels (GetLabels r) allLabels)
      (if includeFinalizer && negb (ContainsFinalizer (Finalizers r) (FinalizerName x))
       then AddFinalizer (Finalizers r) (FinalizerName x) else Finalizers r) r)) in
  Ret None.

(** [finalize]. *)
Definition finalize (x : Reconciler W) : prog W (option gerror) :=
  check ReconcileDeletion x in
  check applyMetadata x false in
  let! _ := modify (update_resource (λ r,
    set_meta (GetLabels r) (RemoveFinalizer (Finalizers r) (FinalizerName x)) r)) in
  Ret None.

(** [Reconcile]. *)
Definition Reconcile (scheds : nat → list nat) (x : Reconciler W) : prog W (option gerror) :=
  let! _ := updateStartCondition in
  let! _ := applyStatus in (* an error is only logged *)
  let! deleted := gets (λ w, GetDeletionTimestamp (resource w)) in
  match deleted with
  | Some _ => finalize x
  | None =>
    check applyMetadata x true in
    let! outcome := runReconciliations scheds x in
    let '(results, err) := outcome in
    let! _ := updateConditionsFromResults results in
    let! _ := modify (update_resource (set_observed (CurrentSubResourceGenerations x))) in
    check applyStatus in
    match err with
    | Some e => Ret (Some (withReadableMessage e))
    | None => Ret None
    end
  end.
End Executor.

(** ** Lemmas *)

(** The accessors of the environment: the resource is a field of the world, and the API calls leave
    the in-memory resource alone. *)
Class EnvLaws {W} (HE : Env W) : Prop := {
  resource_set r w : resource (set_resource r w) = r;
  apply_status_resource w : resource (apply_status_config w).2 = resource w;
  apply_metadata_resource ls fs w : resource (apply_metadata_config ls fs w).2 = resource w
}.

Lemma ends_bind {W A R} (Q : R → Prop) (p : prog W A) (f : A → prog W R) :
  (∀ a, ends Q (f a)) → ends Q (bind p f).
Proof. intros Hf. induction p as [a|B op k IH]; simpl; auto. Qed.

Section Lemmas.
Context {W : Type} {KH : K8sHelpers} {HE : Env W}.
Implicit Types (rs : list reconciliationResult) (w : W).

(** What a goroutine leaves at its index of the result slice. *)
Definition raw_result (r : Reconciliation W) (res : reconciliationResult) : Prop :=
  rr_Condition res = rec_Condition r ∧ Stop res = None ∧ SkippedBy res = None.

Lemma group_results sched group w :
  Forall2 raw_result group (run (runReconciliationGroup sched group) w).1.
Proof.
  unfold runReconciliationGroup. rewrite run_call. apply run_threads_ends.
  apply Forall2_fmap_r, Forall_Forall2_diag, Forall_forall. intros r _.
  unfold goroutine. apply ends_bind. intros err. simpl. by intros.
Qed.

Lemma mark_stop_condition rs : rr_Condition <$> (mark_stop <$> rs) = rr_Condition <$> rs.
Proof.
  rewrite <-list_fmap_compose. apply list_fmap_ext. intros i r _. unfold compose, mark_stop. by case_match.
Qed.

Lemma group_conditions sched group w :
  rr_Condition <$> (mark_stop <$> (run (runReconciliationGroup sched group) w).1) = rec_Condition <$> group.
Proof.
  rewrite mark_stop_condition. pose proof (group_results sched group w) as H.
  induction H as [|r res group rs [? _] _ IH]; simpl; [done|]. by f_equal.
Qed.

Lemma skipped_conditions (groups : list (list (Reconciliation W))) stop t :
  rr_Condition <$> skippedResults groups stop t = rec_Condition <$> concat groups.
Proof. unfold skippedResults. rewrite <-list_fmap_compose. by apply list_fmap_ext. Qed.

Lemma skipped_no_error (groups : list (list (Reconciliation W))) stop t :
  omap rr_Error (skippedResults groups stop t) = [].
Proof. unfold skippedResults. by induction (concat groups). Qed.

(** Skipped results only depend on the conditions of the skipped reconciliations. *)
Lemma skippedResults_ext (groups1 groups2 : list (list (Reconciliation W))) stop t :
  rec_Condition <$> concat groups1 = rec_Condition <$> concat groups2 →
  skippedResults groups1 stop t = skippedResults groups2 stop t.
Proof.
  intros H. unfold skippedResults.
  set (f c := {| rr_Condition := c; rr_Error := None; FinishedAt := t; Stop := None; SkippedBy := Some stop |}).
  change ((f ∘ rec_Condition) <$> concat groups1 = (f ∘ rec_Condition) <$> concat groups2).
  by rewrite !list_fmap_compose, H.
Qed.

(** The loop over the groups, one group at a time. *)
Lemma run_groups_cons scheds idx group rest acc w :
  run (run_groups scheds idx (group :: rest) acc) w =
  let '(grs, w1) := run (runReconciliationGroup (scheds idx) group) w in
  let marked := mark_stop <$> grs in
  if decide (omap rr_Error marked = []) then
    match first_stop grs with
    | Some stop => (((acc ++ marked) ++ skippedResults rest stop (now w1), None), w1)
    | None => run (run_groups scheds (S idx) rest (acc ++ marked)) w1
    end
  else ((acc ++ marked, errors_join (Some <$> omap rr_Error marked)), w1).
Proof.
  cbn [run_groups]. rewrite run_bind. destruct (run _ w) as [grs w1]. simpl.
  case_bool_decide; case_decide; simpl; try done. by destruct (first_stop grs).
Qed.

(** The error of a run is the join of the errors recorded in its results. *)
Lemma run_groups_error scheds groups : ∀ idx acc w rs err w',
  run (run_groups scheds idx groups acc) w = ((rs, err), w') →
  omap rr_Error acc = [] → err = errors_join (Some <$> omap rr_Error rs).
Proof.
  induction groups as [|group rest IH]; intros idx acc w rs err w'.
  { intros [= <- <- <-] ->. done. }
  rewrite run_groups_cons. destruct (run (runReconciliationGroup _ _) w) as [grs w1]. simpl.
  case_decide as Hne; cycle 1.
  { intros [= <- <- <-] Hacc. by rewrite omap_app, Hacc. }
  destruct (first_stop grs).
  - intros [= <- <- <-] Hacc. by rewrite !omap_app, skipped_no_error, Hacc, Hne.
  - intros Hrun Hacc. eapply IH; [done|]. by rewrite omap_app, Hacc, Hne.
Qed.

(** How far a run gets: [k] groups were executed, the results cover exactly the conditions of the
    executed (and, after a stop, the skipped) groups, and whatever functions the other groups hold,
    they were not called. *)
Lemma run_groups_prefix scheds groups : ∀ idx acc w rs err w',
  run (run_groups scheds idx groups acc) w = ((rs, err), w') →
  ∃ k : nat, (k ≤ length groups)%nat ∧
    ((err = None ∧ rr_Condition <$> rs = (rr_Condition <$> acc) ++ (rec_Condition <$> concat groups)) ∨
     (err ≠ None ∧ rr_Condition <$> rs = (rr_Condition <$> acc) ++ (rec_Condition <$> concat (take k groups)))) ∧
    (∀ rest', rec_Condition <$> concat rest' = rec_Condition <$> concat (drop k groups) →
      run (run_groups scheds idx (take k groups ++ rest') acc) w = ((rs, err), w') ∨ k = length groups).
Proof.
  induction groups as [|group rest IH]; intros idx acc w rs err w'.
  { intros [= <- <- <-]. exists 0%nat. simpl. rewrite app_nil_r. split_and!; auto. }
  rewrite run_groups_cons. pose proof (group_conditions (scheds idx) group w) as Hg.
  destruct (run (runReconciliationGroup _ _) w) as [grs w1] eqn:Hgrs. simpl in Hg |- *.
  case_decide as Hne; [destruct (first_stop grs) as [stop|] eqn:Hstop|].
  - intros [= <- <- <-]. exists 1%nat. split_and!; [simpl; lia|left; split; [done|]|].
    { by rewrite !fmap_app, Hg, skipped_conditions, <-app_assoc. }
    intros rest' Hrest. left. cbn [take app]. rewrite run_groups_cons, Hgrs. simpl. rewrite decide_True, Hstop by done.
    simpl in Hrest. by rewrite (skippedResults_ext rest' rest).
  - intros (k & Hk & Hrs & Hrest)%IH. exists (S k). split_and!; [simpl; lia| |].
    { rewrite !fmap_app, Hg in Hrs. simpl. rewrite !fmap_app, !app_assoc. done. }
    intros rest' Hr. destruct (Hrest rest' Hr) as [Hrun|]; [left|right; simpl; lia].
    cbn [take app]. by rewrite run_groups_cons, Hgrs; simpl; rewrite decide_True, Hstop by done.
  - intros [= <- <- <-]. exists 1%nat. split_and!; [simpl; lia|right; split|].
    { rewrite errors_join_Some. by destruct (omap rr_Error _). }
    { simpl. rewrite !fmap_app, Hg. simpl. by rewrite app_nil_r. }
    intros rest' _. left. cbn [take app]. rewrite run_groups_cons, Hgrs. simpl. by rewrite decide_False.
Qed.
End Lemmas.

(** ** The Ready condition *)
Section Ready.
Context {W : Type} {KH : K8sHelpers} {KL : K8sHelpersLaws KH} {HE : Env W} {EL : EnvLaws HE}.

Lemma all_ready_iff rs : results_all_ready rs = true ↔ omap rr_Error rs = [].
Proof.
  induction rs as [|r rs IH]; simpl; [done|]. rewrite andb_true_iff, IH.
  destruct (rr_Error r); naive_solver.
Qed.

Lemma all_user_action_iff rs :
  results_all_user_action rs = true ↔ Forall (λ e, RequiresUserAction e = true) (omap rr_Error rs).
Proof.
  induction rs as [|r rs IH]; simpl; [by rewrite Forall_nil|].
  rewrite andb_true_iff, IH. destruct (rr_Error r); [by rewrite Forall_cons|naive_solver].
Qed.

(** The Ready condition and the returned error are computed from the same results by different
    traversals; they agree. *)
Lemma readyCondition_agrees gen t rs :
  let err := errors_join (Some <$> omap rr_Error rs) in
  (c_Status (readyCondition gen t rs) = ConditionTrue ↔ err = None) ∧
  (c_Reason (readyCondition gen t rs) = ReasonUserActionRequired ↔ RequiresUserAction_opt err = true).
Proof.
  simpl. rewrite errors_join_Some. unfold readyCondition.
  destruct (results_all_ready rs) eqn:Hready.
  - apply all_ready_iff in Hready. rewrite Hready. by destruct (results_stop rs).
  - assert (omap rr_Error rs ≠ []) as Hne by (intros ?%all_ready_iff; congruence).
    destruct (omap rr_Error rs) as [|e es] eqn:Herr; [done|].
    pose proof (all_user_action_iff rs) as Hua. rewrite Herr in Hua.
    unfold RequiresUserAction_opt. rewrite RequiresUserAction_join.
    destruct (results_all_user_action rs); simpl; naive_solver.
Qed.

Definition ready (w : W) : option Condition := FindStatusCondition (GetConditions (resource w)) TypeReady.

Lemma resource_update f w : resource (update_resource f w) = f (resource w).
Proof. apply resource_set. Qed.

Lemma ready_updateConditions rs w :
  ∃ c, ready (run (updateConditionsFromResults rs) w).2 = Some c ∧
    same_condition c (readyCondition (GetGeneration (resource w)) (now w) rs).
Proof.
  unfold ready, updateConditionsFromResults. rewrite run_modify. simpl. rewrite resource_update. simpl.
  unfold conditions_from_results. set (cs := foldl _ _ _).
  destruct (find_set_eq cs (readyCondition (GetGeneration (resource w)) (now w) rs)) as (c & Hc & Hs).
  exists c. split; [|done]. rewrite <-Hc. f_equal. unfold readyCondition. by split_cases.
Qed.

(** The first steps of [Reconcile] leave everything but the conditions of the resource alone. *)
Lemma start_resource (w : W) :
  let w1 := (run applyStatus (run updateStartCondition w).2).2 in
  resource w1 = set_conditions (SetStatusCondition (GetConditions (resource w)) (startCondition (now w))) (resource w).
Proof.
  unfold applyStatus, updateStartCondition. rewrite run_modify. cbn [snd].
  set (w1 := update_resource _ w). rewrite run_call, apply_status_resource. unfold w1. by rewrite resource_update.
Qed.

Definition start_world (w : W) : W := (run applyStatus (run updateStartCondition w).2).2.

Lemma Reconcile_start scheds x w :
  run (Reconcile scheds x) w =
  match GetDeletionTimestamp (resource w) with
  | Some _ => run (finalize x) (start_world w)
  | None => run (
      check applyMetadata x true in
      let! outcome := runReconciliations scheds x in
      let '(results, err) := outcome in
      let! _ := updateConditionsFromResults results in
      let! _ := modify (update_resource (set_observed (CurrentSubResourceGenerations x))) in
      check applyStatus in
      match err with Some e => Ret (Some (withReadableMessage e)) | None => Ret None end) (start_world w)
  end.
Proof.
  unfold Reconcile, start_world. pose proof (start_resource w) as Hr. cbv zeta in Hr.
  rewrite run_bind. destruct (run updateStartCondition w) as [? w1]. cbn [snd] in *. step_run.
  rewrite run_bind. destruct (run applyStatus w1) as [? w2]. cbn [snd] in *. step_run.
  rewrite run_bind, run_gets. step_run. rewrite Hr. cbn [GetDeletionTimestamp set_conditions]. by case_match.
Qed.

Lemma applyMetadata_err x fin w e w' :
  run (applyMetadata x fin) w = (Some e, w') → ∃ ls fs v, (apply_metadata_config ls fs v).1 = Some e.
Proof.
  unfold applyMetadata. rewrite run_bind, run_call. set (ls := MergeLabels _ _). set (fs := if fin then _ else _).
  destruct (apply_metadata_config ls fs w) as [[me|] w1] eqn:H; [|rewrite run_bind, run_modify; by cbn [run]].
  cbn [run]. intros [= -> _]. exists ls, fs, w. by rewrite H.
Qed.

(** If the metadata cannot be written, the resource keeps the condition of a run that has started. *)
Lemma applyMetadata_failed x fin w e w' :
  run (applyMetadata x fin) (start_world w) = (Some e, w') →
  ∃ c, ready w' = Some c ∧ c_Status c = ConditionUnknown ∧ c_Reason c = ReasonReconcileStarted.
Proof.
  unfold applyMetadata. rewrite run_bind, run_call.
  pose proof (apply_metadata_resource (MergeLabels managed_by (GetAdditionalLabels x)) (if fin then [FinalizerName x] else []) (start_world w)) as H.
  destruct (apply_metadata_config _ _ _) as [[e1|] w1]; cbn [snd] in H; [|rewrite run_bind, run_modify; by cbn [run]].
  intros [= <- <-]. unfold ready. rewrite H. unfold start_world. rewrite start_resource. cbn [GetConditions set_conditions].
  destruct (find_set_eq (GetConditions (resource w)) (startCondition (now w))) as (c & Hc & _ & Hs & Hr & _).
  exists c. by split_and!.
Qed.

(** The last part of [Reconcile]: recording the results and writing the status. *)
Definition record_results (current : option (gmap string Z)) rs (err : option gerror) : prog W (option gerror) :=
  let! _ := updateConditionsFromResults rs in
  let! _ := modify (update_resource (set_observed current)) in
  check applyStatus in
  match err with Some e => Ret (Some (withReadableMessage e)) | None => Ret None end.

(** The status could not be written at the end of a run: it returns the error of the write. *)
Definition status_not_written (ret : option gerror) (w' : W) : Prop :=
  ∃ statusErr w, apply_status_config w = (Some statusErr, w') ∧ ret = Some statusErr.

Lemma record_ready current rs err w :
  let '(ret, w') := run (record_results current rs err) w in
  status_not_written ret w' ∨
  ret = withReadableMessage <$> err ∧ ∃ c,
    ObservedSubResourceGeneration (resource w') = current ∧
    ready w' = Some c ∧ c_ObservedGeneration c = GetGeneration (resource w') ∧
    (c_Status c = ConditionTrue ↔ errors_join (Some <$> omap rr_Error rs) = None) ∧
    (c_Reason c = ReasonUserActionRequired ↔ RequiresUserAction_opt (errors_join (Some <$> omap rr_Error rs)) = true).
Proof.
  unfold record_results. rewrite run_bind.
  destruct (ready_updateConditions rs w) as (c & Hready & (_ & Hst & Hre & _ & Hgen)).
  assert (resource (run (updateConditionsFromResults rs) w).2 = set_conditions
    (conditions_from_results (GetConditions (resource w)) (GetGeneration (resource w)) (now w) rs) (resource w)) as Hres.
  { unfold updateConditionsFromResults. rewrite run_modify. cbn [snd]. by rewrite resource_update. }
  destruct (run (updateConditionsFromResults rs) w) as [? w4]. cbn [snd] in *. step_run.
  rewrite run_bind, run_modify. step_run. rewrite run_bind. unfold applyStatus at 1. rewrite run_call.
  set (w5 := update_resource (set_observed current) w4).
  pose proof (apply_status_resource w5) as Hw5.
  destruct (apply_status_config w5) as [[se|] w6] eqn:Hse; cbn [fst snd] in *; [left; by exists se, w5|]. unfold w5 in Hw5. rewrite resource_update in Hw5.
  assert (run (match err with Some e => Ret (Some (withReadableMessage e)) | None => Ret None end) w6
    = (withReadableMessage <$> err, w6)) as -> by (by destruct err).
  destruct (readyCondition_agrees (GetGeneration (resource w)) (now w) rs) as [Hiff1 Hiff2].
  right. split; [done|]. exists c. unfold ready. rewrite Hw5. cbn. rewrite Hst, Hre, Hgen.
  split_and!; [done|exact Hready| |done|done].
  rewrite Hres. unfold readyCondition. by split_cases.
Qed.

(** A run reports that it has started if the metadata cannot be written; else it records its results, and what it
    returns and reports comes from the same results, unless the status cannot be written. *)
Lemma Reconcile_outcome scheds x w ret w' :
  GetDeletionTimestamp (resource w) = None →
  run (Reconcile scheds x) w = (ret, w') →
  status_not_written ret w' ∨
  (∃ e c, (∃ ls fs v, (apply_metadata_config ls fs v).1 = Some e) ∧ ret = Some e ∧
    ready w' = Some c ∧ c_Status c = ConditionUnknown ∧ c_Reason c = ReasonReconcileStarted) ∨
  ∃ err c, ret = withReadableMessage <$> err ∧
    ObservedSubResourceGeneration (resource w') = CurrentSubResourceGenerations x ∧
    ready w' = Some c ∧ c_ObservedGeneration c = GetGeneration (resource w') ∧
    (c_Status c = ConditionTrue ↔ err = None) ∧
    (c_Reason c = ReasonUserActionRequired ↔ RequiresUserAction_opt err = true).
Proof.
  intros Hdel. rewrite Reconcile_start, Hdel, run_bind.
  destruct (run (applyMetadata x true) (start_world w)) as [[me|] w2] eqn:Hmeta.
  { cbn [run]. intros [= <- <-]. right. left. destruct (applyMetadata_failed _ _ _ _ _ Hmeta) as (c & Hc).
    apply applyMetadata_err in Hmeta. by exists me, c. }
  step_run. rewrite run_bind. destruct (run (runReconciliations scheds x) w2) as [[rs err] w3] eqn:Hrun.
  apply run_groups_error in Hrun; [|done]. step_run.
  specialize (record_ready (CurrentSubResourceGenerations x) rs err w3). rewrite <-Hrun.
  unfold record_results. destruct (run _ w3) as [ret' w6]. intros [H|(-> & c & H)]; intros [= <- <-]; [by left|right; right].
  by exists err, c.
Qed.

(** C9: after a reconciliation whose API writes succeed, the Ready condition of the resource tells
    exactly what the controller is told: it is True, for the current generation, iff no error is
    returned, its reason is UserActionRequired iff the returned error makes the controller wait for
    a user instead of retrying with backoff, and the observed sub-resource generations are recorded. *)
Theorem Reconcile_ready scheds x w ret w' :
  GetDeletionTimestamp (resource w) = None →
  (∀ ls fs w, (apply_metadata_config ls fs w).1 = None) →
  (∀ w, (apply_status_config w).1 = None) →
  run (Reconcile scheds x) w = (ret, w') →
  ObservedSubResourceGeneration (resource w') = CurrentSubResourceGenerations x ∧
  ∃ c, ready w' = Some c ∧ c_ObservedGeneration c = GetGeneration (resource w') ∧
    (c_Status c = ConditionTrue ↔ ret = None) ∧
    (c_Reason c = ReasonUserActionRequired ↔ RequiresUserAction_opt ret = true).
Proof.
  intros Hdel Hmeta Hstatus Hrun.
  destruct (Reconcile_outcome scheds x w ret w' Hdel Hrun) as [(se & v & Hse & _)|[(e & c & (ls & fs & v & Hme) & _)|(err & c & -> & Hobs & Hready & Hgen & Hst & Hre)]].
  { specialize (Hstatus v). rewrite Hse in Hstatus. done. }
  { rewrite Hmeta in Hme. done. }
  split; [done|]. exists c. split_and!; [done|done| |].
  - rewrite Hst. by destruct err.
  - rewrite Hre. destruct err; simpl; [by rewrite RequiresUserAction_readable|done].
Qed.
End Ready.

(** ** What runs, and what does not *)
Section Order.
Context {W : Type} {KH : K8sHelpers} {HE : Env W}.

Definition with_groups (groups : list (list (Reconciliation W))) (x : Reconciler W) : Reconciler W := {|
  RequiredReconciliations := groups; FinalizerName := FinalizerName x; ReconcileDeletion := ReconcileDeletion x;
  GetAdditionalLabels := GetAdditionalLabels x; CurrentSubResourceGenerations := CurrentSubResourceGenerations x |}.

(** The groups run in order until one fails or asks to stop.  The run consists of the first [k]
    groups: it is the same whatever the reconciliations of the later groups do.  Without an error there
    is one result for every reconciliation of the resource, executed or skipped; with an error exactly
    the results of the executed groups. *)
Theorem runReconciliations_order scheds (x : Reconciler W) w rs err w' :
  run (runReconciliations scheds x) w = ((rs, err), w') →
  ∃ k : nat, (k ≤ length (RequiredReconciliations x))%nat ∧
    (err = None → rr_Condition <$> rs = rec_Condition <$> concat (RequiredReconciliations x)) ∧
    (err ≠ None → rr_Condition <$> rs = rec_Condition <$> concat (take k (RequiredReconciliations x))) ∧
    (∀ rest', rec_Condition <$> concat rest' = rec_Condition <$> concat (drop k (RequiredReconciliations x)) →
      (k < length (RequiredReconciliations x))%nat →
      run (runReconciliations scheds (with_groups (take k (RequiredReconciliations x) ++ rest') x)) w
        = ((rs, err), w')).
Proof.
  intros H. unfold runReconciliations in H. apply run_groups_prefix in H as (k & Hk & Hrs & Hrest).
  exists k. split_and!; [done| | |].
  - intros ->. by destruct Hrs as [(_ & ->)|(? & _)].
  - intros Herr. by destruct Hrs as [(? & _)|(_ & ->)].
  - intros rest' Hr Hlt. destruct (Hrest rest' Hr) as [ | -> ]; [done|lia].
Qed.
End Order.

(** ** Deletion *)
Section Deletion.
Context {W : Type} {KH : K8sHelpers} {KL : K8sHelpersLaws KH} {HE : Env W} {EL : EnvLaws HE}.

(** C32: a resource that is being deleted runs no reconciliation.  If its deletion handler fails, the error
    is returned, nothing else happens, and so the finalizer stays; if the handler and the metadata apply
    succeed, the finalizer of this controller is gone and all others are still there. *)
Theorem Reconcile_deletion scheds (x : Reconciler W) (w : W) t :
  GetDeletionTimestamp (resource w) = Some t →
  let '(deletion, w1) := run (ReconcileDeletion x) (start_world w) in
  match deletion with
  | Some err => run (Reconcile scheds x) w = (Some err, w1)
  | None =>
    let '(applied, w2) := apply_metadata_config (MergeLabels managed_by (GetAdditionalLabels x)) [] w1 in
    let '(ret, w') := run (Reconcile scheds x) w in
    ret = applied ∧
    (applied ≠ None → w' = w2) ∧
    (applied = None → Finalizers (resource w') = RemoveFinalizer (Finalizers (resource w1)) (FinalizerName x))
  end.
Proof.
  intros Hdel. rewrite Reconcile_start, Hdel. unfold finalize. rewrite run_bind.
  destruct (run (ReconcileDeletion x) (start_world w)) as [ [err|] w1]; [done|]. step_run.
  unfold applyMetadata. cbn [andb]. rewrite run_bind, run_bind, run_call.
  pose proof (apply_metadata_resource (MergeLabels managed_by (GetAdditionalLabels x)) [] w1) as Hr.
  destruct (apply_metadata_config _ _ w1) as [ [e|] w2]; cbn [snd] in Hr; [by split_and!|]. step_run.
  rewrite run_bind, run_modify. cbn [run]. step_run. rewrite run_bind, run_modify. cbn [run].
  split_and!; [done..|]. intros _. rewrite !resource_update. cbn [Finalizers set_meta]. by rewrite Hr.
Qed.
End Deletion.

(** ** A concrete world for the witnesses *)
Module ToyWorld.
Record world := { tw_resource : Resource; tw_now : Z; tw_finalizers : list string }.

#[export] Instance env : Env world := {|
  resource := tw_resource;
  set_resource r w := {| tw_resource := r; tw_now := tw_now w; tw_finalizers := tw_finalizers w |};
  now := tw_now;
  apply_status_config w := (None, w);
  apply_metadata_config _ fs w :=
    (None, {| tw_resource := tw_resource w; tw_now := tw_now w; tw_finalizers := fs |})
|}.
#[export] Instance laws : EnvLaws env.
Proof. by split. Qed.

Definition start (deleted : option Z) : world := {|
  tw_resource := {| GetGeneration := 3; GetDeletionTimestamp := deleted; GetConditions := [];
                    ObservedSubResourceGeneration := None; GetLabels := ∅; Finalizers := ["other"; "f"] |};
  tw_now := 100; tw_finalizers := [] |}.

Definition ok (c : string) : Reconciliation world := {| Function := Ret None; rec_Condition := c |}.
Definition failing (c : string) (e : gerror) : Reconciliation world := {| Function := Ret (Some e); rec_Condition := c |}.
Definition example : Reconciler world := {|
  RequiredReconciliations := [[ok "A"; failing "B" (EPlain "boom")]; [ok "C"]];
  FinalizerName := "f"; ReconcileDeletion := Ret None; GetAdditionalLabels := ∅;
  CurrentSubResourceGenerations := Some {[ "X" := 2 ]} |}.
End ToyWorld.

Section Witnesses.
Import SimpleHelpers ToyWorld.
Let sched := λ _ : nat, [0%nat; 1%nat].

Lemma Reconcile_ready_witness :
  let '(ret, w') := run (Reconcile sched example) (start None) in
  ObservedSubResourceGeneration (resource w') = Some {[ "X" := 2 ]} ∧
  ∃ c, ready w' = Some c ∧ c_ObservedGeneration c = GetGeneration (resource w') ∧
    (c_Status c = ConditionTrue ↔ ret = None) ∧
    (c_Reason c = ReasonUserActionRequired ↔ RequiresUserAction_opt ret = true).
Proof.
  destruct (run (Reconcile sched example) (start None)) as [ret w'] eqn:H.
  exact (Reconcile_ready sched example (start None) ret w' eq_refl (λ _ _ _, eq_refl) (λ _, eq_refl) H).
Defined.

Lemma runReconciliations_order_witness :
  ∃ k : nat, (k ≤ 2)%nat ∧
    (Some (EJoin [EPlain "boom"]) = None →
       rr_Condition <$> (run (runReconciliations sched example) (start None)).1.1 = ["A"; "B"; "C"]) ∧
    (Some (EJoin [EPlain "boom"]) ≠ None → rr_Condition <$> (run (runReconciliations sched example) (start None)).1.1 =
       rec_Condition <$> concat (take k (RequiredReconciliations example))) ∧
    (∀ rest', rec_Condition <$> concat rest' = rec_Condition <$> concat (drop k (RequiredReconciliations example)) →
      (k < length (RequiredReconciliations example))%nat →
      run (runReconciliations sched (with_groups (take k (RequiredReconciliations example) ++ rest') example)) (start None)
        = run (runReconciliations sched example) (start None)).
Proof.
  exact (runReconciliations_order sched example (start None)
    (run (runReconciliations sched example) (start None)).1.1 (Some (EJoin [EPlain "boom"])) (start None) eq_refl).
Defined.

Lemma Reconcile_deletion_witness :
  let '(ret, w') := run (Reconcile sched example) (start (Some 50)) in
  ret = None ∧ (None ≠ (None : option gerror) → w' = start_world (start (Some 50))) ∧
  ((None : option gerror) = None → Finalizers (resource w') = ["other"]).
Proof.
  exact (Reconcile_deletion sched example (start (Some 50)) 50 eq_refl).
Defined.
End Witnesses.
