(* ===== verification/Requeue.v ===== *)
(** * Requeue policy and controllers (internal/controller)

    When a resource is reconciled again: [RequeuePolicy] (requeue_policy.go) and the [Reconcile]
    methods of the three controllers, which connect the reconciler factory (a parameter here), the
    executor and the policy. *)
From S2P Require Import Prelude GoErrors Config Spreading Conditions Executor.

(** [ctrl.Result]. *)
Record Result := { RequeueAfter : Z }.
Definition no_requeue : Result := {| RequeueAfter := 0 |}.
Definition requeue_after (d : Z) : Result := {| RequeueAfter := d |}.

Definition minRateLimitRequeueDelay : Z := 30 * Second.

Record RequeuePolicy := {
  successInterval : Z;
  gitHubStateInterval : Z;
  successJitter : Z;
  randN : option (Z → Z)
}.

Definition NewRequeuePolicy (cfg : Config) : RequeuePolicy := {|
  successInterval := SuccessRequeueInterval cfg;
  gitHubStateInterval := GitHubStateRequeueInterval cfg;
  successJitter := SuccessRequeueJitter cfg;
  randN := None |}.

Section Policy.
(** [rand.N], and [apierrors.IsNotFound] of the Kubernetes libraries. *)
Context (rand_N : Z → Z) (IsNotFound : gerror → bool).

Definition randomJitter (p : RequeuePolicy) : Z :=
  if bool_decide (successJitter p ≤ 0) then 0
  else match randN p with Some f => f (successJitter p) | None => rand_N (successJitter p) end.

Definition OnSuccess (p : RequeuePolicy) : Result := requeue_after (wrap64 (successInterval p + randomJitter p)).

Definition libRateLimitErr (err : gerror) : option (option Z) :=
  as_type (λ e, match e with ERateLimitReached reset => Some reset | _ => None end) err.
Definition ownRateLimitErr (err : gerror) : option Z :=
  as_type (λ e, match e with ERateLimited reset => Some reset | _ => None end) err.
Definition requiresSpreadError (err : gerror) : option Z :=
  as_type (λ e, match e with ERequiresSpread after => Some after | _ => None end) err.

Definition resetTime (err : gerror) : option Z :=
  match libRateLimitErr err with
  | Some (Some t) => Some t
  | _ => ownRateLimitErr err
  end.

(** [canceled] says whether [ctx.Err()] is [context.Canceled], [now] is the clock. *)
Definition OnFactoryError (canceled : bool) (now : Z) (err : gerror) : Result * option gerror :=
  if canceled then (no_requeue, None)
  else match resetTime err with
  | Some t => (requeue_after (Z.max (sat64 (t - now)) minRateLimitRequeueDelay), None)
  | None =>
    match requiresSpreadError err with
    | Some d => (requeue_after d, None)
    | None => (no_requeue, Some err)
    end
  end.

Definition userActionRequeueInterval (p : RequeuePolicy) (err : gerror) : Z :=
  if (AwaitsGitHubChange err || IsNotFound err) && bool_decide (gitHubStateInterval p > 0)
  then Z.min (successInterval p) (gitHubStateInterval p) else successInterval p.

Definition OnReconcileError (p : RequeuePolicy) (canceled : bool) (now : Z) (err : gerror) : Result * option gerror :=
  if RequiresUserAction err then (requeue_after (userActionRequeueInterval p err), None)
  else OnFactoryError canceled now err.
End Policy.

(** ** The controllers *)
Definition archivedRepoRequeueDelay : Z := 10 * Second.
Definition newRepoRequeueDelay : Z := 10 * Second.

Definition isArchivedRepoError (err : gerror) : bool :=
  match as_type (λ e, match e with EGitHub r => Some r | _ => None end) err with
  | Some r =>
    match er_status r with
    | Some c => (c =? 403) && bool_decide (er_message r = "Repository was archived so is read-only."%string)
    | None => false
    end
  | None => false
  end.

Definition OrganizationStillHasReposError : string := "organization still has repositories, cannot delete it".
Definition OrganizationStillHasTeamsError : string := "organization still has teams, cannot delete it".
Definition is_finalization_failed (msg : string) (err : gerror) : bool :=
  errors_is (λ e, match e with EFinalizationFailed m => bool_decide (m = msg) | _ => false end) err.

Section Controllers.
Context {W : Type} {KH : K8sHelpers} {HE : Env W}.
Context (rand_N : Z → Z) (IsNotFound : gerror → bool).
(** Whether the context of the reconciliation was canceled by a shutdown. *)
Context (ctx_canceled : W → bool).
(** [ReconcilerFactory.CreateFor*]: [inl None] if the resource does not exist. *)
Context (create : prog W (res (option (Reconciler W)))).
Context (scheds : nat → list nat) (policy : RequeuePolicy).

Definition resourceWasDeleted (r : Resource) (finalizer : string) : bool :=
  bool_decide (is_Some (GetDeletionTimestamp r)) && negb (ContainsFinalizer (Finalizers r) finalizer).

Definition onFactoryError (err : gerror) : prog W (Result * option gerror) :=
  gets (λ w, OnFactoryError (ctx_canceled w) (now w) err).
Definition onReconcileError (err : gerror) : prog W (Result * option gerror) :=
  gets (λ w, OnReconcileError IsNotFound policy (ctx_canceled w) (now w) err).

(** The end of all three: nothing is left to do for a deleted resource. *)
Definition onReconciled (rec : Reconciler W) : prog W (Result * option gerror) :=
  let! deleted := gets (λ w, resourceWasDeleted (resource w) (FinalizerName rec)) in
  Ret (if deleted then (no_requeue, None) else (OnSuccess rand_N policy, None)).

Definition TeamCtl_Reconcile : prog W (Result * option gerror) :=
  let! created := create in
  match created with
  | inr err => onFactoryError err
  | inl None => Ret (no_requeue, None)
  | inl (Some rec) =>
    let! err := Reconcile scheds rec in
    match err with
    | Some err => onReconcileError err
    | None => onReconciled rec
    end
  end.

Definition OrganizationCtl_Reconcile : prog W (Result * option gerror) :=
  let! created := create in
  match created with
  | inr err => onFactoryError err
  | inl None => Ret (no_requeue, None)
  | inl (Some rec) =>
    let! err := Reconcile scheds rec in
    match err with
    | Some err =>
      if is_finalization_failed OrganizationStillHasReposError err ||
         is_finalization_failed OrganizationStillHasTeamsError err
      then Ret (requeue_after (30 * Second), None)
      else onReconcileError err
    | None => onReconciled rec
    end
  end.

Definition RepositoryCtl_Reconcile : prog W (Result * option gerror) :=
  let! created := create in
  match created with
  | inr err => onFactoryError err
  | inl None => Ret (no_requeue, None)
  | inl (Some rec) =>
    let! err := Reconcile scheds rec in
    match err with
    | Some err =>
      if isArchivedRepoError err then Ret (requeue_after archivedRepoRequeueDelay, None)
      else match as_type (λ e, match e with ENewRepositoryUpdate _ => Some tt | _ => None end) err with
      | Some _ => Ret (requeue_after newRepoRequeueDelay, None)
      | None => onReconcileError err
      end
    | None => onReconciled rec
    end
  end.
End Controllers.

(** ** Theorems *)

Lemma randomJitter_bounds rnd p :
  rand_ok rnd → randN p = None →
  0 ≤ randomJitter rnd p ∧ (randomJitter rnd p < successJitter p ∨ (successJitter p ≤ 0 ∧ randomJitter rnd p = 0)).
Proof.
  intros Hr Hn. unfold randomJitter. rewrite Hn. case_bool_decide; [lia|].
  specialize (Hr (successJitter p)). lia.
Qed.

Lemma userActionRequeueInterval_bounds nf p err :
  0 < successInterval p → 0 < userActionRequeueInterval nf p err ≤ successInterval p.
Proof.
  intros H. unfold userActionRequeueInterval.
  destruct (AwaitsGitHubChange err || nf err); simpl; [case_bool_decide; lia|lia].
Qed.

(** The next drift detection is never earlier than the configured interval, which startup spreading
    relies on, and later than it by less than the configured jitter: with a positive interval there is
    always a next reconciliation. *)
Theorem OnSuccess_bounds rnd (c : Config) :
  rand_ok rnd → 0 < SpreadIntervalMinutes c ≤ max_interval_minutes →
  let d := RequeueAfter (OnSuccess rnd (NewRequeuePolicy c)) in
  0 < SuccessRequeueInterval c ≤ d ∧
  (d < SuccessRequeueInterval c + SuccessRequeueJitter c ∨
   (d = SuccessRequeueInterval c ∧ SuccessRequeueJitter c = 0)).
Proof.
  intros Hr Hc. simpl.
  destruct (SuccessRequeueJitter_bounds c) as [Hj Hin]; [lia|].
  destruct (randomJitter_bounds rnd (NewRequeuePolicy c) Hr eq_refl) as [Hlo Hhi]. simpl in Hhi.
  assert (0 < SuccessRequeueInterval c).
  { unfold SuccessRequeueInterval, SpreadInterval. rewrite wrap64_minutes by lia. unfold Minute, Second. lia. }
  unfold in_int64, min_int64, max_int64 in Hin.
  rewrite wrap64_id by (unfold in_int64, min_int64, max_int64; lia). lia.
Qed.

(** What is returned for backoff is the error itself, and not one that requires user action. *)
Lemma requeue_error nf p canceled now err :
  let '(result, ret) := OnReconcileError nf p canceled now err in
  (RequiresUserAction err = true →
     ret = None ∧ (0 < successInterval p → 0 < RequeueAfter result ≤ successInterval p)) ∧
  (∀ e, ret = Some e → e = err ∧ RequiresUserAction err = false).
Proof.
  unfold OnReconcileError, OnFactoryError. destruct (RequiresUserAction err).
  { split; [|done]. intros _. split; [done|]. apply userActionRequeueInterval_bounds. }
  destruct canceled; [done|]. destruct (resetTime err); [done|]. destruct (requiresSpreadError err); [done|].
  split; [done|]. by intros e [= ->].
Qed.

(** What the controllers do with a failed reconciliation.  An error that requires user action is never
    retried with backoff but within the success interval; a rate limit is waited out (at least 30 s and
    not before the reset); only an error without any of these in its tree is returned, and it is returned
    unchanged. *)
Theorem OnReconcileError_spec nf p canceled now err :
  let '(result, ret) := OnReconcileError nf p canceled now err in
  (RequiresUserAction err = true →
     ret = None ∧ (0 < successInterval p → 0 < RequeueAfter result ≤ successInterval p)) ∧
  (RequiresUserAction err = false → canceled = true → ret = None ∧ result = no_requeue) ∧
  (∀ t, RequiresUserAction err = false → canceled = false → resetTime err = Some t →
     ret = None ∧ minRateLimitRequeueDelay ≤ RequeueAfter result ∧
     (in_int64 (t - now) → t ≤ now + RequeueAfter result)) ∧
  (∀ e, ret = Some e → e = err ∧ RequiresUserAction err = false ∧ canceled = false ∧
     Forall (λ e, (∀ t, e ≠ ERateLimited t) ∧ (∀ d, e ≠ ERequiresSpread d)) (nodes err)).
Proof.
  pose proof (requeue_error nf p canceled now err) as Hall.
  destruct (OnReconcileError nf p canceled now err) as [result ret] eqn:Hres. destruct Hall as [Hua Hret].
  unfold OnReconcileError, OnFactoryError in Hres. destruct (RequiresUserAction err).
  { split_and!; [by auto|done..|]. intros e He. by destruct (Hret e He). }
  destruct canceled; simplify_eq; [done|]. destruct (resetTime err) as [t|] eqn:Ht; simplify_eq.
  { split_and!; [done..| |done]. intros t' _ _ [= ->]. split; [done|]. simpl. split; [lia|].
    intros Hin. rewrite sat64_id by done. lia. }
  destruct (requiresSpreadError err) eqn:Hs; simplify_eq; split_and!; try done. intros e [= <-]. split_and!; try done.
  assert (ownRateLimitErr err = None) as Hown by (unfold resetTime in Ht; by repeat case_match).
  apply as_type_None in Hs, Hown. rewrite Forall_forall in *. intros e He.
  specialize (Hs e He). specialize (Hown e He). by destruct e.
Qed.

Section ControllerTheorems.
Context {W : Type} {KH : K8sHelpers} {KL : K8sHelpersLaws KH} {HE : Env W} {EL : EnvLaws HE}.
Context (rand_N : Z → Z) (IsNotFound : gerror → bool) (ctx_canceled : W → bool).
Context (create : prog W (res (option (Reconciler W)))) (scheds : nat → list nat) (policy : RequeuePolicy).

(** What a controller does about a failed reconciliation: nothing but to decide, without backoff if a user is to act. *)
Definition decides (handle : gerror → prog W (Result * option gerror)) : Prop := ∀ err w,
  ∃ result ret, run (handle err) w = ((result, ret), w) ∧
    (RequiresUserAction err = true → ret = None ∧ 0 < RequeueAfter result ≤ successInterval policy) ∧
    (ret ≠ None → RequiresUserAction err = false).

Lemma onReconcileError_decides : 0 < successInterval policy → decides (onReconcileError IsNotFound ctx_canceled policy).
Proof.
  intros Hpos err w. unfold onReconcileError. rewrite run_gets. pose proof (requeue_error IsNotFound policy (ctx_canceled w) (now w) err) as H.
  destruct (OnReconcileError _ _ _ _ _) as [result ret]. destruct H as [Hua Hret]. exists result, ret. split_and!; [done| |].
  - intros H. destruct (Hua H). auto.
  - destruct ret as [e|]; [|done]. intros _. by destruct (Hret e eq_refl).
Qed.

(** What the Ready condition says about the answer of a controller. *)
Definition agrees (rec : Reconciler W) (c : Condition) (result : Result) (ret : option gerror) (w' : W) : Prop :=
  (c_Status c = ConditionTrue → ret = None ∧
     (result = OnSuccess rand_N policy ∨ resourceWasDeleted (resource w') (FinalizerName rec) = true)) ∧
  (c_Reason c = ReasonUserActionRequired → ret = None ∧ 0 < RequeueAfter result ≤ successInterval policy) ∧
  (ret ≠ None → c_Status c ≠ ConditionTrue ∧ c_Reason c ≠ ReasonUserActionRequired).

Lemma reconciled_agrees (handle : gerror → prog W (Result * option gerror)) rec w0 result ret w' :
  decides handle → GetDeletionTimestamp (resource w0) = None →
  run (let! err := Reconcile scheds rec in match err with Some err => handle err | None => onReconciled rand_N policy rec end) w0 = ((result, ret), w') →
  (∃ err, run (Reconcile scheds rec) w0 = (err, w') ∧ status_not_written err w') ∨
  ∃ c, ready w' = Some c ∧ agrees rec c result ret w'.
Proof.
  intros Hh Hdel. rewrite run_bind. destruct (run (Reconcile scheds rec) w0) as [err w1] eqn:Hrec. step_run.
  assert (∀ err1, err = Some err1 → ∃ result1 ret1, run (handle err1) w1 = ((result1, ret1), w1) ∧
    (RequiresUserAction err1 = true → ret1 = None ∧ 0 < RequeueAfter result1 ≤ successInterval policy) ∧
    (ret1 ≠ None → RequiresUserAction err1 = false)) as Hh1 by (intros ? _; apply Hh).
  destruct (Reconcile_outcome scheds rec w0 err w1 Hdel Hrec) as [Hnw|[(e & c & _ & -> & Hc & Hst & Hre)|(err0 & c & Herr & _ & Hc & _ & Hst & Hre)]].
  - intros Hrun. left. exists err. destruct Hnw as (se & v & Hv & ->). destruct (Hh se w1) as (result1 & ret1 & Hhandle & _).
    rewrite Hhandle in Hrun. injection Hrun as _ _ <-. split; [done|]. by exists se, v.
  - destruct (Hh1 e eq_refl) as (result1 & ret1 & -> & _). intros [= <- <- <-]. right. exists c. unfold agrees. rewrite Hst, Hre. done.
  - replace (RequiresUserAction_opt err0) with (RequiresUserAction_opt err) in Hre
      by (subst err; destruct err0; [apply RequiresUserAction_readable|done]).
    assert (err0 = None ↔ err = None) as Hnone by (subst err; by destruct err0).
    rewrite Hnone in Hst. clear Herr Hnone Hrec. intros Hrun. right. revert Hrun. destruct err as [err|].
    + destruct (Hh1 err eq_refl) as (result1 & ret1 & -> & Hua & Hret). intros [= <- <- <-].
      exists c. split; [done|]. split_and!; [by rewrite Hst|by rewrite Hre|]. intros Hne. rewrite Hst, Hre. split; [done|]. simpl. by rewrite Hret.
    + unfold onReconciled in *. rewrite run_bind, run_gets. cbn [run].
      destruct (resourceWasDeleted _ _) eqn:Hd; intros [= <- <- <-]; exists c;
        (split; [done|]; split_and!; [naive_solver|rewrite Hre; done|done]).
Qed.

(** C24: the Ready condition a user sees and what the controllers do next agree, for all three of them and every run of a
    resource that is not being deleted, once its reconciler has been created: Ready means the next run is the regular
    drift detection; UserActionRequired means no backoff and a next run within the success interval; and an error handed
    to the work queue for backoff is one the Ready condition reports as a failure that does not wait for the user, or
    that of a run that could not write its metadata and still reports that it has started.  The only exception is a run
    that cannot write the status in the end, so that the user does not see it: it fails with the error of this write.
    The policy is the one of the configuration, with a positive interval that does not overflow. *)
Theorem requeue_agrees_with_ready cfg ctl rec w w0 result ret w' :
  ctl ∈ [TeamCtl_Reconcile; OrganizationCtl_Reconcile; RepositoryCtl_Reconcile] →
  0 < SpreadIntervalMinutes cfg ≤ max_interval_minutes → policy = NewRequeuePolicy cfg →
  run create w = (inl (Some rec), w0) →
  GetDeletionTimestamp (resource w0) = None →
  run (ctl rand_N IsNotFound ctx_canceled create scheds policy) w = ((result, ret), w') →
  (∃ err, run (Reconcile scheds rec) w0 = (err, w') ∧ status_not_written err w') ∨
  ∃ c, ready w' = Some c ∧
    (c_Status c = ConditionTrue → ret = None ∧
       (result = OnSuccess rand_N policy ∨ resourceWasDeleted (resource w') (FinalizerName rec) = true)) ∧
    (c_Reason c = ReasonUserActionRequired → ret = None ∧ 0 < RequeueAfter result ≤ successInterval policy) ∧
    (ret ≠ None → c_Status c ≠ ConditionTrue ∧ c_Reason c ≠ ReasonUserActionRequired).
Proof.
  intros Hctl Hcfg Hpol Hcreate Hdel.
  assert (30 * Second ≤ successInterval policy) as Hpos.
  { rewrite Hpol. simpl. unfold SuccessRequeueInterval, SpreadInterval. rewrite wrap64_minutes by lia. unfold Minute, Second. lia. }
  assert (0 < successInterval policy) as Hpos' by (unfold Second in Hpos; lia).
  pose proof (onReconcileError_decides Hpos') as Hd.
  assert (∀ d : Z, 0 < d ≤ 30 * Second → ∀ err (w : W), ∃ result ret, run (Ret (requeue_after d, None)) w = ((result, ret), w) ∧
    (RequiresUserAction err = true → ret = None ∧ 0 < RequeueAfter result ≤ successInterval policy) ∧
    (ret ≠ @None gerror → RequiresUserAction err = false)) as Hfixed.
  { intros d Hdelay err v. eexists _, _. split_and!; [done| |done]. intros _. split; [done|]. simpl. lia. }
  repeat (apply elem_of_cons in Hctl as [->|Hctl]); [..|by apply not_elem_of_nil in Hctl];
    unfold TeamCtl_Reconcile, OrganizationCtl_Reconcile, RepositoryCtl_Reconcile; rewrite run_bind, Hcreate; step_run;
    apply reconciled_agrees; try done; intros err v; repeat case_match; try apply Hd;
    apply Hfixed; unfold archivedRepoRequeueDelay, newRepoRequeueDelay, Second; lia.
Qed.

(** ** There is always a next run *)
(** controller-runtime runs a resource again if its controller returned an error (with backoff) or a delay. *)
Definition runs_again (out : Result * option gerror) : Prop := out.2 ≠ None ∨ 0 < RequeueAfter out.1.

(** A resource that is held back is held back for some time. *)
Definition waits_some_time (err : gerror) : Prop := ∀ d, requiresSpreadError err = Some d → 0 < d.

Lemma OnFactoryError_again canceled t err : waits_some_time err → runs_again (OnFactoryError canceled t err) ∨ canceled = true.
Proof.
  intros Hs. unfold OnFactoryError, runs_again. destruct canceled; [by right|left]. destruct (resetTime err) as [r|].
  - right. cbn. unfold minRateLimitRequeueDelay, Second. lia.
  - destruct (requiresSpreadError err) as [d|] eqn:E; [right; by apply Hs|by left].
Qed.

Lemma OnReconcileError_again canceled t err : 0 < successInterval policy → waits_some_time err →
  runs_again (OnReconcileError IsNotFound policy canceled t err) ∨ canceled = true.
Proof.
  intros Hp Hs. unfold OnReconcileError. destruct (RequiresUserAction err); [|by apply OnFactoryError_again].
  left. right. by apply userActionRequeueInterval_bounds.
Qed.

(** The part after the factory, with what a controller does about a failed reconciliation. *)
Lemma reconciled_again (handle : gerror → prog W (Result * option gerror)) rec w out w' :
  0 < RequeueAfter (OnSuccess rand_N policy) →
  (∀ err w1, run (Reconcile scheds rec) w = (Some err, w1) →
     ∃ out1, run (handle err) w1 = (out1, w1) ∧ (runs_again out1 ∨ ctx_canceled w1 = true)) →
  run (let! err := Reconcile scheds rec in match err with Some err => handle err | None => onReconciled rand_N policy rec end) w = (out, w') →
  runs_again out ∨ resourceWasDeleted (resource w') (FinalizerName rec) = true ∨ ctx_canceled w' = true.
Proof.
  intros Hs Hh. rewrite run_bind. destruct (run (Reconcile scheds rec) w) as [[err|] w1].
  - destruct (Hh err w1 eq_refl) as (out1 & -> & H). intros [= <- <-]. tauto.
  - unfold onReconciled. rewrite run_bind, run_gets. cbn [run]. intros [= <- <-].
    destruct (resourceWasDeleted _ _) eqn:Hd; [auto|]. left. by right.
Qed.

Lemma onReconcileError_again err w : 0 < successInterval policy → waits_some_time err →
  ∃ out, run (onReconcileError IsNotFound ctx_canceled policy err) w = (out, w) ∧ (runs_again out ∨ ctx_canceled w = true).
Proof. intros Hp Hw. unfold onReconcileError. rewrite run_gets. eexists. split; [done|]. by apply OnReconcileError_again. Qed.

Lemma requeued_again d w : 0 < d → ∃ out : Result * option gerror, run (Ret (requeue_after d, None)) w = (out, w) ∧ (runs_again out ∨ ctx_canceled w = true).
Proof. intros Hd. eexists. split; [done|]. left. by right. Qed.

(** C25: no resource is ever forgotten by the operator: whatever happens in a run of one of the three controllers, also
    if the factory or the reconciliation fails in whichever way, it ends with an error, which is retried with backoff,
    or with a positive delay after which the next run comes; the exceptions are a resource that does not exist, one
    whose deletion is finished, and a shutdown of the operator. *)
Theorem no_resource_forgotten cfg ctl w out w' :
  ctl ∈ [TeamCtl_Reconcile; OrganizationCtl_Reconcile; RepositoryCtl_Reconcile] →
  rand_ok rand_N → 0 < SpreadIntervalMinutes cfg ≤ max_interval_minutes → policy = NewRequeuePolicy cfg →
  (∀ err w1, run create w = (inr err, w1) → waits_some_time err) →
  (∀ rec w1 err w2, run create w = (inl (Some rec), w1) → run (Reconcile scheds rec) w1 = (Some err, w2) → waits_some_time err) →
  run (ctl rand_N IsNotFound ctx_canceled create scheds policy) w = (out, w') →
  runs_again out ∨ (∃ w1, run create w = (inl None, w1)) ∨
  (∃ rec w1, run create w = (inl (Some rec), w1) ∧ resourceWasDeleted (resource w') (FinalizerName rec) = true) ∨
  ctx_canceled w' = true.
Proof.
  intros Hctl Hr Hcfg Hpol Hf Hrec.
  destruct (OnSuccess_bounds rand_N cfg Hr Hcfg) as [[Hpos Hle] _]. rewrite <-Hpol in Hle.
  assert (0 < RequeueAfter (OnSuccess rand_N policy)) as Hs by lia.
  assert (0 < successInterval policy) as Hint by (by rewrite Hpol).
  repeat (apply elem_of_cons in Hctl as [->|Hctl]); [..|by apply not_elem_of_nil in Hctl];
    unfold TeamCtl_Reconcile, OrganizationCtl_Reconcile, RepositoryCtl_Reconcile; rewrite run_bind;
    (destruct (run create w) as [[[rec|]|err] w1] eqn:Hc; [|intros _; right; left; by exists w1|
      unfold onFactoryError; rewrite run_gets; intros [= <- <-];
      destruct (OnFactoryError_again (ctx_canceled w1) (now w1) err (Hf _ _ eq_refl)); auto]); step_run; intros Hrun;
    apply reconciled_again in Hrun as [?|[?|?]]; eauto 7;
    intros err w2 He; pose proof (onReconcileError_again err w2 Hint (Hrec _ _ _ _ eq_refl He)) as Hre; [done|..];
    repeat case_match; first [done|by apply requeued_again].
Qed.
End ControllerTheorems.

Section Witnesses.
Import SimpleHelpers ToyWorld.
Let rnd := λ n : Z, n - 1.
Let policy := NewRequeuePolicy default_config.
Let controller := TeamCtl_Reconcile rnd (λ _, false) (λ _, false) (Ret (inl (Some example))) (λ _ : nat, []) policy.

Lemma OnSuccess_bounds_witness :
  0 < SuccessRequeueInterval default_config ≤ RequeueAfter (OnSuccess rnd policy) ∧
  (RequeueAfter (OnSuccess rnd policy) < SuccessRequeueInterval default_config + SuccessRequeueJitter default_config ∨
   (RequeueAfter (OnSuccess rnd policy) = SuccessRequeueInterval default_config ∧ SuccessRequeueJitter default_config = 0)).
Proof. apply (OnSuccess_bounds rnd default_config); [intros n Hn; unfold rnd; lia|vm_compute; split; [done|discriminate]]. Defined.

Lemma requeue_agrees_with_ready_witness :
  let '((result, ret), w') := run controller (start None) in
  ∃ c, ready w' = Some c ∧
    (c_Status c = ConditionTrue → ret = None ∧
       (result = OnSuccess rnd policy ∨ resourceWasDeleted (resource w') "f" = true)) ∧
    (c_Reason c = ReasonUserActionRequired → ret = None ∧ 0 < RequeueAfter result ≤ successInterval policy) ∧
    (ret ≠ None → c_Status c ≠ ConditionTrue ∧ c_Reason c ≠ ReasonUserActionRequired).
Proof.
  destruct (run controller (start None)) as [[result ret] w'] eqn:H.
  destruct (requeue_agrees_with_ready rnd (λ _, false) (λ _, false) (Ret (inl (Some example))) (λ _ : nat, []) policy default_config
    TeamCtl_Reconcile example (start None) (start None) result ret w') as [(err & _ & se & v & Hv & _)|Hc].
  - apply list_elem_of_here.
  - vm_compute. split; [done|discriminate].
  - reflexivity.
  - reflexivity.
  - reflexivity.
  - exact H.
  - discriminate Hv.
  - exact Hc.
Defined.

Lemma no_resource_forgotten_witness : runs_again (run controller (start None)).1.
Proof.
  assert (rand_ok rnd) as Hr by (intros n Hn; unfold rnd; lia).
  destruct (no_resource_forgotten rnd (λ _, false) (λ _, false) (Ret (inl (Some example))) (λ _ : nat, []) policy default_config
    TeamCtl_Reconcile (start None) (run controller (start None)).1 (run controller (start None)).2) as [H|[[w1 H]|[(rec & w1 & H & Hd)|H]]].
  - apply list_elem_of_here.
  - exact Hr.
  - vm_compute. split; [done|discriminate].
  - reflexivity.
  - intros err w1 H. discriminate H.
  - intros rec w1 err w2 [= <- <-] H d. revert H. vm_compute. intros [= <- _]. discriminate.
  - apply surjective_pairing.
  - exact H.
  - discriminate H.
  - injection H as <- <-. revert Hd. vm_compute. discriminate.
  - discriminate H.
Defined.
End Witnesses.
