(* ===== verification/ApiTypes.v ===== *)
(** * The custom resources (api/v1alpha1/*_types.go, *_methods.go)

    Structs are records with the fields of the source in their order, optional pointers are
    [option], slices are lists (a nil and an empty slice are the same list, as everywhere
    where the code only ranges over a slice or tests its length; the exceptions are [option (list _)]). *)
From S2P Require Import Prelude GoErrors Conditions.

Record ObjectMeta := { Name : string; Namespace : string; Generation : Z; DeletionTimestamp : option Z }.
Definition no_meta : ObjectMeta := {| Name := ""; Namespace := ""; Generation := 0; DeletionTimestamp := None |}.

(** ** Rulesets (rulesetpreset_types.go) *)
Record RefNameCondition := { rn_Include : list string; rn_Exclude : list string }.
Record RepositoryNameCondition := { nc_Include : list string; nc_Exclude : list string; nc_Protected : option bool }.
Record RepositoryPropertyTarget := { pt_Name : string; pt_PropertyValues : list string; pt_Source : option string }.
Record RepositoryPropertyCondition :=
  { pc_Include : list RepositoryPropertyTarget; pc_Exclude : list RepositoryPropertyTarget }.
Record RulesetConditions := {
  rc_RefName : option RefNameCondition;
  rc_RepositoryName : option RepositoryNameCondition;
  rc_RepositoryProperty : option RepositoryPropertyCondition }.
Record RulesetBypassActor := {
  ba_ActorID : option Z; ba_ActorSlug : option string; ba_ActorType : string; ba_BypassMode : string }.
Record CopilotCodeReviewRule := { cr_ReviewOnPush : option bool; cr_ReviewDraftPullRequests : option bool }.
Record RuleWorkflow := {
  wf_Path : string; wf_RepositoryName : string; wf_Ref : option string; wf_ResolvedRepositoryID : option Z }.
Record WorkflowsRule := { ws_DoNotEnforceOnCreate : option bool; ws_Workflows : list RuleWorkflow }.
Record PullRequestReviewerEntity := { re_ID : option Z; re_Slug : option string; re_Type : string }.
Record RequiredPullRequestReviewer := {
  rr_MinimumApprovals : Z; rr_FilePatterns : list string; rr_Reviewer : PullRequestReviewerEntity }.
Record PullRequestRule := {
  pr_AllowedMergeMethods : list string;
  pr_DismissStaleReviewsOnPush : option bool;
  pr_RequireCodeOwnerReviews : option bool;
  pr_RequireLastPushApproval : option bool;
  pr_RequiredApprovingReviewCount : Z;
  pr_RequiredReviewThreadResolution : option bool;
  pr_RequiredReviewers : list RequiredPullRequestReviewer }.
Record StatusCheck := { sc_Context : string; sc_IntegrationID : option Z; sc_AppSlug : option string }.
Record RequiredStatusChecks := { sc_Checks : list StatusCheck; sc_StrictPolicy : option bool }.
Record PatternRule := { pa_Pattern : string; pa_Operator : string; pa_Negate : option bool }.
Record RulesetRules := {
  ru_Creation : option bool;
  ru_Update : option bool;
  ru_Deletion : option bool;
  ru_RequiredLinearHistory : option bool;
  ru_RequiredSignatures : option bool;
  ru_PullRequest : option PullRequestRule;
  ru_RequiredStatusChecks : option RequiredStatusChecks;
  ru_NonFastForward : option bool;
  ru_CommitMessagePattern : option PatternRule;
  ru_CommitAuthorEmailPattern : option PatternRule;
  ru_CommitterEmailPattern : option PatternRule;
  ru_BranchNamePattern : option PatternRule;
  ru_TagNamePattern : option PatternRule;
  ru_CopilotReview : option CopilotCodeReviewRule;
  ru_Workflows : option WorkflowsRule }.
Record RulesetSpec := {
  rs_Name : string;
  rs_Extends : string;
  rs_Target : string;
  rs_Conditions : option RulesetConditions;
  rs_Enforcement : string;
  rs_BypassActors : list RulesetBypassActor;
  rs_Rules : RulesetRules }.

#[export] Instance RefNameCondition_eq : EqDecision RefNameCondition. Proof. solve_decision. Defined.
#[export] Instance RepositoryNameCondition_eq : EqDecision RepositoryNameCondition. Proof. solve_decision. Defined.
#[export] Instance RepositoryPropertyTarget_eq : EqDecision RepositoryPropertyTarget. Proof. solve_decision. Defined.
#[export] Instance RepositoryPropertyCondition_eq : EqDecision RepositoryPropertyCondition. Proof. solve_decision. Defined.
#[export] Instance RulesetConditions_eq : EqDecision RulesetConditions. Proof. solve_decision. Defined.
#[export] Instance RulesetBypassActor_eq : EqDecision RulesetBypassActor. Proof. solve_decision. Defined.
#[export] Instance CopilotCodeReviewRule_eq : EqDecision CopilotCodeReviewRule. Proof. solve_decision. Defined.
#[export] Instance RuleWorkflow_eq : EqDecision RuleWorkflow. Proof. solve_decision. Defined.
#[export] Instance WorkflowsRule_eq : EqDecision WorkflowsRule. Proof. solve_decision. Defined.
#[export] Instance PullRequestReviewerEntity_eq : EqDecision PullRequestReviewerEntity. Proof. solve_decision. Defined.
#[export] Instance RequiredPullRequestReviewer_eq : EqDecision RequiredPullRequestReviewer. Proof. solve_decision. Defined.
#[export] Instance PullRequestRule_eq : EqDecision PullRequestRule. Proof. solve_decision. Defined.
#[export] Instance StatusCheck_eq : EqDecision StatusCheck. Proof. solve_decision. Defined.
#[export] Instance RequiredStatusChecks_eq : EqDecision RequiredStatusChecks. Proof. solve_decision. Defined.
#[export] Instance PatternRule_eq : EqDecision PatternRule. Proof. solve_decision. Defined.
#[export] Instance RulesetRules_eq : EqDecision RulesetRules. Proof. solve_decision. Defined.
#[export] Instance RulesetSpec_eq : EqDecision RulesetSpec. Proof. solve_decision. Defined.

Record RulesetPreset := { rp_Meta : ObjectMeta; rp_Spec : RulesetSpec }.

(** The ruleset without any rule. *)
Definition no_rules : RulesetRules := {|
  ru_Creation := None; ru_Update := None; ru_Deletion := None; ru_RequiredLinearHistory := None;
  ru_RequiredSignatures := None; ru_PullRequest := None; ru_RequiredStatusChecks := None;
  ru_NonFastForward := None; ru_CommitMessagePattern := None; ru_CommitAuthorEmailPattern := None;
  ru_CommitterEmailPattern := None; ru_BranchNamePattern := None; ru_TagNamePattern := None;
  ru_CopilotReview := None; ru_Workflows := None |}.

(** ** Webhooks and autolinks (webhookpreset_types.go, webhookignorepreset_types.go, autolinkspreset_types.go) *)
Record WebhookSecretSpec := { wss_Name : option string; wss_Key : option string; wss_Namespace : option string }.
Record WebhookSpec := {
  wh_PayloadURL : string;
  wh_Secret : option WebhookSecretSpec;
  wh_SecretValue : option string;
  wh_ContentType : string;
  wh_Active : option bool;
  wh_Events : list string;
  wh_SSLVerify : option bool }.
Record WebhookPreset := { wp_Meta : ObjectMeta; wp_Spec : WebhookSpec }.
Record WebhookIgnoreSpec := { wi_IgnoreURLRegex : option string }.
Record WebhookIgnorePreset := { wip_Meta : ObjectMeta; wip_Spec : WebhookIgnoreSpec }.
Record Autolink := { al_KeyPrefix : string; al_URLTemplate : string; al_IsAlphanumeric : bool }.
Record AutolinksPreset := { ap_Meta : ObjectMeta; ap_AutolinkList : list Autolink }.

#[export] Instance WebhookSecretSpec_eq : EqDecision WebhookSecretSpec. Proof. solve_decision. Defined.
#[export] Instance WebhookSpec_eq : EqDecision WebhookSpec. Proof. solve_decision. Defined.
#[export] Instance Autolink_eq : EqDecision Autolink. Proof. solve_decision. Defined.

(** [SetSecretValue] and [GetSecretValueHash] (webhookpreset_methods.go); [sha256_hex] is the
    hexadecimal SHA-256 of a string. *)
Definition SetSecretValue (s : WebhookSpec) (secret : string) : WebhookSpec :=
  if bool_decide (secret = "") then s else {|
    wh_PayloadURL := wh_PayloadURL s; wh_Secret := wh_Secret s; wh_SecretValue := Some secret;
    wh_ContentType := wh_ContentType s; wh_Active := wh_Active s; wh_Events := wh_Events s;
    wh_SSLVerify := wh_SSLVerify s |}.
Definition GetSecretValueHash (sha256_hex : string → string) (s : WebhookSpec) : string :=
  match wh_SecretValue s with
  | None => ""
  | Some v => if bool_decide (v = "") then "" else sha256_hex v
  end.

(** ** Repositories (repository_types.go, repository_methods.go) *)
Record CustomPropertyValue := { cpv_Value : option string; cpv_Values : list string; cpv_PropertyName : string }.
Record DeployKey := { dk_Key : string; dk_Title : string; dk_ReadOnly : option bool }.
Record About := { ab_Description : string; ab_Website : string; ab_Topics : list string }.
Record RepositorySpec := {
  r_Name : string;
  r_CustomProperties : list CustomPropertyValue;
  r_DefaultBranch : string;
  r_Visibility : string;
  r_HasIssues : option bool;
  r_HasProjects : option bool;
  r_HasWiki : option bool;
  r_HasDownloads : option bool;
  r_IsTemplate : option bool;
  r_MergeCommitTitle : string;
  r_MergeCommitMessage : string;
  r_AllowedMergeStrategies : list string;
  r_DeleteBranchOnMerge : option bool;
  r_About : About;
  r_Archived : option bool;
  r_ActionsEnabled : option bool;
  r_AccessLevelForExternalWorkflows : option string;
  r_AvailableActionsRunnerGroups : list string;
  r_OrganizationRef : string;
  r_RulesetPresetList : list string;
  r_Rulesets : list RulesetSpec;
  r_WebhookPresetList : list string;
  r_Webhooks : list WebhookSpec;
  r_WebhookIgnorePresetsList : list string;
  r_WebhookIgnores : list WebhookIgnoreSpec;
  r_AutolinksPresetList : list string;
  r_Autolinks : list Autolink;
  r_DeployKeyList : list DeployKey;
  r_AttachedCodeSecurityConfiguration : option string }.
Record RepositoryStatus := {
  rst_Webhooks : gmap string string; (* hook id -> secret hash *)
  rst_Conditions : list Condition;
  rst_ID : option Z;
  rst_ObservedSubResourceGenerations : option (gmap string Z) }.
Record Repository := { r_Meta : ObjectMeta; r_Spec : RepositorySpec; r_Status : RepositoryStatus }.

(** ** Organizations (organization_types.go) *)
Record GitHubAppConfig := { ga_InstallationId : Z; ga_CredentialsSecretName : string }.
Record OrgCustomPropertyDefaultValue := { dv_Value : option string; dv_Values : list string }.
Record OrgCustomProperty := {
  cp_PropertyName : string;
  cp_ValueType : string;
  cp_Required : option bool;
  cp_DefaultValue : option OrgCustomPropertyDefaultValue;
  cp_Description : option string;
  cp_AllowedValues : option (list string);
  cp_ValuesEditableBy : string }.
Record BypassReviewer := { br_ReviewerId : option Z; br_ReviewerName : option string; br_ReviewerType : string }.
Record CodeScanningDefaultSetupOptions := { cs_RunnerType : string; cs_RunnerLabel : option string }.
Record SelectedAllowedActions := {
  sa_GitHubOwnedAllowed : option bool; sa_VerifiedAllowed : option bool; sa_PatternsAllowed : option (list string) }.
Record RunnerGroup := {
  rg_Name : string; rg_Visibility : option string; rg_RestrictedToWorkflows : option bool;
  rg_SelectedWorkflows : option (list string) }.
Record ActionsSettings := {
  as_EnabledRepositories : option string;
  as_AllowedActions : option string;
  as_SelectedAllowedActions : option SelectedAllowedActions;
  as_ShaPinningRequired : option bool;
  as_DefaultWorkflowPermissions : option string;
  as_CanApprovePullRequestReviews : option bool;
  as_ArtifactAndLogRetentionDays : option Z;
  as_RunnerGroups : list RunnerGroup }.
Record AttachableCodeSecurityConfigurationRef := { ar_Name : string; ar_AttachmentScope : option string }.
Record OrganizationMemberPrivileges := {
  mp_DefaultRepositoryPermission : option string;
  mp_MembersCanCreatePublicRepositories : option bool;
  mp_MembersCanCreatePrivateRepositories : option bool;
  mp_MembersCanCreateInternalRepositories : option bool;
  mp_MembersCanCreatePages : option bool;
  mp_MembersCanCreatePublicPages : option bool;
  mp_MembersCanCreatePrivatePages : option bool;
  mp_MembersCanForkPrivateRepositories : option bool }.
Record OrganizationSpec := {
  o_Login : string;
  o_Name : string;
  o_GitHubAppInstallationId : option Z;
  o_GitHubAppConfig : option GitHubAppConfig;
  o_CustomProperties : list OrgCustomProperty;
  o_ActionsSettings : ActionsSettings;
  o_CodeSecurityConfigurations : list AttachableCodeSecurityConfigurationRef;
  o_RulesetPresetList : list string;
  o_Rulesets : list RulesetSpec;
  o_Description : string;
  o_Location : string;
  o_MemberSuffix : string;
  o_Website : string;
  o_Plan : string;
  o_MemberPrivileges : option OrganizationMemberPrivileges }.
Record OrganizationStatus := {
  ost_Conditions : list Condition; ost_ObservedSubResourceGenerations : option (gmap string Z) }.
Record Organization := { o_Meta : ObjectMeta; o_Spec : OrganizationSpec; o_Status : OrganizationStatus }.

(** ** Code security configurations (codesecurityconfiguration_types.go) *)
Record CodeSecurityConfigurationSpec := {
  csc_Name : string;
  csc_Description : string;
  csc_AdvancedSecurity : option string;
  csc_DependencyGraph : option string;
  csc_DependencyGraphAutosubmitAction : option string;
  csc_DependencyGraphAutosubmitActionOptions : option (option bool); (* LabeledRunners *)
  csc_DependabotAlerts : option string;
  csc_DependabotSecurityUpdates : option string;
  csc_CodeScanningDefaultSetup : option string;
  csc_CodeScanningDefaultSetupOptions : option CodeScanningDefaultSetupOptions;
  csc_CodeScanningDelegatedAlertDismissal : option string;
  csc_CodeScanningOptions : option (option bool); (* AllowAdvanced *)
  csc_CodeSecurity : option string;
  csc_SecretScanning : option string;
  csc_SecretScanningPushProtection : option string;
  csc_SecretScanningValidityChecks : option string;
  csc_SecretScanningNonProviderPatterns : option string;
  csc_SecretScanningGenericSecrets : option string;
  csc_SecretScanningDelegatedAlertDismissal : option string;
  csc_SecretProtection : option string;
  csc_PrivateVulnerabilityReporting : option string;
  csc_Enforcement : option string;
  csc_SecretScanningDelegatedBypass : option string;
  csc_SecretScanningDelegatedBypassOptions : option (list BypassReviewer);
  csc_DefaultForNewRepos : option string }.
Record CodeSecurityConfiguration := { csc_Meta : ObjectMeta; csc_Spec : CodeSecurityConfigurationSpec }.

(** ** Teams (team_types.go) *)
Record TeamSpec := {
  t_Name : string;
  t_Members : list string;
  t_IDPGroup : option string;
  t_Description : string;
  t_Privacy : string;
  t_Permission : string;
  t_NotificationSetting : string;
  t_OrganizationRoles : list string;
  t_OrganizationRefs : list string }.
Record TeamStatus := {
  tst_Conditions : list Condition; tst_PreviousOrganizationRefs : list string; tst_Slug : option string }.
Record Team := { t_Meta : ObjectMeta; t_Spec : TeamSpec; t_Status : TeamStatus }.

(** ** Methods (organization_methods.go, repository_methods.go, team_methods.go)

    The receivers are never nil where the methods are called; the nil guards are left out. *)
Definition PlanFree : string := "free".
Definition PlanEnterprise : string := "enterprise".
Definition VisibilityPublic : string := "public".
Definition VisibilityPrivate : string := "private".
Definition VisibilityInternal : string := "internal".

Definition GetPlan (o : Organization) : string :=
  if bool_decide (o_Plan (o_Spec o) = "") then PlanEnterprise else o_Plan (o_Spec o).
Definition HasEnterpriseFeatures (o : Organization) : bool := negb (bool_decide (GetPlan o = PlanFree)).
Definition IsActionsDisabled (o : Organization) : bool :=
  match as_EnabledRepositories (o_ActionsSettings (o_Spec o)) with
  | None => true
  | Some v => bool_decide (v = "none")
  end.
Definition GetLogin (o : Organization) : string :=
  if bool_decide (o_Login (o_Spec o) ≠ "") then o_Login (o_Spec o) else o_Name (o_Spec o).
Definition GetDisplayName (o : Organization) : string :=
  if bool_decide (o_Login (o_Spec o) ≠ "") && bool_decide (o_Name (o_Spec o) ≠ "") then o_Name (o_Spec o)
  else if bool_decide (o_Login (o_Spec o) ≠ "") && bool_decide (o_Name (o_Spec o) = "") then o_Login (o_Spec o)
  else o_Name (o_Spec o).
Definition IsUsingLegacyNameField (o : Organization) : bool :=
  bool_decide (o_Login (o_Spec o) = "") && bool_decide (o_Name (o_Spec o) ≠ "").
Definition GetGitHubAppInstallationID (o : Organization) : res Z :=
  match o_GitHubAppConfig (o_Spec o), o_GitHubAppInstallationId (o_Spec o) with
  | Some c, _ => inl (ga_InstallationId c)
  | None, Some id => inl id
  | None, None => inr (EPlain "organization has neither githubAppConfig nor githubAppInstallationId set")
  end.
Definition GetGitHubAppCredentialsSecretName (o : Organization) : string :=
  match o_GitHubAppConfig (o_Spec o) with Some c => ga_CredentialsSecretName c | None => "" end.
Definition IsIDPTeam (t : Team) : bool := bool_decide (is_Some (t_IDPGroup (t_Spec t))).

(** The part of the interface of the executor (types.go) that is the same for all kinds but teams, which have no
    sub-resources. *)
Definition org_GetObservedSubResourceGenerations (o : Organization) : option (gmap string Z) := ost_ObservedSubResourceGenerations (o_Status o).
Definition repo_GetObservedSubResourceGenerations (r : Repository) : option (gmap string Z) := rst_ObservedSubResourceGenerations (r_Status r).
Definition team_GetObservedSubResourceGenerations (_ : Team) : option (gmap string Z) := None.
Definition org_SetObservedSubResourceGeneration (new : option (gmap string Z)) (o : Organization) : Organization := {|
  o_Meta := o_Meta o; o_Spec := o_Spec o;
  o_Status := {| ost_Conditions := ost_Conditions (o_Status o); ost_ObservedSubResourceGenerations := new |} |}.
Definition repo_SetObservedSubResourceGeneration (new : option (gmap string Z)) (r : Repository) : Repository := {|
  r_Meta := r_Meta r; r_Spec := r_Spec r;
  r_Status := {| rst_Webhooks := rst_Webhooks (r_Status r); rst_Conditions := rst_Conditions (r_Status r); rst_ID := rst_ID (r_Status r);
    rst_ObservedSubResourceGenerations := new |} |}.
Definition team_SetObservedSubResourceGeneration (_ : option (gmap string Z)) (t : Team) : Team := t.

Section Health.
Context {KH : K8sHelpers}.
(** [IsHealthy] and [GetObservedGeneration], the same for the three kinds. *)
Definition conditions_healthy (cs : list Condition) : bool :=
  match FindStatusCondition cs TypeReady with
  | Some c => bool_decide (c_Status c = ConditionTrue)
  | None => false
  end.
Definition conditions_generation (cs : list Condition) : Z :=
  match FindStatusCondition cs TypeReady with Some c => c_ObservedGeneration c | None => 0 end.
Definition org_IsHealthy (o : Organization) : bool := conditions_healthy (ost_Conditions (o_Status o)).
Definition org_GetObservedGeneration (o : Organization) : Z := conditions_generation (ost_Conditions (o_Status o)).
Definition repo_IsHealthy (r : Repository) : bool := conditions_healthy (rst_Conditions (r_Status r)).
Definition repo_GetObservedGeneration (r : Repository) : Z := conditions_generation (rst_Conditions (r_Status r)).
Definition team_IsHealthy (t : Team) : bool := conditions_healthy (tst_Conditions (t_Status t)).
Definition team_GetObservedGeneration (t : Team) : Z := conditions_generation (tst_Conditions (t_Status t)).
End Health.

(** ** Concrete resources, for the witnesses *)
Module Samples.
Definition meta (name : string) : ObjectMeta := {| Name := name; Namespace := "ns"; Generation := 1; DeletionTimestamp := None |}.
Definition no_actions : ActionsSettings := {|
  as_EnabledRepositories := None; as_AllowedActions := None; as_SelectedAllowedActions := None; as_ShaPinningRequired := None;
  as_DefaultWorkflowPermissions := None; as_CanApprovePullRequestReviews := None; as_ArtifactAndLogRetentionDays := None;
  as_RunnerGroups := [] |}.
Definition org (actions : ActionsSettings) (properties : list OrgCustomProperty) (cscs : list AttachableCodeSecurityConfigurationRef)
    (rulesets : list RulesetSpec) : Organization := {|
  o_Meta := meta "org";
  o_Spec := {|
    o_Login := "acme"; o_Name := ""; o_GitHubAppInstallationId := None; o_GitHubAppConfig := None; o_CustomProperties := properties;
    o_ActionsSettings := actions; o_CodeSecurityConfigurations := cscs; o_RulesetPresetList := []; o_Rulesets := rulesets;
    o_Description := ""; o_Location := ""; o_MemberSuffix := ""; o_Website := ""; o_Plan := ""; o_MemberPrivileges := None |};
  o_Status := {| ost_Conditions := []; ost_ObservedSubResourceGenerations := None |} |}.
(** A repository that asks for runner groups and has an id on GitHub. *)
Definition known_repo (name : string) (properties : list CustomPropertyValue) (rulesets : list RulesetSpec) (groups : list string)
    (id : option Z) : Repository := {|
  r_Meta := meta name;
  r_Spec := {|
    r_Name := name; r_CustomProperties := properties; r_DefaultBranch := "main"; r_Visibility := "private"; r_HasIssues := None;
    r_HasProjects := None; r_HasWiki := None; r_HasDownloads := None; r_IsTemplate := None; r_MergeCommitTitle := "";
    r_MergeCommitMessage := ""; r_AllowedMergeStrategies := []; r_DeleteBranchOnMerge := None;
    r_About := {| ab_Description := ""; ab_Website := ""; ab_Topics := [] |};
    r_Archived := None; r_ActionsEnabled := None; r_AccessLevelForExternalWorkflows := None;
    r_AvailableActionsRunnerGroups := groups; r_OrganizationRef := "org"; r_RulesetPresetList := []; r_Rulesets := rulesets;
    r_WebhookPresetList := []; r_Webhooks := []; r_WebhookIgnorePresetsList := []; r_WebhookIgnores := [];
    r_AutolinksPresetList := []; r_Autolinks := []; r_DeployKeyList := []; r_AttachedCodeSecurityConfiguration := None |};
  r_Status := {| rst_Webhooks := ∅; rst_Conditions := []; rst_ID := id; rst_ObservedSubResourceGenerations := None |} |}.
Definition repo (name : string) (properties : list CustomPropertyValue) (rulesets : list RulesetSpec) : Repository :=
  known_repo name properties rulesets [] None.
End Samples.
