(* ===== verification/Merge.v ===== *)
(** * Combining definitions from several sources (internal/reconciler/common/merge)

    [Dedupe] merges the definitions of presets and inline entries: one entry per key, and a conflict for
    every key with differing definitions. *)
From stdpp Require Import pretty.
From S2P Require Import Prelude.

(** [InlineSource]. *)
Definition InlineSource (idx : nat) : string := "inline[" +:+ pretty idx +:+ "]".

Record Conflict := { cf_Key : string; cf_Sources : list string }.

(** The local type [info] of [Dedupe]. *)
Record info := { keptIdx : nat; sources : list string; conflict : bool }.

Section Dedupe.
Context {T : Type} (keyFn : T → string) (equalFn : T → T → bool) (sourceFn : T → string).

(** The variables of the loop. *)
Record state := { result : list T; byKey : gmap string info; conflictOrder : list string }.

Definition dedupe_step (s : state) (c : T) : state :=
  let key := keyFn c in
  match byKey s !! key with
  | None => {|
      result := result s ++ [c];
      byKey := <[key := {| keptIdx := length (result s); sources := [sourceFn c]; conflict := false |}]> (byKey s);
      conflictOrder := conflictOrder s |}
  | Some i =>
    (* the index is always valid, see [dedupe_inv] *)
    match result s !! keptIdx i with
    | None => s
    | Some kept =>
      let srcs := sources i ++ [sourceFn c] in
      if equalFn kept c then {|
        result := result s;
        byKey := <[key := {| keptIdx := keptIdx i; sources := srcs; conflict := conflict i |}]> (byKey s);
        conflictOrder := conflictOrder s |}
      else {|
        result := result s;
        byKey := <[key := {| keptIdx := keptIdx i; sources := srcs; conflict := true |}]> (byKey s);
        conflictOrder := if conflict i then conflictOrder s else conflictOrder s ++ [key] |}
    end
  end.

Definition dedupe_start : state := {| result := []; byKey := ∅; conflictOrder := [] |}.

Definition Dedupe (candidates : list T) : list T * list Conflict :=
  let s := foldl dedupe_step dedupe_start candidates in
  (result s,
   omap (λ key, i ← byKey s !! key; Some {| cf_Key := key; cf_Sources := sources i |}) (conflictOrder s)).

(** ** Specification *)

(** The candidates with a key. *)
Definition group (k : string) (l : list T) : list T := filter (λ c, keyFn c = k) l.

Lemma group_snoc k l c : group k (l ++ [c]) = group k l ++ (if decide (keyFn c = k) then [c] else []).
Proof. unfold group. by rewrite filter_app, filter_cons, filter_nil. Qed.

(** What is known about a key after the candidates [l]. *)
Definition info_ok (l res : list T) (k : string) (i : info) : Prop :=
  ∃ kept rest, group k l = kept :: rest ∧ res !! keptIdx i = Some kept ∧
    sources i = sourceFn <$> group k l ∧
    conflict i = existsb (λ c, negb (equalFn kept c)) rest.

Record dedupe_inv (l : list T) (s : state) : Prop := {
  di_sub : result s `sublist_of` l;
  di_first k : group k (result s) = take 1 (group k l);
  di_none k : byKey s !! k = None → group k l = [];
  di_info k i : byKey s !! k = Some i → info_ok l (result s) k i;
  di_order k : k ∈ conflictOrder s ↔ ∃ i, byKey s !! k = Some i ∧ conflict i = true;
  di_nodup : NoDup (conflictOrder s)
}.

Lemma info_ok_other l res res' c k i :
  keyFn c ≠ k → res `prefix_of` res' → info_ok l res k i → info_ok (l ++ [c]) res' k i.
Proof.
  intros Hk Hpre (kept & rest & Hg & Hkept & Hsrc & Hc). exists kept, rest.
  rewrite group_snoc, decide_False, app_nil_r by done.
  split_and!; [done| |done|done]. by eapply prefix_lookup_Some.
Qed.

Lemma dedupe_step_new l s c :
  dedupe_inv l s → byKey s !! keyFn c = None → dedupe_inv (l ++ [c]) (dedupe_step s c).
Proof.
  intros [Hsub Hfirst Hnone Hinfo Horder Hnodup] Hk. unfold dedupe_step. rewrite Hk.
  pose proof (Hnone _ Hk) as Hg. split; simpl.
  - by apply sublist_app.
  - intros k. rewrite !group_snoc, Hfirst. case_decide as E; [subst k; by rewrite Hg|by rewrite !app_nil_r].
  - intros k [Hne Hn]%lookup_insert_None. rewrite group_snoc, decide_False, app_nil_r by done. auto.
  - intros k i. rewrite lookup_insert. case_decide as E; [intros [= <-]|].
    + subst k. exists c, []. rewrite group_snoc, decide_True, Hg by done. split_and!; [done| |done|done].
      by rewrite lookup_app_r, Nat.sub_diag.
    + intros Hi. apply (info_ok_other _ (result s)); [done|by apply prefix_app_r|auto].
  - intros k. rewrite Horder. split; intros (i & Hi & Hc); exists i; split; try done.
    + rewrite lookup_insert_ne; [done|congruence].
    + revert Hi. rewrite lookup_insert. case_decide; [intros [= <-]; done|done].
  - done.
Qed.

Lemma dedupe_step_seen l s c i :
  dedupe_inv l s → byKey s !! keyFn c = Some i → dedupe_inv (l ++ [c]) (dedupe_step s c).
Proof.
  intros [Hsub Hfirst Hnone Hinfo Horder Hnodup] Hk.
  destruct (Hinfo _ _ Hk) as (kept & rest & Hg & Hkept & Hsrc & Hc).
  unfold dedupe_step. rewrite Hk, Hkept.
  set (i' := {| keptIdx := keptIdx i; sources := sources i ++ [sourceFn c];
                conflict := if equalFn kept c then conflict i else true |}).
  set (order := if equalFn kept c then conflictOrder s else if conflict i then conflictOrder s else conflictOrder s ++ [keyFn c]).
  enough (dedupe_inv (l ++ [c]) {| result := result s; byKey := <[keyFn c := i']> (byKey s); conflictOrder := order |}) as H.
  { unfold i', order in H. by destruct (equalFn kept c). }
  assert (∀ k, k ∈ order ↔ k ∈ conflictOrder s ∨ (k = keyFn c ∧ conflict i' = true)) as Hord.
  { intros k. unfold order, i'. simpl. destruct (equalFn kept c), (conflict i) eqn:E;
      rewrite ?elem_of_app, ?list_elem_of_singleton, ?Horder; naive_solver. }
  split; simpl.
  - by apply sublist_inserts_r.
  - intros k. rewrite group_snoc, Hfirst. case_decide as E; [subst k; by rewrite Hg|by rewrite app_nil_r].
  - intros k [Hne Hn]%lookup_insert_None. rewrite group_snoc, decide_False, app_nil_r by done. auto.
  - intros k j. rewrite lookup_insert. case_decide as E; [intros [= <-]; subst k|].
    + exists kept, (rest ++ [c]). rewrite group_snoc, decide_True, Hg by done. split_and!; [done|done| |].
      * unfold i'; cbn [sources]. by rewrite Hsrc, Hg, fmap_app.
      * simpl. rewrite existsb_app, Hc. simpl. by destruct (equalFn kept c); rewrite ?orb_false_r, ?orb_true_r.
    + intros Hj. by apply (info_ok_other _ (result s)); [..|auto].
  - intros k. rewrite Hord, Horder. setoid_rewrite lookup_insert. case_decide as E; [subst k|naive_solver].
    rewrite Hk. unfold i'. simpl. destruct (equalFn kept c); naive_solver.
  - unfold order. destruct (equalFn kept c); [done|]. destruct (conflict i) eqn:E; [done|].
    apply NoDup_app. split_and!; [done| |apply NoDup_singleton].
    intros k Hin ->%list_elem_of_singleton. apply Horder in Hin as (j & Hj & ?). congruence.
Qed.

Lemma dedupe_inv_foldl l : dedupe_inv l (foldl dedupe_step dedupe_start l).
Proof.
  induction l as [|c l IH] using rev_ind.
  { split; simpl; try done; [intros k; set_solver|constructor]. }
  rewrite foldl_app. simpl. destruct (byKey (foldl dedupe_step dedupe_start l) !! keyFn c) eqn:E.
  - by eapply dedupe_step_seen.
  - by apply dedupe_step_new.
Qed.

Lemma dedupe_kept candidates :
  (Dedupe candidates).1 `sublist_of` candidates ∧
  ∀ k, group k (Dedupe candidates).1 = take 1 (group k candidates).
Proof. destruct (dedupe_inv_foldl candidates). by split. Qed.

Lemma dedupe_conflict candidates k srcs :
  {| cf_Key := k; cf_Sources := srcs |} ∈ (Dedupe candidates).2 ↔
  srcs = sourceFn <$> group k candidates ∧
  ∃ first rest, group k candidates = first :: rest ∧ Exists (λ c, equalFn first c = false) rest.
Proof.
  unfold Dedupe. destruct (dedupe_inv_foldl candidates) as [_ _ Hnone Hinfo Horder _].
  set (s := foldl _ _ _) in *. simpl. rewrite list_elem_of_omap. split.
  - intros (k' & (i & Hi & Hc)%Horder & Hs). rewrite Hi in Hs. simplify_eq/=.
    destruct (Hinfo _ _ Hi) as (kept & rest & Hg & _ & Hsrc & Hconf). split; [done|]. exists kept, rest.
    split; [done|]. rewrite Hc in Hconf. symmetry in Hconf. apply existsb_exists in Hconf as (c & Hin & Hneq).
    apply Exists_exists. exists c. rewrite list_elem_of_In. split; [done|]. by apply negb_true_iff.
  - intros (-> & kept & rest & Hg & Hex). destruct (byKey s !! k) as [i|] eqn:Hi; cycle 1.
    { rewrite (Hnone _ Hi) in Hg. done. }
    destruct (Hinfo _ _ Hi) as (kept' & rest' & Hg' & _ & Hsrc & Hconf).
    rewrite Hg in Hg'. injection Hg' as <- <-. exists k. rewrite Hi. simpl. rewrite Hsrc. split; [|done].
    apply Horder. exists i. split; [done|].
    rewrite Hconf. apply existsb_exists. apply Exists_exists in Hex as (c & Hin & Hneq).
    exists c. split; [by apply list_elem_of_In|]. by rewrite Hneq.
Qed.

Lemma dedupe_conflict_keys candidates : NoDup (cf_Key <$> (Dedupe candidates).2).
Proof.
  unfold Dedupe. destruct (dedupe_inv_foldl candidates) as [_ _ _ _ _ Hnodup].
  set (s := foldl _ _ _) in *. simpl. induction Hnodup as [|k ks Hk _ IH]; simpl; [constructor|].
  destruct (byKey s !! k) as [i|]; simpl; [|exact IH]. constructor; [|exact IH].
  rewrite list_elem_of_fmap. intros ([k' srcs] & Heq & Hin). simpl in Heq. subst k'.
  apply list_elem_of_omap in Hin as (k' & Hk' & Hs). destruct (byKey s !! k'); simpl in Hs; [|done].
  injection Hs as -> _. by apply Hk.
Qed.

(** Every candidate has a kept one with its key, and if there is no conflict they are equal. *)
Lemma dedupe_kept_for candidates c :
  c ∈ candidates → ∃ kept, kept ∈ (Dedupe candidates).1 ∧ keyFn kept = keyFn c ∧
    (c = kept ∨ (Dedupe candidates).2 ≠ [] ∨ equalFn kept c = true).
Proof.
  intros Hc. destruct (dedupe_kept candidates) as [_ Hfirst]. specialize (Hfirst (keyFn c)).
  assert (c ∈ group (keyFn c) candidates) as Hin by (by apply list_elem_of_filter).
  destruct (group (keyFn c) candidates) as [|kept rest] eqn:Hg; [by apply not_elem_of_nil in Hin|]. simpl in Hfirst.
  assert (kept ∈ group (keyFn c) (Dedupe candidates).1) as Hk by (simpl in *; rewrite Hfirst; apply list_elem_of_here).
  apply list_elem_of_filter in Hk as [Hkey Hk]. exists kept. split_and!; [done|done|].
  apply elem_of_cons in Hin as [->|Hin]; [by left|right].
  destruct (equalFn kept c) eqn:Heq; [by right|left]. intros Hnil.
  apply (not_elem_of_nil (A := Conflict) {| cf_Key := keyFn c; cf_Sources := sourceFn <$> group (keyFn c) candidates |}).
  rewrite <-Hnil. apply dedupe_conflict. split; [done|]. exists kept, rest. split; [done|].
  apply Exists_exists. by exists c.
Qed.

Lemma group_NoDup l : (∀ k, length (group k l) ≤ 1)%nat → NoDup (keyFn <$> l).
Proof.
  induction l as [|c l IH]; intros H; [constructor|]. constructor.
  - intros (c' & Heq & Hin)%list_elem_of_fmap. specialize (H (keyFn c)). unfold group in H.
    rewrite filter_cons, decide_True in H by done. simpl in H.
    assert (c' ∈ filter (λ x, keyFn x = keyFn c) l) as Hf by (by apply list_elem_of_filter).
    destruct (filter _ l); [by apply not_elem_of_nil in Hf|simpl in H; lia].
  - apply IH. intros k. specialize (H k). unfold group in *. rewrite filter_cons in H. case_decide; simpl in H; lia.
Qed.

(** One kept candidate per key. *)
Lemma dedupe_keys_NoDup candidates : NoDup (keyFn <$> (Dedupe candidates).1).
Proof.
  apply group_NoDup. intros k. destruct (dedupe_kept candidates) as [_ Hfirst]. rewrite Hfirst, length_take. lia.
Qed.

(** [Dedupe] keeps, in the original order, exactly the first candidate of every key, and reports a
    conflict for exactly those keys of which some later candidate differs from the kept one, once per key
    and with the sources of all its candidates. *)
Theorem Dedupe_spec candidates :
  let '(kept, conflicts) := Dedupe candidates in
  kept `sublist_of` candidates ∧
  (∀ k, group k kept = take 1 (group k candidates)) ∧
  NoDup (cf_Key <$> conflicts) ∧
  (∀ k srcs, {| cf_Key := k; cf_Sources := srcs |} ∈ conflicts ↔
     srcs = sourceFn <$> group k candidates ∧
     ∃ first rest, group k candidates = first :: rest ∧ Exists (λ c, equalFn first c = false) rest).
Proof.
  destruct (dedupe_kept candidates) as [Hsub Hfirst]. pose proof (dedupe_conflict candidates) as Hc.
  pose proof (dedupe_conflict_keys candidates) as Hk. destruct (Dedupe candidates). by split_and!.
Qed.
End Dedupe.
