(* ===== verification/RulesetMerge.v ===== *)
(** * Merging a ruleset onto its parent (internal/reconciler/common/rulesets/extends_merge.go)

    [mergeSpec] merges a child ruleset onto its resolved parent field by field.  [MergeRules] is the table
    of the source that documents the behaviour of every field; the theorem at the end shows that
    [mergeSpec] behaves as the table declares. *)
From stdpp Require Import pretty.
From S2P Require Import Prelude GoErrors Conditions ApiTypes Merge.

(** [MergeKind] and [MergeRules]. *)
Inductive MergeKind := MergeOwn | MergeInherit | MergeRecursive | MergeKeyed | MergeAtomic.

Definition MergeRules : list (string * MergeKind) := [
  ("name", MergeOwn);
  ("extends", MergeOwn);
  ("target", MergeInherit);
  ("conditions", MergeAtomic);
  ("enforcement", MergeInherit);
  ("bypassActors", MergeKeyed);
  ("rules", MergeRecursive);
  ("rules.creation", MergeInherit);
  ("rules.update", MergeInherit);
  ("rules.deletion", MergeInherit);
  ("rules.requiredLinearHistory", MergeInherit);
  ("rules.requiredSignatures", MergeInherit);
  ("rules.nonFastForward", MergeInherit);
  ("rules.pullRequest", MergeRecursive);
  ("rules.pullRequest.allowedMergeMethods", MergeAtomic);
  ("rules.pullRequest.dismissStaleReviewsOnPush", MergeInherit);
  ("rules.pullRequest.requireCodeOwnerReviews", MergeInherit);
  ("rules.pullRequest.requireLastPushApproval", MergeInherit);
  ("rules.pullRequest.requiredApprovingReviewCount", MergeInherit);
  ("rules.pullRequest.requiredReviewThreadResolution", MergeInherit);
  ("rules.pullRequest.requiredReviewers", MergeKeyed);
  ("rules.requiredStatusChecks", MergeRecursive);
  ("rules.requiredStatusChecks.checks", MergeKeyed);
  ("rules.requiredStatusChecks.strictPolicy", MergeInherit);
  ("rules.commitMessagePattern", MergeAtomic);
  ("rules.commitAuthorEmailPattern", MergeAtomic);
  ("rules.committerEmailPattern", MergeAtomic);
  ("rules.branchNamePattern", MergeAtomic);
  ("rules.tagNamePattern", MergeAtomic);
  ("rules.copilotReview", MergeRecursive);
  ("rules.copilotReview.reviewOnPush", MergeInherit);
  ("rules.copilotReview.reviewDraftPullRequests", MergeInherit);
  ("rules.workflows", MergeRecursive);
  ("rules.workflows.doNotEnforceOnCreate", MergeInherit);
  ("rules.workflows.workflows", MergeKeyed)].

(** The zero value of a comparable type, for [inherit]. *)
Class Zero (T : Type) := zero : T.
#[export] Instance zero_string : Zero string := "".
#[export] Instance zero_int : Zero Z := 0.
#[export] Instance zero_pointer T : Zero (option T) := None.

Definition inherit {T} `{EqDecision T, Zero T} (parent child : T) : T :=
  if bool_decide (child ≠ zero) then child else parent.

Definition mergeObject {T} (parent child : option T) (merge : T → T → T) : option T :=
  match child with
  | None => parent
  | Some c => match parent with None => Some c | Some p => Some (merge p c) end
  end.

Section Keyed.
Context {T : Type} (key : T → string).

(** The bodies of the two loops of [mergeKeyed]; the state is [(out, done)]. *)
Definition parent_step (childByKey : gmap string T) (s : list T * gset string) (e : T) : list T * gset string :=
  let '(out, done) := s in
  let k := key e in
  match childByKey !! k with
  | None => (out ++ [e], done)
  | Some c => if bool_decide (k ∈ done) then (out, done) else (out ++ [c], {[ k ]} ∪ done)
  end.

Definition child_step (childByKey : gmap string T) (s : list T * gset string) (e : T) : list T * gset string :=
  let '(out, done) := s in
  let k := key e in
  if bool_decide (k ∈ done) then (out, done)
  else (out ++ from_option (λ c, [c]) [] (childByKey !! k), {[ k ]} ∪ done).

Definition mergeKeyed (parent child : list T) : list T :=
  if bool_decide (length child = 0%nat) then parent
  else
    let childByKey := index_by key child in
    let s := foldl (parent_step childByKey) ([], ∅) parent in
    (foldl (child_step childByKey) s child).1.
End Keyed.

(** The keys. *)
Definition slugOrID (slug : option string) (id : option Z) : string :=
  match slug, id with
  | Some s, _ => "slug:" +:+ s
  | None, Some i => "id:" +:+ pretty i
  | None, None => ""
  end.
Definition bypassActorKey (a : RulesetBypassActor) : string :=
  ba_ActorType a +:+ "/" +:+ slugOrID (ba_ActorSlug a) (ba_ActorID a).
Definition statusCheckKey (c : StatusCheck) : string :=
  sc_Context c +:+ "/" +:+ slugOrID (sc_AppSlug c) (sc_IntegrationID c).
Definition requiredReviewerKey (r : RequiredPullRequestReviewer) : string :=
  re_Type (rr_Reviewer r) +:+ "/" +:+ slugOrID (re_Slug (rr_Reviewer r)) (re_ID (rr_Reviewer r)).
Definition workflowKey (w : RuleWorkflow) : string := wf_RepositoryName w +:+ "/" +:+ wf_Path w.

Definition mergePullRequest (parent child : PullRequestRule) : PullRequestRule := {|
  pr_AllowedMergeMethods :=
    if bool_decide (0 < length (pr_AllowedMergeMethods child))%nat
    then pr_AllowedMergeMethods child else pr_AllowedMergeMethods parent;
  pr_DismissStaleReviewsOnPush := inherit (pr_DismissStaleReviewsOnPush parent) (pr_DismissStaleReviewsOnPush child);
  pr_RequireCodeOwnerReviews := inherit (pr_RequireCodeOwnerReviews parent) (pr_RequireCodeOwnerReviews child);
  pr_RequireLastPushApproval := inherit (pr_RequireLastPushApproval parent) (pr_RequireLastPushApproval child);
  pr_RequiredApprovingReviewCount :=
    inherit (pr_RequiredApprovingReviewCount parent) (pr_RequiredApprovingReviewCount child);
  pr_RequiredReviewThreadResolution :=
    inherit (pr_RequiredReviewThreadResolution parent) (pr_RequiredReviewThreadResolution child);
  pr_RequiredReviewers := mergeKeyed requiredReviewerKey (pr_RequiredReviewers parent) (pr_RequiredReviewers child) |}.

Definition mergeStatusChecks (parent child : RequiredStatusChecks) : RequiredStatusChecks := {|
  sc_Checks := mergeKeyed statusCheckKey (sc_Checks parent) (sc_Checks child);
  sc_StrictPolicy := inherit (sc_StrictPolicy parent) (sc_StrictPolicy child) |}.

Definition mergeCopilotReview (parent child : CopilotCodeReviewRule) : CopilotCodeReviewRule := {|
  cr_ReviewOnPush := inherit (cr_ReviewOnPush parent) (cr_ReviewOnPush child);
  cr_ReviewDraftPullRequests := inherit (cr_ReviewDraftPullRequests parent) (cr_ReviewDraftPullRequests child) |}.

Definition mergeWorkflows (parent child : WorkflowsRule) : WorkflowsRule := {|
  ws_DoNotEnforceOnCreate := inherit (ws_DoNotEnforceOnCreate parent) (ws_DoNotEnforceOnCreate child);
  ws_Workflows := mergeKeyed workflowKey (ws_Workflows parent) (ws_Workflows child) |}.

Definition mergeRules (parent child : RulesetRules) : RulesetRules := {|
  ru_Creation := inherit (ru_Creation parent) (ru_Creation child);
  ru_Update := inherit (ru_Update parent) (ru_Update child);
  ru_Deletion := inherit (ru_Deletion parent) (ru_Deletion child);
  ru_RequiredLinearHistory := inherit (ru_RequiredLinearHistory parent) (ru_RequiredLinearHistory child);
  ru_RequiredSignatures := inherit (ru_RequiredSignatures parent) (ru_RequiredSignatures child);
  ru_PullRequest := mergeObject (ru_PullRequest parent) (ru_PullRequest child) mergePullRequest;
  ru_RequiredStatusChecks :=
    mergeObject (ru_RequiredStatusChecks parent) (ru_RequiredStatusChecks child) mergeStatusChecks;
  ru_NonFastForward := inherit (ru_NonFastForward parent) (ru_NonFastForward child);
  ru_CommitMessagePattern := inherit (ru_CommitMessagePattern parent) (ru_CommitMessagePattern child);
  ru_CommitAuthorEmailPattern := inherit (ru_CommitAuthorEmailPattern parent) (ru_CommitAuthorEmailPattern child);
  ru_CommitterEmailPattern := inherit (ru_CommitterEmailPattern parent) (ru_CommitterEmailPattern child);
  ru_BranchNamePattern := inherit (ru_BranchNamePattern parent) (ru_BranchNamePattern child);
  ru_TagNamePattern := inherit (ru_TagNamePattern parent) (ru_TagNamePattern child);
  ru_CopilotReview := mergeObject (ru_CopilotReview parent) (ru_CopilotReview child) mergeCopilotReview;
  ru_Workflows := mergeObject (ru_Workflows parent) (ru_Workflows child) mergeWorkflows |}.

Definition mergeSpec (parent child : RulesetSpec) : RulesetSpec := {|
  rs_Name := rs_Name child;
  rs_Extends := rs_Extends child;
  rs_Target := inherit (rs_Target parent) (rs_Target child);
  rs_Conditions := inherit (rs_Conditions parent) (rs_Conditions child);
  rs_Enforcement := inherit (rs_Enforcement parent) (rs_Enforcement child);
  rs_BypassActors := mergeKeyed bypassActorKey (rs_BypassActors parent) (rs_BypassActors child);
  rs_Rules := mergeRules (rs_Rules parent) (rs_Rules child) |}.

(** ** Keyed merging *)
Section KeyedLemmas.
Context {T : Type} (key : T → string).
Implicit Types (l out parent child : list T).

Lemma index_by_last l k : index_by key l !! k = last (group key k l).
Proof.
  induction l as [|e l IH] using rev_ind; [done|].
  rewrite index_by_app, lookup_insert, group_snoc. case_decide; [by rewrite last_snoc|by rewrite app_nil_r].
Qed.

Lemma group_app k l1 l2 : group key k (l1 ++ l2) = group key k l1 ++ group key k l2.
Proof. apply filter_app. Qed.

(** The first loop replaces the first parent entry of every overridden key and drops the others. *)
Lemma parent_loop m parent :
  (∀ k c, m !! k = Some c → key c = k) →
  let '(out, done) := foldl (parent_step key m) ([], ∅) parent in
  ∀ k, match m !! k with
  | None => group key k out = group key k parent ∧ k ∉ done
  | Some c => (group key k parent = [] ∧ group key k out = [] ∧ k ∉ done) ∨
              (group key k parent ≠ [] ∧ group key k out = [c] ∧ k ∈ done)
  end.
Proof.
  intros Hm. induction parent as [|e parent IH] using rev_ind; simpl.
  { intros k. destruct (m !! k); [left|]; by split_and!; [..|set_solver]. }
  rewrite foldl_app. simpl. destruct (foldl _ _ parent) as [out done]. unfold parent_step.
  destruct (m !! key e) as [c|] eqn:Hc; [destruct (bool_decide (key e ∈ done)) eqn:Hd|].
  - apply bool_decide_eq_true in Hd. intros k. rewrite group_snoc. specialize (IH k).
    case_decide as E; [subst k|by rewrite app_nil_r]. rewrite Hc in IH |- *.
    right. destruct IH as [(_ & _ & ?)|(_ & ? & ?)]; [done|]. split_and!; [by destruct (group key (key e) parent)|done|done].
  - apply bool_decide_eq_false in Hd. intros k. rewrite !group_snoc, (Hm _ _ Hc). specialize (IH k).
    case_decide as E; [subst k|rewrite !app_nil_r; destruct (m !! k); set_solver].
    rewrite Hc in IH |- *. right. destruct IH as [(-> & -> & _)|(_ & _ & ?)]; [|done]. split_and!; [done|done|set_solver].
  - intros k. rewrite !group_snoc. specialize (IH k). case_decide as E; [subst k|by rewrite !app_nil_r].
    rewrite Hc in IH |- *. destruct IH as [-> ?]. done.
Qed.

(** The second loop appends the child entries whose key the parent does not have. *)
Lemma child_loop m child parent out0 done0 :
  (∀ k c, m !! k = Some c → key c = k) → (∀ e, e ∈ child → is_Some (m !! key e)) →
  (∀ k, match m !! k with
   | None => group key k out0 = group key k parent ∧ k ∉ done0
   | Some c => (group key k parent = [] ∧ group key k out0 = [] ∧ k ∉ done0) ∨
               (group key k parent ≠ [] ∧ group key k out0 = [c] ∧ k ∈ done0)
   end) →
  let '(out, done) := foldl (child_step key m) (out0, done0) child in
  ∀ k, match m !! k with
  | None => group key k out = group key k parent ∧ k ∉ done
  | Some c => (group key k child = [] ∧ k ∉ done ∧ group key k out = []) ∨ (group key k out = [c] ∧ k ∈ done)
  end.
Proof.
  intros Hm Hin Hstart. induction child as [|e child IH] using rev_ind; simpl.
  { intros k. specialize (Hstart k). destruct (m !! k); [|done]. naive_solver. }
  rewrite foldl_app. simpl. assert (∀ e, e ∈ child → is_Some (m !! key e)) as Hin' by (intros; apply Hin; set_solver).
  specialize (IH Hin').
  destruct (foldl _ _ child) as [out done]. unfold child_step.
  destruct (Hin e) as [c Hc]; [set_solver|].
  destruct (bool_decide (key e ∈ done)) eqn:Hd; [apply bool_decide_eq_true in Hd|apply bool_decide_eq_false in Hd].
  - intros k. rewrite group_snoc. specialize (IH k). case_decide as E; [subst k|by rewrite app_nil_r].
    rewrite Hc in IH |- *. right. naive_solver.
  - intros k. rewrite Hc. cbn [from_option]. rewrite !group_snoc, (Hm _ _ Hc). specialize (IH k).
    case_decide as E; [subst k|rewrite !app_nil_r; destruct (m !! k); set_solver].
    rewrite Hc in IH |- *. right. destruct IH as [(_ & _ & ->)|[_ ?]]; [|done]. split; [done|set_solver].
Qed.

(** What [mergeKeyed] does to each key: the last child entry with the key, if there is one, replaces all
    entries of the parent with the key. *)
Lemma mergeKeyed_group parent child k :
  group key k (mergeKeyed key parent child) =
  match last (group key k child) with Some c => [c] | None => group key k parent end.
Proof.
  unfold mergeKeyed. case_bool_decide as Hlen.
  { by destruct child. }
  set (m := index_by key child). rewrite <-index_by_last. fold m.
  assert (∀ k c, m !! k = Some c → key c = k) as Hm by (intros ?? H%index_by_Some; by destruct H).
  assert (∀ e, e ∈ child → is_Some (m !! key e)) as Hin by (intros e He; by apply index_by_elem).
  pose proof (parent_loop m parent Hm) as H1. destruct (foldl _ _ parent) as [out1 done1].
  pose proof (child_loop m child parent out1 done1 Hm Hin H1) as H2. destruct (foldl _ _ child) as [out done].
  simpl. specialize (H2 k). destruct (m !! k) as [c|] eqn:Hk; [|by destruct H2].
  destruct H2 as [(Hg & _ & _)|[? _]]; [|done].
  unfold m in Hk. rewrite index_by_last, Hg in Hk. done.
Qed.
End KeyedLemmas.

(** ** The documented behaviour *)

(** How a field of a ruleset is read: a comparable value with its zero value, a keyed list, or an object
    that is present or not.  Fields of an absent object have their zero value. *)
Inductive accessor :=
  | Scalar (T : Type) (eq : EqDecision T) (z : T) (get : RulesetSpec → T)
  | Keyed (T : Type) (key : T → string) (get : RulesetSpec → list T)
  | Object (present : RulesetSpec → bool).
Arguments Scalar {T eq} z get.
Arguments Keyed {T} key get.

(** The entries with one key of the parent, the child and the merged list: entries are inherited if the
    child has none, a single entry of the child replaces them, and of several the last one wins. *)
Definition keyed_merge {T} (parent child merged : list T) : Prop :=
  (child = [] → merged = parent) ∧
  (∀ e, child = [e] → merged = [e]) ∧
  last merged = match last child with Some e => Some e | None => last parent end.

(** What a merge kind promises for a field. *)
Definition behaves (kind : MergeKind) (a : accessor) (parent child : RulesetSpec) : Prop :=
  match kind, a with
  | MergeOwn, Scalar z get => get (mergeSpec parent child) = get child
  | MergeInherit, Scalar z get | MergeAtomic, Scalar z get =>
      get (mergeSpec parent child) = if decide (get child = z) then get parent else get child
  | MergeKeyed, Keyed key get => ∀ k,
      keyed_merge (group key k (get parent)) (group key k (get child)) (group key k (get (mergeSpec parent child)))
  | MergeRecursive, Object present => present (mergeSpec parent child) = present parent || present child
  | _, _ => False
  end.

Definition in_object {O T} (sub : RulesetRules → option O) (z : T) (get : O → T) (s : RulesetSpec) : T :=
  from_option get z (sub (rs_Rules s)).
Definition has_object {O} (sub : RulesetRules → option O) (s : RulesetSpec) : bool :=
  bool_decide (is_Some (sub (rs_Rules s))).

Definition spec_fields : list (string * accessor) := [
  ("name", Scalar "" rs_Name);
  ("extends", Scalar "" rs_Extends);
  ("target", Scalar "" rs_Target);
  ("conditions", Scalar None rs_Conditions);
  ("enforcement", Scalar "" rs_Enforcement);
  ("bypassActors", Keyed bypassActorKey rs_BypassActors);
  ("rules", Object (λ _, true));
  ("rules.creation", Scalar None (ru_Creation ∘ rs_Rules));
  ("rules.update", Scalar None (ru_Update ∘ rs_Rules));
  ("rules.deletion", Scalar None (ru_Deletion ∘ rs_Rules));
  ("rules.requiredLinearHistory", Scalar None (ru_RequiredLinearHistory ∘ rs_Rules));
  ("rules.requiredSignatures", Scalar None (ru_RequiredSignatures ∘ rs_Rules));
  ("rules.nonFastForward", Scalar None (ru_NonFastForward ∘ rs_Rules));
  ("rules.pullRequest", Object (has_object ru_PullRequest));
  ("rules.pullRequest.allowedMergeMethods", Scalar [] (in_object ru_PullRequest [] pr_AllowedMergeMethods));
  ("rules.pullRequest.dismissStaleReviewsOnPush",
    Scalar None (in_object ru_PullRequest None pr_DismissStaleReviewsOnPush));
  ("rules.pullRequest.requireCodeOwnerReviews",
    Scalar None (in_object ru_PullRequest None pr_RequireCodeOwnerReviews));
  ("rules.pullRequest.requireLastPushApproval",
    Scalar None (in_object ru_PullRequest None pr_RequireLastPushApproval));
  ("rules.pullRequest.requiredApprovingReviewCount",
    Scalar 0 (in_object ru_PullRequest 0 pr_RequiredApprovingReviewCount));
  ("rules.pullRequest.requiredReviewThreadResolution",
    Scalar None (in_object ru_PullRequest None pr_RequiredReviewThreadResolution));
  ("rules.pullRequest.requiredReviewers",
    Keyed requiredReviewerKey (in_object ru_PullRequest [] pr_RequiredReviewers));
  ("rules.requiredStatusChecks", Object (has_object ru_RequiredStatusChecks));
  ("rules.requiredStatusChecks.checks", Keyed statusCheckKey (in_object ru_RequiredStatusChecks [] sc_Checks));
  ("rules.requiredStatusChecks.strictPolicy", Scalar None (in_object ru_RequiredStatusChecks None sc_StrictPolicy));
  ("rules.commitMessagePattern", Scalar None (ru_CommitMessagePattern ∘ rs_Rules));
  ("rules.commitAuthorEmailPattern", Scalar None (ru_CommitAuthorEmailPattern ∘ rs_Rules));
  ("rules.committerEmailPattern", Scalar None (ru_CommitterEmailPattern ∘ rs_Rules));
  ("rules.branchNamePattern", Scalar None (ru_BranchNamePattern ∘ rs_Rules));
  ("rules.tagNamePattern", Scalar None (ru_TagNamePattern ∘ rs_Rules));
  ("rules.copilotReview", Object (has_object ru_CopilotReview));
  ("rules.copilotReview.reviewOnPush", Scalar None (in_object ru_CopilotReview None cr_ReviewOnPush));
  ("rules.copilotReview.reviewDraftPullRequests",
    Scalar None (in_object ru_CopilotReview None cr_ReviewDraftPullRequests));
  ("rules.workflows", Object (has_object ru_Workflows));
  ("rules.workflows.doNotEnforceOnCreate", Scalar None (in_object ru_Workflows None ws_DoNotEnforceOnCreate));
  ("rules.workflows.workflows", Keyed workflowKey (in_object ru_Workflows [] ws_Workflows))].

Lemma inherit_spec {T} `{EqDecision T, Zero T} (p c : T) : inherit p c = if decide (c = zero) then p else c.
Proof. unfold inherit. case_decide; case_bool_decide; done. Qed.

(** A field of a recursively merged object, when the merge of the objects behaves well. *)
Lemma object_scalar {O T} `{EqDecision T} (z : T) (get : O → T) (merge : O → O → O) (p c : option O) :
  (∀ p c, get (merge p c) = if decide (get c = z) then get p else get c) →
  from_option get z (mergeObject p c merge) =
  if decide (from_option get z c = z) then from_option get z p else from_option get z c.
Proof. intros H. destruct p, c; simpl; [done|by rewrite decide_True|case_decide; done|by rewrite decide_True]. Qed.

Lemma mergeKeyed_merge {T} (key : T → string) p c k :
  keyed_merge (group key k p) (group key k c) (group key k (mergeKeyed key p c)).
Proof.
  rewrite mergeKeyed_group. split_and!.
  - by intros ->.
  - by intros e ->.
  - by destruct (last (group key k c)).
Qed.

Lemma object_keyed {O T} (key : T → string) (get : O → list T) (merge : O → O → O) (p c : option O) k :
  (∀ p c, get (merge p c) = mergeKeyed key (get p) (get c)) →
  keyed_merge (group key k (from_option get [] p)) (group key k (from_option get [] c))
    (group key k (from_option get [] (mergeObject p c merge))).
Proof.
  intros H. destruct p, c; simpl; [rewrite H; apply mergeKeyed_merge|..]; split_and!; try done.
  by destruct (last _).
Qed.

Lemma object_present {O} (merge : O → O → O) (p c : option O) :
  bool_decide (is_Some (mergeObject p c merge)) = bool_decide (is_Some p) || bool_decide (is_Some c).
Proof. by destruct p, c. Qed.

Lemma mergePullRequest_methods p c (D : Decision (pr_AllowedMergeMethods c = [])) :
  pr_AllowedMergeMethods (mergePullRequest p c) =
  if D then pr_AllowedMergeMethods p else pr_AllowedMergeMethods c.
Proof. simpl. destruct D as [->|Hne]; [done|]. by destruct (pr_AllowedMergeMethods c). Qed.

(** [mergeSpec] treats every field of a ruleset the way the table [MergeRules] documents: own fields
    are the child's, inherited and atomic fields the child's unless unset, keyed lists are merged entry by
    entry, and merged objects exist if either side has one. *)
Theorem MergeRules_hold :
  Forall2 (λ '(path, kind) '(path', field),
    path = path' ∧ ∀ parent child, behaves kind field parent child) MergeRules spec_fields.
Proof.
  unfold MergeRules, spec_fields. repeat apply Forall2_cons_2; [..|apply Forall2_nil_2];
    (split; [reflexivity|]); intros parent child; simpl; try done; unfold in_object, has_object, compose; simpl;
    first
    [ apply inherit_spec
    | intros k; apply mergeKeyed_merge
    | apply object_present
    | intros k; apply object_keyed; intros; reflexivity
    | apply object_scalar; intros; first [apply mergePullRequest_methods|apply inherit_spec] ].
Qed.
