(* ===== verification/RulesetResolve.v ===== *)
(** * Resolving and collecting rulesets (internal/reconciler/common/rulesets/resolve.go, collect.go)

    [ChainResolver] follows the [extends] chain of a ruleset through the presets of a namespace, [Collect]
    combines the rulesets of the referenced presets and the inline rulesets of a resource. *)
From S2P Require Import Prelude GoErrors Conditions ApiTypes Merge RulesetMerge.

Definition MaxExtendsDepth : nat := 5.
Definition DefaultTarget : string := "branch".

Section Resolver.
Context {W : Type}.
(** [client.Reader.Get] for RulesetPresets, by namespace and name, and [apierrors.IsNotFound]. *)
Context (Get : string → string → W → res RulesetPreset * W) (IsNotFound : gerror → bool).

Record ChainResolver := { cr_namespace : string; cr_presets : gmap string RulesetPreset }.
Definition NewChainResolver (namespace : string) : ChainResolver := {| cr_namespace := namespace; cr_presets := ∅ |}.

Definition GetPreset (r : ChainResolver) (name : string) : prog W (res RulesetPreset * ChainResolver) :=
  match cr_presets r !! name with
  | Some p => Ret (inl p, r)
  | None =>
    let! got := call (Get (cr_namespace r) name) in
    Ret (match got with
    | inr err => (inr err, r)
    | inl preset =>
      (inl preset, {| cr_namespace := cr_namespace r; cr_presets := <[name := preset]> (cr_presets r) |})
    end)
  end.

(** The loop of [Resolve].  [levels] is how many levels are still allowed,
    [MaxExtendsDepth - len(chain)], so the loop ends after at most [MaxExtendsDepth + 1] rounds.
    [specs] leaves out the first element, the spec itself. *)
Fixpoint resolve_walk (levels : nat) (ruleset next : string) (specs : list RulesetSpec) (chain : list string)
    (seen : gset string) (r : ChainResolver)
    : prog W (((list RulesetSpec * list string) + gerror) * ChainResolver) :=
  if bool_decide (next = "") then Ret (inl (specs, chain), r)
  else
    let chain := chain ++ [next] in
    if bool_decide (next ∈ seen) then Ret (inr (EUnresolved ruleset chain ReasonExtendsCycle None), r)
    else match levels with
    | O => Ret (inr (EUnresolved ruleset chain ReasonExtendsTooDeep
             (Some (EPlain "at most 5 levels are allowed"))), r)
    | S levels =>
      let! got := GetPreset r next in
      let '(preset, r) := got in
      match preset with
      | inr err =>
        Ret (inr (if IsNotFound err then EUnresolved ruleset chain ReasonParentNotFound None
                  else EUnresolved ruleset chain ReasonParentUnavailable (Some err)), r)
      | inl preset =>
        resolve_walk levels ruleset (rs_Extends (rp_Spec preset)) (specs ++ [rp_Spec preset]) chain
          ({[ next ]} ∪ seen) r
      end
    end.

(** The ancestors are merged from the root of the chain down to the spec. *)
Fixpoint merge_chain (spec : RulesetSpec) (ancestors : list RulesetSpec) : RulesetSpec :=
  match ancestors with
  | [] => spec
  | parent :: rest => mergeSpec (merge_chain parent rest) spec
  end.

Definition defaulted (s : RulesetSpec) : RulesetSpec := {|
  rs_Name := rs_Name s; rs_Extends := "";
  rs_Target := if bool_decide (rs_Target s = "") then DefaultTarget else rs_Target s;
  rs_Conditions := rs_Conditions s; rs_Enforcement := rs_Enforcement s;
  rs_BypassActors := rs_BypassActors s; rs_Rules := rs_Rules s |}.

Definition Resolve (r : ChainResolver) (spec : RulesetSpec) (self : string)
    : prog W (res RulesetSpec * ChainResolver) :=
  let seen : gset string := if bool_decide (self = "") then ∅ else {[ self ]} in
  let! walked := resolve_walk MaxExtendsDepth (rs_Name spec) (rs_Extends spec) [] [] seen r in
  let '(outcome, r) := walked in
  Ret (match outcome with
  | inr err => (inr err, r)
  | inl (specs, chain) =>
    let result := defaulted (merge_chain spec specs) in
    if bool_decide (rs_Enforcement result = "")
    then (inr (EUnresolved (rs_Name spec) chain ReasonNoEnforcement
           (Some (EPlain "no ruleset in the chain sets enforcement"))), r)
    else (inl result, r)
  end).

(** [Ancestors]: the loop condition bounds the number of presets. *)
Fixpoint ancestors_walk (levels : nat) (next : string) (result : list RulesetPreset) (seen : gset string)
    (r : ChainResolver) : prog W (res (list RulesetPreset) * ChainResolver) :=
  match levels with
  | O => Ret (inl result, r)
  | S levels =>
    if bool_decide (next = "") || bool_decide (next ∈ seen) then Ret (inl result, r)
    else
      let! got := GetPreset r next in
      let '(preset, r) := got in
      match preset with
      | inr err => Ret (if IsNotFound err then inl result else inr err, r)
      | inl preset =>
        ancestors_walk levels (rs_Extends (rp_Spec preset)) (result ++ [preset]) ({[ next ]} ∪ seen) r
      end
  end.

Definition Ancestors (r : ChainResolver) (extends self : string) : prog W (res (list RulesetPreset) * ChainResolver) :=
  ancestors_walk MaxExtendsDepth extends [] (if bool_decide (self = "") then ∅ else {[ self ]}) r.

(** ** Collect (collect.go) *)
Record Desired := {
  d_Source : string;
  d_Spec : RulesetSpec;
  d_Unresolved : option gerror;   (* an [EUnresolved] *)
  d_raw : RulesetSpec
}.

Definition PresetSource (name : string) : string := "rulesetPreset/" +:+ name.

Definition resolveDesired (r : ChainResolver) (source : string) (spec : RulesetSpec) (self : string)
    : prog W (Desired * ChainResolver) :=
  let! resolved := Resolve r spec self in
  let '(resolved, r) := resolved in
  Ret (match resolved with
  | inl resolved => {| d_Source := source; d_Spec := resolved; d_Unresolved := None; d_raw := spec |}
  | inr err =>
    let unresolved :=
      from_option id (EUnresolved (rs_Name spec) [] ReasonParentUnavailable (Some err))
        (as_type (λ e, match e with EUnresolved _ _ _ _ => Some e | _ => None end) err) in
    {| d_Source := source; d_Spec := spec; d_Unresolved := Some unresolved; d_raw := spec |}
  end, r).

Fixpoint collect_presets (r : ChainResolver) (presetRefs : list string) : prog W (res (list Desired) * ChainResolver) :=
  match presetRefs with
  | [] => Ret (inl [], r)
  | ref :: presetRefs =>
    let! got := GetPreset r ref in
    let '(preset, r) := got in
    match preset with
    | inr err => Ret (inr (EWrap ("failed to get ruleset preset " +:+ ref) err), r)
    | inl preset =>
      let! one := resolveDesired r (PresetSource ref) (rp_Spec preset) ref in
      let '(one, r) := one in
      let! rest := collect_presets r presetRefs in
      let '(rest, r) := rest in
      Ret (match rest with inl rest => inl (one :: rest) | inr err => inr err end, r)
    end
  end.

Fixpoint collect_inline (r : ChainResolver) (idx : nat) (inline : list RulesetSpec) : prog W (list Desired) :=
  match inline with
  | [] => Ret []
  | spec :: inline =>
    let! one := resolveDesired r (InlineSource idx) spec "" in
    let '(one, r) := one in
    let! rest := collect_inline r (S idx) inline in
    Ret (one :: rest)
  end.

Definition collect_candidates (namespace : string) (presetRefs : list string) (inline : list RulesetSpec)
    : prog W (res (list Desired)) :=
  let! presets := collect_presets (NewChainResolver namespace) presetRefs in
  let '(presets, r) := presets in
  match presets with
  | inr err => Ret (inr err)
  | inl presets =>
    let! inlined := collect_inline r 0 inline in
    Ret (inl (presets ++ inlined))
  end.
End Resolver.

Definition desired_equal (a b : Desired) : bool :=
  match d_Unresolved a, d_Unresolved b with
  | None, None => bool_decide (d_Spec a = d_Spec b)
  | _, _ => bool_decide (d_raw a = d_raw b)
  end.

Definition d_Name (d : Desired) : string := rs_Name (d_Spec d).

(** [markUnresolvedDuplicates]. *)
Definition unresolved_by_name (candidates : list Desired) : gmap string Desired :=
  foldl (λ m c, match d_Unresolved c with Some _ => <[d_Name c := c]> m | None => m end) ∅ candidates.

Definition markUnresolvedDuplicates (candidates result : list Desired) : list Desired :=
  let unresolved := unresolved_by_name candidates in
  (λ d, match unresolved !! d_Name d, d_Unresolved d with
        | Some u, None => {| d_Source := d_Source d; d_Spec := d_Spec u; d_Unresolved := d_Unresolved u; d_raw := d_raw d |}
        | _, _ => d
        end) <$> result.

(** The part of [Collect] after the candidates are known. *)
Definition combine (candidates : list Desired) : res (list Desired) :=
  let '(result, conflicts) := Dedupe d_Name desired_equal d_Source candidates in
  match errors_join ((λ c, Some (EConflict (cf_Key c) (cf_Sources c))) <$> conflicts) with
  | Some err => inr err
  | None => inl (markUnresolvedDuplicates candidates result)
  end.

Definition Collect {W} (Get : string → string → W → res RulesetPreset * W) (IsNotFound : gerror → bool)
    (namespace : string) (presetRefs : list string) (inline : list RulesetSpec) : prog W (res (list Desired)) :=
  let? candidates := collect_candidates Get IsNotFound namespace presetRefs inline in
  Ret (combine candidates).

(** ** What [Resolve] computes

    The cluster as the reader sees it during one reconciliation: [lookup] says what it answers. *)
Section ResolveTheorems.
Context {W : Type} (Get : string → string → W → res RulesetPreset * W) (IsNotFound : gerror → bool).
Context (lookup : string → string → res RulesetPreset).
Context (reads : ∀ ns name w, Get ns name w = (lookup ns name, w)).

(** [path ns start l next]: following the extends references from [start] over the presets [l] leads
    to the reference [next]. *)
Inductive path (ns start : string) : list (string * RulesetPreset) → string → Prop :=
  | path_nil : path ns start [] start
  | path_snoc l next p :
      path ns start l next → next ≠ "" → lookup ns next = inl p →
      path ns start (l ++ [(next, p)]) (rs_Extends (rp_Spec p)).

(** The memoized presets are what the reader answers. *)
Definition memo_ok (r : ChainResolver) : Prop :=
  ∀ name p, cr_presets r !! name = Some p → lookup (cr_namespace r) name = inl p.

Lemma GetPreset_spec r name w :
  memo_ok r →
  ∃ r', run (GetPreset Get r name) w = ((lookup (cr_namespace r) name, r'), w) ∧
    memo_ok r' ∧ cr_namespace r' = cr_namespace r.
Proof.
  intros Hr. unfold GetPreset. destruct (cr_presets r !! name) as [p|] eqn:E.
  { exists r. by rewrite (Hr _ _ E). }
  rewrite run_bind, run_call, reads. step_run. destruct (lookup (cr_namespace r) name) as [p|err] eqn:Hl.
  - eexists. split; [done|]. split; [|done]. intros n q. simpl. rewrite lookup_insert.
    case_decide; [intros [= <-]; by subst|apply Hr].
  - by exists r.
Qed.

Definition seen_of (self : string) (names : list string) : gset string :=
  list_to_set names ∪ (if bool_decide (self = "") then ∅ else {[ self ]}).

(** Why a chain could not be resolved. *)
Definition unresolved_because (ns self : string) (spec : RulesetSpec) (err : gerror) : Prop :=
  ∃ l next, path ns (rs_Extends spec) l next ∧ NoDup l.*1 ∧ (self ≠ "" → self ∉ l.*1) ∧
    let fail chain reason cause := err = EUnresolved (rs_Name spec) chain reason cause in
    (next ≠ "" ∧ (next ∈ l.*1 ∨ next = self) ∧ fail (l.*1 ++ [next]) ReasonExtendsCycle None) ∨
    (next ≠ "" ∧ length l = MaxExtendsDepth ∧ ∃ cause, fail (l.*1 ++ [next]) ReasonExtendsTooDeep cause) ∨
    (∃ e, next ≠ "" ∧ lookup ns next = inr e ∧ IsNotFound e = true ∧ fail (l.*1 ++ [next]) ReasonParentNotFound None) ∨
    (∃ e, next ≠ "" ∧ lookup ns next = inr e ∧ IsNotFound e = false ∧
       fail (l.*1 ++ [next]) ReasonParentUnavailable (Some e)) ∨
    (next = "" ∧ rs_Enforcement (merge_chain spec (rp_Spec <$> l.*2)) = "" ∧
       ∃ cause, fail l.*1 ReasonNoEnforcement cause).

Lemma elem_of_seen self names next :
  next ∈ seen_of self names ↔ next ∈ names ∨ (self ≠ "" ∧ next = self).
Proof.
  unfold seen_of. rewrite elem_of_union, elem_of_list_to_set. case_bool_decide; set_solver.
Qed.

Lemma resolve_walk_spec spec self r0 : ∀ levels l next r w,
  memo_ok r → cr_namespace r = cr_namespace r0 →
  path (cr_namespace r0) (rs_Extends spec) l next → NoDup l.*1 → (self ≠ "" → self ∉ l.*1) →
  (levels + length l = MaxExtendsDepth)%nat →
  let '((out, r'), w') := run (resolve_walk Get IsNotFound levels (rs_Name spec) next (rp_Spec <$> l.*2) l.*1
    (seen_of self l.*1) r) w in
  w' = w ∧ memo_ok r' ∧ cr_namespace r' = cr_namespace r0 ∧
  match out with
  | inl (specs, chain) => ∃ l', specs = rp_Spec <$> l'.*2 ∧ chain = l'.*1 ∧ path (cr_namespace r0) (rs_Extends spec) l' "" ∧
      NoDup l'.*1 ∧ (self ≠ "" → self ∉ l'.*1) ∧ (length l' ≤ MaxExtendsDepth)%nat
  | inr err => unresolved_because (cr_namespace r0) self spec err
  end.
Proof.
  induction levels as [|levels IH]; intros l next r w Hr Hns Hpath Hnd Hself Hlen; cbn [resolve_walk].
  - case_bool_decide as Hnext; [subst next|case_bool_decide as Hseen].
    + simpl. split_and!; try done. exists l. split_and!; try done. lia.
    + simpl. split_and!; try done. apply elem_of_seen in Hseen. exists l, next. split_and!; try done. left. naive_solver.
    + simpl. split_and!; try done. exists l, next. split_and!; try done. right; left. split_and!; [done|exact Hlen|by eexists].
  - case_bool_decide as Hnext; [subst next|case_bool_decide as Hseen].
    + simpl. split_and!; try done. exists l. split_and!; try done. lia.
    + simpl. split_and!; try done. apply elem_of_seen in Hseen. exists l, next. split_and!; try done. left. naive_solver.
    + rewrite run_bind. destruct (GetPreset_spec r next w Hr) as (r1 & -> & Hr1 & Hns1). step_run.
      rewrite Hns. destruct (lookup (cr_namespace r0) next) as [p|e] eqn:Hl; cycle 1.
      { simpl. split_and!; try done; [congruence|]. exists l, next. split_and!; try done.
        destruct (IsNotFound e) eqn:Hnf; [right; right; left|right; right; right; left]; by exists e. }
      specialize (IH (l ++ [(next, p)]) (rs_Extends (rp_Spec p)) r1 w Hr1).
      rewrite !fmap_app in IH. cbn [fmap list_fmap fst snd] in IH.
      rewrite elem_of_seen in Hseen.
      assert ({[ next ]} ∪ seen_of self l.*1 = seen_of self (l.*1 ++ [next])) as ->.
      { unfold seen_of. rewrite list_to_set_app_L. set_solver. }
      apply IH; [congruence|by apply path_snoc| | |rewrite length_app; simpl; lia].
      * apply NoDup_app. split_and!; [done| |apply NoDup_singleton]. set_solver.
      * set_solver.
Qed.

(** C17: in a cluster that does not change meanwhile, [Resolve] succeeds exactly on extends chains that are
    complete, free of cycles, at most [MaxExtendsDepth] presets long and set an enforcement, and the
    result is the chain merged from its root down, with target defaulted and extends cleared; every
    failure is an [UnresolvedError] that names the chain walked and the reason.  It always returns, whatever
    the references look like. *)
Theorem Resolve_spec r spec self w :
  memo_ok r →
  let '((out, r'), w') := run (Resolve Get IsNotFound r spec self) w in
  w' = w ∧ memo_ok r' ∧
  match out with
  | inl result => ∃ l, path (cr_namespace r) (rs_Extends spec) l "" ∧ NoDup l.*1 ∧ (self ≠ "" → self ∉ l.*1) ∧
      (length l ≤ MaxExtendsDepth)%nat ∧ result = defaulted (merge_chain spec (rp_Spec <$> l.*2)) ∧
      rs_Enforcement result ≠ "" ∧ rs_Target result ≠ "" ∧ rs_Extends result = "" ∧ rs_Name result = rs_Name spec
  | inr err => unresolved_because (cr_namespace r) self spec err
  end.
Proof.
  intros Hr. unfold Resolve. rewrite run_bind.
  assert ((if bool_decide (self = "") then ∅ else {[ self ]}) = seen_of self ([] : list (string * RulesetPreset)).*1) as ->.
  { unfold seen_of. simpl. by rewrite (left_id_L ∅ (∪)). }
  pose proof (resolve_walk_spec spec self r MaxExtendsDepth [] (rs_Extends spec) r w Hr eq_refl (path_nil _ _)
    (NoDup_nil_2) (λ _, not_elem_of_nil _) eq_refl) as H. cbn [fmap list_fmap] in H.
  cbn [fmap list_fmap]. destruct (run (resolve_walk _ _ _ _ _ _ _ _ _) w) as [[out r'] w']. step_run.
  destruct H as (-> & Hr' & _ & Hout). destruct out as [[specs chain]|err]; [|by simpl].
  destruct Hout as (l & -> & -> & Hpath & Hnd & Hself & Hlen). case_bool_decide as Henf; simpl.
  - split_and!; [done|done|]. exists l, "". split_and!; try done. do 4 right. split_and!; [done|done|]. by eexists.
  - split_and!; [done|done|]. exists l. split_and!; try done.
    + case_bool_decide; done.
    + destruct l as [|[? ?] ?]; done.
Qed.
End ResolveTheorems.

(** ** What [Collect] returns *)
Section CollectTheorems.
Implicit Types (cs ds : list Desired).

Lemma unresolved_by_name_Some cs k u :
  unresolved_by_name cs !! k = Some u → u ∈ cs ∧ d_Name u = k ∧ is_Some (d_Unresolved u).
Proof.
  unfold unresolved_by_name. induction cs as [|c cs IH] using rev_ind; [done|].
  rewrite foldl_app. simpl. destruct (d_Unresolved c) eqn:Hc; [|set_solver].
  rewrite lookup_insert. case_decide; [intros [= <-]|]; set_solver.
Qed.

Lemma unresolved_by_name_None cs c :
  c ∈ cs → unresolved_by_name cs !! d_Name c = None → d_Unresolved c = None.
Proof.
  unfold unresolved_by_name. induction cs as [|c' cs IH] using rev_ind; [set_solver|].
  rewrite foldl_app. simpl. intros [Hc| ->%list_elem_of_singleton]%elem_of_app.
  - destruct (d_Unresolved c'); [|auto]. rewrite lookup_insert_None. intros [? _]. auto.
  - destruct (d_Unresolved c') as [e|]; [|done]. by rewrite lookup_insert_None; intros [_ ?].
Qed.

(** What [markUnresolvedDuplicates] makes of one entry. *)
Lemma mark_spec cs ds d' :
  d' ∈ markUnresolvedDuplicates cs ds →
  ∃ d, d ∈ ds ∧ d_Name d' = d_Name d ∧
    ((d' = d ∧ (is_Some (d_Unresolved d) ∨ unresolved_by_name cs !! d_Name d = None)) ∨
     ∃ u, unresolved_by_name cs !! d_Name d = Some u ∧ d_Unresolved d' = d_Unresolved u).
Proof.
  unfold markUnresolvedDuplicates. intros (d & -> & Hd)%list_elem_of_fmap. exists d. split; [done|].
  destruct (unresolved_by_name cs !! d_Name d) as [u|] eqn:Hu; [|naive_solver].
  destruct (d_Unresolved d) eqn:Hd'; [naive_solver|]. apply unresolved_by_name_Some in Hu as (_ & Hn & _).
  split; [done|]. right. by exists u.
Qed.

Lemma mark_names cs ds : d_Name <$> markUnresolvedDuplicates cs ds = d_Name <$> ds.
Proof.
  unfold markUnresolvedDuplicates. rewrite <-list_fmap_compose. apply list_fmap_ext. intros i d _. simpl.
  destruct (unresolved_by_name cs !! d_Name d) as [u|] eqn:Hu; [|done].
  apply unresolved_by_name_Some in Hu as (_ & Hn & _). by destruct (d_Unresolved d).
Qed.

(** A set of desired rulesets that is sound for the candidates: one entry per name, which is unresolved if
    any candidate of the name is, and otherwise what all candidates of the name agree on. *)
Definition sound_for cs ds : Prop :=
  NoDup (d_Name <$> ds) ∧
  (∀ name, name ∈ d_Name <$> ds ↔ name ∈ d_Name <$> cs) ∧
  (∀ d e, d ∈ ds → d_Unresolved d = Some e → ∃ c, c ∈ cs ∧ d_Name c = d_Name d ∧ d_Unresolved c = Some e) ∧
  (∀ d c, d ∈ ds → c ∈ cs → d_Name c = d_Name d → d_Unresolved d = None →
     d_Unresolved c = None ∧ d_Spec c = d_Spec d).

Lemma combine_sound cs ds : combine cs = inl ds → sound_for cs ds.
Proof.
  unfold combine. destruct (Dedupe d_Name desired_equal d_Source cs) as [kept conflicts] eqn:Hdd.
  rewrite (list_fmap_compose (λ c, EConflict (cf_Key c) (cf_Sources c)) Some), errors_join_Some.
  destruct conflicts as [|cf cfs]; simpl; [|done]. intros [= <-].
  pose proof (dedupe_kept d_Name desired_equal d_Source cs) as [Hsub Hfirst]. rewrite Hdd in Hsub, Hfirst. simpl in Hsub, Hfirst.
  pose proof (dedupe_kept_for d_Name desired_equal d_Source cs) as Hfor. rewrite Hdd in Hfor. simpl in Hfor.
  assert (NoDup (d_Name <$> kept)) as Hnd.
  { apply group_NoDup. intros k. rewrite Hfirst, length_take. lia. }
  unfold sound_for. rewrite mark_names. split_and!; [done| | |].
  - intros name. rewrite !list_elem_of_fmap. split.
    + intros (d & -> & Hd). exists d. split; [done|]. by eapply elem_of_sublist.
    + intros (c & -> & Hc). destruct (Hfor c Hc) as (d & Hd & Hn & _). by exists d.
  - intros d' e (d & Hd & Hn & [(-> & _)|(u & Hu & He)])%mark_spec Hun.
    + exists d. split; [by eapply elem_of_sublist|done].
    + apply unresolved_by_name_Some in Hu as (Hu & Hun' & _). exists u. split_and!; [done|congruence|congruence].
  - intros d' c (d & Hd & Hn & Hmark)%mark_spec Hc Hname Hres.
    destruct Hmark as [(-> & [(e & He)|Hnone])|(u & Hu & He)]; [congruence| |].
    + assert (d_Unresolved c = None) as Hcr by (apply (unresolved_by_name_None cs); [done|congruence]).
      split; [done|]. destruct (Hfor c Hc) as (d0 & Hd0 & Hn0 & Heq).
      assert (d0 = d) as ->.
      { apply (NoDup_key_inj d_Name kept); [done..|congruence]. }
      destruct Heq as [->|[?|Heq]]; [done|done|]. revert Heq. unfold desired_equal. rewrite Hres, Hcr.
      by intros ->%bool_decide_eq_true.
    + apply unresolved_by_name_Some in Hu as (_ & _ & [e Hu]). congruence.
Qed.

Lemma combine_conflict cs err :
  combine cs = inr err →
  RequiresUserAction err = true ∧
  ∃ c1 c2, c1 ∈ cs ∧ c2 ∈ cs ∧ d_Name c1 = d_Name c2 ∧ desired_equal c1 c2 = false.
Proof.
  unfold combine. destruct (Dedupe d_Name desired_equal d_Source cs) as [kept conflicts] eqn:Hdd.
  rewrite (list_fmap_compose (λ c, EConflict (cf_Key c) (cf_Sources c)) Some), errors_join_Some.
  destruct conflicts as [|[k srcs] cfs]; [done|]. intros [= <-]. split.
  - apply RequiresUserAction_join. split; [done|]. apply Forall_cons. split; [done|]. change (list_fmap _ _ ?f ?l) with (f <$> l).
    apply Forall_fmap, Forall_forall. by intros.
  - destruct (dedupe_conflict d_Name desired_equal d_Source cs k srcs) as [H _]. rewrite Hdd in H.
    destruct (H (list_elem_of_here _ _)) as (_ & c1 & rest & Hg & (c2 & Hc2 & Hneq)%Exists_exists).
    assert (∀ c, c ∈ group d_Name k cs → c ∈ cs ∧ d_Name c = k) as Hin by (intros c [? ?]%list_elem_of_filter; done).
    rewrite Hg in Hin. destruct (Hin c1) as [? ?]; [apply list_elem_of_here|].
    destruct (Hin c2) as [? ?]; [by apply list_elem_of_further|]. exists c1, c2. split_and!; [done|done|congruence|done].
Qed.

(** [Collect] either reports an error, and then the definitions of some ruleset name really differ (an
    error that waits for the user), or returns one desired ruleset per name, in which a ruleset counts as
    resolved only if all its definitions were resolved and agree. *)
Theorem Collect_spec {W} (Get : string → string → W → res RulesetPreset * W) IsNotFound ns refs inline w :
  let '(candidates, w1) := run (collect_candidates Get IsNotFound ns refs inline) w in
  let '(out, w') := run (Collect Get IsNotFound ns refs inline) w in
  w' = w1 ∧
  match candidates with
  | inr err => out = inr err
  | inl cs =>
    match out with
    | inl ds => sound_for cs ds
    | inr err => RequiresUserAction err = true ∧
        ∃ c1 c2, c1 ∈ cs ∧ c2 ∈ cs ∧ d_Name c1 = d_Name c2 ∧ desired_equal c1 c2 = false
    end
  end.
Proof.
  unfold Collect. rewrite run_bind. destruct (run (collect_candidates _ _ _ _ _) w) as [[cs|err] w1]; step_run; [|done].
  simpl. split; [done|]. destruct (combine cs) as [ds|err] eqn:E; [by apply combine_sound|by apply combine_conflict].
Qed.
End CollectTheorems.

(** ** Witness: a chain of two presets *)
Section Witnesses.
Let spec name extends enforcement : RulesetSpec := {|
  rs_Name := name; rs_Extends := extends; rs_Target := ""; rs_Conditions := None; rs_Enforcement := enforcement;
  rs_BypassActors := []; rs_Rules := no_rules |}.
Let lookup (_ name : string) : res RulesetPreset :=
  if bool_decide (name = "base") then inl {| rp_Meta := no_meta; rp_Spec := spec "Base" "" "active" |}
  else if bool_decide (name = "mid") then inl {| rp_Meta := no_meta; rp_Spec := spec "Mid" "base" "" |}
  else inr notFoundStatus.
Let Get (ns name : string) (w : unit) : res RulesetPreset * unit := (lookup ns name, w).

Lemma Resolve_spec_witness :
  ∃ result r', run (Resolve Get (λ _, true) (NewChainResolver "ns") (spec "Mine" "mid" "") "") tt = ((inl result, r'), tt) ∧
    ∃ l, path lookup "ns" "mid" l "" ∧ (length l ≤ 5)%nat ∧ rs_Enforcement result = "active".
Proof.
  pose proof (Resolve_spec Get (λ _, true) lookup (λ _ _ _, eq_refl) (NewChainResolver "ns") (spec "Mine" "mid" "") "" tt
    (λ name p H, False_rect _ ltac:(simpl in H; by rewrite lookup_empty in H))) as H.
  destruct (run _ tt) as [[out r'] []] eqn:E. vm_compute in E. injection E as Hout Hr. rewrite <-Hout in H |- *.
  destruct H as (_ & _ & l & Hpath & _ & _ & Hlen & _). eexists _, r'. split; [reflexivity|].
  exists l. split; [exact Hpath|]. split; [exact Hlen|reflexivity].
Defined.
End Witnesses.
