(* ===== verification/RulesetMapper.v ===== *)
(** * Mapping and comparing rulesets (internal/mapper/github_ruleset_mapper.go)

    [RulesetSpecToGithubRuleset] builds the ruleset that is sent to GitHub, [RulesetsDiffer] decides
    whether the ruleset read from GitHub has to be updated.  The GitHub types are those of go-github; a slice
    of pointers is a list of values (GitHub never answers with null elements). *)
From stdpp Require Import pretty.
From S2P Require Import Prelude GoErrors Conditions ApiTypes.

(** ** The GitHub side *)
Record gh_RefName := { g_ref_Include : list string; g_ref_Exclude : list string }.
Record gh_RepositoryNames := { g_rn_Include : list string; g_rn_Exclude : list string; g_rn_Protected : option bool }.
Record gh_PropertyTarget := { g_pt_Name : string; g_pt_PropertyValues : list string; g_pt_Source : option string }.
Record gh_RepositoryProperty := { g_rp_Include : list gh_PropertyTarget; g_rp_Exclude : list gh_PropertyTarget }.
Record gh_Conditions := {
  g_RefName : option gh_RefName;
  g_RepositoryName : option gh_RepositoryNames;
  g_RepositoryProperty : option gh_RepositoryProperty }.
Record gh_BypassActor := {
  g_ActorID : option Z; g_ActorType : option string; g_BypassMode : option string }.
Record gh_Reviewer := { g_ReviewerID : option Z; g_ReviewerType : option string }.
Record gh_RequiredReviewer := {
  g_MinimumApprovals : option Z; g_FilePatterns : list string; g_Reviewer : option gh_Reviewer }.
Record gh_PullRequest := {
  g_AllowedMergeMethods : list string;
  g_DismissStaleReviewsOnPush : bool;
  g_RequireCodeOwnerReview : bool;
  g_RequireLastPushApproval : bool;
  g_RequiredApprovingReviewCount : Z;
  g_RequiredReviewThreadResolution : bool;
  g_RequiredReviewers : list gh_RequiredReviewer }.
Record gh_StatusCheck := { g_Context : string; g_IntegrationID : option Z }.
Record gh_StatusChecks := { g_Checks : list gh_StatusCheck; g_StrictPolicy : bool }.
Record gh_CopilotReview := { g_ReviewOnPush : bool; g_ReviewDraftPullRequests : bool }.
Record gh_Workflow := { g_wf_Path : string; g_wf_RepositoryID : option Z; g_wf_Ref : option string }.
Record gh_Workflows := { g_DoNotEnforceOnCreate : option bool; g_Workflows : list gh_Workflow }.
Record gh_Pattern := { g_Pattern : string; g_Operator : string; g_Negate : option bool }.
Record gh_Rules := {
  gr_Creation : option unit;
  gr_Update : option bool;       (* UpdateAllowsFetchAndMerge *)
  gr_Deletion : option unit;
  gr_RequiredLinearHistory : option unit;
  gr_NonFastForward : option unit;
  gr_RequiredSignatures : option unit;
  gr_PullRequest : option gh_PullRequest;
  gr_RequiredStatusChecks : option gh_StatusChecks;
  gr_CopilotCodeReview : option gh_CopilotReview;
  gr_Workflows : option gh_Workflows;
  gr_CommitMessagePattern : option gh_Pattern;
  gr_CommitAuthorEmailPattern : option gh_Pattern;
  gr_CommitterEmailPattern : option gh_Pattern;
  gr_BranchNamePattern : option gh_Pattern;
  gr_TagNamePattern : option gh_Pattern }.
Record RepositoryRuleset := {
  g_ID : option Z;
  g_Name : string;
  g_Target : option string;
  g_Enforcement : string;
  g_BypassActors : list gh_BypassActor;
  g_Conditions : option gh_Conditions;
  g_Rules : option gh_Rules }.

(** ** Mapping *)
Definition mapRepositoryPropertyTargets (l : list RepositoryPropertyTarget) : list gh_PropertyTarget :=
  (λ t, {| g_pt_Name := pt_Name t; g_pt_PropertyValues := pt_PropertyValues t; g_pt_Source := pt_Source t |}) <$> l.

Definition mapConditions (c : option RulesetConditions) : option gh_Conditions :=
  match c with
  | None => None
  | Some c => Some {|
      g_RefName := (λ r, {| g_ref_Include := rn_Include r; g_ref_Exclude := rn_Exclude r |}) <$> rc_RefName c;
      g_RepositoryName :=
        (λ n, {| g_rn_Include := nc_Include n; g_rn_Exclude := nc_Exclude n; g_rn_Protected := nc_Protected n |})
          <$> rc_RepositoryName c;
      g_RepositoryProperty :=
        match rc_RepositoryName c with
        | Some _ => None
        | None => (λ p, {| g_rp_Include := mapRepositoryPropertyTargets (pc_Include p);
                           g_rp_Exclude := mapRepositoryPropertyTargets (pc_Exclude p) |}) <$> rc_RepositoryProperty c
        end |}
  end.

Definition mapBypassActor (a : RulesetBypassActor) : gh_BypassActor := {|
  g_ActorID := ba_ActorID a;
  g_ActorType := Some (ba_ActorType a);
  g_BypassMode := if bool_decide (ba_BypassMode a ≠ "") then Some (ba_BypassMode a) else None |}.

Definition mapRequiredReviewers (l : list RequiredPullRequestReviewer) : list gh_RequiredReviewer :=
  (λ r, {| g_MinimumApprovals := Some (rr_MinimumApprovals r); g_FilePatterns := rr_FilePatterns r;
           g_Reviewer := Some {| g_ReviewerID := re_ID (rr_Reviewer r); g_ReviewerType := Some (re_Type (rr_Reviewer r)) |} |})
  <$> l.

Definition mapMergeMethod (m : string) : string :=
  if bool_decide (m = "rebase") then "rebase"
  else if bool_decide (m = "squash") then "squash"
  else if bool_decide (m = "merge") then "merge" else "merge".
Definition mapMergeMethods (l : list string) : list string :=
  if bool_decide (length l = 0%nat) then ["merge"] else mapMergeMethod <$> l.

Definition rule_set (o : option bool) : option unit := if WithDefault o false then Some tt else None.

Definition mapPattern (p : PatternRule) : gh_Pattern :=
  {| g_Pattern := pa_Pattern p; g_Operator := pa_Operator p; g_Negate := pa_Negate p |}.

Definition mapPullRequest (p : PullRequestRule) : gh_PullRequest := {|
  g_AllowedMergeMethods := mapMergeMethods (pr_AllowedMergeMethods p);
  g_DismissStaleReviewsOnPush := WithDefault (pr_DismissStaleReviewsOnPush p) false;
  g_RequireCodeOwnerReview := WithDefault (pr_RequireCodeOwnerReviews p) false;
  g_RequireLastPushApproval := WithDefault (pr_RequireLastPushApproval p) false;
  g_RequiredApprovingReviewCount := pr_RequiredApprovingReviewCount p;
  g_RequiredReviewThreadResolution := WithDefault (pr_RequiredReviewThreadResolution p) false;
  g_RequiredReviewers := mapRequiredReviewers (pr_RequiredReviewers p) |}.

Definition mapStatusChecks (c : RequiredStatusChecks) : gh_StatusChecks := {|
  g_Checks := (λ c, {| g_Context := sc_Context c; g_IntegrationID := sc_IntegrationID c |}) <$> sc_Checks c;
  g_StrictPolicy := WithDefault (sc_StrictPolicy c) false |}.

Definition mapWorkflows (w : WorkflowsRule) : gh_Workflows := {|
  g_DoNotEnforceOnCreate := ws_DoNotEnforceOnCreate w;
  g_Workflows := (λ w, {| g_wf_Path := wf_Path w; g_wf_RepositoryID := wf_ResolvedRepositoryID w; g_wf_Ref := wf_Ref w |})
    <$> ws_Workflows w |}.

Definition mapRules (rules : RulesetRules) : gh_Rules := {|
  gr_Creation := rule_set (ru_Creation rules);
  gr_Update := if WithDefault (ru_Update rules) false then Some true else None;
  gr_Deletion := rule_set (ru_Deletion rules);
  gr_RequiredLinearHistory := rule_set (ru_RequiredLinearHistory rules);
  gr_NonFastForward := rule_set (ru_NonFastForward rules);
  gr_RequiredSignatures := rule_set (ru_RequiredSignatures rules);
  gr_PullRequest := mapPullRequest <$> ru_PullRequest rules;
  gr_RequiredStatusChecks := mapStatusChecks <$> ru_RequiredStatusChecks rules;
  gr_CopilotCodeReview := (λ c, {| g_ReviewOnPush := WithDefault (cr_ReviewOnPush c) true;
      g_ReviewDraftPullRequests := WithDefault (cr_ReviewDraftPullRequests c) true |}) <$> ru_CopilotReview rules;
  gr_Workflows := mapWorkflows <$> ru_Workflows rules;
  gr_CommitMessagePattern := mapPattern <$> ru_CommitMessagePattern rules;
  gr_CommitAuthorEmailPattern := mapPattern <$> ru_CommitAuthorEmailPattern rules;
  gr_CommitterEmailPattern := mapPattern <$> ru_CommitterEmailPattern rules;
  gr_BranchNamePattern := mapPattern <$> ru_BranchNamePattern rules;
  gr_TagNamePattern := mapPattern <$> ru_TagNamePattern rules |}.

Definition RulesetSpecToGithubRuleset (spec : RulesetSpec) : res RepositoryRuleset :=
  if bool_decide (rs_Name spec = "") then inr (EPlain "ruleset name cannot be empty")
  else inl {|
    g_ID := None;
    g_Name := rs_Name spec;
    g_Target := Some (rs_Target spec);
    g_Enforcement := rs_Enforcement spec;
    g_BypassActors := mapBypassActor <$> rs_BypassActors spec;
    g_Conditions := mapConditions (rs_Conditions spec);
    g_Rules := Some (mapRules (rs_Rules spec)) |}.

(** ** Comparing *)

(** [stringSlicesEqual]: equal length, and every element of [b] occurs in [a]. *)
Definition stringSlicesEqual (a b : list string) : bool :=
  bool_decide (length a = length b) && forallb (λ s, bool_decide (s ∈ a)) b.

Definition actor_key (actorType : string) (actorID : option Z) : string :=
  actorType +:+ "/" +:+ pretty (WithDefault actorID 0).

Definition bypassActorsDiffer (presetActors : list RulesetBypassActor) (githubActors : list gh_BypassActor) : bool :=
  if negb (bool_decide (length presetActors = length githubActors)) then true
  else
    let presetActorMap := index_by (λ a, actor_key (ba_ActorType a) (ba_ActorID a)) presetActors in
    let githubActorMap := index_by (λ a, actor_key (default "unknown" (g_ActorType a)) (g_ActorID a)) githubActors in
    map_exists (λ key presetActor,
      match githubActorMap !! key with
      | None => true
      | Some githubActor =>
        negb (bool_decide (g_ActorType githubActor = Some (ba_ActorType presetActor))) ||
        negb (bool_decide (ba_BypassMode presetActor = default "" (g_BypassMode githubActor)))
      end) presetActorMap.

Definition refNameConditionsDiffer (preset : option RefNameCondition) (gh : option gh_RefName) : bool :=
  match preset, gh with
  | None, None => false
  | Some p, Some g =>
    negb (stringSlicesEqual (rn_Include p) (g_ref_Include g)) || negb (stringSlicesEqual (rn_Exclude p) (g_ref_Exclude g))
  | _, _ => true
  end.

Definition repositoryNameConditionsDiffer (preset : option RepositoryNameCondition) (gh : option gh_RepositoryNames) : bool :=
  match preset, gh with
  | None, None => false
  | Some p, Some g =>
    negb (stringSlicesEqual (nc_Include p) (g_rn_Include g)) || negb (stringSlicesEqual (nc_Exclude p) (g_rn_Exclude g)) ||
    negb (Bool.eqb (WithDefault (g_rn_Protected g) false) (WithDefault (nc_Protected p) false))
  | _, _ => true
  end.

Definition propertyTargetsDiffer (preset : list RepositoryPropertyTarget) (gh : list gh_PropertyTarget) : bool :=
  let presetMap := index_by pt_Name preset in
  let ghMap := index_by g_pt_Name gh in
  map_exists (λ name presetTarget,
    match ghMap !! name with
    | None => true
    | Some ghTarget =>
      negb (stringSlicesEqual (pt_PropertyValues presetTarget) (g_pt_PropertyValues ghTarget)) ||
      negb (bool_decide (WithDefault (pt_Source presetTarget) "custom" = WithDefault (g_pt_Source ghTarget) "custom"))
    end) presetMap.

Definition repositoryPropertyConditionsDiffer (preset : option RepositoryPropertyCondition)
    (gh : option gh_RepositoryProperty) : bool :=
  match preset, gh with
  | None, None => false
  | Some p, Some g =>
    negb (bool_decide (length (pc_Include p) = length (g_rp_Include g))) ||
    negb (bool_decide (length (pc_Exclude p) = length (g_rp_Exclude g))) ||
    propertyTargetsDiffer (pc_Include p) (g_rp_Include g) || propertyTargetsDiffer (pc_Exclude p) (g_rp_Exclude g)
  | _, _ => true
  end.

Definition conditionsDiffer (k8s : option RulesetConditions) (gh : option gh_Conditions) : bool :=
  match k8s, gh with
  | None, None => false
  | Some k, Some g =>
    refNameConditionsDiffer (rc_RefName k) (g_RefName g) ||
    repositoryNameConditionsDiffer (rc_RepositoryName k) (g_RepositoryName g) ||
    repositoryPropertyConditionsDiffer (rc_RepositoryProperty k) (g_RepositoryProperty g)
  | _, _ => true
  end.

Definition copilotCodeReviewDiffer (k8s : option CopilotCodeReviewRule) (gh : option gh_CopilotReview) : bool :=
  match k8s, gh with
  | None, None => false
  | Some k, Some g =>
    negb (Bool.eqb (WithDefault (cr_ReviewDraftPullRequests k) true) (g_ReviewDraftPullRequests g)) ||
    negb (Bool.eqb (WithDefault (cr_ReviewOnPush k) true) (g_ReviewOnPush g))
  | _, _ => true
  end.

Definition workflow_key (id : option Z) (path : string) : string := pretty (WithDefault id (-1)) +:+ ":" +:+ path.

Definition workflowsRuleDiffer (k8s : option WorkflowsRule) (gh : option gh_Workflows) : bool :=
  match k8s, gh with
  | None, None => false
  | Some k, Some g =>
    negb (Bool.eqb (WithDefault (ws_DoNotEnforceOnCreate k) false) (WithDefault (g_DoNotEnforceOnCreate g) false)) ||
    negb (bool_decide (length (ws_Workflows k) = length (g_Workflows g))) ||
    let k8sMap := index_by (λ w, workflow_key (wf_ResolvedRepositoryID w) (wf_Path w)) (ws_Workflows k) in
    let ghMap := index_by (λ w, workflow_key (g_wf_RepositoryID w) (g_wf_Path w)) (g_Workflows g) in
    map_exists (λ key k8sWf,
      match ghMap !! key with
      | None => true
      | Some ghWf =>
        negb (bool_decide (wf_ResolvedRepositoryID k8sWf = g_wf_RepositoryID ghWf)) ||
        negb (bool_decide (default "" (wf_Ref k8sWf) = default "" (g_wf_Ref ghWf)))
      end) k8sMap
  | _, _ => true
  end.

Definition reviewer_key (id : option Z) (typ : string) : Z * string := (default 0 id, typ).

Definition requiredReviewersDiffer (presetReviewers : list RequiredPullRequestReviewer)
    (githubReviewers : list gh_RequiredReviewer) : bool :=
  if negb (bool_decide (length presetReviewers = length githubReviewers)) then true
  else
    let presetMap := index_by (λ r, reviewer_key (re_ID (rr_Reviewer r)) (re_Type (rr_Reviewer r))) presetReviewers in
    existsb (λ ghReviewer,
      match g_Reviewer ghReviewer with
      | None => true
      | Some reviewer =>
        match presetMap !! reviewer_key (g_ReviewerID reviewer) (default "" (g_ReviewerType reviewer)) with
        | None => true
        | Some presetReviewer =>
          negb (rr_MinimumApprovals presetReviewer =? WithDefault (g_MinimumApprovals ghReviewer) 0) ||
          negb (stringSlicesEqual (rr_FilePatterns presetReviewer) (g_FilePatterns ghReviewer))
        end
      end) githubReviewers.

Definition pullRequestRulesDiffer (presetPR : option PullRequestRule) (githubPR : option gh_PullRequest) : bool :=
  match presetPR, githubPR with
  | None, None => false
  | Some p, Some g =>
    negb (Bool.eqb (WithDefault (pr_DismissStaleReviewsOnPush p) false) (g_DismissStaleReviewsOnPush g)) ||
    negb (Bool.eqb (WithDefault (pr_RequireCodeOwnerReviews p) false) (g_RequireCodeOwnerReview g)) ||
    negb (Bool.eqb (WithDefault (pr_RequireLastPushApproval p) false) (g_RequireLastPushApproval g)) ||
    negb (pr_RequiredApprovingReviewCount p =? g_RequiredApprovingReviewCount g) ||
    negb (Bool.eqb (WithDefault (pr_RequiredReviewThreadResolution p) false) (g_RequiredReviewThreadResolution g)) ||
    requiredReviewersDiffer (pr_RequiredReviewers p) (g_RequiredReviewers g)
  | _, _ => true
  end.

Definition requiredStatusChecksDiffer (presetChecks : option RequiredStatusChecks) (githubChecks : option gh_StatusChecks) : bool :=
  match presetChecks, githubChecks with
  | None, None => false
  | Some p, Some g =>
    negb (Bool.eqb (WithDefault (sc_StrictPolicy p) false) (g_StrictPolicy g)) ||
    negb (bool_decide (length (sc_Checks p) = length (g_Checks g))) ||
    let presetCheckMap := index_by sc_Context (sc_Checks p) in
    let githubCheckMap := index_by g_Context (g_Checks g) in
    map_exists (λ context presetCheck,
      match githubCheckMap !! context with
      | None => true
      | Some githubCheck => negb (bool_decide (sc_IntegrationID presetCheck = g_IntegrationID githubCheck))
      end) presetCheckMap
  | _, _ => true
  end.

Definition patternRuleDiffer (presetPattern : option PatternRule) (githubPattern : option gh_Pattern) : bool :=
  match presetPattern, githubPattern with
  | None, None => false
  | Some p, Some g =>
    negb (bool_decide (pa_Pattern p = g_Pattern g)) || negb (bool_decide (pa_Operator p = g_Operator g)) ||
    negb (Bool.eqb (WithDefault (pa_Negate p) false) (default false (g_Negate g)))
  | _, _ => true
  end.

Definition patternRulesDiffer (presetRules : RulesetRules) (githubRules : gh_Rules) : bool :=
  patternRuleDiffer (ru_CommitMessagePattern presetRules) (gr_CommitMessagePattern githubRules) ||
  patternRuleDiffer (ru_CommitAuthorEmailPattern presetRules) (gr_CommitAuthorEmailPattern githubRules) ||
  patternRuleDiffer (ru_CommitterEmailPattern presetRules) (gr_CommitterEmailPattern githubRules) ||
  patternRuleDiffer (ru_BranchNamePattern presetRules) (gr_BranchNamePattern githubRules) ||
  patternRuleDiffer (ru_TagNamePattern presetRules) (gr_TagNamePattern githubRules).

Definition is_set {A} (o : option A) : bool := match o with Some _ => true | None => false end.

Definition hasAnyRulesSet (rules : RulesetRules) : bool :=
  WithDefault (ru_Creation rules) false ||
  WithDefault (ru_Update rules) false ||
  WithDefault (ru_Deletion rules) false ||
  WithDefault (ru_RequiredLinearHistory rules) false ||
  WithDefault (ru_NonFastForward rules) false ||
  WithDefault (ru_RequiredSignatures rules) false ||
  is_set (ru_PullRequest rules) ||
  is_set (ru_RequiredStatusChecks rules) ||
  is_set (ru_CommitMessagePattern rules) ||
  is_set (ru_CommitAuthorEmailPattern rules) ||
  is_set (ru_CommitterEmailPattern rules) ||
  is_set (ru_BranchNamePattern rules) ||
  is_set (ru_TagNamePattern rules) ||
  is_set (ru_CopilotReview rules) ||
  is_set (ru_Workflows rules).

Definition rulesetRulesDiffer (presetRules : RulesetRules) (githubRules : option gh_Rules) : bool :=
  match githubRules with
  | None => hasAnyRulesSet presetRules
  | Some g =>
    negb (Bool.eqb (WithDefault (ru_Creation presetRules) false) (is_set (gr_Creation g))) ||
    negb (Bool.eqb (WithDefault (ru_Update presetRules) false) (is_set (gr_Update g))) ||
    negb (Bool.eqb (WithDefault (ru_Deletion presetRules) false) (is_set (gr_Deletion g))) ||
    negb (Bool.eqb (WithDefault (ru_RequiredLinearHistory presetRules) false) (is_set (gr_RequiredLinearHistory g))) ||
    negb (Bool.eqb (WithDefault (ru_NonFastForward presetRules) false) (is_set (gr_NonFastForward g))) ||
    negb (Bool.eqb (WithDefault (ru_RequiredSignatures presetRules) false) (is_set (gr_RequiredSignatures g))) ||
    pullRequestRulesDiffer (ru_PullRequest presetRules) (gr_PullRequest g) ||
    requiredStatusChecksDiffer (ru_RequiredStatusChecks presetRules) (gr_RequiredStatusChecks g) ||
    copilotCodeReviewDiffer (ru_CopilotReview presetRules) (gr_CopilotCodeReview g) ||
    workflowsRuleDiffer (ru_Workflows presetRules) (gr_Workflows g) ||
    patternRulesDiffer presetRules g
  end.

Definition RulesetsDiffer (spec : RulesetSpec) (gh : RepositoryRuleset) : bool :=
  negb (bool_decide (rs_Name spec = g_Name gh)) ||
  negb (bool_decide (rs_Target spec = default "" (WithDefaultAsPtr (g_Target gh) "branch"))) ||
  negb (bool_decide (rs_Enforcement spec = g_Enforcement gh)) ||
  bypassActorsDiffer (rs_BypassActors spec) (g_BypassActors gh) ||
  conditionsDiffer (rs_Conditions spec) (g_Conditions gh) ||
  rulesetRulesDiffer (rs_Rules spec) (g_Rules gh).

(** ** Lemmas *)
Lemma stringSlicesEqual_refl l : stringSlicesEqual l l = true.
Proof.
  unfold stringSlicesEqual. rewrite bool_decide_true by done. apply forallb_forall.
  intros s Hs%list_elem_of_In. by apply bool_decide_eq_true.
Qed.
#[export] Hint Rewrite stringSlicesEqual_refl : hubby.

(** Comparing an indexed slice with the index of its own image finds no difference. *)
Lemma index_matches_image `{Countable K} {A B} (f : A → K) (g : B → K) (h : A → B) (P : A → B → bool) (l : list A) :
  (∀ x, g (h x) = f x) → (∀ x, x ∈ l → P x (h x) = false) →
  map_exists (λ k x, match index_by g (h <$> l) !! k with None => true | Some y => P x y end) (index_by f l) = false.
Proof.
  intros Hkey HP. rewrite (index_by_fmap f h g) by done. apply map_exists_false. intros k x Hx.
  rewrite lookup_fmap, Hx. simpl. apply HP. by apply index_by_Some in Hx as [? _].
Qed.

(** If no difference is found and the keys are distinct, the two slices match entry by entry. *)
Lemma index_matches_all `{Countable K} {A B} (f : A → K) (g : B → K) (P : A → B → bool) (l : list A) (l' : list B) :
  length l = length l' → NoDup (f <$> l) →
  map_exists (λ k x, match index_by g l' !! k with None => true | Some y => P x y end) (index_by f l) = false →
  (∀ x, x ∈ l → ∃ y, y ∈ l' ∧ g y = f x ∧ P x y = false) ∧
  (∀ y, y ∈ l' → ∃ x, x ∈ l ∧ g y = f x ∧ P x y = false).
Proof.
  rewrite map_exists_false. intros Hlen Hnd Hm.
  assert (∀ x, x ∈ l → ∃ y, y ∈ l' ∧ g y = f x ∧ P x y = false) as Hfwd.
  { intros x Hx. specialize (Hm (f x) x (index_by_NoDup f l x Hnd Hx)).
    destruct (index_by g l' !! f x) as [y|] eqn:Hy; [|done]. apply index_by_Some in Hy as [? ?]. eauto. }
  split; [done|]. intros y Hy.
  assert (f <$> l ≡ₚ g <$> l') as Hperm.
  { apply submseteq_length_Permutation; [|by rewrite !length_fmap, Hlen].
    apply NoDup_submseteq; [done|]. intros k (x & -> & Hx)%list_elem_of_fmap.
    destruct (Hfwd x Hx) as (y' & Hy' & <- & _). by apply list_elem_of_fmap_2. }
  assert (g y ∈ f <$> l) as (x & Heq & Hx)%list_elem_of_fmap by (rewrite Hperm; by apply list_elem_of_fmap_2).
  exists x. split_and!; [done|done|]. destruct (Hfwd x Hx) as (y' & Hy' & Heq' & HP).
  assert (y' = y) as ->; [|done]. apply (NoDup_key_inj g l'); [by rewrite <-Hperm|done|done|congruence].
Qed.

Lemma eqb_refl_negb b : negb (Bool.eqb b b) = false.
Proof. by destruct b. Qed.
Lemma bool_decide_refl_negb {A} `{EqDecision A} (x : A) : negb (bool_decide (x = x)) = false.
Proof. by rewrite bool_decide_true. Qed.
#[export] Hint Rewrite eqb_refl_negb @bool_decide_refl_negb orb_false_r : hubby.

Section Convergence.

Lemma bypassActors_converge l : bypassActorsDiffer l (mapBypassActor <$> l) = false.
Proof.
  unfold bypassActorsDiffer. rewrite length_fmap, bool_decide_true by done.
  apply (index_matches_image (λ a, actor_key (ba_ActorType a) (ba_ActorID a))
    (λ a, actor_key (default "unknown" (g_ActorType a)) (g_ActorID a)) mapBypassActor
    (λ p g, negb (bool_decide (g_ActorType g = Some (ba_ActorType p))) ||
            negb (bool_decide (ba_BypassMode p = default "" (g_BypassMode g))))); [done|].
  intros a _. unfold mapBypassActor. cbn [g_ActorType g_BypassMode]. rewrite bool_decide_refl_negb. cbn [orb].
  destruct (decide (ba_BypassMode a = "")) as [->|H]; [done|].
  rewrite (bool_decide_true (ba_BypassMode a ≠ "")) by done. apply bool_decide_refl_negb.
Qed.

Lemma propertyTargets_converge l : propertyTargetsDiffer l (mapRepositoryPropertyTargets l) = false.
Proof.
  unfold propertyTargetsDiffer, mapRepositoryPropertyTargets.
  apply (index_matches_image pt_Name g_pt_Name _
    (λ p g, negb (stringSlicesEqual (pt_PropertyValues p) (g_pt_PropertyValues g)) ||
            negb (bool_decide (WithDefault (pt_Source p) "custom" = WithDefault (g_pt_Source g) "custom")))); [done|].
  intros t _. simpl. by autorewrite with hubby.
Qed.

Lemma statusChecks_converge c : requiredStatusChecksDiffer c (mapStatusChecks <$> c) = false.
Proof.
  destruct c as [c|]; [|done]. simpl. rewrite length_fmap. autorewrite with hubby. simpl.
  apply (index_matches_image sc_Context g_Context _
    (λ p g, negb (bool_decide (sc_IntegrationID p = g_IntegrationID g)))); [done|].
  intros t _. simpl. by autorewrite with hubby.
Qed.

Lemma workflows_converge w : workflowsRuleDiffer w (mapWorkflows <$> w) = false.
Proof.
  destruct w as [w|]; [|done]. simpl. rewrite length_fmap. autorewrite with hubby. simpl.
  apply (index_matches_image (λ w, workflow_key (wf_ResolvedRepositoryID w) (wf_Path w))
    (λ w, workflow_key (g_wf_RepositoryID w) (g_wf_Path w)) _
    (λ p g, negb (bool_decide (wf_ResolvedRepositoryID p = g_wf_RepositoryID g)) ||
            negb (bool_decide (default "" (wf_Ref p) = default "" (g_wf_Ref g))))); [done|].
  intros t _. simpl. by autorewrite with hubby.
Qed.

Definition reviewer_key_of (r : RequiredPullRequestReviewer) : Z * string :=
  reviewer_key (re_ID (rr_Reviewer r)) (re_Type (rr_Reviewer r)).

Lemma reviewers_converge l :
  NoDup (reviewer_key_of <$> l) → requiredReviewersDiffer l (mapRequiredReviewers l) = false.
Proof.
  intros Hnd. unfold requiredReviewersDiffer, mapRequiredReviewers. rewrite length_fmap, bool_decide_true by done.
  simpl. apply not_true_iff_false. rewrite existsb_exists. intros (g & Hin & Hg).
  apply list_elem_of_In, list_elem_of_fmap in Hin as (r & -> & Hr). simpl in Hg.
  rewrite (index_by_NoDup reviewer_key_of l r Hnd Hr : index_by _ l !! reviewer_key _ _ = _) in Hg.
  rewrite Z.eqb_refl, stringSlicesEqual_refl in Hg. done.
Qed.

Lemma pattern_converge p : patternRuleDiffer p (mapPattern <$> p) = false.
Proof. destruct p as [p|]; [|done]. simpl. autorewrite with hubby. by destruct (pa_Negate p) as [[]|]. Qed.

Lemma rule_set_is_set o : is_set (rule_set o) = WithDefault o false.
Proof. by destruct o as [[]|]. Qed.

Lemma copilot_converge c :
  copilotCodeReviewDiffer c ((λ c, {| g_ReviewOnPush := WithDefault (cr_ReviewOnPush c) true;
    g_ReviewDraftPullRequests := WithDefault (cr_ReviewDraftPullRequests c) true |}) <$> c) = false.
Proof. destruct c; [|done]. simpl. by autorewrite with hubby. Qed.

(** What the spec must not contain: both kinds of repository conditions (only one is sent), and two
    required reviewers that are the same on GitHub. *)
Definition mappable (spec : RulesetSpec) : Prop :=
  (∀ c, rs_Conditions spec = Some c → rc_RepositoryName c = None ∨ rc_RepositoryProperty c = None) ∧
  (∀ p, ru_PullRequest (rs_Rules spec) = Some p → NoDup (reviewer_key_of <$> pr_RequiredReviewers p)).

Lemma conditions_converge c :
  (∀ c', c = Some c' → rc_RepositoryName c' = None ∨ rc_RepositoryProperty c' = None) →
  conditionsDiffer c (mapConditions c) = false.
Proof.
  intros H. destruct c as [[r n p]|]; [|done]. specialize (H _ eq_refl). simpl in *.
  destruct r, n, p; simpl; destruct H; try done; unfold mapRepositoryPropertyTargets in *; rewrite ?length_fmap;
    autorewrite with hubby; simpl; rewrite ?propertyTargets_converge; autorewrite with hubby; try done;
    fold mapRepositoryPropertyTargets.
Qed.

Lemma rules_converge rules :
  (∀ p, ru_PullRequest rules = Some p → NoDup (reviewer_key_of <$> pr_RequiredReviewers p)) →
  rulesetRulesDiffer rules (Some (mapRules rules)) = false.
Proof.
  intros H. unfold rulesetRulesDiffer, mapRules, patternRulesDiffer.
  cbn [gr_Creation gr_Update gr_Deletion gr_RequiredLinearHistory gr_NonFastForward gr_RequiredSignatures
    gr_PullRequest gr_RequiredStatusChecks gr_CopilotCodeReview gr_Workflows gr_CommitMessagePattern
    gr_CommitAuthorEmailPattern gr_CommitterEmailPattern gr_BranchNamePattern gr_TagNamePattern].
  rewrite !rule_set_is_set, !pattern_converge, statusChecks_converge, workflows_converge, copilot_converge.
  assert (pullRequestRulesDiffer (ru_PullRequest rules) (mapPullRequest <$> ru_PullRequest rules) = false) as ->.
  { destruct (ru_PullRequest rules) as [p|]; [|done]. simpl. rewrite Z.eqb_refl, reviewers_converge by auto.
    by autorewrite with hubby. }
  autorewrite with hubby. by destruct (WithDefault (ru_Update rules) false).
Qed.

(** C18: a ruleset that has just been written is not reported as differing, so a reconciliation that finds
    GitHub in the state it left it in does not update the ruleset again. *)
Theorem RulesetsDiffer_converges spec gh :
  mappable spec → RulesetSpecToGithubRuleset spec = inl gh → RulesetsDiffer spec gh = false.
Proof.
  intros [Hc Hp]. unfold RulesetSpecToGithubRuleset. case_bool_decide; [done|]. intros [= <-].
  unfold RulesetsDiffer.
  cbn [g_Name g_Target g_Enforcement g_BypassActors g_Conditions g_Rules WithDefaultAsPtr default from_option].
  rewrite bypassActors_converge, conditions_converge, rules_converge by done. by autorewrite with hubby.
Qed.
End Convergence.

(** ** What an unreported ruleset guarantees *)
Section Detection.

Definition preset_actor_key (a : RulesetBypassActor) : string := actor_key (ba_ActorType a) (ba_ActorID a).
Definition github_actor_key (g : gh_BypassActor) : string :=
  actor_key (default "unknown" (g_ActorType g)) (g_ActorID g).

(** The actor on GitHub has the identity, type and mode of the declared one. *)
Definition same_actor (a : RulesetBypassActor) (g : gh_BypassActor) : Prop :=
  github_actor_key g = preset_actor_key a ∧ g_ActorType g = Some (ba_ActorType a) ∧
  default "" (g_BypassMode g) = ba_BypassMode a.

(** A ruleset that is not reported as differing has the declared name, target and enforcement and lets
    exactly the declared actors bypass it, each in the declared mode: a bypass added, removed or widened on
    GitHub is always noticed. *)
Theorem RulesetsDiffer_detects_bypass spec gh :
  NoDup (preset_actor_key <$> rs_BypassActors spec) →
  RulesetsDiffer spec gh = false →
  g_Name gh = rs_Name spec ∧ default "branch" (g_Target gh) = rs_Target spec ∧ g_Enforcement gh = rs_Enforcement spec ∧
  (∀ a, a ∈ rs_BypassActors spec → ∃ g, g ∈ g_BypassActors gh ∧ same_actor a g) ∧
  (∀ g, g ∈ g_BypassActors gh → ∃ a, a ∈ rs_BypassActors spec ∧ same_actor a g).
Proof.
  intros Hnd. unfold RulesetsDiffer. rewrite !orb_false_iff, !negb_false_iff, !bool_decide_eq_true.
  intros [[[[[Hname Htarget] Henf] Hact] _] _]. split_and!; [done| |done|..].
  { rewrite Htarget. by destruct (g_Target gh). }
  all: unfold bypassActorsDiffer in Hact; destruct (bool_decide (length _ = _)) eqn:Hlen; [|done];
    apply bool_decide_eq_true in Hlen; cbn [negb] in Hact;
    apply (index_matches_all preset_actor_key github_actor_key _ _ _ Hlen Hnd) in Hact as [Hfwd Hbwd].
  - intros a Ha. destruct (Hfwd a Ha) as (g & Hg & Hkey & Hsame). exists g. split; [done|].
    rewrite orb_false_iff, !negb_false_iff, !bool_decide_eq_true in Hsame. destruct Hsame as [? ?]. by split_and!.
  - intros g Hg. destruct (Hbwd g Hg) as (a & Ha & Hkey & Hsame). exists a. split; [done|].
    rewrite orb_false_iff, !negb_false_iff, !bool_decide_eq_true in Hsame. destruct Hsame as [? ?]. by split_and!.
Qed.

(** The ruleset on GitHub with other merge methods. *)
Definition with_merge_methods (ms : list string) (gh : RepositoryRuleset) : RepositoryRuleset :=
  let in_pr p := {|
    g_AllowedMergeMethods := ms;
    g_DismissStaleReviewsOnPush := g_DismissStaleReviewsOnPush p;
    g_RequireCodeOwnerReview := g_RequireCodeOwnerReview p;
    g_RequireLastPushApproval := g_RequireLastPushApproval p;
    g_RequiredApprovingReviewCount := g_RequiredApprovingReviewCount p;
    g_RequiredReviewThreadResolution := g_RequiredReviewThreadResolution p;
    g_RequiredReviewers := g_RequiredReviewers p |} in
  let in_rules r := {|
    gr_Creation := gr_Creation r; gr_Update := gr_Update r; gr_Deletion := gr_Deletion r;
    gr_RequiredLinearHistory := gr_RequiredLinearHistory r; gr_NonFastForward := gr_NonFastForward r;
    gr_RequiredSignatures := gr_RequiredSignatures r; gr_PullRequest := in_pr <$> gr_PullRequest r;
    gr_RequiredStatusChecks := gr_RequiredStatusChecks r; gr_CopilotCodeReview := gr_CopilotCodeReview r;
    gr_Workflows := gr_Workflows r; gr_CommitMessagePattern := gr_CommitMessagePattern r;
    gr_CommitAuthorEmailPattern := gr_CommitAuthorEmailPattern r;
    gr_CommitterEmailPattern := gr_CommitterEmailPattern r; gr_BranchNamePattern := gr_BranchNamePattern r;
    gr_TagNamePattern := gr_TagNamePattern r |} in
  {| g_ID := g_ID gh; g_Name := g_Name gh; g_Target := g_Target gh; g_Enforcement := g_Enforcement gh;
     g_BypassActors := g_BypassActors gh; g_Conditions := g_Conditions gh; g_Rules := in_rules <$> g_Rules gh |}.

(** The allowed merge methods on GitHub have no influence on the comparison: a change of them there is never
    reverted. *)
Lemma RulesetsDiffer_ignores_merge_methods spec gh ms :
  RulesetsDiffer spec (with_merge_methods ms gh) = RulesetsDiffer spec gh.
Proof.
  unfold RulesetsDiffer. destruct gh as [id n t e b c [r|]]; [|done]. destruct r as [? ? ? ? ? ? [p|] ? ? ? ? ? ? ? ?]; [|done].
  unfold with_merge_methods, rulesetRulesDiffer. by destruct (ru_PullRequest (rs_Rules spec)).
Qed.
End Detection.

Section Witnesses.
Let spec : RulesetSpec := {|
  rs_Name := "main"; rs_Extends := ""; rs_Target := "branch"; rs_Enforcement := "active";
  rs_Conditions := Some {| rc_RefName := Some {| rn_Include := ["~DEFAULT_BRANCH"]; rn_Exclude := [] |};
    rc_RepositoryName := None; rc_RepositoryProperty := None |};
  rs_BypassActors := [{| ba_ActorID := Some 7; ba_ActorSlug := None; ba_ActorType := "Team"; ba_BypassMode := "always" |}];
  rs_Rules := {| ru_Creation := None; ru_Update := None; ru_Deletion := Some true; ru_RequiredLinearHistory := None;
    ru_RequiredSignatures := None;
    ru_PullRequest := Some {| pr_AllowedMergeMethods := ["squash"]; pr_DismissStaleReviewsOnPush := None;
      pr_RequireCodeOwnerReviews := Some true; pr_RequireLastPushApproval := None; pr_RequiredApprovingReviewCount := 2;
      pr_RequiredReviewThreadResolution := None;
      pr_RequiredReviewers := [{| rr_MinimumApprovals := 1; rr_FilePatterns := ["*"];
        rr_Reviewer := {| re_ID := Some 3; re_Slug := None; re_Type := "Team" |} |}] |};
    ru_RequiredStatusChecks := Some {| sc_Checks := [{| sc_Context := "build"; sc_IntegrationID := None; sc_AppSlug := None |}];
      sc_StrictPolicy := None |};
    ru_NonFastForward := None; ru_CommitMessagePattern := None; ru_CommitAuthorEmailPattern := None;
    ru_CommitterEmailPattern := None; ru_BranchNamePattern := None; ru_TagNamePattern := None;
    ru_CopilotReview := None; ru_Workflows := None |} |}.
Let gh : RepositoryRuleset := match RulesetSpecToGithubRuleset spec with inl g => g | inr _ =>
  {| g_ID := None; g_Name := ""; g_Target := None; g_Enforcement := ""; g_BypassActors := []; g_Conditions := None; g_Rules := None |} end.

Lemma RulesetsDiffer_converges_witness : RulesetsDiffer spec gh = false.
Proof.
  apply (RulesetsDiffer_converges spec gh); [|reflexivity]. split.
  - intros c [= <-]. by left.
  - intros p [= <-]. simpl. apply NoDup_singleton.
Defined.

Lemma RulesetsDiffer_detects_bypass_witness :
  g_Enforcement gh = "active" ∧ ∀ g, g ∈ g_BypassActors gh → ∃ a, a ∈ rs_BypassActors spec ∧ same_actor a g.
Proof.
  destruct (RulesetsDiffer_detects_bypass spec gh (NoDup_singleton _) eq_refl) as (_ & _ & Henf & _ & Hbwd).
  split; [exact Henf|exact Hbwd].
Defined.
End Witnesses.
