(* ===== verification/RulesetSync.v ===== *)
(** * Applying rulesets to GitHub (internal/reconciler/common/rulesets/sync.go)

    [Sync] brings the rulesets of an organization or repository into the desired state.  The ruleset API is
    the record [Target] the callers pass in; [TargetLaws] is what the theorem relies on: the API keeps a
    store of rulesets by id. *)
From S2P Require Import Prelude GoErrors Conditions ApiTypes RulesetMapper RulesetResolve.

Record Target W := {
  tg_List : prog W (res (list (option RepositoryRuleset)));
  tg_Get : Z → prog W (res RepositoryRuleset);
  tg_Create : RepositoryRuleset → Desired → prog W (option gerror);
  tg_Update : Z → RepositoryRuleset → Desired → prog W (option gerror);
  tg_Delete : Z → string → prog W (option gerror)
}.
Arguments tg_List {W} _.
Arguments tg_Get {W} _ _.
Arguments tg_Create {W} _ _ _.
Arguments tg_Update {W} _ _ _ _.
Arguments tg_Delete {W} _ _ _.

Record SyncOptions W := {
  Resolver : RulesetSpec → prog W (res RulesetSpec);
  EnableRequiredReviewersRules : bool;
  Skip : option (Desired → bool);
  Adjust : option (RulesetSpec → RulesetSpec)
}.
Arguments Resolver {W} _ _.
Arguments EnableRequiredReviewersRules {W} _.
Arguments Skip {W} _.
Arguments Adjust {W} _.

(** [desired.Spec.Rules.PullRequest.RequiredReviewers = nil]. *)
Definition strip_reviewers (s : RulesetSpec) : RulesetSpec :=
  let r := rs_Rules s in
  let strip p := {|
    pr_AllowedMergeMethods := pr_AllowedMergeMethods p;
    pr_DismissStaleReviewsOnPush := pr_DismissStaleReviewsOnPush p;
    pr_RequireCodeOwnerReviews := pr_RequireCodeOwnerReviews p;
    pr_RequireLastPushApproval := pr_RequireLastPushApproval p;
    pr_RequiredApprovingReviewCount := pr_RequiredApprovingReviewCount p;
    pr_RequiredReviewThreadResolution := pr_RequiredReviewThreadResolution p;
    pr_RequiredReviewers := [] |} in
  {| rs_Name := rs_Name s; rs_Extends := rs_Extends s; rs_Target := rs_Target s; rs_Conditions := rs_Conditions s;
     rs_Enforcement := rs_Enforcement s; rs_BypassActors := rs_BypassActors s;
     rs_Rules := {|
       ru_Creation := ru_Creation r; ru_Update := ru_Update r; ru_Deletion := ru_Deletion r;
       ru_RequiredLinearHistory := ru_RequiredLinearHistory r; ru_RequiredSignatures := ru_RequiredSignatures r;
       ru_PullRequest := strip <$> ru_PullRequest r; ru_RequiredStatusChecks := ru_RequiredStatusChecks r;
       ru_NonFastForward := ru_NonFastForward r; ru_CommitMessagePattern := ru_CommitMessagePattern r;
       ru_CommitAuthorEmailPattern := ru_CommitAuthorEmailPattern r;
       ru_CommitterEmailPattern := ru_CommitterEmailPattern r; ru_BranchNamePattern := ru_BranchNamePattern r;
       ru_TagNamePattern := ru_TagNamePattern r; ru_CopilotReview := ru_CopilotReview r;
       ru_Workflows := ru_Workflows r |} |}.

Definition with_spec (d : Desired) (s : RulesetSpec) : Desired :=
  {| d_Source := d_Source d; d_Spec := s; d_Unresolved := d_Unresolved d; d_raw := d_raw d |}.

Section Sync.
Context {W : Type} (o : MapOrder) (target : Target W) (opts : SyncOptions W).
Implicit Types (byName toDelete : gmap string RepositoryRuleset).

(** The existing rulesets by name; later ones win. *)
Definition existing_by_name (existing : list (option RepositoryRuleset)) : gmap string RepositoryRuleset :=
  foldl (λ m r, match r with
    | None => m
    | Some r => if bool_decide (g_Name r = "") then m else <[g_Name r := r]> m
    end) ∅ existing.

Definition skipped (d : Desired) : bool := match Skip opts with Some f => f d | None => false end.
Definition strip_disabled (s : RulesetSpec) : RulesetSpec :=
  if negb (EnableRequiredReviewersRules opts) && is_set (ru_PullRequest (rs_Rules s)) then strip_reviewers s else s.
Definition adjust (s : RulesetSpec) : RulesetSpec := match Adjust opts with Some f => f s | None => s end.

(** The part of the loop body after the ruleset was mapped; the result is the new [rulesetsToDelete]. *)
Definition apply_ruleset byName toDelete (d : Desired) (gh : RepositoryRuleset)
    : prog W (gmap string RepositoryRuleset + gerror) :=
  let name := d_Name d in
  match byName !! name with
  | None =>
    let! err := tg_Create target gh d in
    Ret (match err with Some e => inr e | None => inl toDelete end)
  | Some existing =>
    match g_ID existing with
    | None => Ret (inl toDelete)
    | Some id =>
      let! got := tg_Get target id in
      match got with
      | inr e => Ret (inr (EWrap "failed to get existing ruleset" e))
      | inl full =>
        let toDelete := delete name toDelete in
        if negb (RulesetsDiffer (d_Spec d) full) then Ret (inl toDelete)
        else match g_ID full with
        | None => Ret (inl toDelete)
        | Some id =>
          let! err := tg_Update target id gh d in
          Ret (match err with Some e => inr e | None => inl toDelete end)
        end
      end
    end
  end.

(** One iteration of the loop over the desired rulesets. *)
Definition sync_one byName (s : gmap string RepositoryRuleset * list gerror) (desired : Desired)
    : prog W ((gmap string RepositoryRuleset * list gerror) + gerror) :=
  let '(toDelete, unresolved) := s in
  match d_Unresolved desired with
  | Some u => Ret (inl (delete (d_Name desired) toDelete, unresolved ++ [u]))
  | None =>
    if skipped desired then Ret (inl s)
    else
      let! resolved := Resolver opts (strip_disabled (d_Spec desired)) in
      match resolved with
      | inr e => Ret (inr (EWrap "failed to resolve slugs of ruleset to IDs" e))
      | inl resolved =>
        let desired := with_spec desired (adjust resolved) in
        match RulesetSpecToGithubRuleset (d_Spec desired) with
        | inr e => Ret (inr (EWrap "failed to convert ruleset to GitHub ruleset" e))
        | inl gh =>
          let! applied := apply_ruleset byName toDelete desired gh in
          Ret (match applied with inl toDelete => inl (toDelete, unresolved) | inr e => inr e end)
        end
      end
  end.

Fixpoint sync_loop byName (s : gmap string RepositoryRuleset * list gerror) (desired : list Desired)
    : prog W ((gmap string RepositoryRuleset * list gerror) + gerror) :=
  match desired with
  | [] => Ret (inl s)
  | d :: desired =>
    let! r := sync_one byName s d in
    match r with inl s => sync_loop byName s desired | inr e => Ret (inr e) end
  end.

Definition delete_one (x : string * RepositoryRuleset) : prog W (option gerror) :=
  match g_ID x.2 with
  | None => Ret None
  | Some id => tg_Delete target id x.1
  end.

Definition Sync (desiredRulesets : list Desired) : prog W (option gerror) :=
  let! existing := tg_List target in
  match existing with
  | inr e => Ret (Some (EWrap "failed to get existing rulesets" e))
  | inl existing =>
    let byName := existing_by_name existing in
    let! r := sync_loop byName (byName, []) desiredRulesets in
    match r with
    | inr e => Ret (Some e)
    | inl (rulesetsToDelete, unresolved) =>
      check for_each (range o rulesetsToDelete) delete_one in
      Ret (errors_join (Some <$> unresolved))
    end
  end.
End Sync.

(** ** Specification *)

Definition with_id (id : Z) (r : RepositoryRuleset) : RepositoryRuleset := {|
  g_ID := Some id; g_Name := g_Name r; g_Target := g_Target r; g_Enforcement := g_Enforcement r;
  g_BypassActors := g_BypassActors r; g_Conditions := g_Conditions r; g_Rules := g_Rules r |}.

Lemma RulesetsDiffer_with_id spec id r : RulesetsDiffer spec (with_id id r) = RulesetsDiffer spec r.
Proof. done. Qed.

(** The callers wrap the errors of the API ([fmt.Errorf] with [%w]), they do not join several. *)
Definition not_join (e : gerror) : Prop := ∀ es, e ≠ EJoin es.

(** The ruleset API keeps its rulesets in a store by id: List answers their ids and names, Get the ruleset,
    Create, Update and Delete change the one ruleset they are asked to, and a failed call changes nothing. *)
Class TargetLaws {W} (T : Target W) (store : W → gmap Z RepositoryRuleset) : Prop := {
  list_law w : let '(r, w') := run (tg_List T) w in
    store w' = store w ∧ ∀ l, r = inl l →
      (∀ id r, store w !! id = Some r → ∃ s, Some s ∈ l ∧ g_ID s = Some id ∧ g_Name s = g_Name r) ∧
      (∀ s, Some s ∈ l → ∃ id r, g_ID s = Some id ∧ g_Name s = g_Name r ∧ store w !! id = Some r);
  get_law id w : let '(r, w') := run (tg_Get T id) w in
    store w' = store w ∧ ∀ full, r = inl full → ∃ r, store w !! id = Some r ∧ full = with_id id r;
  create_law gh d w : let '(e, w') := run (tg_Create T gh d) w in
    match e with
    | None => ∃ id, store w !! id = None ∧ store w' = <[id := gh]> (store w)
    | Some e => store w' = store w ∧ not_join e
    end;
  update_law id gh d w : let '(e, w') := run (tg_Update T id gh d) w in
    match e with None => store w' = <[id := gh]> (store w) | Some e => store w' = store w ∧ not_join e end;
  delete_law id name w : let '(e, w') := run (tg_Delete T id name) w in
    match e with None => store w' = base.delete id (store w) | Some e => store w' = store w ∧ not_join e end
}.

(** The resolution of slugs reads GitHub but does not change rulesets, and keeps the name. *)
Class OptionsLaws {W} (O : SyncOptions W) (store : W → gmap Z RepositoryRuleset)
    (resolve : RulesetSpec → res RulesetSpec) : Prop := {
  resolver_law s w : let '(r, w') := run (Resolver O s) w in r = resolve s ∧ store w' = store w;
  resolve_name s s' : resolve s = inl s' → rs_Name s' = rs_Name s;
  adjust_name s : rs_Name (adjust O s) = rs_Name s
}.

Section Correct.
Context {W : Type} (o : MapOrder) (T : Target W) (O : SyncOptions W) (store : W → gmap Z RepositoryRuleset).
Context (resolve : RulesetSpec → res RulesetSpec) {TL : TargetLaws T store} {OL : OptionsLaws O store resolve}.
Implicit Types (st : gmap Z RepositoryRuleset) (byName td : gmap string RepositoryRuleset) (d : Desired).

(** The rulesets with a name are the same in both stores. *)
Definition untouched st st0 (n : string) : Prop := ∀ id r, g_Name r = n → st !! id = Some r ↔ st0 !! id = Some r.
(** GitHub does not allow two rulesets of an owner with the same name. *)
Definition unique_names st : Prop :=
  ∀ i j r s, st !! i = Some r → st !! j = Some s → g_Name r = g_Name s → i = j.

(** The desired rulesets that [Sync] applies, and those it keeps on GitHub. *)
Definition applied d : Prop := d_Unresolved d = None ∧ skipped O d = false.
Definition kept d : Prop := is_Some (d_Unresolved d) ∨ applied d.

#[local] Instance kept_dec d : Decision (kept d).
Proof. unfold kept, applied. apply _. Defined.

Definition final_spec d : res RulesetSpec :=
  match resolve (strip_disabled O (d_Spec d)) with inl s => inl (adjust O s) | inr e => inr e end.

(** The ruleset of [d] on GitHub was written or found equal. *)
Definition in_sync d st : Prop :=
  ∃ id r spec, st !! id = Some r ∧ g_Name r = d_Name d ∧ final_spec d = inl spec ∧
    (RulesetSpecToGithubRuleset spec = inl r ∨ RulesetsDiffer spec r = false).

Lemma untouched_refl st n : untouched st st n.
Proof. done. Qed.
Lemma untouched_trans st1 st2 st3 n : untouched st1 st2 n → untouched st2 st3 n → untouched st1 st3 n.
Proof. intros H1 H2 id r Hr. by rewrite (H1 id r Hr), (H2 id r Hr). Qed.

Lemma untouched_insert st id r n :
  g_Name r ≠ n → (∀ r', st !! id = Some r' → g_Name r' ≠ n) → untouched (<[id := r]> st) st n.
Proof.
  intros Hr Hold i r' Hn. rewrite lookup_insert. case_decide as E; [subst i|done].
  split; [intros [= ->]; done|]. intros H. by apply Hold in H.
Qed.

Lemma in_sync_untouched d st st' : untouched st' st (d_Name d) → in_sync d st → in_sync d st'.
Proof. intros Hu (id & r & spec & Hr & Hn & H). exists id, r, spec. split; [by apply Hu|done]. Qed.

Definition by_ok st0 byName : Prop :=
  ∀ n, match byName !! n with
  | None => ∀ id r, st0 !! id = Some r → g_Name r ≠ n
  | Some s => ∃ id r, g_ID s = Some id ∧ st0 !! id = Some r ∧ g_Name r = n
  end.

Lemma existing_by_name_ok st0 l :
  (∀ id r, st0 !! id = Some r → g_Name r ≠ "") →
  (∀ id r, st0 !! id = Some r → ∃ s, Some s ∈ l ∧ g_ID s = Some id ∧ g_Name s = g_Name r) →
  (∀ s, Some s ∈ l → ∃ id r, g_ID s = Some id ∧ g_Name s = g_Name r ∧ st0 !! id = Some r) →
  by_ok st0 (existing_by_name l).
Proof.
  intros Hne Hall Hlist n.
  assert (∀ l', (∀ s, Some s ∈ l' → Some s ∈ l) →
    match existing_by_name l' !! n with
    | None => ∀ s, Some s ∈ l' → g_Name s = n → n = ""
    | Some s => Some s ∈ l ∧ g_Name s = n end) as H.
  { unfold existing_by_name. induction l' as [|r l' IH] using rev_ind; intros Hin.
    { simpl. rewrite lookup_empty. intros s Hs. by apply not_elem_of_nil in Hs. }
    rewrite foldl_app. simpl.
    assert (∀ s, Some s ∈ l' → Some s ∈ l) as Hin' by (intros s Hs; apply Hin, elem_of_app; by left).
    specialize (IH Hin').
    destruct r as [r|]; [case_bool_decide as E|].
    - destruct (foldl _ _ _ !! n); [done|]. intros s [Hs|Hs%list_elem_of_singleton]%elem_of_app Hn; [by eapply IH|].
      injection Hs as ->. congruence.
    - rewrite lookup_insert. case_decide as E'; [split; [apply Hin, elem_of_app; right; apply list_elem_of_here|done]|].
      destruct (foldl _ _ _ !! n); [done|]. intros s [Hs|Hs%list_elem_of_singleton]%elem_of_app Hn; [by eapply IH|].
      injection Hs as ->. congruence.
    - destruct (foldl _ _ _ !! n); [done|]. intros s [Hs|Hs%list_elem_of_singleton]%elem_of_app Hn; [by eapply IH|done]. }
  specialize (H l (λ s Hs, Hs)). destruct (existing_by_name l !! n) as [s|].
  - destruct H as [Hs Hn]. destruct (Hlist s Hs) as (id & r & Hid & Hname & Hr). exists id, r. split_and!; [done|done|congruence].
  - intros id r Hr Hn. destruct (Hall id r Hr) as (s & Hs & Hid & Hname).
    apply (Hne id r Hr). rewrite Hn. eapply H; [done|congruence].
Qed.

(** One ruleset is applied without touching the others. *)
Lemma apply_ruleset_spec st0 byName td d gh w :
  by_ok st0 byName → (∀ n s, td !! n = Some s → byName !! n = Some s) →
  untouched (store w) st0 (d_Name d) → unique_names (store w) → g_Name gh = d_Name d →
  let '(out, w') := run (apply_ruleset T byName td d gh) w in
  (∀ n, n ≠ d_Name d → untouched (store w') (store w) n) ∧
  match out with
  | inr e => not_join e
  | inl td' => unique_names (store w') ∧ td' = delete (d_Name d) td ∧
      ∃ id r, store w' !! id = Some r ∧ g_Name r = d_Name d ∧ (r = gh ∨ RulesetsDiffer (d_Spec d) r = false)
  end.
Proof.
  intros Hby Htd Hun Huniq Hgh. unfold apply_ruleset. specialize (Hby (d_Name d)).
  destruct (byName !! d_Name d) as [s|] eqn:Hs; cycle 1.
  { rewrite run_bind. pose proof (create_law (TargetLaws := TL) gh d w) as Hc.
    destruct (run (tg_Create T gh d) w) as [[e|] w']; step_run; simpl.
    { destruct Hc as [-> He]. done. }
    destruct Hc as (id & Hfresh & Hst). rewrite Hst. split_and!.
    - intros n Hn. apply untouched_insert; [congruence|]. by rewrite Hfresh.
    - assert (∀ j r, store w !! j = Some r → g_Name r ≠ d_Name d) as Hnone.
      { intros j r Hj Hn. apply (Hby j r); [by apply Hun|done]. }
      intros i j r s. rewrite !lookup_insert. do 2 case_decide; intros ??; simplify_eq; try done.
      + intros Heq. exfalso. eapply Hnone; [done|congruence].
      + intros Heq. exfalso. eapply Hnone; [done|congruence].
      + by apply Huniq.
    - symmetry. apply delete_id. destruct (td !! d_Name d) eqn:E; [|done]. apply Htd in E. congruence.
    - exists id, gh. rewrite lookup_insert_eq. auto. }
  destruct Hby as (id & r0 & Hid & Hr0 & Hname0). rewrite Hid, run_bind.
  assert (store w !! id = Some r0) as Hr by (by apply Hun).
  pose proof (get_law (TargetLaws := TL) id w) as Hg. destruct (run (tg_Get T id) w) as [[full|e] w1]; step_run;
    [|cbn [run]; destruct Hg as [-> _]; done].
  destruct Hg as [Hw1 Hfull]. destruct (Hfull full eq_refl) as (r & Hrw & ->). rewrite Hr in Hrw. injection Hrw as <-.
  rewrite RulesetsDiffer_with_id. destruct (RulesetsDiffer (d_Spec d) r0) eqn:Hdiff; simpl; cycle 1.
  { rewrite Hw1. split_and!; [done|done|done|]. exists id, r0. auto. }
  rewrite run_bind. pose proof (update_law (TargetLaws := TL) id gh d w1) as Hu.
  destruct (run (tg_Update T id gh d) w1) as [[e|] w']; cbn [run]; rewrite Hw1 in Hu.
  { destruct Hu as [-> He]. done. }
  rewrite Hu. split_and!.
  - intros n Hn. apply untouched_insert; [congruence|]. rewrite Hr. intros ? [= <-]. congruence.
  - intros i j r s'. rewrite !lookup_insert. do 2 case_decide; intros ??; simplify_eq; try done.
    + intros Heq. by apply (Huniq i j r0 s'); [..|congruence].
    + intros Heq. by apply (Huniq i j r r0); [..|congruence].
    + by apply Huniq.
  - done.
  - exists id, gh. rewrite lookup_insert_eq. auto.
Qed.

Lemma final_name d spec : final_spec d = inl spec → rs_Name spec = d_Name d.
Proof.
  unfold final_spec. destruct (resolve _) as [s|] eqn:Hs; [|done]. intros [= <-].
  rewrite (adjust_name (OptionsLaws := OL)), (resolve_name (OptionsLaws := OL) _ _ Hs). unfold strip_disabled. by case_match.
Qed.

Lemma mapped_name spec gh : RulesetSpecToGithubRuleset spec = inl gh → g_Name gh = rs_Name spec.
Proof. unfold RulesetSpecToGithubRuleset. case_bool_decide; [done|]. by intros [= <-]. Qed.

(** What the loop over the desired rulesets has done after [done]. *)
Record loop_inv st0 byName (done : list Desired) td (unresolved : list gerror) st : Prop := {
  li_unique : unique_names st;
  li_untouched n : (∀ d, d ∈ done → applied d → d_Name d ≠ n) → untouched st st0 n;
  li_sync d : d ∈ done → applied d → in_sync d st;
  li_td n s : td !! n = Some s ↔ byName !! n = Some s ∧ ∀ d, d ∈ done → kept d → d_Name d ≠ n;
  li_unresolved : unresolved = omap d_Unresolved done
}.

(** A ruleset that is not applied leaves the store alone. *)
Lemma loop_inv_skip st0 byName done d td td' ur st :
  loop_inv st0 byName done td ur st → ¬ applied d →
  (∀ n s, td' !! n = Some s ↔ td !! n = Some s ∧ (kept d → d_Name d ≠ n)) →
  loop_inv st0 byName (done ++ [d]) td' (ur ++ omap d_Unresolved [d]) st.
Proof.
  intros [Hu Hun Hs Htd Hur] Hna Htd'. split.
  - done.
  - intros n Hn. apply Hun. intros d' Hd'. apply Hn, elem_of_app. by left.
  - intros d' [Hd'| ->%list_elem_of_singleton]%elem_of_app Ha; [by apply Hs|done].
  - intros n s. rewrite Htd', Htd. setoid_rewrite elem_of_app. setoid_rewrite list_elem_of_singleton. naive_solver.
  - by rewrite omap_app, Hur.
Qed.

(** A ruleset that is applied, from what [apply_ruleset] promises. *)
Lemma loop_inv_applied st0 byName done d td ur st st' :
  loop_inv st0 byName done td ur st → applied d → d_Name d ∉ d_Name <$> done →
  (∀ n, n ≠ d_Name d → untouched st' st n) → unique_names st' → in_sync d st' →
  loop_inv st0 byName (done ++ [d]) (delete (d_Name d) td) ur st'.
Proof.
  intros [Hu Hun Hs Htd Hur] Ha Hnew Hother Hu' Hsync.
  assert (∀ d', d' ∈ done → d_Name d' ≠ d_Name d) as Hne.
  { intros d' Hd' Heq. apply Hnew. rewrite <-Heq. by apply list_elem_of_fmap_2. }
  split.
  - done.
  - intros n Hn. apply (untouched_trans _ st).
    + apply Hother. intros ->. apply (Hn d); [apply elem_of_app; right; apply list_elem_of_here|done|done].
    + apply Hun. intros d' Hd'. apply Hn, elem_of_app. by left.
  - intros d' [Hd'| ->%list_elem_of_singleton]%elem_of_app Ha'; [|done].
    apply (in_sync_untouched d' st); [by apply Hother, Hne|by apply Hs].
  - intros n s. rewrite lookup_delete_Some, Htd. setoid_rewrite elem_of_app. setoid_rewrite list_elem_of_singleton.
    unfold kept. naive_solver.
  - destruct Ha as [Ha _]. rewrite omap_app, Hur. simpl. rewrite Ha. by rewrite app_nil_r.
Qed.

Lemma sync_one_inv st0 byName done td ur d w :
  by_ok st0 byName → loop_inv st0 byName done td ur (store w) → d_Name d ∉ d_Name <$> done →
  let '(out, w') := run (sync_one T O byName (td, ur) d) w in
  match out with
  | inl (td', ur') => loop_inv st0 byName (done ++ [d]) td' ur' (store w')
  | inr e => not_join e ∧
      ∀ n, (∀ d', d' ∈ done ++ [d] → applied d' → d_Name d' ≠ n) → untouched (store w') st0 n
  end.
Proof.
  intros Hby Hinv Hnew. unfold sync_one.
  assert (∀ n, (∀ d', d' ∈ done ++ [d] → applied d' → d_Name d' ≠ n) → untouched (store w) st0 n) as Hsame.
  { intros n Hn. apply (li_untouched _ _ _ _ _ _ Hinv). intros d' Hd'. apply Hn, elem_of_app. by left. }
  destruct (d_Unresolved d) as [u|] eqn:Hur; [|destruct (skipped O d) eqn:Hskip].
  - simpl. apply (loop_inv_skip _ _ _ d td (delete (d_Name d) td) ur) in Hinv; [by simpl in Hinv; rewrite Hur in Hinv| |].
    + by intros [? _]; congruence.
    + intros n s. rewrite lookup_delete_Some. unfold kept. rewrite Hur. naive_solver.
  - simpl. apply (loop_inv_skip _ _ _ d td td ur) in Hinv; [by simpl in Hinv; rewrite Hur, app_nil_r in Hinv| |].
    + by intros [_ ?]; congruence.
    + intros n s. unfold kept, applied. rewrite Hur, Hskip. naive_solver.
  - rewrite run_bind. pose proof (resolver_law (OptionsLaws := OL) (strip_disabled O (d_Spec d)) w) as Hres.
    destruct (run (Resolver O _) w) as [res w1]. step_run. destruct Hres as [Hres Hw1].
    destruct res as [resolved|e]; [|simpl; rewrite Hw1; done].
    assert (final_spec d = inl (adjust O resolved)) as Hfinal by (unfold final_spec; by rewrite <-Hres).
    simpl d_Spec. destruct (RulesetSpecToGithubRuleset (adjust O resolved)) as [gh|e] eqn:Hgh; [|simpl; rewrite Hw1; done].
    assert (d_Name (with_spec d (adjust O resolved)) = d_Name d) as Hname by (by apply final_name).
    rewrite run_bind.
    pose proof (apply_ruleset_spec st0 byName td (with_spec d (adjust O resolved)) gh w1 Hby) as Hap.
    destruct (run (apply_ruleset _ _ _ _ _) w1) as [out w2]. step_run. rewrite Hw1, Hname in Hap.
    destruct Hap as [Hother Hout].
    { intros n s Hn. by apply (li_td _ _ _ _ _ _ Hinv) in Hn as [? _]. }
    { apply (li_untouched _ _ _ _ _ _ Hinv). intros d' Hd' _ Heq. apply Hnew. rewrite <-Heq. by apply list_elem_of_fmap_2. }
    { apply (li_unique _ _ _ _ _ _ Hinv). }
    { rewrite (mapped_name _ _ Hgh). by apply final_name. }
    destruct out as [td'|e]; simpl.
    + destruct Hout as (Huniq & -> & id & r & Hr & Hn & Hor).
      apply (loop_inv_applied _ _ _ _ _ _ (store w)); try done.
      exists id, r, (adjust O resolved). split_and!; [done|done|done|].
      destruct Hor as [->|?]; [by left|by right].
    + split; [done|]. intros n Hn. apply (untouched_trans _ (store w)); [|by apply Hsame].
      apply Hother. intros ->. apply (Hn d); [apply elem_of_app; right; apply list_elem_of_here|done|done].
Qed.

Lemma sync_loop_inv st0 byName : ∀ desired done td ur w,
  by_ok st0 byName → loop_inv st0 byName done td ur (store w) → NoDup (d_Name <$> done ++ desired) →
  let '(out, w') := run (sync_loop T O byName (td, ur) desired) w in
  match out with
  | inl (td', ur') => loop_inv st0 byName (done ++ desired) td' ur' (store w')
  | inr e => not_join e ∧
      ∀ n, (∀ d', d' ∈ done ++ desired → applied d' → d_Name d' ≠ n) → untouched (store w') st0 n
  end.
Proof.
  induction desired as [|d desired IH]; intros done td ur w Hby Hinv Hnd; cbn [sync_loop].
  { simpl. by rewrite app_nil_r. }
  rewrite run_bind. pose proof (sync_one_inv st0 byName done td ur d w Hby Hinv) as Hone.
  destruct (run (sync_one _ _ _ _ _) w) as [[[td' ur']|e] w1]; step_run.
  - specialize (IH (done ++ [d]) td' ur' w1 Hby). rewrite <-app_assoc in IH. apply IH; [|done]. apply Hone.
    rewrite fmap_app, NoDup_app in Hnd. destruct Hnd as (_ & Hnd & _). intros Hin. apply (Hnd _ Hin). apply list_elem_of_here.
  - destruct Hone as [He Hone].
    { rewrite fmap_app, NoDup_app in Hnd. destruct Hnd as (_ & Hnd & _). intros Hin. apply (Hnd _ Hin). apply list_elem_of_here. }
    simpl. split; [done|]. intros n Hn. apply Hone. intros d' Hd'. apply Hn. revert Hd'. rewrite !elem_of_app. set_solver.
Qed.

(** What the deletion of the orphaned rulesets has done after [done]. *)
Definition deleted st1 (done : list (string * RepositoryRuleset)) (w : W) : Prop :=
  ∀ id r, store w !! id = Some r ↔ st1 !! id = Some r ∧ g_Name r ∉ done.*1.

Definition deletable td st1 : Prop :=
  ∀ n s, td !! n = Some s → ∃ id r, g_ID s = Some id ∧ st1 !! id = Some r ∧ g_Name r = n.

Lemma delete_one_step td st1 done n s rest w :
  unique_names st1 → deletable td st1 → range o td = done ++ (n, s) :: rest → deleted st1 done w →
  match run (delete_one T (n, s)) w with
  | (None, w') => deleted st1 (done ++ [(n, s)]) w'
  | (Some e, w') => not_join e ∧ ∀ m, td !! m = None → untouched (store w') st1 m
  end.
Proof.
  intros Huniq Htd Hl HP.
  assert (td !! n = Some s) as Hn by (apply (elem_of_range o); rewrite Hl; set_solver).
  destruct (Htd n s Hn) as (id & r & Hid & Hr & Hname).
  unfold delete_one. cbn [fst snd]. rewrite Hid. pose proof (delete_law (TargetLaws := TL) id n w) as Hd.
  destruct (run (tg_Delete T id n) w) as [[e|] w'].
  - destruct Hd as [Hst He]. split; [done|]. intros m Hm i q Hq. rewrite Hst, (HP i q).
    assert (g_Name q ∉ done.*1); [|naive_solver].
    intros ([m' s'] & Hm' & Hin)%list_elem_of_fmap. simpl in Hm'.
    assert (td !! m' = Some s') by (apply (elem_of_range o); rewrite Hl; set_solver). congruence.
  - intros i q. rewrite Hd, lookup_delete_Some, (HP i q), fmap_app. cbn [fmap list_fmap fst].
    rewrite not_elem_of_app, list_elem_of_singleton. split.
    + intros (Hne & Hq & Hnin). split_and!; [done|done|]. intros Heq. apply Hne.
      apply (Huniq id i r q Hr Hq). congruence.
    + intros (Hq & Hnin & Hne). split_and!; [|done|done]. intros ->. apply Hne. congruence.
Qed.

(** Exactly the rulesets with the names left over are deleted. *)
Lemma delete_loop td st1 w :
  unique_names st1 → deletable td st1 → store w = st1 →
  let '(err, w') := run (for_each (range o td) (delete_one T)) w in
  match err with
  | None => ∀ id r, store w' !! id = Some r ↔ st1 !! id = Some r ∧ td !! g_Name r = None
  | Some e => not_join e ∧ ∀ n, td !! n = None → untouched (store w') st1 n
  end.
Proof.
  intros Huniq Htd Hw.
  pose proof (for_each_inv (deleted st1) (λ e w, not_join e ∧ ∀ n, td !! n = None → untouched (store w) st1 n)
    (delete_one T) (range o td)) as Hloop.
  specialize (Hloop (λ done x rest w Hl HP, match x return range o td = done ++ x :: rest → _ with
    | (n, s) => λ Hl, delete_one_step td st1 done n s rest w Huniq Htd Hl HP end Hl) w).
  assert (deleted st1 [] w) as Hstart by (intros id r; rewrite Hw; set_solver). specialize (Hloop Hstart).
  destruct (run (for_each _ _) w) as [[e|] w']; [done|]. intros id r. rewrite (Hloop id r).
  enough (g_Name r ∉ (range o td).*1 ↔ td !! g_Name r = None) as -> by done.
  rewrite list_elem_of_fmap, eq_None_not_Some. apply not_iff_compat. split.
  - intros ([n s] & -> & Hin). exists s. by apply (elem_of_range o).
  - intros [s Hs]. exists (g_Name r, s). split; [done|]. by apply (elem_of_range o).
Qed.

(** What [Sync] makes of the rulesets [st], with the result [err], for the desired rulesets.  Whatever happens, a
    ruleset whose extends chain could not be resolved keeps its state on GitHub.  If all API calls succeed (the
    only errors left are those of the unresolved rulesets), every applied ruleset exists as desired, and every
    ruleset on GitHub is an applied or an unresolved one. *)
Definition rulesets_synced (desired : list Desired) (err : option gerror) st st' : Prop :=
  (∀ d, d ∈ desired → is_Some (d_Unresolved d) → untouched st' st (d_Name d)) ∧
  (err = errors_join (Some <$> omap d_Unresolved desired) →
    (∀ d, d ∈ desired → applied d → in_sync d st') ∧
    (∀ id r, st' !! id = Some r → ∃ d, d ∈ desired ∧ kept d ∧ d_Name d = g_Name r)).

Lemma Sync_synced desired w :
  unique_names (store w) → (∀ id r, store w !! id = Some r → g_Name r ≠ "") → NoDup (d_Name <$> desired) →
  let '(err, w') := run (Sync o T O desired) w in rulesets_synced desired err (store w) (store w').
Proof.
  intros Huniq Hne Hnd. unfold Sync, rulesets_synced. rewrite run_bind.
  pose proof (list_law (TargetLaws := TL) w) as Hlist. destruct (run (tg_List T) w) as [[l|e] w1]; step_run.
  2:{ destruct Hlist as [Hw1 _]. simpl. rewrite Hw1. split; [done|]. rewrite errors_join_Some. by destruct (omap _ _). }
  destruct Hlist as [Hw1 Hl]. destruct (Hl l eq_refl) as [Hall Hsome].
  pose proof (existing_by_name_ok _ l Hne Hall Hsome) as Hby. set (byName := existing_by_name l) in *.
  rewrite run_bind.
  assert (loop_inv (store w) byName [] byName [] (store w1)) as Hinv0.
  { rewrite Hw1. split; try done; set_solver. }
  pose proof (sync_loop_inv (store w) byName desired [] byName [] w1 Hby Hinv0 Hnd) as Hloop.
  destruct (run (sync_loop _ _ _ _ _) w1) as [[[td ur]|e] w2]; step_run; simpl in Hloop.
  2:{ destruct Hloop as [He Hun]. simpl. split.
      - intros d Hd [u Hu]. apply Hun. intros d' Hd' [Hu' _] Heq.
        assert (d' = d) as -> by (by apply (NoDup_key_inj d_Name desired)). congruence.
      - rewrite errors_join_Some. destruct (omap _ _); [done|]. intros [= ->]. by edestruct He. }
  destruct Hloop as [Hu Hun Hs Htd Hur]. rewrite run_bind.
  assert (∀ n, td !! n ≠ None → ∀ d, d ∈ desired → kept d → d_Name d ≠ n) as Hkept.
  { intros n. destruct (td !! n) as [s|] eqn:E; [|done]. intros _ d Hd. by apply Htd in E as [_ H]; auto. }
  assert (deletable td (store w2)) as Hdeletable.
  { intros n s Hns. pose proof (proj1 (Htd n s) Hns) as [Hb Hk]. specialize (Hby n). rewrite Hb in Hby.
    destruct Hby as (id & r & Hid & Hr & Hn). exists id, r. split_and!; [done| |done].
    apply (Hun n); [|done|done]. intros d Hd Ha. apply Hk; [done|by right]. }
  pose proof (delete_loop td (store w2) w2 Hu Hdeletable eq_refl) as Hdel.
  destruct (run (for_each _ _) w2) as [err w3]. step_run.
  assert (∀ d, d ∈ desired → kept d → td !! d_Name d = None) as Hnone.
  { intros d Hd Hk. destruct (td !! d_Name d) eqn:E; [|done]. exfalso. by apply (Hkept (d_Name d)) with d; [rewrite E|..]. }
  assert (∀ d, d ∈ desired → kept d → untouched (store w3) (store w2) (d_Name d)) as Hun3.
  { intros d Hd Hk. destruct err as [e|]; [by apply Hdel, Hnone|]. intros id r Hr. rewrite (Hdel id r), Hr, Hnone by done. tauto. }
  assert (run (match err with Some e => Ret (Some e) | None => Ret (errors_join (Some <$> ur)) end) w3
    = (match err with Some e => Some e | None => errors_join (Some <$> ur) end, w3)) as -> by (by destruct err).
  split.
  - intros d Hd Hu'. (apply (untouched_trans _ (store w2)); [by apply Hun3; [|left]|]);
      apply Hun; intros d' Hd' [Hn' _] Heq;
      assert (d' = d) as -> by (by apply (NoDup_key_inj d_Name desired)); destruct Hu' as [? ?]; congruence.
  - destruct err as [e|]; simpl.
    { destruct Hdel as [He _]. rewrite errors_join_Some. destruct (omap _ _); [done|]. intros [= ->]. by edestruct He. }
    intros _. split.
    + intros d Hd Ha. apply (in_sync_untouched d (store w2)); [by apply Hun3; [|right]|by apply Hs].
    + intros id r Hr. apply Hdel in Hr as [Hr Hgone].
      destruct (decide (Exists (λ d, kept d ∧ d_Name d = g_Name r) desired)) as [Hex|Hno].
      { apply Exists_exists in Hex as (d & ? & ? & ?). eauto. }
      exfalso. assert (∀ d, d ∈ desired → kept d → d_Name d ≠ g_Name r) as Hno'.
      { intros d Hd Hk Heq. apply Hno, Exists_exists. eauto. }
      assert (store w !! id = Some r) as Hr0.
      { apply (Hun (g_Name r)); [|done|done]. intros d Hd Ha. apply Hno'; [done|by right]. }
      specialize (Hby (g_Name r)). destruct (byName !! g_Name r) as [s|] eqn:Hb; [|by eapply Hby].
      assert (td !! g_Name r = Some s) by (by apply Htd). congruence.
Qed.
End Correct.
