(* ===== verification/Sha256.v ===== *)
(** * SHA-256 (crypto/sha256, as used by the hashing functions of internal/mapper)

    The hash of a byte string in hexadecimal, [fmt.Sprintf("%x", sha256.Sum256(data))], executable.  Words
    are integers in [0, 2^32). *)
From Stdlib Require Import Ascii.
From Stdlib Require String.
From S2P Require Import Prelude.

Definition w32 (z : Z) : Z := Z.land z 4294967295.
Definition add32 (a b : Z) : Z := w32 (a + b).
Definition rotr (n x : Z) : Z := Z.lor (Z.shiftr x n) (w32 (Z.shiftl x (32 - n))).
Definition xor3 (a b c : Z) : Z := Z.lxor a (Z.lxor b c).
Definition bsig0 x := xor3 (rotr 2 x) (rotr 13 x) (rotr 22 x).
Definition bsig1 x := xor3 (rotr 6 x) (rotr 11 x) (rotr 25 x).
Definition ssig0 x := xor3 (rotr 7 x) (rotr 18 x) (Z.shiftr x 3).
Definition ssig1 x := xor3 (rotr 17 x) (rotr 19 x) (Z.shiftr x 10).
Definition ch x y z := Z.lxor (Z.land x y) (Z.land (Z.lxor x 4294967295) z).
Definition maj x y z := xor3 (Z.land x y) (Z.land x z) (Z.land y z).

(** The constants as FIPS 180-4 derives them: the first 32 bits of the fractional parts of the cube roots of the
    first 64 primes, and of the square roots of the first 8.  [root k n] is the integer part of the k-th root. *)
Fixpoint root_bits (bits : nat) (k n acc : Z) : Z :=
  match bits with
  | O => acc
  | S bits =>
    let candidate := acc + 2 ^ Z.of_nat bits in
    root_bits bits k n (if candidate ^ k <=? n then candidate else acc)
  end.
Definition root (k n : Z) : Z := root_bits 40 k n 0.

Definition is_prime (p : Z) : bool := forallb (λ d, negb (p mod Z.of_nat d =? 0)) (seq 2 (Z.to_nat p - 2)).
Definition primes (n : nat) : list Z := take n (filter is_prime (Z.of_nat <$> seq 2 310)).

Definition root_fraction (k p : Z) : Z := w32 (root k (p * 2 ^ (32 * k))).
Definition round_constants : list Z := Eval vm_compute in root_fraction 3 <$> primes 64.
Definition initial_state : list Z := Eval vm_compute in root_fraction 2 <$> primes 8.

(** Padding: a one bit, zeros up to 56 modulo 64 bytes, and the length in bits as 64-bit integer. *)
Definition be_bytes (n : nat) (z : Z) : list Z :=
  (λ i : nat, Z.land (Z.shiftr z (8 * Z.of_nat (n - 1 - i))) 255) <$> seq 0 n.
Definition pad (msg : list Z) : list Z :=
  let len := Z.of_nat (length msg) in
  msg ++ 128 :: replicate (Z.to_nat ((55 - len) mod 64)) 0 ++ be_bytes 8 (8 * len).

Fixpoint words (bs : list Z) : list Z :=
  match bs with
  | a :: b :: c :: d :: bs =>
    Z.lor (Z.shiftl a 24) (Z.lor (Z.shiftl b 16) (Z.lor (Z.shiftl c 8) d)) :: words bs
  | _ => []
  end.

(** The message schedule, newest word first. *)
Fixpoint schedule (n : nat) (rev_ws : list Z) : list Z :=
  match n with
  | O => rev_ws
  | S n =>
    let w i := nth i rev_ws 0 in
    schedule n (add32 (add32 (ssig1 (w 1%nat)) (w 6%nat)) (add32 (ssig0 (w 14%nat)) (w 15%nat)) :: rev_ws)
  end.

Definition compress_round (s : list Z) (kw : Z * Z) : list Z :=
  match s with
  | [a; b; c; d; e; f; g; h] =>
    let t1 := add32 (add32 h (bsig1 e)) (add32 (ch e f g) (add32 kw.1 kw.2)) in
    let t2 := add32 (bsig0 a) (maj a b c) in
    [add32 t1 t2; a; b; c; add32 d t1; e; f; g]
  | _ => s
  end.

Definition compress (s : list Z) (block : list Z) : list Z :=
  let ws := rev (schedule 48 (rev block)) in
  zip_with add32 s (foldl compress_round s (zip round_constants ws)).

Fixpoint blocks (n : nat) (ws : list Z) (s : list Z) : list Z :=
  match n with
  | O => s
  | S n => blocks n (drop 16 ws) (compress s (take 16 ws))
  end.

Definition sha256 (msg : list Z) : list Z :=
  let ws := words (pad msg) in blocks (length ws / 16)%nat ws initial_state.

Definition hex_digit (z : Z) : ascii :=
  ascii_of_nat (Z.to_nat (if z <? 10 then 48 + z else 87 + z)).
Fixpoint hex_word (n : nat) (w : Z) : string :=
  match n with
  | O => ""
  | S n => String (hex_digit (Z.land (Z.shiftr w (4 * Z.of_nat n)) 15)) (hex_word n w)
  end.

Definition bytes_of (s : string) : list Z := (λ c, Z.of_nat (nat_of_ascii c)) <$> String.list_ascii_of_string s.

(** [fmt.Sprintf("%x", sha256.Sum256([]byte(s)))]. *)
Definition sha256_hex (s : string) : string :=
  foldr (λ w acc, hex_word 8 w +:+ acc) "" (sha256 (bytes_of s)).

(** The published test vectors (FIPS 180-4). *)
Example sha256_empty :
  sha256_hex "" = "e3b0c44298fc1c149afbf4c8996fb92427ae41e4649b934ca495991b7852b855".
Proof. vm_compute. reflexivity. Qed.
Example sha256_abc :
  sha256_hex "abc" = "ba7816bf8f01cfea414140de5dae2223b00361a396177a9cb410ff61f20015ad".
Proof. vm_compute. reflexivity. Qed.
Example sha256_two_blocks :
  sha256_hex "abcdbcdecdefdefgefghfghighijhijkijkljklmklmnlmnomnopnopq" =
  "248d6a61d20638b8e5c026930c3e6039a33ce45964ff2167f6ecedd419db06c1".
Proof. vm_compute. reflexivity. Qed.
