(* ===== verification/HashSync.v ===== *)
(** * Synchronising a collection on GitHub by hash

    The reconcilers of deploy keys, autolinks and webhooks (internal/reconciler/reporec/rec_deploykeys.go,
    rec_autolinks.go, rec_webhooks.go) have the same shape: the existing items are indexed by a hash of their
    content, desired items that exist are kept, the others are created, and existing items that are not desired
    are deleted first.  This file has the steps they share and what they achieve against a store of items. *)
From S2P Require Import Prelude GoErrors.

(** Indexing the existing items by hash ([None]: the item is skipped). *)
Section Index.
Context {X : Type} (hash_x : X → option string).
Implicit Types (l : list X) (x : X).

Definition index_existing (l : list X) : gmap string X :=
  foldl (λ m x, match hash_x x with Some h => <[h := x]> m | None => m end) ∅ l.

Lemma index_existing_Some l h x : index_existing l !! h = Some x → x ∈ l ∧ hash_x x = Some h.
Proof.
  unfold index_existing. induction l as [|y l IH] using rev_ind; [done|].
  rewrite foldl_app. simpl. destruct (hash_x y) as [k|] eqn:Hy; [|set_solver].
  rewrite lookup_insert. case_decide; [intros [= <-]; subst; set_solver|set_solver].
Qed.

Lemma index_existing_elem l x h : x ∈ l → hash_x x = Some h → is_Some (index_existing l !! h).
Proof.
  unfold index_existing. induction l as [|y l IH] using rev_ind; [set_solver|].
  rewrite foldl_app. simpl. intros [Hx| ->%list_elem_of_singleton]%elem_of_app Hh.
  - destruct (hash_x y) as [k|]; [|by apply IH]. rewrite lookup_insert. case_decide; [done|by apply IH].
  - rewrite Hh, lookup_insert_eq. done.
Qed.

End Index.

(** What to remove and what to add, given the hash of a desired item and whether an existing item with that
    hash may be kept. *)
Section Plan.
Context {X D : Type} (hash_d : D → string) (uptodate : D → bool).
Implicit Types (existing : gmap string X) (desired : list D).

(** One iteration of the loop over the desired items; the state is [(toRemove, toAdd)]. *)
Definition plan_step (existing : gmap string X) (s : gmap string X * gmap string D) (d : D)
    : gmap string X * gmap string D :=
  let h := hash_d d in
  match existing !! h with
  | Some _ => if uptodate d then (delete h s.1, s.2) else (s.1, <[h := d]> s.2)
  | None => (s.1, <[h := d]> s.2)
  end.
Definition plan (existing : gmap string X) (desired : list D) : gmap string X * gmap string D :=
  foldl (plan_step existing) (existing, ∅) desired.

(** The desired items that are already there, and those that have to be created. *)
Definition present (existing : gmap string X) (d : D) : Prop := is_Some (existing !! hash_d d) ∧ uptodate d = true.

Lemma present_or_not existing d :
  present existing d ∨ (¬ present existing d ∧ (existing !! hash_d d = None ∨ uptodate d = false)).
Proof.
  unfold present. destruct (existing !! hash_d d) as [x|]; [destruct (uptodate d)|].
  - left. split; [by exists x|done].
  - right. split; [by intros [_ ?]|by right].
  - right. split; [by intros [[? ?] _]|by left].
Qed.

Lemma plan_spec existing desired :
  let '(toRemove, toAdd) := plan existing desired in
  (∀ h x, toRemove !! h = Some x ↔ existing !! h = Some x ∧ ∀ d, d ∈ desired → hash_d d = h → ¬ present existing d) ∧
  (∀ h d, toAdd !! h = Some d → d ∈ desired ∧ hash_d d = h ∧ ¬ present existing d) ∧
  (∀ d, d ∈ desired → ¬ present existing d → is_Some (toAdd !! hash_d d)).
Proof.
  unfold plan. induction desired as [|d desired IH] using rev_ind; simpl.
  { split_and!; [set_solver|set_solver|set_solver]. }
  rewrite foldl_app. simpl. destruct (foldl _ _ desired) as [rm add]. destruct IH as (Hrm & Hadd & Hall).
  unfold plan_step. cbn [fst snd].
  assert (present existing d ∨ ¬ present existing d) as Hdec.
  { destruct (present_or_not existing d) as [?|[? _]]; auto. }
  assert ((match existing !! hash_d d with
    | Some _ => if uptodate d then (delete (hash_d d) rm, add) else (rm, <[hash_d d := d]> add)
    | None => (rm, <[hash_d d := d]> add) end) =
    if bool_decide (is_Some (existing !! hash_d d)) && uptodate d then (delete (hash_d d) rm, add)
    else (rm, <[hash_d d := d]> add)) as ->.
  { destruct (existing !! hash_d d); simpl; by destruct (uptodate d). }
  destruct Hdec as [Hp|Hp].
  - assert (bool_decide (is_Some (existing !! hash_d d)) && uptodate d = true) as ->.
    { destruct Hp as [? ->]. by rewrite bool_decide_true. }
    split_and!.
    + intros h x. rewrite lookup_delete_Some, Hrm. setoid_rewrite elem_of_app. setoid_rewrite list_elem_of_singleton.
      naive_solver.
    + intros h d' Ha. apply Hadd in Ha as (? & ? & ?). set_solver.
    + intros d' [Hd'| ->%list_elem_of_singleton]%elem_of_app Hn; [by apply Hall|done].
  - assert (bool_decide (is_Some (existing !! hash_d d)) && uptodate d = false) as ->.
    { destruct (uptodate d) eqn:Hu; [|apply andb_false_r]. rewrite andb_true_r. apply bool_decide_eq_false.
      intros ?. by apply Hp. }
    split_and!.
    + intros h x. rewrite Hrm. setoid_rewrite elem_of_app. setoid_rewrite list_elem_of_singleton. naive_solver.
    + intros h d'. rewrite lookup_insert. case_decide; [intros [= <-]; subst; set_solver|].
      intros Ha. apply Hadd in Ha as (? & ? & ?). set_solver.
    + intros d' Hin Hn. rewrite lookup_insert. case_decide as E; [done|].
      apply elem_of_app in Hin as [Hin| ->%list_elem_of_singleton]; [by apply Hall|done].
Qed.
End Plan.

(** The calls. *)
Section Run.
Context {W X D : Type} (o : MapOrder).
Context (hash_x : X → option string) (id_of : X → option Z) (hash_d : D → string) (uptodate : D → bool).
Context (delete_item : Z → prog W (option gerror)) (create_item : D → prog W (option gerror)).

Definition cleanup (toRemove : gmap string X) : prog W (option gerror) :=
  for_each (range o toRemove) (λ '(h, x), match id_of x with None => Ret None | Some id => delete_item id end).
Definition create_missing (toAdd : gmap string D) : prog W (option gerror) :=
  for_each (range o toAdd) (λ '(h, d), create_item d).

Definition hash_sync (existing : list X) (desired : list D) : prog W (option gerror) :=
  let '(toRemove, toAdd) := plan hash_d uptodate (index_existing hash_x existing) desired in
  check cleanup toRemove in create_missing toAdd.
End Run.

(** If every desired item is there and nothing else is, no call is made. *)
Lemma range_empty (o : MapOrder) {A} : range o (∅ : gmap string A) = [].
Proof. pose proof (range_perm o A ∅) as H. rewrite map_to_list_empty in H. by apply Permutation_nil_r in H. Qed.

Lemma plan_settled {X D} (hash_d : D → string) uptodate (existing : gmap string X) desired :
  (∀ d, d ∈ desired → present hash_d uptodate existing d) →
  (∀ h, is_Some (existing !! h) → h ∈ hash_d <$> desired) →
  plan hash_d uptodate existing desired = (∅, ∅).
Proof.
  intros Hp Hex. pose proof (plan_spec hash_d uptodate existing desired) as H.
  destruct (plan _ _ _ _) as [rm add]. destruct H as (Hrm & Hadd & _). f_equal.
  - apply map_empty. intros h. apply eq_None_not_Some. intros [x [Hx Hn]%Hrm].
    assert (h ∈ hash_d <$> desired) as (d & -> & Hd)%list_elem_of_fmap by (apply Hex; by exists x).
    by apply (Hn d Hd eq_refl), Hp.
  - apply map_empty. intros h. apply eq_None_not_Some. intros [d (Hd & _ & Hn)%Hadd]. by apply Hn, Hp.
Qed.

Lemma hash_sync_settled {W X D} o hash_x id_of (hash_d : D → string) uptodate delete_item create_item
    (existing : list X) desired (w : W) :
  plan hash_d uptodate (index_existing hash_x existing) desired = (∅, ∅) →
  run (hash_sync o hash_x id_of hash_d uptodate delete_item create_item existing desired) w = (None, w).
Proof. intros H. unfold hash_sync, cleanup, create_missing. by rewrite H, !range_empty. Qed.

(** ** Against a store of items *)
Class ItemLaws {W X D} (items : W → gmap Z X) (id_of : X → option Z) (created : D → Z → X)
    (delete_item : Z → prog W (option gerror)) (create_item : D → prog W (option gerror)) : Prop := {
  item_id w id x : items w !! id = Some x → id_of x = Some id;
  item_delete id w : let '(e, w') := run (delete_item id) w in e = None → items w' = delete id (items w);
  item_create d w : let '(e, w') := run (create_item d) w in
    e = None → ∃ id, items w !! id = None ∧ items w' = <[id := created d id]> (items w)
}.

(** A collection is listed unless the call fails. *)
Definition lists {X} (l : list X) (m : gmap Z X) : Prop :=
  (∀ x, x ∈ l → ∃ id, m !! id = Some x) ∧ (∀ id x, m !! id = Some x → x ∈ l).
Definition ListLaw {W X} (items : W → gmap Z X) (list_items : prog W (res (list X))) : Prop :=
  ∀ w, match run list_items w with (inl l, w') => w' = w ∧ lists l (items w) | (inr _, _) => True end.

(** Operations on what the API stores for requests give operations on what is stored for definitions, also
    when the errors are wrapped. *)
Lemma ItemLaws_map {W X D Q} (f : D → Q) (items : W → gmap Z X) id_of stored delete_item (create_item : Q → prog W (option gerror)) :
  ItemLaws items id_of stored delete_item create_item →
  ItemLaws items id_of (λ d, stored (f d)) delete_item (λ d, create_item (f d)).
Proof. intros [Hid Hdelete Hcreate]. split; [exact Hid|exact Hdelete|]. intros d. apply Hcreate. Qed.

Lemma ItemLaws_wrapped {W X D} (items : W → gmap Z X) id_of created delete_item (create_item : D → prog W (option gerror))
    (fd : Z → gerror → gerror) (fc : gerror → gerror) :
  ItemLaws items id_of created delete_item create_item →
  ItemLaws items id_of created (λ id, let! err := delete_item id in Ret (fd id <$> err))
    (λ d, let! err := create_item d in Ret (fc <$> err)).
Proof.
  intros [Hid Hdelete Hcreate]. split; [exact Hid| |].
  - intros id w. rewrite run_bind. pose proof (Hdelete id w) as H. destruct (run _ w) as [[e|] w']; cbn [run]; [done|]. intros _. by apply H.
  - intros d w. rewrite run_bind. pose proof (Hcreate d w) as H. destruct (run _ w) as [[e|] w']; cbn [run]; [done|]. intros _. by apply H.
Qed.

Section Store.
Context {W X D : Type} (o : MapOrder).
Context (hash_x : X → option string) (id_of : X → option Z) (hash_d : D → string) (uptodate : D → bool).
Context (delete_item : Z → prog W (option gerror)) (create_item : D → prog W (option gerror)).
Context (items : W → gmap Z X) (created : D → Z → X) {L : ItemLaws items id_of created delete_item create_item}.

(** At most one item per hash. *)
Definition unique_hashes (m : gmap Z X) : Prop :=
  ∀ i j x y h, m !! i = Some x → m !! j = Some y → hash_x x = Some h → hash_x y = Some h → i = j.

Lemma cleanup_spec toRemove w1 w w' :
  unique_hashes (items w1) → items w = items w1 →
  (∀ h x, toRemove !! h = Some x → hash_x x = Some h ∧ ∃ id, items w1 !! id = Some x) →
  run (cleanup o id_of delete_item toRemove) w = (None, w') →
  ∀ id x, items w' !! id = Some x ↔ items w1 !! id = Some x ∧ ∀ h, hash_x x = Some h → toRemove !! h = None.
Proof.
  intros Huniq Hw Hrm Hrun.
  set (P (done : list (string * X)) (w : W) := ∀ id x,
    items w !! id = Some x ↔ items w1 !! id = Some x ∧ ∀ h, hash_x x = Some h → h ∉ done.*1).
  pose proof (for_each_inv P (λ _ _, True)
    (λ '(h, x), match id_of x with None => Ret None | Some id => delete_item id end) (range o toRemove)) as Hloop.
  unfold cleanup in Hrun. specialize (λ H, Hloop H w). rewrite Hrun in Hloop.
  assert (P (range o toRemove) w') as HP.
  { apply Hloop; [|intros id x; rewrite Hw; set_solver].
    clear Hloop Hrun Hw w w'. intros done [h x] rest w Hl HP.
    assert (toRemove !! h = Some x) as Hx by (apply (elem_of_range o); rewrite Hl; set_solver).
    destruct (Hrm h x Hx) as (Hh & id & Hid). rewrite (item_id (ItemLaws := L) w1 id x Hid).
    pose proof (item_delete (ItemLaws := L) id w) as Hd. destruct (run (delete_item id) w) as [[e|] w']; [done|].
    intros i y. rewrite (Hd eq_refl), lookup_delete_Some, (HP i y), fmap_app. cbn [fmap list_fmap fst]. split.
    - intros (Hne & Hy & Hnin). split; [done|]. intros k Hk. rewrite not_elem_of_app, list_elem_of_singleton.
      split; [by apply Hnin|]. intros ->. apply Hne. by apply (Huniq id i x y h).
    - intros (Hy & Hnin). split_and!; [|done|].
      + intros ->. assert (x = y) as -> by congruence. specialize (Hnin h Hh).
        rewrite not_elem_of_app, list_elem_of_singleton in Hnin. by destruct Hnin.
      + intros k Hk. specialize (Hnin k Hk). rewrite not_elem_of_app in Hnin. by destruct Hnin. }
  intros id x. rewrite (HP id x). apply and_iff_compat_l. apply forall_proper. intros h.
  apply forall_proper. intros _. rewrite list_elem_of_fmap, eq_None_not_Some. apply not_iff_compat. split.
  - intros ([k y] & -> & Hin). exists y. by apply (elem_of_range o).
  - intros [y Hy]. exists (h, y). split; [done|]. by apply (elem_of_range o).
Qed.

(** What the creation adds to the items [m0]. *)
Record added (m0 : gmap Z X) (ds : list D) (m : gmap Z X) : Prop := {
  ad_old id x : m0 !! id = Some x → m !! id = Some x;
  ad_new id x : m !! id = Some x → m0 !! id = None → ∃ d, d ∈ ds ∧ x = created d id;
  ad_all d : d ∈ ds → ∃ id, m0 !! id = None ∧ m !! id = Some (created d id);
  ad_unique : unique_hashes m
}.

Lemma create_spec toAdd w0 w' :
  unique_hashes (items w0) →
  (∀ h d, toAdd !! h = Some d → (∀ id, hash_x (created d id) = Some h) ∧
     ∀ id x, items w0 !! id = Some x → hash_x x ≠ Some h) →
  run (create_missing o create_item toAdd) w0 = (None, w') →
  added (items w0) (range o toAdd).*2 (items w').
Proof.
  intros Huniq Hadd Hrun.
  pose proof (for_each_inv (λ done w, added (items w0) done.*2 (items w)) (λ _ _, True)
    (λ '(h, d), create_item d) (range o toAdd)) as Hloop.
  unfold create_missing in Hrun. specialize (λ H, Hloop H w0). rewrite Hrun in Hloop.
  apply Hloop; [|split; [done|congruence|set_solver|done]].
  clear Hloop Hrun w'. intros done [h d] rest w Hl [Hold Hnew Hall Hu].
  assert (∀ k e, (k, e) ∈ done ++ [(h, d)] → toAdd !! k = Some e) as Hin.
  { intros k e Hk. apply (elem_of_range o). rewrite Hl. set_solver. }
  destruct (Hadd h d) as [Hh Hfresh]; [apply Hin; set_solver|].
  assert (h ∉ done.*1) as Hnew_h.
  { pose proof (NoDup_range_keys o toAdd) as Hnd. rewrite Hl, fmap_app in Hnd. apply NoDup_app in Hnd as (_ & Hnd & _).
    intros Hd. by apply (Hnd _ Hd), list_elem_of_here. }
  pose proof (item_create (ItemLaws := L) d w) as Hc. destruct (run (create_item d) w) as [[e|] w']; [done|].
  destruct (Hc eq_refl) as (id & Hid & Hitems). rewrite Hitems, fmap_app. cbn [fmap list_fmap snd].
  assert (items w0 !! id = None) as Hid0.
  { destruct (items w0 !! id) eqn:E; [|done]. apply Hold in E. congruence. }
  assert (∀ i x, items w !! i = Some x → hash_x x ≠ Some h) as Hother.
  { intros i x Hx. destruct (items w0 !! i) as [y|] eqn:E.
    - assert (y = x) as -> by (apply Hold in E; congruence). by eapply Hfresh.
    - destruct (Hnew i x Hx E) as (d' & Hd' & ->). apply list_elem_of_fmap in Hd' as ([k e] & -> & Hke). simpl.
      destruct (Hadd k e) as [Hk _]; [apply Hin; set_solver|]. rewrite Hk. intros [= ->].
      apply Hnew_h. apply list_elem_of_fmap. by exists (h, e). }
  split.
  - intros i x Hi. rewrite lookup_insert_ne by congruence. by apply Hold.
  - intros i x. rewrite lookup_insert. case_decide as E; [intros [= <-] _; subst; exists d; set_solver|].
    intros Hi H0. destruct (Hnew i x Hi H0) as (d' & ? & ?). exists d'. set_solver.
  - intros d' [Hd'| ->%list_elem_of_singleton]%elem_of_app.
    + destruct (Hall d' Hd') as (i & ? & Hi). exists i. split; [done|]. rewrite lookup_insert_ne by congruence. done.
    + exists id. rewrite lookup_insert_eq. done.
  - intros i j x y k. rewrite !lookup_insert. do 2 case_decide; intros Hi Hj Hx Hy; simplify_eq; try done.
    + rewrite Hh in Hx. simplify_eq. by destruct (Hother _ _ Hj).
    + rewrite Hh in Hy. simplify_eq. by destruct (Hother _ _ Hi).
    + by eapply Hu.
Qed.

(** What a successful run of [hash_sync] leaves on GitHub: exactly one item per desired hash besides the
    skipped items; skipped items and items that may be kept are still the same objects, and every other item
    was created from a desired one. *)
Lemma hash_sync_spec l desired w w' :
  lists l (items w) → unique_hashes (items w) →
  (∀ d1 d2, d1 ∈ desired → d2 ∈ desired → hash_d d1 = hash_d d2 → uptodate d1 = uptodate d2) →
  (∀ d id, d ∈ desired → hash_x (created d id) = Some (hash_d d)) →
  run (hash_sync o hash_x id_of hash_d uptodate delete_item create_item l desired) w = (None, w') →
  unique_hashes (items w') ∧
  (∀ h, (∃ id x, items w' !! id = Some x ∧ hash_x x = Some h) ↔ h ∈ hash_d <$> desired) ∧
  (∀ id x, items w !! id = Some x →
     (hash_x x = None ∨ ∃ d, d ∈ desired ∧ hash_x x = Some (hash_d d) ∧ uptodate d = true) → items w' !! id = Some x) ∧
  (∀ id x, items w' !! id = Some x → items w !! id = Some x ∨ ∃ d, d ∈ desired ∧ x = created d id) ∧
  (∀ id x d, items w !! id = Some x → d ∈ desired → hash_x x = Some (hash_d d) → uptodate d = false →
     items w' !! id = Some x → ∃ d', d' ∈ desired ∧ x = created d' id).
Proof.
  intros [Hl1 Hl2] Huniq Hup Hcr. unfold hash_sync. set (existing := index_existing hash_x l).
  pose proof (plan_spec hash_d uptodate existing desired) as Hplan.
  destruct (plan _ _ existing desired) as [rm add]. destruct Hplan as (Hrm & Hadd & Hall).
  rewrite run_bind. destruct (run (cleanup _ _ _ rm) w) as [[e|] w1] eqn:Hcl; step_run; [done|].
  assert (∀ h x, existing !! h = Some x ↔ hash_x x = Some h ∧ ∃ id, items w !! id = Some x) as Hex.
  { intros h x. split.
    - intros [? ?]%index_existing_Some. auto.
    - intros (Hh & id & Hid). destruct (index_existing_elem hash_x l x h (Hl2 _ _ Hid) Hh) as [y Hy].
      fold existing in Hy. rewrite Hy. apply index_existing_Some in Hy as [Hin Hy].
      destruct (Hl1 y Hin) as [j Hj]. assert (id = j) by (by eapply Huniq). congruence. }
  pose proof (cleanup_spec rm w w w1 Huniq eq_refl) as Hclean. specialize (λ H, Hclean H Hcl).
  assert (∀ h x, rm !! h = Some x → hash_x x = Some h ∧ ∃ id, items w !! id = Some x) as Hrm1.
  { intros h x [H _]%Hrm. by apply Hex. }
  specialize (Hclean Hrm1).
  assert (unique_hashes (items w1)) as Huniq1.
  { intros i j x y h Hi%Hclean Hj%Hclean. destruct Hi, Hj. by apply Huniq. }
  intros Hcreate.
  assert (∀ h d, add !! h = Some d → d ∈ desired ∧ hash_d d = h ∧ (existing !! h = None ∨ uptodate d = false)) as Hadd1.
  { intros h d (Hd & <- & Hnp)%Hadd. split_and!; [done|done|].
    by destruct (present_or_not hash_d uptodate existing d) as [?|[_ ?]]. }
  assert (∀ h d, add !! h = Some d → (∀ id, hash_x (created d id) = Some h) ∧
    ∀ id x, items w1 !! id = Some x → hash_x x ≠ Some h) as Hadd2.
  { intros h d Hd. destruct (Hadd1 h d Hd) as (Hin & <- & Hor). split; [intros; by apply Hcr|].
    intros id x [Hx Hnone]%Hclean Hh. specialize (Hnone _ Hh).
    assert (existing !! hash_d d = Some x) as Hx' by (apply Hex; eauto).
    assert (rm !! hash_d d = Some x); [|congruence]. apply Hrm. split; [done|]. intros d' Hd' Heq [_ Hu'].
    destruct Hor as [?|Hor]; [congruence|]. rewrite (Hup d' d Hd' Hin Heq) in Hu'. congruence. }
  destruct (create_spec add w1 w' Huniq1 Hadd2 Hcreate) as [Hold Hnew Hadded Huniq'].
  assert (∀ d, d ∈ (range o add).*2 → d ∈ desired) as Hsub.
  { intros d ([h d'] & -> & Hin)%list_elem_of_fmap. apply (elem_of_range o) in Hin. by apply Hadd1 in Hin as [? _]. }
  assert (∀ id x, items w' !! id = Some x → items w1 !! id = Some x ∨ ∃ d, d ∈ desired ∧ x = created d id) as Horigin.
  { intros id x Hx. destruct (items w1 !! id) as [y|] eqn:E.
    - left. apply Hold in E. congruence.
    - right. destruct (Hnew id x Hx E) as (d & Hd & ->). eauto. }
  split_and!; [done| | | |].
  - intros h. split.
    + intros (id & x & Hx & Hh). destruct (Horigin id x Hx) as [H1|(d & Hd & ->)].
      * apply Hclean in H1 as [H0 Hnone]. specialize (Hnone h Hh).
        assert (existing !! h = Some x) as Hx' by (apply Hex; eauto).
        destruct (decide (h ∈ hash_d <$> desired)) as [|Hno]; [done|].
        assert (rm !! h = Some x); [|congruence]. apply Hrm. split; [done|]. intros d Hd <-.
        exfalso. by apply Hno, list_elem_of_fmap_2.
      * rewrite Hcr in Hh by done. simplify_eq. by apply list_elem_of_fmap_2.
    + intros (d & -> & Hd)%list_elem_of_fmap.
      destruct (present_or_not hash_d uptodate existing d) as [[[x Hx] Hu]|[Hnp _]].
      * apply Hex in Hx as Hx'. destruct Hx' as (Hh & id & Hid). exists id, x. split; [|done]. apply Hold, Hclean.
        split; [done|]. intros k Hk. destruct (rm !! k) as [y|] eqn:E; [|done]. apply Hrm in E as [_ E].
        exfalso. apply (E d Hd); [congruence|]. split; [by exists x|done].
      * destruct (Hall d Hd Hnp) as [d' Hd']. destruct (Hadd1 _ _ Hd') as (Hin & Heq & _).
        destruct (Hadded d') as (id & _ & Hid).
        { apply list_elem_of_fmap. exists (hash_d d, d'). split; [done|]. by apply (elem_of_range o). }
        exists id, (created d' id). split; [done|]. rewrite Hcr by done. by f_equal.
  - intros id x Hx Hkeep. apply Hold, Hclean. split; [done|]. intros h Hh.
    destruct Hkeep as [Hk|(d & Hd & Hk & Hu)]; [congruence|]. rewrite Hh in Hk. injection Hk as ->.
    destruct (rm !! hash_d d) as [y|] eqn:E; [|done]. apply Hrm in E as [_ E]. exfalso. apply (E d Hd eq_refl).
    split; [|done]. exists x. apply Hex. eauto.
  - intros id x Hx. destruct (Horigin id x Hx) as [H1|]; [left|by right]. by apply Hclean in H1 as [? _].
  - intros id x d Hx Hd Hh Hu H'. destruct (Horigin id x H') as [H1|]; [|done]. exfalso.
    apply Hclean in H1 as [_ Hnone]. specialize (Hnone _ Hh). assert (rm !! hash_d d = Some x); [|congruence]. apply Hrm.
    split; [apply Hex; eauto|]. intros d' Hd' Heq [_ Hu']. rewrite (Hup d' d Hd' Hd Heq) in Hu'. congruence.
Qed.
End Store.

(** The same with the content behind the hashes: without hash collisions among the contents in play, the
    contents on GitHub are exactly the desired ones. *)
Section Contents.
Context {W X D C : Type} (o : MapOrder).
Context (content_x : X → option C) (content_d : D → C) (hash : C → string) (id_of : X → option Z).
Context (delete_item : Z → prog W (option gerror)) (create_item : D → prog W (option gerror)).
Context (items : W → gmap Z X) (created : D → Z → X) {L : ItemLaws items id_of created delete_item create_item}.

Definition in_play (m : gmap Z X) (desired : list D) (c : C) : Prop :=
  (∃ id x, m !! id = Some x ∧ content_x x = Some c) ∨ c ∈ content_d <$> desired.
Definition collision_free (m : gmap Z X) (desired : list D) : Prop :=
  ∀ c1 c2, in_play m desired c1 → in_play m desired c2 → hash c1 = hash c2 → c1 = c2.
(** GitHub rejects two items with the same content. *)
Definition unique_contents (m : gmap Z X) : Prop :=
  ∀ i j x y c, m !! i = Some x → m !! j = Some y → content_x x = Some c → content_x y = Some c → i = j.

(** What the collection on GitHub looks like after a successful synchronisation. *)
Definition synced (desired : list D) (before after : gmap Z X) : Prop :=
  (∀ c, (∃ id x, after !! id = Some x ∧ content_x x = Some c) ↔ c ∈ content_d <$> desired) ∧
  (∀ id x, before !! id = Some x →
     (content_x x = None ∨ ∃ c, content_x x = Some c ∧ c ∈ content_d <$> desired) → after !! id = Some x) ∧
  (∀ id x, after !! id = Some x → before !! id = Some x ∨ ∃ d, d ∈ desired ∧ x = created d id).

Lemma hash_sync_contents l desired w w' :
  lists l (items w) → unique_contents (items w) → collision_free (items w) desired →
  (∀ d id, d ∈ desired → content_x (created d id) = Some (content_d d)) →
  run (hash_sync o (λ x, hash <$> content_x x) id_of (λ d, hash (content_d d)) (λ _, true)
    delete_item create_item l desired) w = (None, w') →
  synced desired (items w) (items w').
Proof.
  intros Hl Huc Hcf Hcr Hrun.
  assert (unique_hashes (λ x, hash <$> content_x x) (items w)) as Huh.
  { intros i j x y h Hx Hy (c & Hc & ->)%fmap_Some (c' & Hc' & Heq)%fmap_Some.
    assert (c = c') as <- by (apply Hcf; [left; eauto|left; eauto|done]). by eapply Huc. }
  assert (∀ d id, d ∈ desired → hash <$> content_x (created d id) = Some (hash (content_d d))) as Hcrh.
  { intros d id Hd. by rewrite Hcr. }
  pose proof (hash_sync_spec o _ _ _ (λ _, true) _ _ items created l desired w w' Hl Huh (λ _ _ _ _ _, eq_refl) Hcrh Hrun)
    as (_ & Hset & Hkeep & Horigin & _).
  assert (∀ id x c, items w' !! id = Some x → content_x x = Some c → in_play (items w) desired c) as Hplay.
  { intros id x c Hx Hc. destruct (Horigin id x Hx) as [H|(d & Hd & ->)]; [left; eauto|right].
    rewrite Hcr in Hc by done. injection Hc as <-. by apply list_elem_of_fmap_2. }
  split_and!; [|intros id x Hx [Hnone|(c & Hc & (d & -> & Hd)%list_elem_of_fmap)]; apply (Hkeep id x Hx)|done].
  - intros c. split.
    + intros (id & x & Hx & Hc). assert (hash c ∈ (λ d, hash (content_d d)) <$> desired) as Hin.
      { apply Hset. exists id, x. by rewrite Hc. }
      apply list_elem_of_fmap in Hin as (d & Heq & Hd). apply list_elem_of_fmap. exists d. split; [|done].
      apply Hcf; [by eapply Hplay|right; by apply list_elem_of_fmap_2|done].
    + intros (d & -> & Hd)%list_elem_of_fmap.
      destruct (Hset (hash (content_d d))) as [_ (id & x & Hx & (c & Hc & Heq)%fmap_Some)].
      { by apply (list_elem_of_fmap_2 (λ d, hash (content_d d))). }
      exists id, x. split; [done|]. rewrite Hc. f_equal.
      apply Hcf; [by eapply Hplay|right; by apply list_elem_of_fmap_2|done].
  - left. by rewrite Hnone.
  - right. exists d. by rewrite Hc.
Qed.
End Contents.

(** ** A concrete store for witnesses: the objects by id *)
Module ToyStore.
Lemma lists_values {X} (m : gmap Z X) : lists (snd <$> map_to_list m) m.
Proof.
  split.
  - intros x ([id y] & -> & Hin)%list_elem_of_fmap. exists id. by apply elem_of_map_to_list.
  - intros id x Hx. apply list_elem_of_fmap. exists (id, x). split; [done|]. by apply elem_of_map_to_list.
Qed.

Section Store.
Context {X : Type} (id_of : X → option Z).

(** The objects that carry their own id; a new object gets an unused one. *)
Definition toy_items (w : gmap Z X) : gmap Z X := filter (λ p, id_of p.2 = Some p.1) w.
Definition toy_add (mk : Z → X) (w : gmap Z X) : option gerror * gmap Z X := (None, <[fresh (dom w) := mk (fresh (dom w))]> w).
Definition toy_delete (id : Z) (w : gmap Z X) : option gerror * gmap Z X := (None, delete id w).
Definition toy_list (w : gmap Z X) : res (list X) := inl (snd <$> map_to_list (toy_items w)).

Lemma toy_list_law : ListLaw toy_items (gets toy_list).
Proof. intros w. split; [done|]. apply lists_values. Qed.

Lemma toy_laws {D} (created : D → Z → X) :
  (∀ d id, id_of (created d id) = Some id) →
  ItemLaws toy_items id_of created (λ id, call (toy_delete id)) (λ d, call (toy_add (created d))).
Proof.
  intros Hid. split; unfold toy_items.
  - intros w id x. by intros [_ ?]%map_lookup_filter_Some.
  - intros id w. simpl. intros _. apply map_filter_delete.
  - intros d w. simpl. intros _. exists (fresh (dom w)). split.
    + apply map_lookup_filter_None. left. apply not_elem_of_dom, is_fresh.
    + apply map_filter_insert_True, Hid.
Qed.
End Store.

Lemma toy_singleton {X} (id_of : X → option Z) i x j y :
  toy_items id_of ({[ i := x ]} : gmap Z X) !! j = Some y → j = i ∧ y = x.
Proof. by intros [[-> ->]%lookup_singleton_Some _]%map_lookup_filter_Some. Qed.

Lemma toy_unique {X C} (id_of : X → option Z) (content : X → option C) i x :
  unique_contents content (toy_items id_of {[ i := x ]}).
Proof. by intros j k y z c [-> _]%toy_singleton [-> _]%toy_singleton. Qed.
End ToyStore.
