(* ===== verification/RepoLists.v ===== *)
(** * Deploy keys, autolinks and topics of a repository

    internal/reconciler/reporec/rec_deploykeys.go, rec_autolinks.go, rec_topics.go with the mapping functions
    of internal/mapper/github_deploykey_mapper.go and github_autolink_mapper.go. *)
From stdpp Require Import pretty.
From S2P Require Import Prelude GoErrors Conditions ApiTypes Merge Sha256 HashSync.

(** [%t] of a bool. *)
Definition fmt_bool (b : bool) : string := if b then "true" else "false".

(** ** Deploy keys *)
Definition deploy_key_text (key title : string) (readonly : bool) : string :=
  key +:+ "|" +:+ title +:+ "|" +:+ fmt_bool readonly.
Definition HashDeployKey (key title : string) (readonly : bool) : string :=
  sha256_hex (deploy_key_text key title readonly).

(** [github.Key] and [github.CreateDeployKeyRequest]. *)
Record gh_Key := { k_ID : option Z; k_Key : option string; k_Title : option string; k_ReadOnly : option bool }.
Record CreateDeployKeyRequest := { ck_Key : string; ck_ReadOnly : option bool; ck_Title : option string }.

Definition DeployKeyPresetToDeployKeyRequest (preset : DeployKey) : CreateDeployKeyRequest :=
  {| ck_Key := dk_Key preset; ck_ReadOnly := WithDefaultAsPtr (dk_ReadOnly preset) true; ck_Title := Some (dk_Title preset) |}.

(** The fields of a complete key; incomplete ones are skipped by the reconciler. *)
Definition key_content (k : gh_Key) : option (string * string * bool) :=
  match k_ID k, k_Key k, k_Title k, k_ReadOnly k with
  | Some _, Some key, Some title, Some ro => Some (key, title, ro)
  | _, _, _, _ => None
  end.
Definition desired_key_content (d : DeployKey) : string * string * bool :=
  (dk_Key d, dk_Title d, WithDefault (dk_ReadOnly d) true).
Definition hash_key (c : string * string * bool) : string := HashDeployKey c.1.1 c.1.2 c.2.

Class DeployKeyApi (W : Type) := {
  ListAllDeployKeys : prog W (res (list gh_Key));
  DeleteDeployKey : Z → prog W (option gerror);
  CreateDeployKey : CreateDeployKeyRequest → prog W (option gerror)
}.

Section DeployKeys.
Context {W : Type} (o : MapOrder) {A : DeployKeyApi W}.

Definition cleanupUnusedDeployKeys : gmap string gh_Key → prog W (option gerror) := cleanup o k_ID DeleteDeployKey.
Definition createMissingDeployKeys : gmap string DeployKey → prog W (option gerror) :=
  create_missing o (λ d, CreateDeployKey (DeployKeyPresetToDeployKeyRequest d)).

Definition reconcileDeployKeys (DeployKeyList : list DeployKey) : prog W (option gerror) :=
  let! deployKeys := ListAllDeployKeys in
  match deployKeys with
  | inr err => Ret (Some err)
  | inl deployKeys =>
    let existingDeployKeys := index_existing (λ k, hash_key <$> key_content k) deployKeys in
    let '(deployKeysToRemove, deployKeysToAdd) :=
      plan (λ d, hash_key (desired_key_content d)) (λ _, true) existingDeployKeys DeployKeyList in
    check cleanupUnusedDeployKeys deployKeysToRemove in
    createMissingDeployKeys deployKeysToAdd
  end.
End DeployKeys.

(** ** Autolinks *)
Definition autolink_text (keyPrefix urlTemplate : string) (isAlphanumeric : bool) : string :=
  keyPrefix +:+ "|" +:+ urlTemplate +:+ "|" +:+ fmt_bool isAlphanumeric.
Definition HashAutolink (keyPrefix urlTemplate : string) (isAlphanumeric : bool) : string :=
  sha256_hex (autolink_text keyPrefix urlTemplate isAlphanumeric).

Record gh_Autolink := { al_ID : option Z; gal_KeyPrefix : option string; gal_URLTemplate : option string;
                        gal_IsAlphanumeric : option bool }.
Record CreateAutolinkRequest := { ca_KeyPrefix : string; ca_URLTemplate : string; ca_IsAlphanumeric : option bool }.

Definition KubernetesAutolinkToGitHubAutolink (preset : Autolink) : CreateAutolinkRequest :=
  {| ca_KeyPrefix := al_KeyPrefix preset; ca_URLTemplate := al_URLTemplate preset;
     ca_IsAlphanumeric := Some (al_IsAlphanumeric preset) |}.

Definition autolink_content (a : gh_Autolink) : option (string * string * bool) :=
  match gal_KeyPrefix a, gal_URLTemplate a, gal_IsAlphanumeric a with
  | Some p, Some u, Some b => Some (p, u, b)
  | _, _, _ => None
  end.

Record DesiredAutolink := { da_Source : string; da_Spec : Autolink }.
Definition desired_autolink_content (d : DesiredAutolink) : string * string * bool :=
  (al_KeyPrefix (da_Spec d), al_URLTemplate (da_Spec d), al_IsAlphanumeric (da_Spec d)).
Definition hash_autolink (c : string * string * bool) : string := HashAutolink c.1.1 c.1.2 c.2.

Definition AutolinksPresetSource (name : string) (idx : nat) : string :=
  "autolinksPreset/" +:+ name +:+ "[" +:+ pretty idx +:+ "]".

Definition desired_of (source : nat → string) (l : list Autolink) : list DesiredAutolink :=
  imap (λ i a, {| da_Source := source i; da_Spec := a |}) l.

Class AutolinkApi (W : Type) := {
  ListAllAutolinks : prog W (res (list gh_Autolink));
  DeleteAutolink : Z → prog W (option gerror);
  CreateAutolink : CreateAutolinkRequest → prog W (option gerror);
  (* the Kubernetes client, by namespace and name *)
  GetAutolinksPreset : string → string → prog W (res AutolinksPreset)
}.

Section Autolinks.
Context {W : Type} (o : MapOrder) {A : AutolinkApi W}.

Fixpoint autolink_candidates (namespace : string) (presetRefs : list string) : prog W (res (list DesiredAutolink)) :=
  match presetRefs with
  | [] => Ret (inl [])
  | ref :: presetRefs =>
    let! preset := GetAutolinksPreset namespace ref in
    match preset with
    | inr err => Ret (inr (EWrap ("failed to get autolinks preset " +:+ ref) err))
    | inl preset =>
      let? rest := autolink_candidates namespace presetRefs in
      Ret (inl (desired_of (AutolinksPresetSource ref) (ap_AutolinkList preset) ++ rest))
    end
  end.

Definition dedupe_autolinks (candidates : list DesiredAutolink) : res (list DesiredAutolink) :=
  let '(result, conflicts) := Dedupe (λ d, al_KeyPrefix (da_Spec d))
    (λ a b, bool_decide (da_Spec a = da_Spec b)) da_Source candidates in
  match errors_join ((λ c, Some (EAutolinkConflict (cf_Key c) (cf_Sources c))) <$> conflicts) with
  | Some err => inr err
  | None => inl result
  end.

Definition collectDesiredAutolinks (namespace : string) (presetRefs : list string) (inline : list Autolink)
    : prog W (res (list DesiredAutolink)) :=
  let? candidates := autolink_candidates namespace presetRefs in
  Ret (dedupe_autolinks (candidates ++ desired_of InlineSource inline)).

Definition cleanupUnusedAutolinks : gmap string gh_Autolink → prog W (option gerror) := cleanup o al_ID DeleteAutolink.
Definition createMissingAutolinks : gmap string DesiredAutolink → prog W (option gerror) :=
  create_missing o (λ d, CreateAutolink (KubernetesAutolinkToGitHubAutolink (da_Spec d))).

Definition reconcileAutolinks (namespace : string) (presetRefs : list string) (inline : list Autolink)
    : prog W (option gerror) :=
  let! desired := collectDesiredAutolinks namespace presetRefs inline in
  match desired with
  | inr err => Ret (Some err)
  | inl desiredAutolinks =>
    let! autolinks := ListAllAutolinks in
    match autolinks with
    | inr err => Ret (Some err)
    | inl autolinks =>
      let existingAutolinks := index_existing (λ a, hash_autolink <$> autolink_content a) autolinks in
      let '(autolinksToRemove, autolinksToAdd) :=
        plan (λ d, hash_autolink (desired_autolink_content d)) (λ _, true) existingAutolinks desiredAutolinks in
      check cleanupUnusedAutolinks autolinksToRemove in
      createMissingAutolinks autolinksToAdd
    end
  end.
End Autolinks.

(** ** Topics; [strcase.ToKebab] is a parameter *)
Class TopicApi (W : Type) := {
  GetAllTopics : prog W (res (list string));
  ReplaceAllTopics : list string → prog W (option gerror)
}.

Section Topics.
Context (ToKebab : string → string).

(** The keys of the map, collected in some order and sorted. *)
Definition uniqueKebabCasedSorted (input : list string) : list string :=
  sort_strings (elements (list_to_set (ToKebab <$> input) : gset string)).

Definition uniqueKebabCasedSortedTopics (topics : list string) : list string :=
  uniqueKebabCasedSorted (filter (λ t, t ≠ "") topics).

Definition reconcileTopics {W} {A : TopicApi W} (topics : list string) : prog W (option gerror) :=
  let! currentTopics := GetAllTopics in
  match currentTopics with
  | inr err => Ret (Some err)
  | inl currentTopics =>
    let currentTopics := uniqueKebabCasedSorted currentTopics in
    let desiredTopics := uniqueKebabCasedSortedTopics topics in
    if negb (bool_decide (currentTopics = desiredTopics)) then ReplaceAllTopics desiredTopics
    else Ret None
  end.
End Topics.

(** ** Theorems *)

(** The key GitHub stores for a request, and for a definition. *)
Definition stored_key (r : CreateDeployKeyRequest) (id : Z) : gh_Key :=
  {| k_ID := Some id; k_Key := Some (ck_Key r); k_Title := ck_Title r; k_ReadOnly := ck_ReadOnly r |}.
Definition created_key (d : DeployKey) : Z → gh_Key := stored_key (DeployKeyPresetToDeployKeyRequest d).

(** C23: a successful run leaves exactly the declared deploy keys on the repository: every declared key is
    there (read-only unless declared otherwise), every other complete key is gone, and a key that was already
    right is still the same object.  It relies on GitHub storing what it is sent and on no hash collision
    among the keys in play. *)
Theorem reconcileDeployKeys_synced {W} o (A : DeployKeyApi W) (items : W → gmap Z gh_Key)
    (L : ItemLaws items k_ID stored_key DeleteDeployKey CreateDeployKey) desired w w' :
  ListLaw items ListAllDeployKeys →
  unique_contents key_content (items w) →
  collision_free key_content desired_key_content hash_key (items w) desired →
  run (reconcileDeployKeys o desired) w = (None, w') →
  synced key_content desired_key_content created_key desired (items w) (items w').
Proof.
  intros Hlist Huniq Hfree. unfold reconcileDeployKeys. rewrite run_bind.
  pose proof (Hlist w) as Hl. destruct (run ListAllDeployKeys w) as [[l|e] w1]; [|done]. destruct Hl as [-> Hl].
  step_run. intros Hrun. pose proof (ItemLaws_map DeployKeyPresetToDeployKeyRequest _ _ _ _ _ L) as LD.
  eapply (hash_sync_contents o key_content desired_key_content hash_key k_ID); [done..| |exact Hrun].
  intros d id _. unfold created_key, stored_key, DeployKeyPresetToDeployKeyRequest, desired_key_content. simpl.
  by destruct (dk_ReadOnly d).
Qed.

Definition stored_autolink (r : CreateAutolinkRequest) (id : Z) : gh_Autolink :=
  {| al_ID := Some id; gal_KeyPrefix := Some (ca_KeyPrefix r); gal_URLTemplate := Some (ca_URLTemplate r);
     gal_IsAlphanumeric := ca_IsAlphanumeric r |}.
Definition created_autolink (d : DesiredAutolink) : Z → gh_Autolink :=
  stored_autolink (KubernetesAutolinkToGitHubAutolink (da_Spec d)).

Lemma dedupe_autolinks_prefixes candidates desired :
  dedupe_autolinks candidates = inl desired → NoDup ((λ d, al_KeyPrefix (da_Spec d)) <$> desired) ∧
  ∀ c, c ∈ candidates → ∃ d, d ∈ desired ∧ da_Spec d = da_Spec c.
Proof.
  unfold dedupe_autolinks. destruct (Dedupe _ _ _ candidates) as [kept conflicts] eqn:Hdd.
  rewrite (list_fmap_compose (λ c, EAutolinkConflict (cf_Key c) (cf_Sources c)) Some), errors_join_Some.
  destruct conflicts; simpl; [|done]. intros [= <-]. split.
  - pose proof (dedupe_keys_NoDup (λ d, al_KeyPrefix (da_Spec d)) (λ a b, bool_decide (da_Spec a = da_Spec b))
      da_Source candidates) as H. by rewrite Hdd in H.
  - intros c Hc. destruct (dedupe_kept_for (λ d, al_KeyPrefix (da_Spec d)) (λ a b, bool_decide (da_Spec a = da_Spec b))
      da_Source candidates c Hc) as (d & Hd & _ & Hor). rewrite Hdd in Hd, Hor. exists d. split; [done|].
    destruct Hor as [->|[?|?%bool_decide_eq_true]]; done.
Qed.

(** The autolinks after a successful run: one per key prefix, exactly those defined by the presets and
    inline entries; conflicting definitions are reported before any GitHub call. *)
Theorem reconcileAutolinks_synced {W} o (A : AutolinkApi W) (items : W → gmap Z gh_Autolink)
    (L : ItemLaws items al_ID stored_autolink DeleteAutolink CreateAutolink) ns refs inline w out w1 w' :
  ListLaw items ListAllAutolinks →
  run (collectDesiredAutolinks ns refs inline) w = (out, w1) →
  match out with
  | inr err => run (reconcileAutolinks o ns refs inline) w = (Some err, w1)
  | inl desired =>
    NoDup ((λ d, al_KeyPrefix (da_Spec d)) <$> desired) ∧
    (unique_contents autolink_content (items w1) →
     collision_free autolink_content desired_autolink_content hash_autolink (items w1) desired →
     run (reconcileAutolinks o ns refs inline) w = (None, w') →
     synced autolink_content desired_autolink_content created_autolink desired (items w1) (items w'))
  end.
Proof.
  intros Hlist Hcollect. unfold reconcileAutolinks. rewrite run_bind, Hcollect.
  destruct out as [desired|err]; [|done]. split.
  - unfold collectDesiredAutolinks in Hcollect. rewrite run_bind in Hcollect.
    destruct (run (autolink_candidates ns refs) w) as [[cs|e] w2]; [|done].
    injection Hcollect as Hdd _. by apply dedupe_autolinks_prefixes in Hdd as [? _].
  - intros Huniq Hfree. rewrite run_bind.
    pose proof (Hlist w1) as Hl. destruct (run ListAllAutolinks w1) as [[l|e] w2]; [|done]. destruct Hl as [-> Hl].
    step_run. intros Hrun. pose proof (ItemLaws_map (λ d, KubernetesAutolinkToGitHubAutolink (da_Spec d)) _ _ _ _ _ L) as LD.
    eapply (hash_sync_contents o autolink_content desired_autolink_content hash_autolink al_ID); [done..| |exact Hrun].
    done.
Qed.

(** After a successful run the topics on GitHub are, in kebab case, exactly the non-empty topics of the
    spec, whatever their order and however often they occur. *)
Theorem reconcileTopics_spec {W} (ToKebab : string → string) (A : TopicApi W) (topics_of : W → list string) topics w w' :
  (∀ s, ToKebab (ToKebab s) = ToKebab s) →
  (∀ w, run GetAllTopics w = (inl (topics_of w), w)) →
  (∀ ts w, let '(e, w') := run (ReplaceAllTopics ts) w in e = None → topics_of w' = ts) →
  run (reconcileTopics ToKebab topics) w = (None, w') →
  (∀ t, t ∈ ToKebab <$> topics_of w' ↔ ∃ s, s ∈ topics ∧ s ≠ "" ∧ t = ToKebab s) ∧
  (uniqueKebabCasedSorted ToKebab (topics_of w) = uniqueKebabCasedSortedTopics ToKebab topics → w' = w).
Proof.
  intros Hidem Hget Hreplace. unfold reconcileTopics. rewrite run_bind, Hget. step_run.
  assert (∀ l t, t ∈ uniqueKebabCasedSorted ToKebab l ↔ t ∈ ToKebab <$> l) as Hin.
  { intros l t. unfold uniqueKebabCasedSorted. by rewrite sort_strings_perm, elem_of_elements, elem_of_list_to_set. }
  assert (∀ t, t ∈ uniqueKebabCasedSortedTopics ToKebab topics ↔ ∃ s, s ∈ topics ∧ s ≠ "" ∧ t = ToKebab s) as Hdes.
  { intros t. unfold uniqueKebabCasedSortedTopics. rewrite Hin, list_elem_of_fmap.
    setoid_rewrite list_elem_of_filter. naive_solver. }
  case_bool_decide as Heq; simpl.
  - intros [= <-]. split; [|done]. intros t. by rewrite <-Hin, Heq, Hdes.
  - intros Hrun. split; [|done]. pose proof (Hreplace (uniqueKebabCasedSortedTopics ToKebab topics) w) as Hr.
    rewrite Hrun in Hr. rewrite (Hr eq_refl). intros t. rewrite list_elem_of_fmap. setoid_rewrite Hdes. split.
    + intros (u & -> & s & Hs & Hne & ->). exists s. by rewrite Hidem.
    + intros (s & Hs & Hne & ->). exists (ToKebab s). rewrite Hidem. eauto.
Qed.

(** Two different autolinks can have the same hash: the separator may occur in the fields. *)
Lemma autolink_hash_ambiguous : HashAutolink "A|" "b" true = HashAutolink "A" "|b" true.
Proof. exact (f_equal sha256_hex (eq_refl (autolink_text "A" "|b" true))). Qed.

(** ** A concrete repository for the witnesses *)
Module ToyRepo.
Import ToyStore.
#[export] Instance keys : DeployKeyApi (gmap Z gh_Key) := {|
  ListAllDeployKeys := gets (toy_list k_ID);
  DeleteDeployKey id := call (toy_delete id);
  CreateDeployKey r := call (toy_add (stored_key r))
|}.
#[export] Instance links : AutolinkApi (gmap Z gh_Autolink) := {|
  ListAllAutolinks := gets (toy_list al_ID);
  DeleteAutolink id := call (toy_delete id);
  CreateAutolink r := call (toy_add (stored_autolink r));
  GetAutolinksPreset _ name := Ret (inr notFoundStatus)
|}.
#[export] Instance topics : TopicApi (list string) := {|
  GetAllTopics := gets inl;
  ReplaceAllTopics ts := call (λ _, (None, ts)) |}.

Definition key_laws := toy_laws k_ID stored_key (λ d id, eq_refl).
Definition link_laws := toy_laws al_ID stored_autolink (λ d id, eq_refl).

(** A repository with one object, of which another one is desired. *)
Definition old_key : DeployKey := {| dk_Key := "old"; dk_Title := "t"; dk_ReadOnly := None |}.
Definition new_key : DeployKey := {| dk_Key := "new"; dk_Title := "t"; dk_ReadOnly := None |}.
Definition old_link : Autolink := {| al_KeyPrefix := "old"; al_URLTemplate := "t"; al_IsAlphanumeric := true |}.
Definition new_link : Autolink := {| al_KeyPrefix := "new"; al_URLTemplate := "t"; al_IsAlphanumeric := true |}.
Definition keys_before : gmap Z gh_Key := {[ 1 := created_key old_key 1 ]}.
Definition links_before : gmap Z gh_Autolink := {[ 1 := created_autolink {| da_Source := "x"; da_Spec := old_link |} 1 ]}.

(** Their hashes differ. *)
Lemma no_collision : hash_key ("old", "t", true) ≠ hash_key ("new", "t", true).
Proof. vm_compute. discriminate. Qed.
Lemma no_link_collision : hash_autolink ("old", "t", true) ≠ hash_autolink ("new", "t", true).
Proof. vm_compute. discriminate. Qed.
End ToyRepo.

Import ToyStore ToyRepo.

Lemma toy_collision_free {X D C} (id_of : X → option Z) (content_x : X → option C) (content_d : D → C) (hash : C → string)
    i x d c1 c2 :
  content_x x = Some c1 → content_d d = c2 → hash c1 ≠ hash c2 →
  collision_free content_x content_d hash (toy_items id_of {[ i := x ]}) [d].
Proof.
  intros Hx Hd Hne.
  assert (∀ c, in_play content_x content_d (toy_items id_of {[ i := x ]}) [d] c → c = c1 ∨ c = c2) as H.
  { intros c [(j & y & [-> ->]%toy_singleton & Hc)|(d' & -> & ->%list_elem_of_singleton)%list_elem_of_fmap];
      [left; congruence|by right]. }
  intros c c' [->| ->]%H [->| ->]%H Heq; congruence.
Qed.

Lemma reconcileDeployKeys_synced_witness :
  ∃ w', run (reconcileDeployKeys default_order [new_key]) keys_before = (None, w') ∧
    synced key_content desired_key_content created_key [new_key] (toy_items k_ID keys_before) (toy_items k_ID w').
Proof.
  eexists. split; [vm_compute; reflexivity|].
  apply (reconcileDeployKeys_synced default_order keys (toy_items k_ID) key_laws [new_key] keys_before).
  - apply (toy_list_law k_ID).
  - apply toy_unique.
  - apply (toy_collision_free k_ID key_content desired_key_content hash_key 1 (created_key old_key 1) new_key
      ("old", "t", true) ("new", "t", true) eq_refl eq_refl no_collision).
  - vm_compute. reflexivity.
Defined.

Lemma reconcileAutolinks_synced_witness :
  ∃ w', run (reconcileAutolinks default_order "ns" [] [new_link]) links_before = (None, w') ∧
    synced autolink_content desired_autolink_content created_autolink [{| da_Source := "inline[0]"; da_Spec := new_link |}]
      (toy_items al_ID links_before) (toy_items al_ID w').
Proof.
  eexists. split; [vm_compute; reflexivity|].
  apply (reconcileAutolinks_synced default_order links (toy_items al_ID) link_laws "ns" [] [new_link] links_before
    (inl [{| da_Source := "inline[0]"; da_Spec := new_link |}]) links_before).
  - apply (toy_list_law al_ID).
  - vm_compute. reflexivity.
  - apply toy_unique.
  - apply (toy_collision_free al_ID autolink_content desired_autolink_content hash_autolink 1
      (created_autolink {| da_Source := "x"; da_Spec := old_link |} 1) {| da_Source := "inline[0]"; da_Spec := new_link |}
      ("old", "t", true) ("new", "t", true) eq_refl eq_refl no_link_collision).
  - vm_compute. reflexivity.
Defined.

Lemma reconcileTopics_spec_witness :
  (∀ t, t ∈ id <$> ["a"; "b"] ↔ ∃ s, s ∈ ["b"; ""; "a"; "b"] ∧ s ≠ "" ∧ t = s) ∧
  (uniqueKebabCasedSorted id ["old"] = uniqueKebabCasedSortedTopics id ["b"; ""; "a"; "b"] → ["a"; "b"] = ["old"]).
Proof.
  apply (reconcileTopics_spec id topics id ["b"; ""; "a"; "b"] ["old"] ["a"; "b"]); [done|done|done|].
  vm_compute. reflexivity.
Defined.
