(* ===== verification/Webhooks.v ===== *)
(** * Webhooks of a repository

    internal/reconciler/reporec/rec_webhooks.go and internal/mapper/github_hook_mapper.go.  The template engine
    (text/template), the regular expressions (regexp) and the repository record the payload URL is rendered
    against are parameters; the test whether a payload URL holds a placeholder is defined here. *)
From Stdlib Require Import Ascii.
From S2P Require Import Prelude GoErrors Conditions ApiTypes Merge Sha256 HashSync.

(** ** github_hook_mapper.go *)
Definition defaultContentType : string := "application/json".
Definition defaultSSLVerify : string := "1".
Definition disabledSSLVerify : string := "0".

(** [github.HookConfig] and [github.Hook]. *)
Record HookConfig := { hc_URL : option string; hc_Secret : option string; hc_ContentType : option string;
                       hc_InsecureSSL : option string }.
Record gh_Hook := { h_ID : option Z; h_Name : option string; h_Active : option bool; h_Config : option HookConfig;
                    h_Events : list string }.

Definition WebhookSpecToGithubHook (spec : WebhookSpec) : gh_Hook :=
  let contentType := if bool_decide (wh_ContentType spec ≠ "") then wh_ContentType spec else defaultContentType in
  let sslVerify := if negb (WithDefault (wh_SSLVerify spec) true) then disabledSSLVerify else defaultSSLVerify in
  {| h_ID := None; h_Name := Some "web"; h_Active := WithDefaultAsPtr (wh_Active spec) true;
     h_Config := Some {| hc_URL := Some (wh_PayloadURL spec); hc_Secret := wh_SecretValue spec;
                         hc_ContentType := Some contentType; hc_InsecureSSL := Some sslVerify |};
     h_Events := if bool_decide (0 < length (wh_Events spec))%nat then wh_Events spec else ["push"] |}.

(** [%v] of a slice of strings. *)
Definition fmt_strings (l : list string) : string := "[" +:+ String.concat " " l +:+ "]".

Definition webhook_text (url contentType : string) (events : list string) : string :=
  url +:+ "|" +:+ contentType +:+ "|" +:+ fmt_strings (sort_strings events).
Definition HashWebhookConfig (url contentType : string) (events : list string) : string :=
  sha256_hex (webhook_text url contentType events).

(** ** The desired webhooks *)
Record DesiredWebhook := { dw_Source : string; dw_Inline : bool; dw_Spec : WebhookSpec; dw_Hash : string }.

Definition WebhookPresetSource (name : string) : string := "webhookPreset/" +:+ name.

Definition set_PayloadURL (s : WebhookSpec) (url : string) : WebhookSpec := {|
  wh_PayloadURL := url; wh_Secret := wh_Secret s; wh_SecretValue := wh_SecretValue s;
  wh_ContentType := wh_ContentType s; wh_Active := wh_Active s; wh_Events := wh_Events s;
  wh_SSLVerify := wh_SSLVerify s |}.
Definition set_Spec (d : DesiredWebhook) (s : WebhookSpec) : DesiredWebhook :=
  {| dw_Source := dw_Source d; dw_Inline := dw_Inline d; dw_Spec := s; dw_Hash := dw_Hash d |}.

(** [templateChecker]: two opening braces and, at least one character later on the same line, two closing ones. *)
Fixpoint closes (s : string) : bool :=
  match s with
  | String "}" (String "}" _) => true
  | String c s => negb (Ascii.eqb c "010") && closes s
  | EmptyString => false
  end.
Fixpoint has_placeholder (s : string) : bool :=
  match s with
  | EmptyString => false
  | String c t =>
    match c, t with
    | "{"%char, String "{" (String d u) => negb (Ascii.eqb d "010") && closes u
    | _, _ => false
    end || has_placeholder t
  end.

(** The packages the reconciler calls: [template.Parse] and [Execute], [regexp.Compile] and [MatchString]. *)
Class GoPackages := {
  Template : Type;
  Regexp : Type;
  gh_Repo : Type;
  template_Parse : string → res Template;
  template_Execute : Template → gh_Repo → res string;
  regexp_Compile : string → res Regexp;
  MatchString : Regexp → string → bool
}.

(** GitHub, the Kubernetes API server and the status of the repository resource in memory. *)
Class WebhookApi (W : Type) {P : GoPackages} := {
  GetWebhookPreset : string → string → prog W (res WebhookPreset);
  GetWebhookIgnorePreset : string → string → prog W (res WebhookIgnorePreset);
  GetSecret : string → string → prog W (res (gmap string string));
  GetRepository : prog W (res gh_Repo);
  ListHooks : prog W (res (list gh_Hook));
  CreateHook : gh_Hook → prog W (option gerror);
  DeleteHook : Z → prog W (option gerror);
  StatusWebhooks : prog W (gmap string string);
  SetStatusWebhooks : gmap string string → prog W unit
}.

Section Webhooks.
Context {P : GoPackages} {W : Type} (o : MapOrder) {A : WebhookApi W}.

(** ** Ignore rules *)
Fixpoint ignore_presets (namespace : string) (presetRefs : list string)
    : prog W (res (list (string * WebhookIgnoreSpec))) :=
  match presetRefs with
  | [] => Ret (inl [])
  | ref :: presetRefs =>
    let! preset := GetWebhookIgnorePreset namespace ref in
    match preset with
    | inr err => Ret (inr (EWrap ("failed to get webhook ignore preset " +:+ ref) err))
    | inl preset =>
      let? rest := ignore_presets namespace presetRefs in
      Ret (inl (("webhookIgnorePreset/" +:+ ref, wip_Spec preset) :: rest))
    end
  end.

(** The loop over the entries; [seen] are the expressions already compiled. *)
Fixpoint compile_ignores (seen : gset string) (entries : list (string * WebhookIgnoreSpec)) : res (list Regexp) :=
  match entries with
  | [] => inl []
  | (source, spec) :: entries =>
    match wi_IgnoreURLRegex spec with
    | None | Some "" => compile_ignores seen entries
    | Some expr =>
      if bool_decide (expr ∈ seen) then compile_ignores seen entries
      else match regexp_Compile expr with
      | inr err => inr (EWrap ("failed to compile webhook ignore regex of " +:+ source) err)
      | inl re =>
        match compile_ignores ({[ expr ]} ∪ seen) entries with
        | inl result => inl (re :: result)
        | inr err => inr err
        end
      end
    end
  end.

Definition collectWebhookIgnoreRegexes (namespace : string) (presetRefs : list string)
    (inline : list WebhookIgnoreSpec) : prog W (res (list Regexp)) :=
  let? entries := ignore_presets namespace presetRefs in
  Ret (compile_ignores ∅ (entries ++ imap (λ i spec, (InlineSource i, spec)) inline)).

Definition isIgnoredHook (hook : gh_Hook) (ignoreRegexes : list Regexp) : bool :=
  match h_Config hook with
  | None => false
  | Some c =>
    match hc_URL c with
    | None => false
    | Some url => existsb (λ re, MatchString re url) ignoreRegexes
    end
  end.

(** ** Desired webhooks *)
Definition templatePayloadURL (spec : WebhookSpec) : prog W (res WebhookSpec) :=
  if negb (has_placeholder (wh_PayloadURL spec)) then Ret (inl spec)
  else match template_Parse (wh_PayloadURL spec) with
  | inr err => Ret (inr err)
  | inl tmpl =>
    let! repo := GetRepository in
    match repo with
    | inr err => Ret (inr (EWrap "failed to get repository for webhook creation" err))
    | inl repo =>
      match template_Execute tmpl repo with
      | inr err => Ret (inr (EWrap "failed to template webhook url" err))
      | inl url => Ret (inl (set_PayloadURL spec url))
      end
    end
  end.

Fixpoint webhook_presets (namespace : string) (presetRefs : list string) : prog W (res (list DesiredWebhook)) :=
  match presetRefs with
  | [] => Ret (inl [])
  | wp :: presetRefs =>
    let! preset := GetWebhookPreset namespace wp in
    match preset with
    | inr err => Ret (inr (EWrap ("failed to get webhook preset " +:+ wp) err))
    | inl preset =>
      let? rest := webhook_presets namespace presetRefs in
      Ret (inl ({| dw_Source := WebhookPresetSource wp; dw_Inline := false; dw_Spec := wp_Spec preset; dw_Hash := "" |} :: rest))
    end
  end.

Definition inline_webhooks (l : list WebhookSpec) : list DesiredWebhook :=
  imap (λ i spec, {| dw_Source := InlineSource i; dw_Inline := true; dw_Spec := spec; dw_Hash := "" |}) l.

Definition spec_hash (s : WebhookSpec) : string := HashWebhookConfig (wh_PayloadURL s) (wh_ContentType s) (wh_Events s).

(** The loop that templates the payload URLs and sets the hashes. *)
Fixpoint template_candidates (candidates : list DesiredWebhook) : prog W (res (list DesiredWebhook)) :=
  match candidates with
  | [] => Ret (inl [])
  | c :: candidates =>
    let! spec := templatePayloadURL (dw_Spec c) in
    match spec with
    | inr err => Ret (inr (EWrap ("failed to template webhook payload URL of " +:+ dw_Source c) err))
    | inl spec =>
      let? rest := template_candidates candidates in
      Ret (inl ({| dw_Source := dw_Source c; dw_Inline := dw_Inline c; dw_Spec := spec; dw_Hash := spec_hash spec |} :: rest))
    end
  end.

Definition dedupeDesiredWebhooks (candidates : list DesiredWebhook) : res (list DesiredWebhook) :=
  let urls := index_by dw_Hash candidates in
  let '(result, conflicts) := Dedupe dw_Hash (λ a b, bool_decide (dw_Spec a = dw_Spec b)) dw_Source candidates in
  match errors_join ((λ c, Some (EWebhookConflict
    (match urls !! cf_Key c with Some d => wh_PayloadURL (dw_Spec d) | None => "" end)
    (cf_Key c) (cf_Sources c))) <$> conflicts) with
  | Some err => inr err
  | None => inl result
  end.

Definition loadWebhookSecret (repoNamespace : string) (desired : DesiredWebhook) : prog W (res DesiredWebhook) :=
  match wh_Secret (dw_Spec desired) with
  | None => Ret (inl desired)
  | Some secretRef =>
    match wss_Name secretRef, wss_Key secretRef with
    | Some name, Some key =>
      let namespace := match wss_Namespace secretRef with Some ns => if bool_decide (ns = "") then repoNamespace else ns
                       | None => repoNamespace end in
      if dw_Inline desired && negb (bool_decide (namespace = repoNamespace)) then
        Ret (inr (EInvalidWebhookSecretRef ("inline webhook " +:+ dw_Source desired +:+ " references secret " +:+ namespace
          +:+ "/" +:+ name +:+ " outside of the repository namespace " +:+ repoNamespace)))
      else
        let! secret := GetSecret namespace name in
        match secret with
        | inr err => Ret (inr (EWrap ("failed to get secret " +:+ namespace +:+ "/" +:+ name) err))
        | inl data =>
          match data !! key with
          | None => Ret (inr (EPlain ("failed to find key " +:+ key +:+ " in secret " +:+ namespace +:+ "/" +:+ name)))
          | Some tokenData => Ret (inl (set_Spec desired (SetSecretValue (dw_Spec desired) tokenData)))
          end
        end
    | _, _ => Ret (inr (EInvalidWebhookSecretRef
        ("webhook secret reference of " +:+ dw_Source desired +:+ " must define name and key")))
    end
  end.

Fixpoint load_secrets (repoNamespace : string) (desired : list DesiredWebhook) : prog W (res (list DesiredWebhook)) :=
  match desired with
  | [] => Ret (inl [])
  | d :: desired =>
    let! d' := loadWebhookSecret repoNamespace d in
    match d' with
    | inr err => Ret (inr err)
    | inl d' => let? rest := load_secrets repoNamespace desired in Ret (inl (d' :: rest))
    end
  end.

Definition collectDesiredWebhooks (repo : Repository) : prog W (res (list DesiredWebhook)) :=
  let namespace := Namespace (r_Meta repo) in
  let? presets := webhook_presets namespace (r_WebhookPresetList (r_Spec repo)) in
  let? candidates := template_candidates (presets ++ inline_webhooks (r_Webhooks (r_Spec repo))) in
  match dedupeDesiredWebhooks candidates with
  | inr err => Ret (inr err)
  | inl desired => load_secrets namespace desired
  end.

(** ** Reconciliation *)

(** The hash of an existing hook; [None]: the hook is skipped. *)
Definition hook_hash (ignoreRegexes : list Regexp) (hook : gh_Hook) : option string :=
  match h_Config hook, h_ID hook with
  | Some config, Some _ =>
    match hc_URL config, hc_ContentType config with
    | Some url, Some contentType =>
      if isIgnoredHook hook ignoreRegexes then None else Some (HashWebhookConfig url contentType (h_Events hook))
    | _, _ => None
    end
  | _, _ => None
  end.

(** Whether the secret of an existing hook is the wanted one. *)
Definition secret_unchanged (status : gmap string string) (d : DesiredWebhook) : bool :=
  bool_decide (GetSecretValueHash sha256_hex (dw_Spec d) = default "" (status !! dw_Hash d)).

Definition delete_hook (id : Z) : prog W (option gerror) :=
  let! err := DeleteHook id in
  Ret (EWrap ("failed to delete unused webhook " +:+ pretty id) <$> err).
Definition create_hook (d : DesiredWebhook) : prog W (option gerror) :=
  let! err := CreateHook (WebhookSpecToGithubHook (dw_Spec d)) in
  Ret (EWrap "failed to create webhook via GitHub API" <$> err).
Definition cleanupUnusedWebhooks : gmap string gh_Hook → prog W (option gerror) := cleanup o h_ID delete_hook.
Definition createMissingWebhooks : gmap string DesiredWebhook → prog W (option gerror) := create_missing o create_hook.

Definition updateWebhooksStatus (allWebhooks : gmap string DesiredWebhook) : prog W unit :=
  SetStatusWebhooks ((λ d, GetSecretValueHash sha256_hex (dw_Spec d)) <$> allWebhooks).

Definition list_error (owner name : string) (err : gerror) : gerror :=
  if isNotFoundResponse err then EWrap ("repository " +:+ owner +:+ "/" +:+ name +:+ " not found") err
  else EWrap "failed to list webhooks" err.

Definition reconcileWebhooks (owner name : string) (repo : Repository) : prog W (option gerror) :=
  let! ignoreRegexes := collectWebhookIgnoreRegexes (Namespace (r_Meta repo))
    (r_WebhookIgnorePresetsList (r_Spec repo)) (r_WebhookIgnores (r_Spec repo)) in
  match ignoreRegexes with
  | inr err => Ret (Some err)
  | inl ignoreRegexes =>
    let! desired := collectDesiredWebhooks repo in
    match desired with
    | inr err => Ret (Some err)
    | inl desired =>
      let! hooks := ListHooks in
      match hooks with
      | inr err => Ret (Some (list_error owner name err))
      | inl hooks =>
        let! status := StatusWebhooks in
        let existingHookMap := index_existing (hook_hash ignoreRegexes) hooks in
        let '(hooksToRemove, hooksToAdd) := plan dw_Hash (secret_unchanged status) existingHookMap desired in
        check cleanupUnusedWebhooks hooksToRemove in
        check createMissingWebhooks hooksToAdd in
        let! _ := updateWebhooksStatus (index_by dw_Hash desired) in
        Ret None
      end
    end
  end.
End Webhooks.

(** ** The desired webhooks have distinct hashes *)
Section Collected.
Context {P : GoPackages} {W : Type} {A : WebhookApi W}.
Implicit Types (w : W) (d : DesiredWebhook).

Lemma template_candidates_hashes candidates w ds w' :
  run (template_candidates candidates) w = (inl ds, w') → Forall (λ d, dw_Hash d = spec_hash (dw_Spec d)) ds.
Proof.
  revert w ds w'. induction candidates as [|c cs IH]; intros w ds w'; [intros [= <- _]; constructor|].
  cbn [template_candidates]. rewrite run_bind. destruct (run (templatePayloadURL _) w) as [[spec|e] w1]; [|done].
  rewrite run_bind. destruct (run (template_candidates cs) w1) as [[rest|e] w2] eqn:E; [|done].
  intros [= <- _]. constructor; [done|by eapply IH].
Qed.

Lemma dedupeDesiredWebhooks_kept candidates ds :
  dedupeDesiredWebhooks candidates = inl ds → NoDup (dw_Hash <$> ds) ∧ ds `sublist_of` candidates.
Proof.
  unfold dedupeDesiredWebhooks.
  pose proof (dedupe_keys_NoDup dw_Hash (λ a b, bool_decide (dw_Spec a = dw_Spec b)) dw_Source candidates) as Hnd.
  pose proof (dedupe_kept dw_Hash (λ a b, bool_decide (dw_Spec a = dw_Spec b)) dw_Source candidates) as [Hsub _].
  destruct (Dedupe _ _ _ candidates) as [kept conflicts]. destruct (errors_join _); [done|]. by intros [= <-].
Qed.

(** Loading a secret changes neither the identity nor the source of a webhook. *)
Lemma loadWebhookSecret_identity ns d w d' w' :
  run (loadWebhookSecret ns d) w = (inl d', w') →
  dw_Hash d' = dw_Hash d ∧ dw_Source d' = dw_Source d ∧ spec_hash (dw_Spec d') = spec_hash (dw_Spec d).
Proof.
  unfold loadWebhookSecret. destruct (wh_Secret _) as [ref|]; [|by intros [= <- _]].
  destruct (wss_Name ref) as [name|]; [|done]. destruct (wss_Key ref) as [key|]; [|done].
  destruct (_ && _); [done|]. rewrite run_bind. destruct (run (GetSecret _ _) w) as [[data|e] w1]; [|done].
  destruct (data !! key) as [token|]; [|done]. intros [= <- _]. simpl. split_and!; [done..|].
  unfold SetSecretValue. by case_bool_decide.
Qed.

Lemma load_secrets_identity ns ds w ds' w' :
  run (load_secrets ns ds) w = (inl ds', w') →
  Forall2 (λ d' d, dw_Hash d' = dw_Hash d ∧ dw_Source d' = dw_Source d ∧ spec_hash (dw_Spec d') = spec_hash (dw_Spec d)) ds' ds.
Proof.
  revert w ds' w'. induction ds as [|d ds IH]; intros w ds' w'; [intros [= <- _]; constructor|].
  cbn [load_secrets]. rewrite run_bind. destruct (run (loadWebhookSecret ns d) w) as [[d'|e] w1] eqn:Hd; [|done].
  rewrite run_bind. destruct (run (load_secrets ns ds) w1) as [[rest|e] w2] eqn:E; [|done].
  intros [= <- _]. constructor; [by eapply loadWebhookSecret_identity|by eapply IH].
Qed.

Lemma collectDesiredWebhooks_hashes repo w desired w' :
  run (collectDesiredWebhooks repo) w = (inl desired, w') →
  NoDup (dw_Hash <$> desired) ∧ ∀ d, d ∈ desired → dw_Hash d = spec_hash (dw_Spec d).
Proof.
  unfold collectDesiredWebhooks. rewrite run_bind. destruct (run (webhook_presets _ _) w) as [[ps|e] w1]; [|done].
  rewrite run_bind. destruct (run (template_candidates _) w1) as [[cs|e] w2] eqn:Hcs; [|done].
  apply template_candidates_hashes in Hcs. destruct (dedupeDesiredWebhooks cs) as [ds|e] eqn:Hds; [|done].
  apply dedupeDesiredWebhooks_kept in Hds as [Hnd Hsub]. intros Hload%load_secrets_identity. split.
  - assert (dw_Hash <$> desired = dw_Hash <$> ds) as ->; [|done].
    apply list_eq_Forall2, Forall2_fmap. eapply Forall2_impl; [done|]. by intros ?? [? _].
  - intros d Hd. apply list_elem_of_lookup in Hd as [i Hi]. destruct (Forall2_lookup_l _ _ _ _ _ Hload Hi) as (d0 & H0 & -> & _ & ->).
    assert (d0 ∈ cs) as Hin by (eapply elem_of_sublist; [by eapply list_elem_of_lookup_2|done]).
    rewrite Forall_forall in Hcs. by apply Hcs.
Qed.
End Collected.

(** ** Theorems *)
Section Synced.
Context {P : GoPackages} {W : Type} (o : MapOrder) {A : WebhookApi W}.
Context (hooks_of : W → gmap Z gh_Hook) (status_of : W → gmap string string).

(** The hook GitHub stores for a request, and for a definition. *)
Definition stored_hook (h : gh_Hook) (id : Z) : gh_Hook :=
  {| h_ID := Some id; h_Name := h_Name h; h_Active := h_Active h; h_Config := h_Config h; h_Events := h_Events h |}.
Definition created_hook (d : DesiredWebhook) : Z → gh_Hook := stored_hook (WebhookSpecToGithubHook (dw_Spec d)).

(** GitHub stores hooks as they are sent, and the status is a variable of the resource in memory. *)
Class WebhookLaws : Prop := {
  hook_items : ItemLaws hooks_of h_ID stored_hook DeleteHook CreateHook;
  hooks_listed : ListLaw hooks_of ListHooks;
  status_read w : run StatusWebhooks w = (status_of w, w);
  status_set m w : let '(_, w') := run (SetStatusWebhooks m) w in hooks_of w' = hooks_of w ∧ status_of w' = m
}.
Context {L : WebhookLaws}.

#[local] Instance hook_laws : ItemLaws hooks_of h_ID created_hook delete_hook create_hook.
Proof.
  apply (ItemLaws_wrapped _ _ _ _ (λ d, CreateHook (WebhookSpecToGithubHook (dw_Spec d)))
    (λ id, EWrap ("failed to delete unused webhook " +:+ pretty id)) (EWrap "failed to create webhook via GitHub API")).
  apply (ItemLaws_map (λ d, WebhookSpecToGithubHook (dw_Spec d))), hook_items.
Qed.

(** The definition spells out the content type and the events, and no ignore rule matches its URL. *)
Definition explicit (regexes : list Regexp) (d : DesiredWebhook) : Prop :=
  wh_ContentType (dw_Spec d) ≠ "" ∧ wh_Events (dw_Spec d) ≠ [] ∧
  existsb (λ re, MatchString re (wh_PayloadURL (dw_Spec d))) regexes = false.

Lemma created_hook_hash regexes d id :
  explicit regexes d → hook_hash regexes (created_hook d id) = Some (spec_hash (dw_Spec d)).
Proof.
  intros (Hct & Hev & Hig). unfold created_hook, stored_hook, hook_hash, WebhookSpecToGithubHook, isIgnoredHook. simpl.
  rewrite Hig, bool_decide_eq_true_2 by done. f_equal. unfold spec_hash. f_equal.
  by destruct (wh_Events (dw_Spec d)).
Qed.

Lemma status_lookup (desired : list DesiredWebhook) d :
  NoDup (dw_Hash <$> desired) → d ∈ desired →
  ((λ d, GetSecretValueHash sha256_hex (dw_Spec d)) <$> index_by dw_Hash desired) !! dw_Hash d =
    Some (GetSecretValueHash sha256_hex (dw_Spec d)).
Proof. intros Hnd Hd. by rewrite lookup_fmap, (index_by_NoDup dw_Hash desired d Hnd Hd). Qed.

(** The state after a successful reconciliation of the webhooks [desired]. *)
Record webhooks_synced (regexes : list Regexp) (desired : list DesiredWebhook) (w w' : W) : Prop := {
  ws_hashes h : (∃ id x, hooks_of w' !! id = Some x ∧ hook_hash regexes x = Some h) ↔ h ∈ dw_Hash <$> desired;
  ws_unique : unique_hashes (hook_hash regexes) (hooks_of w');
  ws_foreign id x : hooks_of w !! id = Some x → hook_hash regexes x = None → hooks_of w' !! id = Some x;
  ws_kept id x d : hooks_of w !! id = Some x → d ∈ desired → hook_hash regexes x = Some (dw_Hash d) →
    secret_unchanged (status_of w) d = true → hooks_of w' !! id = Some x;
  ws_renewed id x d : hooks_of w' !! id = Some x → d ∈ desired → hook_hash regexes x = Some (dw_Hash d) →
    x = created_hook d id ∨ (hooks_of w !! id = Some x ∧ secret_unchanged (status_of w) d = true);
  ws_status h s : status_of w' !! h = Some s ↔
    ∃ d, d ∈ desired ∧ dw_Hash d = h ∧ s = GetSecretValueHash sha256_hex (dw_Spec d)
}.

(** The calls after the definitions are collected. *)
Lemma sync_webhooks_synced regexes desired hooks w w' :
  lists hooks (hooks_of w) → unique_hashes (hook_hash regexes) (hooks_of w) →
  NoDup (dw_Hash <$> desired) → (∀ d, d ∈ desired → dw_Hash d = spec_hash (dw_Spec d) ∧ explicit regexes d) →
  run (check hash_sync o (hook_hash regexes) h_ID dw_Hash (secret_unchanged (status_of w)) delete_hook create_hook
         hooks desired in
       let! _ := updateWebhooksStatus (index_by dw_Hash desired) in Ret None) w = (@None gerror, w') →
  webhooks_synced regexes desired w w'.
Proof.
  intros Hlists Huniq Hnd Hexp. rewrite run_bind.
  destruct (run (hash_sync _ _ _ _ _ _ _ _ _) w) as [[e|] w1] eqn:Hsync; step_run; [done|].
  rewrite run_bind. unfold updateWebhooksStatus.
  set (m := (λ d, GetSecretValueHash sha256_hex (dw_Spec d)) <$> index_by dw_Hash desired).
  pose proof (status_set m w1) as Hs. destruct (run (SetStatusWebhooks m) w1) as [[] w2]. destruct Hs as [Hh Hst].
  intros [= <-].
  eapply (hash_sync_spec o) in Hsync as (Huniq' & Hset & Hkeep & Horigin & Hrenew); try done; cycle 1.
  { apply hook_laws. }
  { intros d1 d2 H1 H2 Heq. by rewrite (NoDup_key_inj dw_Hash desired d1 d2). }
  { intros d id Hd. destruct (Hexp d Hd) as [-> ?]. by apply created_hook_hash. }
  split; rewrite ?Hh; [done|done| | | |].
  - intros id x Hx Hn. apply Hkeep; auto.
  - intros id x d Hx Hd Hxh Hu. apply (Hkeep id x Hx). right. eauto.
  - intros id x d Hx Hd Hxh. destruct (Horigin id x Hx) as [H0|(d' & Hd' & ->)].
    + destruct (secret_unchanged (status_of w) d) eqn:Hu; [by right|left].
      destruct (Hrenew id x d H0 Hd Hxh Hu Hx) as (d' & Hd' & ->). f_equal.
      rewrite created_hook_hash in Hxh by (by apply Hexp). injection Hxh as Hxh.
      apply (NoDup_key_inj dw_Hash desired); [done..|]. rewrite <-Hxh. by apply Hexp.
    + left. f_equal. rewrite created_hook_hash in Hxh by (by apply Hexp). injection Hxh as Hxh.
      apply (NoDup_key_inj dw_Hash desired); [done..|]. rewrite <-Hxh. by apply Hexp.
  - intros h s. rewrite Hst. unfold m. rewrite lookup_fmap, fmap_Some. split.
    + intros (d & [Hd <-]%index_by_Some & ->). eauto.
    + intros (d & Hd & <- & ->). exists d. split; [|done]. by apply index_by_NoDup.
Qed.

(** The calls of the reconciliation, once the definitions are collected. *)
Lemma reconcileWebhooks_run owner name repo w regexes w1 desired w2 hooks w3 :
  run (collectWebhookIgnoreRegexes (Namespace (r_Meta repo)) (r_WebhookIgnorePresetsList (r_Spec repo))
    (r_WebhookIgnores (r_Spec repo))) w = (inl regexes, w1) →
  run (collectDesiredWebhooks repo) w1 = (inl desired, w2) →
  run ListHooks w2 = (inl hooks, w3) →
  run (reconcileWebhooks o owner name repo) w =
    run (check hash_sync o (hook_hash regexes) h_ID dw_Hash (secret_unchanged (status_of w3)) delete_hook create_hook
           hooks desired in
         let! _ := updateWebhooksStatus (index_by dw_Hash desired) in Ret None) w3.
Proof.
  intros Hre Hdes Hlist. unfold reconcileWebhooks. rewrite run_bind, Hre. step_run. rewrite run_bind, Hdes. step_run.
  rewrite run_bind, Hlist. step_run.
  rewrite run_bind, status_read. step_run. unfold hash_sync. destruct (plan _ _ _ desired) as [rm add].
  rewrite !run_bind. unfold cleanupUnusedWebhooks. destruct (run (cleanup _ _ _ rm) w3) as [[e|] w4]; step_run; [done|].
  by rewrite run_bind.
Qed.

(** C8: after a successful reconciliation the hashes of the managed webhooks on GitHub are exactly those of the
    definitions, one webhook each, where the hash covers the URL, the content type and the events: hooks matching an
    ignore rule and incomplete ones are untouched; a hook with a defined hash whose secret has not changed is the same
    object as before, also if only its active flag or its TLS verification differ from the definition; any other one was
    created from its definition, in particular with the new secret; and the status records the secret hash of every
    defined webhook and nothing else.  This is so if no two managed hooks had the same hash before, and if every
    definition gives its content type and its events and is not matched by an ignore rule: a webhook without a content
    type is created again by every run. *)
Theorem reconcileWebhooks_synced owner name repo w regexes w1 desired w2 w' :
  run (collectWebhookIgnoreRegexes (Namespace (r_Meta repo)) (r_WebhookIgnorePresetsList (r_Spec repo))
    (r_WebhookIgnores (r_Spec repo))) w = (inl regexes, w1) →
  run (collectDesiredWebhooks repo) w1 = (inl desired, w2) →
  unique_hashes (hook_hash regexes) (hooks_of w2) →
  (∀ d, d ∈ desired → explicit regexes d) →
  run (reconcileWebhooks o owner name repo) w = (None, w') →
  webhooks_synced regexes desired w2 w'.
Proof.
  intros Hre Hdes Huniq Hexp. pose proof (hooks_listed w2) as Hl.
  destruct (run ListHooks w2) as [[l|e] w3] eqn:Hlist.
  - destruct Hl as [-> Hl]. rewrite (reconcileWebhooks_run owner name repo w regexes w1 desired w2 l w2) by done.
    apply collectDesiredWebhooks_hashes in Hdes as [Hnd Hhash]. apply (sync_webhooks_synced regexes desired l); auto.
  - unfold reconcileWebhooks. rewrite run_bind, Hre. step_run. rewrite run_bind, Hdes. step_run.
    by rewrite run_bind, Hlist.
Qed.

(** When the hooks can be listed, a second reconciliation of the same definitions succeeds and leaves every hook as it is, the managed
    ones and the others. *)
Theorem reconcileWebhooks_settled owner name repo regexes desired hooks w0 w w1 w2 :
  webhooks_synced regexes desired w0 w →
  run (collectWebhookIgnoreRegexes (Namespace (r_Meta repo)) (r_WebhookIgnorePresetsList (r_Spec repo))
    (r_WebhookIgnores (r_Spec repo))) w = (inl regexes, w1) →
  run (collectDesiredWebhooks repo) w1 = (inl desired, w2) →
  run ListHooks w2 = (inl hooks, w2) → hooks_of w2 = hooks_of w → status_of w2 = status_of w →
  let '(err, w') := run (reconcileWebhooks o owner name repo) w in
  err = None ∧ hooks_of w' = hooks_of w ∧ status_of w' = status_of w.
Proof.
  intros Hsync Hre Hdes Hlist Hh Hst. pose proof (hooks_listed w2) as Hl. rewrite Hlist in Hl. destruct Hl as [_ [Hl1 Hl2]].
  rewrite (reconcileWebhooks_run owner name repo w regexes w1 desired w2 hooks w2) by done.
  apply collectDesiredWebhooks_hashes in Hdes as [Hnd _]. rewrite Hst, Hh in *.
  assert (∀ d, d ∈ desired → status_of w !! dw_Hash d = Some (GetSecretValueHash sha256_hex (dw_Spec d))) as Hstatus.
  { intros d Hd. apply (ws_status _ _ _ _ Hsync). eauto. }
  rewrite run_bind, hash_sync_settled; cycle 1.
  { apply plan_settled.
    - intros d Hd. split; [|unfold secret_unchanged; by rewrite Hstatus, bool_decide_eq_true by done].
      destruct (ws_hashes _ _ _ _ Hsync (dw_Hash d)) as [_ (id & x & Hx & Hxh)]; [by apply list_elem_of_fmap_2|].
      eapply index_existing_elem; [by eapply Hl2|done].
    - intros h [x [Hx Hxh]%index_existing_Some]. apply (ws_hashes _ _ _ _ Hsync). destruct (Hl1 x Hx) as [id ?]. eauto. }
  step_run. rewrite run_bind. unfold updateWebhooksStatus. set (m := fmap _ (index_by _ _)).
  pose proof (status_set m w2) as Hs. destruct (run (SetStatusWebhooks m) w2) as [[] w3]. destruct Hs as [Hh3 Hst3].
  cbn [run]. rewrite Hh3, Hst3, Hh.
  split_and!; [done|done|]. apply map_eq. intros h. apply option_eq. intros s.
  rewrite (ws_status _ _ _ _ Hsync). unfold m. rewrite lookup_fmap, fmap_Some. split.
  - intros (d & [Hd <-]%index_by_Some & ->). eauto.
  - intros (d & Hd & <- & ->). exists d. split; [|done]. by apply index_by_NoDup.
Qed.
End Synced.

(** ** Secrets of other namespaces *)
Section Namespaces.
Context {P : GoPackages} {W : Type} (A1 A2 : WebhookApi W) (ns : string).
(** Two clusters that may differ in everything but the secrets of the namespace [ns]. *)
Hypothesis same_secrets : ∀ name w, run (GetSecret (WebhookApi := A1) ns name) w = run (GetSecret (WebhookApi := A2) ns name) w.

Lemma loadWebhookSecret_local d w :
  dw_Inline d = true → run (loadWebhookSecret (A := A1) ns d) w = run (loadWebhookSecret (A := A2) ns d) w.
Proof.
  intros Hin. unfold loadWebhookSecret. destruct (wh_Secret _) as [ref|]; [|done].
  destruct (wss_Name ref) as [name|]; [|done]. destruct (wss_Key ref) as [key|]; [|done]. rewrite Hin.
  set (ns' := match wss_Namespace ref with Some _ => _ | None => _ end).
  destruct (decide (ns' = ns)) as [->|Hne].
  - rewrite bool_decide_eq_true_2 by done. cbn [negb andb]. rewrite !run_bind, same_secrets.
    destruct (run _ w) as [[data|e] w1]; [|done]. by destruct (data !! key).
  - by rewrite bool_decide_eq_false_2 by done.
Qed.

Lemma load_secrets_local ds w :
  Forall (λ d, dw_Inline d = true) ds → run (load_secrets (A := A1) ns ds) w = run (load_secrets (A := A2) ns ds) w.
Proof.
  intros H. revert w. induction H as [|d ds Hd _ IH]; intros w; [done|]. cbn [load_secrets].
  rewrite !run_bind, loadWebhookSecret_local by done. destruct (run _ w) as [[d'|e] w1]; [|done].
  rewrite !run_bind, IH. by destruct (run _ w1) as [[rest|e] w2].
Qed.

Lemma template_candidates_local cs w :
  (∀ w, run (GetRepository (WebhookApi := A1)) w = run (GetRepository (WebhookApi := A2)) w) →
  run (template_candidates (A := A1) cs) w = run (template_candidates (A := A2) cs) w.
Proof.
  intros Hrepo. revert w. induction cs as [|c cs IH]; intros w; [done|]. cbn [template_candidates]. rewrite !run_bind.
  assert (run (templatePayloadURL (A := A1) (dw_Spec c)) w = run (templatePayloadURL (A := A2) (dw_Spec c)) w) as ->.
  { unfold templatePayloadURL. destruct (negb _); [done|]. destruct (template_Parse _) as [t|e]; [|done].
    rewrite !run_bind, Hrepo. destruct (run _ w) as [[repo|e] w1]; [|done]. by destruct (template_Execute t repo). }
  destruct (run _ w) as [[spec|e] w1]; [|done]. rewrite !run_bind, IH. by destruct (run _ w1) as [[rest|e] w2].
Qed.

Lemma template_candidates_inline {A : WebhookApi W} cs w ds w' :
  run (template_candidates cs) w = (inl ds, w') → Forall (λ d, dw_Inline d = true) cs → Forall (λ d, dw_Inline d = true) ds.
Proof.
  revert w ds w'. induction cs as [|c cs IH]; intros w ds w'; [by intros [= <- _]|].
  cbn [template_candidates]. rewrite run_bind. destruct (run (templatePayloadURL _) w) as [[spec|e] w1]; [|done].
  rewrite run_bind. destruct (run (template_candidates cs) w1) as [[rest|e] w2] eqn:E; [|done].
  intros [= <- _] [Hc Hcs]%Forall_cons. constructor; [done|by eapply IH].
Qed.

(** What a repository can bring onto GitHub with inline webhooks does not depend on the secrets of any
    namespace but its own. *)
Theorem inline_webhooks_own_namespace repo w :
  Namespace (r_Meta repo) = ns → r_WebhookPresetList (r_Spec repo) = [] →
  (∀ w, run (GetRepository (WebhookApi := A1)) w = run (GetRepository (WebhookApi := A2)) w) →
  run (collectDesiredWebhooks (A := A1) repo) w = run (collectDesiredWebhooks (A := A2) repo) w.
Proof.
  intros Hns Hnil Hrepo. unfold collectDesiredWebhooks. rewrite Hns, Hnil. cbn [webhook_presets].
  rewrite !run_bind. cbn [run]. rewrite !run_bind, template_candidates_local by done.
  destruct (run (template_candidates _) w) as [[cs|e] w1] eqn:Hcs; [|done].
  destruct (dedupeDesiredWebhooks cs) as [ds|e] eqn:Hds; [|done].
  apply load_secrets_local. apply dedupeDesiredWebhooks_kept in Hds as [_ Hsub].
  apply template_candidates_inline in Hcs.
  - rewrite Forall_forall in Hcs |- *. intros d Hd. apply Hcs. by eapply elem_of_sublist.
  - apply Forall_forall. intros d Hd. rewrite app_nil_l in Hd. unfold inline_webhooks in Hd.
    apply elem_of_lookup_imap in Hd as (i & s & -> & _). done.
Qed.
End Namespaces.

(** ** A concrete repository for the witnesses *)
Module ToyWebhooks.
Record world := { tw_hooks : gmap Z gh_Hook; tw_next : Z; tw_status : gmap string string }.

#[export] Instance packages : GoPackages := {|
  Template := string; Regexp := string; gh_Repo := string;
  template_Parse s := inl s;
  template_Execute t repo := inl ("https://ci/" +:+ repo);
  regexp_Compile s := inl s;
  MatchString re s := bool_decide (re = s) |}.

Definition store (h : gh_Hook) (id : Z) : gh_Hook :=
  {| h_ID := Some id; h_Name := h_Name h; h_Active := h_Active h; h_Config := h_Config h; h_Events := h_Events h |}.
Definition items (w : world) : gmap Z gh_Hook :=
  filter (λ p, h_ID p.2 = Some p.1 ∧ p.1 < tw_next w) (tw_hooks w).

Definition hooks_list (w : world) : res (list gh_Hook) := inl (snd <$> map_to_list (items w)).

#[export] Instance api : WebhookApi world := {|
  GetWebhookPreset _ _ := Ret (inr notFoundStatus);
  GetWebhookIgnorePreset _ name := Ret (inl {| wip_Meta := no_meta; wip_Spec := {| wi_IgnoreURLRegex := Some name |} |});
  GetSecret ns name := Ret (if bool_decide (ns = "team") then inl {[ "key" := "pw" ]} else inr notFoundStatus);
  GetRepository := Ret (inl "repo");
  ListHooks := gets hooks_list;
  CreateHook h := call (λ w, (None, {| tw_hooks := <[tw_next w := store h (tw_next w)]> (tw_hooks w);
                                       tw_next := tw_next w + 1; tw_status := tw_status w |}));
  DeleteHook id := call (λ w, (None, {| tw_hooks := delete id (tw_hooks w); tw_next := tw_next w; tw_status := tw_status w |}));
  StatusWebhooks := gets tw_status;
  SetStatusWebhooks m := modify (λ w, {| tw_hooks := tw_hooks w; tw_next := tw_next w; tw_status := m |}) |}.

#[export] Instance laws : WebhookLaws items tw_status.
Proof.
  split.
  - split.
    + intros w id x. by intros (_ & ? & _)%map_lookup_filter_Some.
    + intros id w. simpl. intros _. apply map_filter_delete.
    + intros d w. simpl. intros _. exists (tw_next w). split.
      * apply map_lookup_filter_None. right. intros x _ [_ Hlt]. simpl in Hlt. lia.
      * apply map_eq. intros i. apply option_eq. intros x. unfold items. simpl.
        rewrite map_lookup_filter_Some, !lookup_insert_Some, map_lookup_filter_Some. simpl. split.
        -- intros [[[<- <-]|[Hne Hx]] [Hid Hlt]]; [by left|right]. split_and!; [done|done|done|lia].
        -- intros [[<- <-]|(Hne & Hx & Hid & Hlt)]; [split; [by left|split; [done|lia]]|].
           split; [by right|split; [done|lia]].
  - intros w. split; [done|]. apply ToyStore.lists_values.
  - done.
  - done.
Qed.

Definition hook_of (url contentType : string) (events : list string) (secret : option WebhookSecretSpec) : WebhookSpec := {|
  wh_PayloadURL := url; wh_Secret := secret; wh_SecretValue := None; wh_ContentType := contentType;
  wh_Active := None; wh_Events := events; wh_SSLVerify := None |}.
Definition secret_ref : WebhookSecretSpec := {| wss_Name := Some "s"; wss_Key := Some "key"; wss_Namespace := None |}.
Definition repo (hooks : list WebhookSpec) (ignores : list string) : Repository := {|
  r_Meta := {| Name := "r"; Namespace := "team"; Generation := 1; DeletionTimestamp := None |};
  r_Spec := {|
    r_Name := "r"; r_CustomProperties := []; r_DefaultBranch := "main"; r_Visibility := "private"; r_HasIssues := None;
    r_HasProjects := None; r_HasWiki := None; r_HasDownloads := None; r_IsTemplate := None; r_MergeCommitTitle := "";
    r_MergeCommitMessage := ""; r_AllowedMergeStrategies := []; r_DeleteBranchOnMerge := None;
    r_About := {| ab_Description := ""; ab_Website := ""; ab_Topics := [] |};
    r_Archived := None; r_ActionsEnabled := None; r_AccessLevelForExternalWorkflows := None;
    r_AvailableActionsRunnerGroups := []; r_OrganizationRef := "org"; r_RulesetPresetList := []; r_Rulesets := [];
    r_WebhookPresetList := []; r_Webhooks := hooks; r_WebhookIgnorePresetsList := ignores; r_WebhookIgnores := [];
    r_AutolinksPresetList := []; r_Autolinks := []; r_DeployKeyList := []; r_AttachedCodeSecurityConfiguration := None |};
  r_Status := {| rst_Webhooks := ∅; rst_Conditions := []; rst_ID := None; rst_ObservedSubResourceGenerations := None |} |}.

Definition hook_at (id : Z) (url : string) : gh_Hook := store (WebhookSpecToGithubHook (hook_of url "json" ["push"] None)) id.
(** An obsolete hook and one that is ignored. *)
Definition before : world := {|
  tw_hooks := <[ 1 := hook_at 1 "https://old" ]> {[ 2 := hook_at 2 "https://keep" ]}; tw_next := 3; tw_status := ∅ |}.
(** One hook with a placeholder in its URL and a secret. *)
Definition wanted : Repository := repo [hook_of "https://ci/{{.Name}}" "json" ["push"] (Some secret_ref)] ["https://keep"].
Definition desired : list DesiredWebhook :=
  [{| dw_Source := "inline[0]"; dw_Inline := true;
      dw_Spec := SetSecretValue (hook_of "https://ci/repo" "json" ["push"] (Some secret_ref)) "pw";
      dw_Hash := HashWebhookConfig "https://ci/repo" "json" ["push"] |}].

Lemma before_items id x :
  items before !! id = Some x → (id = 1 ∧ x = hook_at 1 "https://old") ∨ (id = 2 ∧ x = hook_at 2 "https://keep").
Proof.
  intros [H _]%map_lookup_filter_Some. simpl in H.
  apply lookup_insert_Some in H as [[<- <-]|[_ [<- <-]%lookup_singleton_Some]]; [by left|by right].
Qed.

Lemma before_unique : unique_hashes (hook_hash ["https://keep"]) (items before).
Proof.
  assert (hook_hash ["https://keep"] (hook_at 2 "https://keep") = None) as Hkeep by (vm_compute; reflexivity).
  intros i j x y h [[-> ->]|[-> ->]]%before_items [[-> ->]|[-> ->]]%before_items Hx Hy; congruence.
Qed.

Definition after : world := (run (reconcileWebhooks default_order "o" "r" wanted) before).2.
End ToyWebhooks.
Import ToyWebhooks.

Lemma reconcileWebhooks_synced_witness : webhooks_synced items tw_status ["https://keep"] desired before after.
Proof.
  apply (reconcileWebhooks_synced default_order items tw_status "o" "r" wanted before _ before _ before).
  - vm_compute. reflexivity.
  - vm_compute. reflexivity.
  - apply before_unique.
  - intros d ->%list_elem_of_singleton. split_and!; [done|done|vm_compute; reflexivity].
  - vm_compute. reflexivity.
Defined.

Lemma after_synced : webhooks_synced items tw_status ["https://keep"] desired before after.
Proof.
  apply (sync_webhooks_synced default_order items tw_status _ _ (snd <$> map_to_list (items before))).
  - apply ToyStore.lists_values.
  - apply before_unique.
  - apply NoDup_singleton.
  - intros d ->%list_elem_of_singleton. split; [vm_compute; reflexivity|].
    split_and!; [done|done|vm_compute; reflexivity].
  - vm_compute. reflexivity.
Qed.

Lemma reconcileWebhooks_settled_witness :
  (run (reconcileWebhooks default_order "o" "r" wanted) after).1 = None ∧
  items (run (reconcileWebhooks default_order "o" "r" wanted) after).2 = items after.
Proof.
  pose proof (reconcileWebhooks_settled default_order items tw_status "o" "r" wanted ["https://keep"] desired
    (snd <$> map_to_list (items after)) before after after after after_synced ltac:(vm_compute; reflexivity)
    ltac:(vm_compute; reflexivity) ltac:(vm_compute; reflexivity) eq_refl eq_refl) as H.
  destruct (run (reconcileWebhooks default_order "o" "r" wanted) after) as [e w'].
  destruct H as (? & ? & _). by split.
Defined.

(** A second cluster with secrets of another namespace. *)
Definition other_cluster : WebhookApi world := {|
  GetWebhookPreset := GetWebhookPreset; GetWebhookIgnorePreset := GetWebhookIgnorePreset;
  GetSecret ns name := if bool_decide (ns = "admin") then Ret (inl {[ "key" := "root" ]}) else GetSecret ns name;
  GetRepository := GetRepository; ListHooks := ListHooks; CreateHook := CreateHook; DeleteHook := DeleteHook;
  StatusWebhooks := StatusWebhooks; SetStatusWebhooks := SetStatusWebhooks |}.

Lemma inline_webhooks_own_namespace_witness :
  run (collectDesiredWebhooks (A := api) wanted) before = run (collectDesiredWebhooks (A := other_cluster) wanted) before.
Proof. apply (inline_webhooks_own_namespace api other_cluster "team"); done. Defined.

(** A definition without content type is deleted and created again by every run: the hash of the definition
    is that of an empty content type, the hook GitHub stores has the default one. *)
Definition implicit : Repository := repo [hook_of "https://ci" "" ["push"] None] [].
Lemma implicit_content_type_recreated :
  let w1 := (run (reconcileWebhooks default_order "o" "r" implicit) before).2 in
  let w2 := (run (reconcileWebhooks default_order "o" "r" implicit) w1).2 in
  (map_to_list (items w1)).*1 = [3] ∧ (map_to_list (items w2)).*1 = [4].
Proof. vm_compute. done. Qed.

(** The default asks GitHub not to verify certificates ("1" is insecure_ssl). *)
Lemma SSLVerify_inverted spec :
  wh_SSLVerify spec = Some true → ∃ c, h_Config (WebhookSpecToGithubHook spec) = Some c ∧ hc_InsecureSSL c = Some "1".
Proof. intros H. unfold WebhookSpecToGithubHook. rewrite H. eexists. split; [done|]. done. Qed.
