(* ===== verification/TeamRec.v ===== *)
(** * Teams

    internal/reconciler/teamrec (all reconciliations and the deletion of a team) and
    internal/mapper/github_team_mapper.go ([TeamNameToSlug], which the reconcilers do not use, is in Slug).  The
    clients of the organizations are one interface that takes the organization as an argument. *)
From S2P Require Import Prelude GoErrors Conditions Executor ApiTypes.

(** ** github_team_mapper.go *)
Definition DefaultTeamPrivacy : string := "closed".
Definition DefaultTeamPermission : string := "pull".
Definition DefaultTeamNotificationSetting : string := "notifications_disabled".

Definition teamPrivacy (team : Team) : string :=
  if bool_decide (t_Privacy (t_Spec team) = "") then DefaultTeamPrivacy else t_Privacy (t_Spec team).
Definition teamPermission (team : Team) : string :=
  if bool_decide (t_Permission (t_Spec team) = "") then DefaultTeamPermission else t_Permission (t_Spec team).
Definition teamNotificationSetting (team : Team) : string :=
  if bool_decide (t_NotificationSetting (t_Spec team) = "") then DefaultTeamNotificationSetting
  else t_NotificationSetting (t_Spec team).

(** [github.CreateTeamRequest] and [github.UpdateTeamRequest], as far as the mapper sets them. *)
Record TeamRequest := {
  tr_Name : string; tr_Description : string; tr_Privacy : string; tr_Permission : string; tr_NotificationSetting : string }.

Definition TeamToCreateTeamRequest (team : Team) : TeamRequest := {|
  tr_Name := t_Name (t_Spec team); tr_Description := t_Description (t_Spec team); tr_Privacy := teamPrivacy team;
  tr_Permission := teamPermission team; tr_NotificationSetting := teamNotificationSetting team |}.
Definition TeamToUpdateTeamRequest (team : Team) : TeamRequest := {|
  tr_Name := t_Name (t_Spec team); tr_Description := t_Description (t_Spec team); tr_Privacy := teamPrivacy team;
  tr_Permission := teamPermission team; tr_NotificationSetting := teamNotificationSetting team |}.

(** [github.Team]; the name is dereferenced without a nil check and always set by GitHub. *)
Record gh_Team := {
  gt_Name : string; gt_Slug : option string; gt_Description : option string; gt_Privacy : option string;
  gt_Permission : option string; gt_NotificationSetting : option string }.

(** The nil guards for the two arguments are left out: the caller checks them. *)
Definition TeamDiffers (team : Team) (githubTeam : gh_Team) : bool :=
  if bool_decide (t_Name (t_Spec team) ≠ gt_Name githubTeam) then true
  else if bool_decide (gt_Description githubTeam ≠ Some (t_Description (t_Spec team))) then true
  else if bool_decide (gt_Privacy githubTeam ≠ Some (teamPrivacy team)) then true
  else if bool_decide (gt_Permission githubTeam ≠ Some (teamPermission team)) then true
  else if bool_decide (gt_NotificationSetting githubTeam ≠ Some (teamNotificationSetting team)) then true
  else false.

(** ** Clients and state *)

(** [github.CustomOrgRole] and the local type [role]. *)
Record OrgRole := { or_Name : option string; or_ID : Z }.
Record role := { role_Name : string; role_ID : Z }.
#[export] Instance role_eq : EqDecision role. Proof. solve_decision. Defined.

(** The GitHub clients by organization login, the Kubernetes client, and the variables of the reconciler:
    [Team.Slug] (with [Status.Slug]) and [Status.PreviousOrganizationRefs].  Members and external groups are
    listed by login and name ([None] for nil). *)
Class TeamApi (W : Type) := {
  TeamSlug : prog W (option string);
  setSlugs : string → prog W unit;
  setPreviousOrganizationRefs : list string → prog W unit;
  GetTeamBySlug : string → string → prog W (res (option gh_Team));
  GetAllTeamsForOrg : string → prog W (res (list gh_Team));
  CreateTeam : string → TeamRequest → prog W (res gh_Team);
  EditTeamBySlug : string → string → TeamRequest → prog W (res gh_Team);
  DeleteTeamBySlug : string → string → prog W (option gerror);
  GetAllTeamMembers : string → string → prog W (res (list (option string)));
  ListMembers : string → prog W (res (list (option string)));
  AddTeamMember : string → string → string → prog W (option gerror);
  RemoveTeamMember : string → string → string → prog W (option gerror);
  GetAllOrgRoles : string → prog W (res (list OrgRole));
  GetAllTeamsAssignedToOrgRole : string → string → prog W (res (list string));
  AddOrgRoleAssignmentForTeam : string → string → Z → prog W (option gerror);
  RemoveOrgRoleAssignmentForTeam : string → string → Z → prog W (option gerror);
  GetExternalGroupsForTeamBySlug : string → string → prog W (res (list (option string)));
  GetExternalGroupNamesToIDForOrg : string → prog W (res (gmap string Z));
  AddExternalGroupToTeamBySlug : string → string → Z → prog W (option gerror);
  GetOrganization : string → string → prog W (res Organization) (* namespace, name *)
}.

(** [GitHubTeamReconciler]: the organizations by GitHub login. *)
Record GitHubTeamReconciler := {
  Current : list string; Previous : list string; TeamResource : Team; MemberSuffix : string }.

Section Reconciler.
Context {W : Type} (o : MapOrder) {A : TeamApi W} (t : GitHubTeamReconciler).

(** [GitHubTeamIdentifier.GetSlug]. *)
Definition GetSlug : prog W string := let! slug := TeamSlug in Ret (WithDefault slug "").

(** ** rec_team.go *)
Definition updateSlugs (ghTeam : gh_Team) : prog W (option gerror) :=
  match gt_Slug ghTeam with
  | None => Ret (Some (EPlain "missing slug in team returned from GitHub"))
  | Some returnedSlug => let! _ := setSlugs returnedSlug in Ret None
  end.

Definition createTeam (org : string) : prog W (option gerror) :=
  let! ghTeam := CreateTeam org (TeamToCreateTeamRequest (TeamResource t)) in
  match ghTeam with
  | inr err => Ret (Some err)
  | inl ghTeam => check updateSlugs ghTeam in Ret None
  end.

Definition findTeam (org : string) : prog W (res (option gh_Team)) :=
  let! slug := TeamSlug in
  match slug with
  | Some slug => GetTeamBySlug org slug
  | None =>
    let? teams := GetAllTeamsForOrg org in
    match list_find (λ fetchedTeam, gt_Name fetchedTeam = t_Name (t_Spec (TeamResource t))) teams with
    | None => Ret (inl None)
    | Some (_, fetchedTeam) =>
      let! err := updateSlugs fetchedTeam in
      match err with Some err => Ret (inr err) | None => Ret (inl (Some fetchedTeam)) end
    end
  end.

Definition updateTeam (org : string) : prog W (res gh_Team) :=
  let! slug := GetSlug in
  let? ghTeam := EditTeamBySlug org slug (TeamToUpdateTeamRequest (TeamResource t)) in
  let! err := updateSlugs ghTeam in
  match err with Some err => Ret (inr err) | None => Ret (inl ghTeam) end.

Definition reconcileTeamForOrg (org : string) : prog W (option gerror) :=
  let! ghTeam := findTeam org in
  match ghTeam with
  | inr err => if isNotFoundResponse err then createTeam org else Ret (Some err)
  | inl None => createTeam org
  | inl (Some ghTeam) =>
    if negb (TeamDiffers (TeamResource t) ghTeam) then Ret None
    else
      let! updated := updateTeam org in
      match updated with inr err => Ret (Some err) | inl _ => Ret None end
  end.

Definition reconcileTeam : prog W (option gerror) := for_each (Current t) reconcileTeamForOrg.

(** ** rec_refcleanup.go *)
Definition reconcileRemovedOrgRefs : prog W (option gerror) :=
  check for_each (Previous t) (λ previousOrg,
    if negb (bool_decide (previousOrg ∈ Current t)) then
      let! slug := GetSlug in DeleteTeamBySlug previousOrg slug
    else Ret None) in
  let! _ := setPreviousOrganizationRefs (t_OrganizationRefs (t_Spec (TeamResource t))) in
  Ret None.

(** ** rec_members.go *)

(** The organizations by GitHub login, fetched if there is no global member suffix. *)
Fixpoint fetch_orgs (refs : list string) (k8sOrgs : gmap string Organization) : prog W (res (gmap string Organization)) :=
  match refs with
  | [] => Ret (inl k8sOrgs)
  | orgRef :: refs =>
    let? org := GetOrganization (Namespace (t_Meta (TeamResource t))) orgRef in
    fetch_orgs refs (<[GetLogin org := org]> k8sOrgs)
  end.

Definition logins (l : list (option string)) : gset string := list_to_set (omap id l).

(** The loop over the members of the spec; the result is [membersToDelete]. *)
Fixpoint add_members (org memberSuffix : string) (existing orgMembers : gset string) (membersToDelete : gset string)
    (members : list string) : prog W (res (gset string)) :=
  match members with
  | [] => Ret (inl membersToDelete)
  | memberRef :: members =>
    let memberRef := memberRef +:+ memberSuffix in
    if bool_decide (memberRef ∈ existing) then
      add_members org memberSuffix existing orgMembers (membersToDelete ∖ {[ memberRef ]}) members
    else if bool_decide (memberRef ∈ orgMembers) then
      let! slug := GetSlug in
      let! err := AddTeamMember org slug memberRef in
      match err with
      | Some err => Ret (inr err)
      | None => add_members org memberSuffix existing orgMembers membersToDelete members
      end
    else add_members org memberSuffix existing orgMembers membersToDelete members
  end.

Definition remove_members (org : string) (membersToDelete : gset string) : prog W (option gerror) :=
  for_each (range o (set_to_map (λ m, (m, m)) membersToDelete : gmap string string))
    (λ '(_, member), let! slug := GetSlug in RemoveTeamMember org slug member).

Definition suffix_for (k8sOrgs : gmap string Organization) (org : string) : string :=
  match k8sOrgs !! org with
  | Some k8sOrg => o_MemberSuffix (o_Spec k8sOrg)
  | None => MemberSuffix t
  end.

Definition reconcile_members_for_org (k8sOrgs : gmap string Organization) (org : string) : prog W (option gerror) :=
  let! slug := GetSlug in
  let! existingMembers := GetAllTeamMembers org slug in
  match existingMembers with
  | inr err => Ret (Some (EWrap "failed to get existing team members" err))
  | inl existingMembers =>
    let existing := logins existingMembers in
    let memberSuffix := suffix_for k8sOrgs org in
    let! ghMembers := ListMembers org in
    match ghMembers with
    | inr err => Ret (Some err)
    | inl ghMembers =>
      let! membersToDelete := add_members org memberSuffix existing (logins ghMembers) existing
        (t_Members (t_Spec (TeamResource t))) in
      match membersToDelete with
      | inr err => Ret (Some err)
      | inl membersToDelete => remove_members org membersToDelete
      end
    end
  end.

Definition reconcileTeamMembers : prog W (option gerror) :=
  if IsIDPTeam (TeamResource t) then Ret None
  else
    let! k8sOrgs := (if bool_decide (MemberSuffix t = "") then fetch_orgs (t_OrganizationRefs (t_Spec (TeamResource t))) ∅
                     else Ret (inl ∅)) in
    match k8sOrgs with
    | inr err => Ret (Some err)
    | inl k8sOrgs => for_each (Current t) (reconcile_members_for_org k8sOrgs)
    end.

(** ** rec_role_assignments.go *)

(** The loop over the roles of the organization: the ids by name and the roles assigned to the team. *)
Fixpoint assigned_roles (org : string) (orgRoles : list OrgRole) (ids : gmap string Z) (assigned : list role)
    : prog W (res (gmap string Z * list role)) :=
  match orgRoles with
  | [] => Ret (inl (ids, assigned))
  | r :: orgRoles =>
    match or_Name r with
    | None => assigned_roles org orgRoles ids assigned
    | Some name =>
      let? assignedTeams := GetAllTeamsAssignedToOrgRole org name in
      let! slug := GetSlug in
      let assigned := if bool_decide (slug ∈ assignedTeams) then assigned ++ [{| role_Name := name; role_ID := or_ID r |}]
                      else assigned in
      assigned_roles org orgRoles (<[name := or_ID r]> ids) assigned
    end
  end.

Definition getRoles (orgRoleNamesToIDs : gmap string Z) : list role :=
  omap (λ r, match orgRoleNamesToIDs !! r with
             | Some id => Some {| role_Name := r; role_ID := id |} | None => None end)
    (t_OrganizationRoles (t_Spec (TeamResource t))).

Definition reconcile_roles_for_org (org : string) : prog W (option gerror) :=
  let! orgRoles := GetAllOrgRoles org in
  match orgRoles with
  | inr err => Ret (Some err)
  | inl orgRoles =>
    let! found := assigned_roles org orgRoles ∅ [] in
    match found with
    | inr err => Ret (Some err)
    | inl (orgRolesToId, assignedRoles) =>
      let expectedRoles := getRoles orgRolesToId in
      if bool_decide (assignedRoles = expectedRoles) then Ret None
      else
        check for_each expectedRoles (λ expectedRole,
          if negb (bool_decide (expectedRole ∈ assignedRoles)) then
            let! slug := GetSlug in AddOrgRoleAssignmentForTeam org slug (role_ID expectedRole)
          else Ret None) in
        for_each assignedRoles (λ assignedRole,
          if negb (bool_decide (assignedRole ∈ expectedRoles)) then
            let! slug := GetSlug in RemoveOrgRoleAssignmentForTeam org slug (role_ID assignedRole)
          else Ret None)
    end
  end.

Definition reconcileTeamRoleAssignments : prog W (option gerror) := for_each (Current t) reconcile_roles_for_org.

(** ** rec_idpgroup.go *)
Definition reconcileIDPGroupForOrg (group : string) (org : string) : prog W (option gerror) :=
  let! slug := GetSlug in
  let! teamExtGroups := GetExternalGroupsForTeamBySlug org slug in
  match teamExtGroups with
  | inr err => Ret (Some err)
  | inl teamExtGroups =>
    if bool_decide (Some group ∈ teamExtGroups) then Ret None
    else
      let! availableExternalGroups := GetExternalGroupNamesToIDForOrg org in
      match availableExternalGroups with
      | inr err => Ret (Some err)
      | inl availableExternalGroups =>
        match availableExternalGroups !! group with
        | None => Ret None
        | Some groupID => let! slug := GetSlug in AddExternalGroupToTeamBySlug org slug groupID
        end
      end
  end.

Definition reconcileIDPGroup : prog W (option gerror) :=
  match t_IDPGroup (t_Spec (TeamResource t)) with
  | None => Ret None
  | Some group =>
    for_each (Current t) (λ githubOrg,
      let! org := GetOrganization (Namespace (t_Meta (TeamResource t))) githubOrg in
      match org with
      | inr _ => Ret None
      | inl org =>
        if bool_decide (GetPlan org ≠ PlanEnterprise) then Ret None
        else reconcileIDPGroupForOrg group githubOrg
      end)
  end.

(** ** reconciler.go: deletion *)
Definition ReconcileTeamDeletion : prog W (option gerror) :=
  for_each (Current t) (λ githubOrg,
    let! slug := GetSlug in
    let! ghTeam := GetTeamBySlug githubOrg slug in
    match ghTeam with
    | inr err => if isNotFoundResponse err then Ret None else Ret (Some err)
    | inl None => Ret None
    | inl (Some ghTeam) => DeleteTeamBySlug githubOrg (WithDefault (gt_Slug ghTeam) "") (* the slug is never nil *)
    end).
End Reconciler.

(** ** Members *)

(** Fallible calls: [Q] describes the world after a success. *)
Definition succeeds {W A} (p : prog W (res A)) (w : W) (Q : A → W → Prop) : Prop :=
  match run p w with (inl a, w') => Q a w' | (inr _, _) => True end.
Definition effect {W} (p : prog W (option gerror)) (w : W) (Q : W → Prop) : Prop :=
  match run p w with (None, w') => Q w' | (Some _, _) => True end.

Section Members.
Context {W : Type} (o : MapOrder) {A : TeamApi W} (t : GitHubTeamReconciler).
Context (slug_of : W → option string) (team_members org_members : W → string → gset string).
Implicit Types (w : W) (org m : string).

(** Only the members of the team in [org] changed, to [ms]. *)
Definition members_become org (ms : gset string) w w' : Prop :=
  team_members w' org = ms ∧ (∀ org', org' ≠ org → team_members w' org' = team_members w org') ∧
  org_members w' = org_members w ∧ slug_of w' = slug_of w.

Class MembersLaws : Prop := {
  slug_read w : run TeamSlug w = (slug_of w, w);
  members_read w org : succeeds (GetAllTeamMembers org (WithDefault (slug_of w) "")) w
    (λ l w', w' = w ∧ logins l = team_members w org);
  org_members_read w org : succeeds (ListMembers org) w (λ l w', w' = w ∧ logins l = org_members w org);
  member_added w org m : effect (AddTeamMember org (WithDefault (slug_of w) "") m) w
    (members_become org ({[ m ]} ∪ team_members w org) w);
  member_removed w org m : effect (RemoveTeamMember org (WithDefault (slug_of w) "") m) w
    (members_become org (team_members w org ∖ {[ m ]}) w)
}.
Context {L : MembersLaws}.

Lemma run_GetSlug w : run GetSlug w = (WithDefault (slug_of w) "", w).
Proof. unfold GetSlug. by rewrite run_bind, slug_read. Qed.

(** The members of the spec as logins. *)
Definition wanted (suffix : string) : gset string :=
  list_to_set ((λ ref, ref +:+ suffix) <$> t_Members (t_Spec (TeamResource t))).

Lemma add_members_spec org suffix existing orgm members D w D' w' :
  run (add_members org suffix existing orgm D members) w = (inl D', w') →
  let want : gset string := list_to_set ((λ ref, ref +:+ suffix) <$> members) in
  D' = D ∖ (want ∩ existing) ∧
  members_become org (team_members w org ∪ ((want ∖ existing) ∩ orgm)) w w'.
Proof.
  revert D w. induction members as [|ref members IH]; intros D w; simpl.
  { intros [= <- <-]. split; [set_solver|]. split_and!; [set_solver|done..]. }
  case_bool_decide as Hex.
  { intros [-> (Hm & Ho & Horg & Hs)]%IH. split; [clear -Hex; set_solver|]. split_and!; [|done..]. rewrite Hm. clear -Hex. set_solver. }
  case_bool_decide as Horg; cycle 1.
  { intros [-> (Hm & Ho & ? & ?)]%IH. split; [clear -Hex; set_solver|]. split_and!; [|done..]. rewrite Hm. clear -Horg. set_solver. }
  rewrite run_bind, run_GetSlug, run_bind. pose proof (member_added w org (ref +:+ suffix)) as Hadd. unfold effect in Hadd.
  destruct (run (AddTeamMember _ _ _) w) as [[e|] w1]; step_run; [done|]. destruct Hadd as (Hm1 & Ho1 & Horg1 & Hs1).
  intros [-> (Hm & Ho & Horg2 & Hs)]%IH. split; [clear -Hex; set_solver|]. split_and!; [|intros; by rewrite Ho, Ho1|congruence|congruence].
  rewrite Hm, Hm1. clear -Hex Horg. set_solver.
Qed.

Lemma remove_members_spec org (D : gset string) w w' :
  run (remove_members o org D) w = (None, w') → members_become org (team_members w org ∖ D) w w'.
Proof.
  unfold remove_members. set (mp := set_to_map (λ m, (m, m)) D : gmap string string).
  assert (∀ m x, (m, x) ∈ range o mp ↔ m = x ∧ m ∈ D) as Hmp.
  { intros m x. rewrite elem_of_range. unfold mp. rewrite lookup_set_to_map by done. naive_solver. }
  pose proof (for_each_inv (λ done w', members_become org (team_members w org ∖ list_to_set done.*1) w w') (λ _ _, True)
    (λ '(_, member), let! slug := GetSlug in RemoveTeamMember org slug member) (range o mp)) as Hloop.
  specialize (λ H, Hloop H w). intros Hrun. rewrite Hrun in Hloop.
  assert (members_become org (team_members w org ∖ list_to_set (range o mp).*1) w w') as (H1 & H2 & H3 & H4).
  { apply Hloop; [|split_and!; [set_solver|done..]]. clear Hloop Hrun w'.
    intros done [m x] rest w1 Hl (Hm1 & Ho1 & Horg1 & Hs1).
    assert (x = m) as -> by (symmetry; apply Hmp; rewrite Hl; set_solver).
    rewrite run_bind, run_GetSlug. step_run. pose proof (member_removed w1 org m) as Hrm. unfold effect in Hrm.
    destruct (run (RemoveTeamMember _ _ _) w1) as [[e|] w2]; step_run; [done|]. destruct Hrm as (Hm2 & Ho2 & Horg2 & Hs2).
    split_and!; [|intros; by rewrite Ho2, Ho1|congruence|congruence].
    rewrite Hm2, Hm1, fmap_app, list_to_set_app_L. simpl. set_solver. }
  split_and!; [|done..]. rewrite H1. f_equal. apply set_eq. intros m. rewrite elem_of_list_to_set, list_elem_of_fmap. split.
  - intros ([m' x] & -> & Hin). by apply Hmp in Hin as [_ ?].
  - intros Hin. exists (m, m). split; [done|]. by apply Hmp.
Qed.

(** The members of the team in an organization after a run. *)
Definition settled_members (suffix : string) (before orgm : gset string) : gset string := wanted suffix ∩ (before ∪ orgm).

Lemma reconcile_members_for_org_spec k8sOrgs org w w' :
  run (reconcile_members_for_org o t k8sOrgs org) w = (None, w') →
  members_become org (settled_members (suffix_for t k8sOrgs org) (team_members w org) (org_members w org)) w w'.
Proof.
  unfold reconcile_members_for_org. rewrite run_bind, run_GetSlug, run_bind. pose proof (members_read w org) as Hr.
  unfold succeeds in Hr. destruct (run (GetAllTeamMembers _ _) w) as [[l|e] w1]; step_run; [|done].
  destruct Hr as [-> Hl]. rewrite run_bind. pose proof (org_members_read w org) as Hr.
  unfold succeeds in Hr. destruct (run (ListMembers _) w) as [[ms|e] w1]; step_run; [|done].
  destruct Hr as [-> Hms]. rewrite run_bind, Hl, Hms. destruct (run (add_members _ _ _ _ _ _) w) as [[D|e] w1] eqn:Hadd; [|done].
  apply add_members_spec in Hadd as [-> (Hm1 & Ho1 & Horg1 & Hs1)].
  intros (Hm2 & Ho2 & Horg2 & Hs2)%remove_members_spec.
  split_and!; [|intros; by rewrite Ho2, Ho1|congruence|congruence].
  rewrite Hm2, Hm1. unfold settled_members. fold (wanted (suffix_for t k8sOrgs org)).
  generalize (wanted (suffix_for t k8sOrgs org)) (team_members w org) (org_members w org). clear.
  intros want before orgm. apply set_eq. intros m. rewrite !elem_of_difference, elem_of_union, elem_of_intersection,
    !elem_of_difference, !elem_of_intersection, elem_of_union.
  destruct (decide (m ∈ want)), (decide (m ∈ before)), (decide (m ∈ orgm)); naive_solver.
Qed.

(** The organizations of the spec, by login. *)
Lemma fetch_orgs_spec (k8s : string → res Organization) refs k8sOrgs w k8sOrgs' w' :
  (∀ name w, run (GetOrganization (Namespace (t_Meta (TeamResource t))) name) w = (k8s name, w)) →
  run (fetch_orgs t refs k8sOrgs) w = (inl k8sOrgs', w') →
  w' = w ∧ ∀ login k8sOrg, k8sOrgs' !! login = Some k8sOrg →
    k8sOrgs !! login = Some k8sOrg ∨ ∃ ref, ref ∈ refs ∧ k8s ref = inl k8sOrg ∧ GetLogin k8sOrg = login.
Proof.
  intros Hget. revert k8sOrgs. induction refs as [|ref refs IH]; intros k8sOrgs; simpl.
  { intros [= <- <-]. auto. }
  rewrite run_bind, Hget. destruct (k8s ref) as [k8sOrg|e] eqn:Hk; [|done].
  intros [-> H]%IH. split; [done|]. intros login k8sOrg' Horg.
  destruct (H login k8sOrg' Horg) as [Hm|(ref' & Hin & ? & ?)]; [|right; exists ref'; set_solver].
  apply lookup_insert_Some in Hm as [[<- <-]|[_ Hm]]; [right; exists ref; set_solver|by left].
Qed.

(** The suffix in force for an organization: the global one, or else that of a referenced organization with
    this login. *)
Definition suffix_of (k8s : string → res Organization) (org suffix : string) : Prop :=
  (MemberSuffix t ≠ "" ∧ suffix = MemberSuffix t) ∨
  (MemberSuffix t = "" ∧
   ((∃ ref k8sOrg, ref ∈ t_OrganizationRefs (t_Spec (TeamResource t)) ∧ k8s ref = inl k8sOrg ∧ GetLogin k8sOrg = org ∧
      suffix = o_MemberSuffix (o_Spec k8sOrg)) ∨
    suffix = "")).

(** After a successful run the members of the team in every organization are exactly the declared members
    (with the suffix in force) that belong to the team already or to the organization; nobody else is left, and
    nothing changes in other organizations.  A declared member that is unknown to GitHub is skipped. *)
Theorem reconcileTeamMembers_spec (k8s : string → res Organization) w w' :
  (∀ name w, run (GetOrganization (Namespace (t_Meta (TeamResource t))) name) w = (k8s name, w)) →
  IsIDPTeam (TeamResource t) = false →
  run (reconcileTeamMembers o t) w = (None, w') →
  (∀ org, org ∈ Current t → ∃ suffix, suffix_of k8s org suffix ∧
     ∀ m, m ∈ team_members w' org ↔
       (∃ ref, ref ∈ t_Members (t_Spec (TeamResource t)) ∧ m = ref +:+ suffix) ∧
       (m ∈ team_members w org ∨ m ∈ org_members w org)) ∧
  (∀ org, org ∉ Current t → team_members w' org = team_members w org).
Proof.
  intros Hk8s Hidp. unfold reconcileTeamMembers. rewrite Hidp, run_bind.
  assert (∃ r, run (if bool_decide (MemberSuffix t = "") then fetch_orgs t (t_OrganizationRefs (t_Spec (TeamResource t))) ∅
      else Ret (inl ∅)) w = r ∧ ∀ k8sOrgs w1, r = (inl k8sOrgs, w1) → w1 = w ∧
      ∀ org, suffix_of k8s org (suffix_for t k8sOrgs org)) as ([[k8sOrgs|e] w1] & -> & Hr); [|intros Hrun|done].
  { eexists. split; [done|]. intros k8sOrgs w1. unfold suffix_of, suffix_for. case_bool_decide as Hs.
    - intros [-> Horgs]%(fetch_orgs_spec k8s); [|done]. split; [done|]. intros org. right. split; [done|].
      destruct (k8sOrgs !! org) as [k8sOrg|] eqn:Hlk; [left|by right].
      destruct (Horgs org k8sOrg Hlk) as [?|(ref & ? & ? & ?)]; [done|]. by exists ref, k8sOrg.
    - intros [= <- <-]. split; [done|]. intros org. left. by rewrite lookup_empty. }
  destruct (Hr k8sOrgs w1 eq_refl) as [-> Hsuffix]. clear Hr.
  set (target org := settled_members (suffix_for t k8sOrgs org) (team_members w org) (org_members w org)).
  pose proof (for_each_inv (λ done w1, org_members w1 = org_members w ∧
    (∀ org, org ∈ done → team_members w1 org = target org) ∧ (∀ org, org ∉ done → team_members w1 org = team_members w org))
    (λ _ _, True) (reconcile_members_for_org o t k8sOrgs) (Current t)) as Hloop.
  specialize (λ H, Hloop H w). rewrite Hrun in Hloop.
  destruct Hloop as (_ & Hin & Hout); [|split_and!; [done|set_solver|done]|split; [|done]].
  - clear Hrun w'. intros done org rest w1 _ (Horg & Hin & Hout).
    destruct (run (reconcile_members_for_org o t k8sOrgs org) w1) as [[e|] w2] eqn:Hrun; [done|].
    apply reconcile_members_for_org_spec in Hrun as (Hm & Ho & Horg2 & _). rewrite Horg in *. split_and!; [congruence| |].
    + assert (team_members w2 org = target org) as Hself.
      { rewrite Hm. destruct (decide (org ∈ done)) as [Hd|Hd]; [|by rewrite (Hout org Hd)].
        rewrite (Hin org Hd). unfold target, settled_members. set_solver. }
      intros org' [Hd| ->%list_elem_of_singleton]%elem_of_app; [|done].
      destruct (decide (org' = org)) as [->|Hne]; [done|]. rewrite (Ho org' Hne). by apply Hin.
    + intros org' [Hnd Hne%not_elem_of_cons]%not_elem_of_app. rewrite (Ho org') by apply Hne. by apply Hout.
  - intros org Hcur. exists (suffix_for t k8sOrgs org). split; [done|]. intros m. rewrite (Hin org Hcur).
    unfold target, settled_members, wanted. rewrite elem_of_intersection, elem_of_union, elem_of_list_to_set, list_elem_of_fmap.
    naive_solver.
Qed.
End Members.

(** ** External groups *)
Section Groups.
Context {W : Type} {A : TeamApi W} (t : GitHubTeamReconciler).
Context (slug_of : W → option string) (linked_of : W → string → gset string) (available_of : W → string → gmap string Z).
Implicit Types (w : W) (org : string).

(** The external groups linked to the team in an organization, and those the organization offers; a group that is
    added is linked, and nothing else changes in other organizations. *)
Class GroupLaws : Prop := {
  group_slug_read w : run TeamSlug w = (slug_of w, w);
  groups_read w org : succeeds (GetExternalGroupsForTeamBySlug org (WithDefault (slug_of w) "")) w
    (λ l w', w' = w ∧ logins l = linked_of w org);
  available_read w org : succeeds (GetExternalGroupNamesToIDForOrg org) w (λ m w', w' = w ∧ m = available_of w org);
  group_linked w org group id : available_of w org !! group = Some id →
    effect (AddExternalGroupToTeamBySlug org (WithDefault (slug_of w) "") id) w
      (λ w', group ∈ linked_of w' org ∧ (∀ org', org' ≠ org → linked_of w' org' = linked_of w org') ∧
        available_of w' = available_of w ∧ slug_of w' = slug_of w)
}.
Context {L : GroupLaws}.

Lemma reconcileIDPGroupForOrg_spec group org w w' :
  run (reconcileIDPGroupForOrg group org) w = (None, w') →
  (group ∈ linked_of w' org ↔ group ∈ linked_of w org ∨ is_Some (available_of w org !! group)) ∧
  (∀ org', org' ≠ org → linked_of w' org' = linked_of w org') ∧ available_of w' = available_of w.
Proof.
  assert (∀ v, run GetSlug v = (WithDefault (slug_of v) "", v)) as Hslug by (intros v; unfold GetSlug; by rewrite run_bind, group_slug_read).
  unfold reconcileIDPGroupForOrg. rewrite run_bind, Hslug, run_bind. pose proof (groups_read w org) as Hg. unfold succeeds in Hg.
  destruct (run (GetExternalGroupsForTeamBySlug _ _) w) as [[l|e] w1]; [|done]. destruct Hg as [-> Hl].
  assert (Some group ∈ l ↔ group ∈ linked_of w org) as Hin.
  { rewrite <-Hl. unfold logins. rewrite elem_of_list_to_set, list_elem_of_omap. split; [intros H; by exists (Some group)|by intros ([x|] & ? & [= ->])]. }
  case_bool_decide as Hlinked; [intros [= <-]; rewrite Hin in Hlinked; tauto|]. rewrite Hin in Hlinked.
  rewrite run_bind. pose proof (available_read w org) as Ha. unfold succeeds in Ha.
  destruct (run (GetExternalGroupNamesToIDForOrg _) w) as [[m|e] w1]; [|done]. destruct Ha as [-> ->].
  destruct (available_of w org !! group) as [id|] eqn:Hid.
  - rewrite run_bind, Hslug. intros Hrun. pose proof (group_linked w org group id Hid) as Hadd. unfold effect in Hadd. rewrite Hrun in Hadd.
    destruct Hadd as (? & ? & ? & _). split_and!; [|done..]. split; [right; by eexists|done].
  - intros [= <-]. split_and!; [|done..]. split; [by left|]. by intros [?|[]].
Qed.

(** After a successful run the team is linked to its external group in every current organization that can link it, and
    in no other organization anything has changed. *)
Lemma reconcileIDPGroup_spec (k8s : string → res Organization) group w w' :
  (∀ name w, run (GetOrganization (Namespace (t_Meta (TeamResource t))) name) w = (k8s name, w)) →
  t_IDPGroup (t_Spec (TeamResource t)) = Some group →
  run (reconcileIDPGroup t) w = (None, w') →
  (∀ org, org ∈ Current t → (∃ k8sOrg, k8s org = inl k8sOrg ∧ GetPlan k8sOrg = PlanEnterprise) →
    (group ∈ linked_of w' org ↔ group ∈ linked_of w org ∨ is_Some (available_of w org !! group))) ∧
  (∀ org, org ∉ Current t ∨ (∀ k8sOrg, k8s org = inl k8sOrg → GetPlan k8sOrg ≠ PlanEnterprise) → linked_of w' org = linked_of w org).
Proof.
  intros Hk8s Hg. unfold reconcileIDPGroup. rewrite Hg. intros Hrun.
  pose (able := λ org, ∃ k8sOrg, k8s org = inl k8sOrg ∧ GetPlan k8sOrg = PlanEnterprise).
  pose (settled := λ org v, group ∈ linked_of v org ↔ group ∈ linked_of w org ∨ is_Some (available_of w org !! group)).
  match type of Hrun with run (for_each _ ?f) _ = _ => pose proof (for_each_inv (λ done v, available_of v = available_of w ∧
    (∀ org, org ∈ done → able org → settled org v) ∧ (∀ org, org ∉ done ∨ ¬ able org → linked_of v org = linked_of w org)) (λ _ _, True) f (Current t)) as Hloop end.
  specialize (λ H, Hloop H w). rewrite Hrun in Hloop. destruct Hloop as (_ & Hin & Hout); [|split_and!; [done|set_solver|done]|].
  - clear Hrun w'. intros done org rest v _ (Hav & Hin & Hout). rewrite run_bind, Hk8s.
    assert (∀ v', available_of v' = available_of w → (able org → settled org v') → (¬ able org → linked_of v' org = linked_of v org) →
      (∀ org', org' ≠ org → linked_of v' org' = linked_of v org') →
      available_of v' = available_of w ∧ (∀ org0, org0 ∈ done ++ [org] → able org0 → settled org0 v') ∧
      (∀ org0, org0 ∉ done ++ [org] ∨ ¬ able org0 → linked_of v' org0 = linked_of w org0)) as Hnext.
    { intros v' Hav' Hown Hkeep Hother. split; [done|]. split; intros org0.
      - destruct (decide (org0 = org)) as [->|Hne]; [by intros _|]. intros Hd Hable. unfold settled. rewrite (Hother org0 Hne).
        apply Hin; [|done]. apply elem_of_app in Hd as [?|?%list_elem_of_singleton]; done.
      - destruct (decide (org0 = org)) as [->|Hne].
        + intros [Hd|Hn]; [destruct Hd; apply elem_of_app; right; apply list_elem_of_here|]. rewrite (Hkeep Hn). apply Hout. by right.
        + intros Hd. rewrite (Hother org0 Hne). apply Hout. destruct Hd as [Hd|?]; [left|by right]. intros ?. apply Hd, elem_of_app. by left. }
    destruct (k8s org) as [k8sOrg|e] eqn:Hk; cbn [run].
    2: { apply Hnext; [done|intros (? & ? & _); congruence|done..]. }
    case_bool_decide as Hplan; cbn [run].
    { apply Hnext; [done|intros (? & ? & ?); congruence|done..]. }
    destruct (run (reconcileIDPGroupForOrg group org) v) as [[e|] v'] eqn:Hr; [done|].
    apply reconcileIDPGroupForOrg_spec in Hr as (Hl & Hother & Hav'). rewrite Hav in Hl, Hav'.
    apply Hnext; [done| |intros []; exists k8sOrg; split; [done|done]|done].
    intros Hable. unfold settled. rewrite Hl. destruct (decide (org ∈ done)) as [Hd|Hd].
    + pose proof (Hin org Hd Hable) as Hs. unfold settled in Hs. rewrite Hs. tauto.
    + rewrite (Hout org) by (by left). done.
  - split; [done|]. intros org Ho. apply Hout. destruct Ho as [?|Hn]; [by left|right]. intros (k8sOrg & Hk & Hp). by destruct (Hn k8sOrg Hk).
Qed.
End Groups.

(** ** The team itself *)
Section Teams.
Context {W : Type} {A : TeamApi W} (t : GitHubTeamReconciler).
Context (slug_of : W → option string) (teams_of : W → string → gmap string gh_Team) (slugify : string → string).
Implicit Types (w : W) (org s : string) (g : gh_Team).
Notation team := (TeamResource t).
Notation name := (t_Name (t_Spec team)).

(** The team GitHub stores for a request. *)
Definition stored (r : TeamRequest) : gh_Team := {|
  gt_Name := tr_Name r; gt_Slug := Some (slugify (tr_Name r)); gt_Description := Some (tr_Description r);
  gt_Privacy := Some (tr_Privacy r); gt_Permission := Some (tr_Permission r);
  gt_NotificationSetting := Some (tr_NotificationSetting r) |}.

(** Only the teams of [org] changed, to [m]. *)
Definition teams_become org (m : gmap string gh_Team) w w' : Prop :=
  teams_of w' org = m ∧ (∀ org', org' ≠ org → teams_of w' org' = teams_of w org').

(** Teams are kept by a slug that is a function of the name; a team is not found with a nil result or a 404. *)
Class TeamLaws : Prop := {
  team_slug_read w : run TeamSlug w = (slug_of w, w);
  team_slug_set s w : let '(_, w') := run (setSlugs s) w in slug_of w' = Some s ∧ teams_of w' = teams_of w;
  team_slugs w org s g : teams_of w org !! s = Some g → gt_Slug g = Some s ∧ s = slugify (gt_Name g);
  team_get w org s : match run (GetTeamBySlug org s) w with
    | (inl r, w') => w' = w ∧ r = teams_of w org !! s
    | (inr e, w') => w' = w ∧ (isNotFoundResponse e = true → teams_of w org !! s = None)
    end;
  team_list w org : match run (GetAllTeamsForOrg org) w with
    | (inl l, w') => w' = w ∧ ∀ g, g ∈ l ↔ ∃ s, teams_of w org !! s = Some g
    | (inr _, w') => w' = w
    end;
  team_create w org r : succeeds (CreateTeam org r) w (λ g w', g = stored r ∧ slug_of w' = slug_of w ∧
    teams_become org (<[slugify (tr_Name r) := stored r]> (teams_of w org)) w w');
  team_edit w org s r : succeeds (EditTeamBySlug org s r) w (λ g w', g = stored r ∧ slug_of w' = slug_of w ∧
    teams_become org (<[slugify (tr_Name r) := stored r]> (delete s (teams_of w org))) w w')
}.
Context {L : TeamLaws}.

(** The declared settings. *)
Definition desired_team : gh_Team := stored (TeamToCreateTeamRequest team).

Lemma TeamDiffers_false g : TeamDiffers team g = false ↔
  gt_Name g = name ∧ gt_Description g = Some (t_Description (t_Spec team)) ∧ gt_Privacy g = Some (teamPrivacy team) ∧
  gt_Permission g = Some (teamPermission team) ∧ gt_NotificationSetting g = Some (teamNotificationSetting team).
Proof. unfold TeamDiffers. repeat case_bool_decide; naive_solver. Qed.

Lemma TeamDiffers_desired w org s g :
  teams_of w org !! s = Some g → (TeamDiffers team g = false ↔ s = slugify name ∧ g = desired_team).
Proof.
  intros [Hs ->]%team_slugs. rewrite TeamDiffers_false. split.
  - intros (Hn & Hd & Hp & Hpe & Hno). rewrite Hn. split; [done|]. destruct g. simpl in *. unfold desired_team, stored. simpl.
    congruence.
  - by intros [_ ->].
Qed.

(** The team exists in [org] with the declared settings, under the slug in force. *)
Definition team_synced w org : Prop := slug_of w = Some (slugify name) ∧ teams_of w org !! slugify name = Some desired_team.

Lemma updateSlugs_spec w g s :
  gt_Slug g = Some s → ∃ w', run (updateSlugs g) w = (None, w') ∧ slug_of w' = Some s ∧ teams_of w' = teams_of w.
Proof.
  intros Hs. unfold updateSlugs. rewrite Hs, run_bind. pose proof (team_slug_set s w) as H.
  destruct (run (setSlugs s) w) as [u w']. destruct H. by exists w'.
Qed.

Lemma createTeam_spec w org w' :
  run (createTeam t org) w = (None, w') →
  team_synced w' org ∧ (∀ org', org' ≠ org → teams_of w' org' = teams_of w org').
Proof.
  unfold createTeam. rewrite run_bind. pose proof (team_create w org (TeamToCreateTeamRequest team)) as Hc.
  unfold succeeds in Hc. destruct (run (CreateTeam _ _) w) as [[g|e] w1]; [|done]. step_run.
  destruct Hc as (-> & Hs & Hm & Ho). rewrite run_bind.
  destruct (updateSlugs_spec w1 desired_team (slugify name) eq_refl) as (w2 & Hrun & Hs2 & Ht2).
  fold desired_team. rewrite Hrun. intros [= <-]. unfold team_synced. rewrite Hs2, Ht2, Hm. cbn [tr_Name TeamToCreateTeamRequest].
  by rewrite lookup_insert_eq.
Qed.

Lemma updateTeam_spec w org g w' :
  run (updateTeam t org) w = (inl g, w') →
  team_synced w' org ∧ (∀ org', org' ≠ org → teams_of w' org' = teams_of w org').
Proof.
  unfold updateTeam. rewrite run_bind. unfold GetSlug. rewrite run_bind, team_slug_read. cbn [run]. rewrite run_bind.
  set (s := WithDefault (slug_of w) "").
  pose proof (team_edit w org s (TeamToUpdateTeamRequest team)) as Hc.
  unfold succeeds in Hc. destruct (run (EditTeamBySlug _ _ _) w) as [[g'|e] w1]; [|done]. step_run.
  destruct Hc as (-> & Hs & Hm & Ho). rewrite run_bind.
  destruct (updateSlugs_spec w1 desired_team (slugify name) eq_refl) as (w2 & Hrun & Hs2 & Ht2).
  change (stored (TeamToUpdateTeamRequest team)) with desired_team. rewrite Hrun. intros [= <- <-].
  unfold team_synced. rewrite Hs2, Ht2, Hm. cbn [tr_Name TeamToUpdateTeamRequest]. by rewrite lookup_insert_eq.
Qed.

Lemma findTeam_spec w org :
  let '(r, w') := run (findTeam t org) w in
  teams_of w' = teams_of w ∧
  (∀ g, r = inl (Some g) → ∃ s, slug_of w' = Some s ∧ teams_of w org !! s = Some g).
Proof.
  unfold findTeam. rewrite run_bind, team_slug_read. step_run. destruct (slug_of w) as [s|] eqn:Hs.
  - pose proof (team_get w org s) as Hg. destruct (run (GetTeamBySlug org s) w) as [[r|e] w'].
    + destruct Hg as [-> ->]. split; [done|]. intros g [= Hg]. by exists s.
    + by destruct Hg as [-> _].
  - rewrite run_bind. pose proof (team_list w org) as Hg.
    destruct (run (GetAllTeamsForOrg org) w) as [[l|e] w']; step_run; [|by subst].
    destruct Hg as [-> Hl]. destruct (list_find _ l) as [[i g]|] eqn:Hf; [|done].
    apply list_find_Some in Hf as (Hi & Hn & _). apply list_elem_of_lookup_2 in Hi. apply Hl in Hi as [s Hg].
    rewrite run_bind. destruct (team_slugs w org s g Hg) as [Hgs _].
    destruct (updateSlugs_spec w g s Hgs) as (w2 & -> & Hs2 & Ht2). cbn [run]. split; [done|].
    intros g' [= <-]. by exists s.
Qed.

Lemma reconcileTeamForOrg_spec w org w' :
  run (reconcileTeamForOrg t org) w = (None, w') →
  team_synced w' org ∧ (∀ org', org' ≠ org → teams_of w' org' = teams_of w org').
Proof.
  unfold reconcileTeamForOrg. rewrite run_bind. pose proof (findTeam_spec w org) as Hf.
  destruct (run (findTeam t org) w) as [[[g|]|e] w1]; step_run; destruct Hf as [Ht Hf].
  - destruct (Hf g eq_refl) as (s & Hs & Hg). rewrite <-Ht in Hg. destruct (TeamDiffers team g) eqn:Hd; simpl.
    + rewrite run_bind. destruct (run (updateTeam t org) w1) as [[g'|e] w2] eqn:Hu; [|done]. intros [= <-].
      apply updateTeam_spec in Hu as [? Ho]. split; [done|]. intros org' Hne. by rewrite Ho, Ht.
    + intros [= <-]. apply (TeamDiffers_desired w1 org s g Hg) in Hd as [-> ->]. split; [done|]. intros. by rewrite Ht.
  - intros [? Ho]%createTeam_spec. split; [done|]. intros org' Hne. by rewrite Ho, Ht.
  - destruct (isNotFoundResponse e); [|done]. intros [? Ho]%createTeam_spec. split; [done|].
    intros org' Hne. by rewrite Ho, Ht.
Qed.

(** When the settings of a team are reconciled without error, the team exists in every referenced
    organization with exactly the declared settings, and the recorded slug is the one it has there; the teams
    of other organizations are untouched. *)
Theorem reconcileTeam_spec w w' :
  run (reconcileTeam t) w = (None, w') →
  (∀ org, org ∈ Current t → team_synced w' org) ∧ (∀ org, org ∉ Current t → teams_of w' org = teams_of w org).
Proof.
  unfold reconcileTeam. intros Hrun.
  pose proof (for_each_inv (λ done w1, (∀ org, org ∈ done → team_synced w1 org) ∧
    (∀ org, org ∉ done → teams_of w1 org = teams_of w org)) (λ _ _, True) (reconcileTeamForOrg t) (Current t)) as Hloop.
  specialize (λ H, Hloop H w). rewrite Hrun in Hloop. apply Hloop; [|set_solver]. clear Hloop Hrun w'.
  intros done org rest w1 _ [Hin Hout]. destruct (run (reconcileTeamForOrg t org) w1) as [[e|] w2] eqn:Hrun; [done|].
  apply reconcileTeamForOrg_spec in Hrun as [Hself Ho]. split.
  - intros org' [Hd| ->%list_elem_of_singleton]%elem_of_app; [|done]. destruct (decide (org' = org)) as [->|Hne]; [done|].
    destruct (Hin org' Hd) as [_ Hg]. split; [by apply Hself|]. by rewrite Ho.
  - intros org' [Hnd Hne%not_elem_of_cons]%not_elem_of_app. rewrite Ho by apply Hne. by apply Hout.
Qed.

(** ** Organizations that are no longer referenced, and deletion *)
Context (previous_of : W → list string).

(** A failed deletion changes at most the teams of its organization. *)
Class TeamDeletionLaws : Prop := {
  deletion_slug_read w : run TeamSlug w = (slug_of w, w);
  team_delete w org s : let '(e, w') := run (DeleteTeamBySlug org s) w in
    slug_of w' = slug_of w ∧ previous_of w' = previous_of w ∧
    (∀ org', org' ≠ org → teams_of w' org' = teams_of w org') ∧ (e = None → teams_of w' org = delete s (teams_of w org));
  previous_set refs w : let '(_, w') := run (setPreviousOrganizationRefs refs) w in
    previous_of w' = refs ∧ teams_of w' = teams_of w ∧ slug_of w' = slug_of w
}.
Context {LD : TeamDeletionLaws}.

Definition remove_ref (previousOrg : string) : prog W (option gerror) :=
  if negb (bool_decide (previousOrg ∈ Current t)) then let! slug := GetSlug in DeleteTeamBySlug previousOrg slug
  else Ret None.

Lemma remove_ref_spec org w : let '(e, w') := run (remove_ref org) w in
  slug_of w' = slug_of w ∧ previous_of w' = previous_of w ∧
  (∀ org', org' ≠ org ∨ org' ∈ Current t → teams_of w' org' = teams_of w org') ∧
  (e = None → org ∉ Current t → teams_of w' org = delete (WithDefault (slug_of w) "") (teams_of w org)).
Proof.
  unfold remove_ref. case_bool_decide as Hc; cbn [negb]; [by split_and!|].
  rewrite run_bind. unfold GetSlug. rewrite run_bind, deletion_slug_read. cbn [run].
  pose proof (team_delete w org (WithDefault (slug_of w) "")) as H.
  destruct (run (DeleteTeamBySlug _ _) w) as [e w']. destruct H as (? & ? & Ho & ?). split_and!; [done|done| |auto].
  intros org' [Hne|Hin]; [by apply Ho|]. apply Ho. by intros ->.
Qed.

(** The loop over the previous organizations. *)
Lemma remove_refs_spec prev w :
  match run (for_each prev remove_ref) w with
  | (None, w') => slug_of w' = slug_of w ∧ ∀ org, teams_of w' org =
      if decide (org ∈ prev ∧ org ∉ Current t) then delete (WithDefault (slug_of w) "") (teams_of w org) else teams_of w org
  | (Some _, w') => previous_of w' = previous_of w ∧
      ∀ org, org ∈ Current t ∨ org ∉ prev → teams_of w' org = teams_of w org
  end.
Proof.
  clear L slugify.
  set (s := WithDefault (slug_of w) "").
  set (P (done : list string) w1 := slug_of w1 = slug_of w ∧ previous_of w1 = previous_of w ∧ ∀ org, teams_of w1 org =
      if decide (org ∈ done ∧ org ∉ Current t) then delete s (teams_of w org) else teams_of w org).
  pose proof (for_each_inv P (λ _ w1, previous_of w1 = previous_of w ∧
    ∀ org, org ∈ Current t ∨ org ∉ prev → teams_of w1 org = teams_of w org) remove_ref prev) as Hloop.
  specialize (λ H1 H2, Hloop H1 w H2).
  assert (P [] w) as H0.
  { split_and!; [done|done|]. intros org. rewrite decide_False by set_solver. done. }
  assert (∀ done org rest w1, prev = done ++ org :: rest → P done w1 →
    match run (remove_ref org) w1 with
    | (None, w') => P (done ++ [org]) w'
    | (Some _, w') => previous_of w' = previous_of w ∧
        ∀ org, org ∈ Current t ∨ org ∉ prev → teams_of w' org = teams_of w org
    end) as Hstep.
  { intros done org rest w1 Hprev (Hs & Hp & Ht). pose proof (remove_ref_spec org w1) as Hr.
    destruct (run (remove_ref org) w1) as [[e|] w2]; destruct Hr as (Hs2 & Hp2 & Ho & Hd).
    - split; [congruence|]. intros org' Hor. rewrite Ho, Ht, decide_False; [done| |].
      + intros [Hin Hnc]. destruct Hor as [?|Hn]; [done|]. apply Hn. rewrite Hprev. set_solver.
      + destruct Hor as [?|Hn]; [by right|left]. intros ->. apply Hn. rewrite Hprev. set_solver.
    - split_and!; [congruence|congruence|]. intros org'. destruct (decide (org' ∈ Current t)) as [Hc|Hc].
      { rewrite Ho, Ht, !decide_False by tauto. done. }
      destruct (decide (org' = org)) as [->|Hne].
      + rewrite decide_True by (split; [set_solver|done]). rewrite (Hd eq_refl Hc), Hs, Ht. fold s.
        case_decide; [by rewrite delete_delete_eq|done].
      + rewrite Ho, Ht by by left. apply decide_ext. set_solver. }
  specialize (Hloop Hstep H0). destruct (run (for_each prev remove_ref) w) as [[e|] w']; [done|].
  by destruct Hloop as (? & ? & ?).
Qed.

(** Organizations that are no longer referenced lose the team, the teams of every other organization stay;
    the references are recorded as the previous ones only if all deletions succeeded, so that a failed deletion
    is tried again. *)
Theorem reconcileRemovedOrgRefs_spec w :
  let s := WithDefault (slug_of w) "" in
  match run (reconcileRemovedOrgRefs t) w with
  | (None, w') =>
    (∀ org, teams_of w' org = if decide (org ∈ Previous t ∧ org ∉ Current t) then delete s (teams_of w org) else teams_of w org) ∧
    previous_of w' = t_OrganizationRefs (t_Spec team)
  | (Some _, w') =>
    (∀ org, org ∈ Current t ∨ org ∉ Previous t → teams_of w' org = teams_of w org) ∧ previous_of w' = previous_of w
  end.
Proof.
  clear L slugify.
  intros s. unfold reconcileRemovedOrgRefs. fold remove_ref. rewrite run_bind. pose proof (remove_refs_spec (Previous t) w) as H.
  destruct (run (for_each (Previous t) remove_ref) w) as [[e|] w1]; step_run.
  - destruct H. by split.
  - destruct H as [_ Ht]. rewrite run_bind. pose proof (previous_set (t_OrganizationRefs (t_Spec team)) w1) as Hp.
    destruct (run (setPreviousOrganizationRefs _) w1) as [u w2]. cbn [run]. destruct Hp as (-> & -> & _). by split.
Qed.

(** A successful deletion leaves no team under the recorded slug in any referenced organization; a team
    that is already gone is no error, and other teams stay. *)
Theorem ReconcileTeamDeletion_spec w w' :
  run (ReconcileTeamDeletion t) w = (None, w') →
  let s := WithDefault (slug_of w) "" in
  ∀ org, teams_of w' org = if decide (org ∈ Current t) then delete s (teams_of w org) else teams_of w org.
Proof.
  intros Hrun s. unfold ReconcileTeamDeletion in Hrun.
  set (body := λ githubOrg, _) in Hrun.
  set (P (done : list string) w1 := slug_of w1 = slug_of w ∧ ∀ org, teams_of w1 org =
      if decide (org ∈ done) then delete s (teams_of w org) else teams_of w org).
  pose proof (for_each_inv P (λ _ _, True) body (Current t)) as Hloop. specialize (λ H, Hloop H w). rewrite Hrun in Hloop.
  apply Hloop; [|split; [done|]; intros org; by rewrite decide_False by set_solver]. clear Hloop Hrun w'.
  intros done org rest w1 _ [Hs Ht].
  assert (∀ w2, slug_of w2 = slug_of w → teams_of w2 org = delete s (teams_of w1 org) →
    (∀ org', org' ≠ org → teams_of w2 org' = teams_of w1 org') → P (done ++ [org]) w2) as Hnext.
  { intros w2 Hs2 Hd Ho. split; [done|]. intros org'. destruct (decide (org' = org)) as [->|Hne].
    - rewrite decide_True by set_solver. rewrite Hd, Ht. case_decide; [by rewrite delete_delete_eq|done].
    - rewrite Ho, Ht by done. apply decide_ext. set_solver. }
  unfold body. rewrite run_bind. unfold GetSlug. rewrite run_bind, team_slug_read. cbn [run]. rewrite Hs. fold s.
  rewrite run_bind. pose proof (team_get w1 org s) as Hg.
  destruct (run (GetTeamBySlug org s) w1) as [[[g|]|e] w2]; step_run; destruct Hg as [-> Hg].
  - symmetry in Hg. destruct (team_slugs w1 org s g Hg) as [-> _]. simpl. pose proof (team_delete w1 org s) as Hd.
    destruct (run (DeleteTeamBySlug org s) w1) as [[e|] w2]; [done|]. destruct Hd as (Hs2 & _ & Ho & Hd).
    apply Hnext; [congruence|auto|done].
  - apply Hnext; [done| |done]. by rewrite delete_id.
  - destruct (isNotFoundResponse e); [|done]. apply Hnext; [done| |done]. by rewrite delete_id by auto.
Qed.
End Teams.

(** ** Role assignments *)
Section Roles.
Context {W : Type} {A : TeamApi W} (t : GitHubTeamReconciler).
Context (slug_of : W → option string) (org_roles : W → string → list OrgRole) (assigned : W → string → gset Z).
Implicit Types (w : W) (org : string) (id : Z).

Definition assigned_become org (ids : gset Z) w w' : Prop :=
  assigned w' org = ids ∧ (∀ org', org' ≠ org → assigned w' org' = assigned w org') ∧
  org_roles w' = org_roles w ∧ slug_of w' = slug_of w.

(** Roles have distinct names and ids; the teams with a role are listed by the name of the role. *)
Class RoleLaws : Prop := {
  role_slug_read w : run TeamSlug w = (slug_of w, w);
  role_names w org : NoDup (or_Name <$> org_roles w org);
  role_ids w org : NoDup (or_ID <$> org_roles w org);
  roles_read w org : succeeds (GetAllOrgRoles org) w (λ l w', w' = w ∧ l = org_roles w org);
  role_teams_read w org r name : r ∈ org_roles w org → or_Name r = Some name →
    succeeds (GetAllTeamsAssignedToOrgRole org name) w
      (λ l w', w' = w ∧ (WithDefault (slug_of w) "" ∈ l ↔ or_ID r ∈ assigned w org));
  role_added w org id : effect (AddOrgRoleAssignmentForTeam org (WithDefault (slug_of w) "") id) w
    (assigned_become org ({[ id ]} ∪ assigned w org) w);
  role_removed w org id : effect (RemoveOrgRoleAssignmentForTeam org (WithDefault (slug_of w) "") id) w
    (assigned_become org (assigned w org ∖ {[ id ]}) w)
}.
Context {L : RoleLaws}.

Lemma role_GetSlug w : run GetSlug w = (WithDefault (slug_of w) "", w).
Proof. unfold GetSlug. by rewrite run_bind, role_slug_read. Qed.

(** The named roles of the organization. *)
Definition named (l : list OrgRole) (x : role) : Prop := ∃ r, r ∈ l ∧ or_Name r = Some (role_Name x) ∧ or_ID r = role_ID x.

Lemma assigned_roles_spec w org l ids acc ids' acc' w' :
  (∀ r, r ∈ l → r ∈ org_roles w org) → NoDup (or_Name <$> l) →
  run (assigned_roles org l ids acc) w = (inl (ids', acc'), w') →
  w' = w ∧ (∀ x, x ∈ acc' ↔ x ∈ acc ∨ (named l x ∧ role_ID x ∈ assigned w org)) ∧
  (∀ name id, ids' !! name = Some id ↔ named l {| role_Name := name; role_ID := id |} ∨
     ((∀ id', ¬ named l {| role_Name := name; role_ID := id' |}) ∧ ids !! name = Some id)).
Proof.
  revert ids acc. induction l as [|r l IH]; intros ids acc Hsub Hnd; simpl.
  { intros [= <- <- <-]. unfold named. split_and!; [done|set_solver|set_solver]. }
  rewrite fmap_cons in Hnd. apply NoDup_cons in Hnd as [Hnr Hnd].
  assert (∀ x, named (r :: l) x ↔ (or_Name r = Some (role_Name x) ∧ or_ID r = role_ID x) ∨ named l x) as Hcons.
  { intros x. unfold named. set_solver. }
  destruct (or_Name r) as [name|] eqn:Hname; cycle 1.
  { assert (∀ x, named (r :: l) x ↔ named l x) as Hskip.
    { intros x. rewrite Hcons. split; [intros [[? _]|?]; done|by right]. }
    intros H%IH; [|set_solver|done]. setoid_rewrite Hskip. exact H. }
  rewrite run_bind. pose proof (role_teams_read w org r name (Hsub r ltac:(set_solver)) Hname) as Ht. unfold succeeds in Ht.
  destruct (run (GetAllTeamsAssignedToOrgRole org name) w) as [[ts|e] w1]; step_run; [|done]. destruct Ht as [-> Ht].
  rewrite run_bind, role_GetSlug. step_run. intros (-> & Hacc & Hids)%IH; [|set_solver|done]. split; [done|].
  assert (∀ id, ¬ named l {| role_Name := name; role_ID := id |}) as Hno.
  { intros id (r' & Hr' & Hn & _). apply Hnr. apply list_elem_of_fmap. exists r'. simpl in Hn. by rewrite Hn. }
  split.
  - intros x. rewrite Hacc, Hcons. case_bool_decide as Hin.
    + rewrite elem_of_app, list_elem_of_singleton. rewrite Ht in Hin. destruct x as [n i]. simpl. naive_solver.
    + rewrite Ht in Hin. destruct x as [n i]. simpl. naive_solver.
  - intros n i. rewrite Hids. setoid_rewrite Hcons. simpl. rewrite lookup_insert_Some. clear -Hno. naive_solver.
Qed.

(** The wanted roles that exist. *)
Lemma getRoles_spec ids x :
  x ∈ getRoles t ids ↔ role_Name x ∈ t_OrganizationRoles (t_Spec (TeamResource t)) ∧ ids !! role_Name x = Some (role_ID x).
Proof.
  unfold getRoles. rewrite list_elem_of_omap. split.
  - intros (n & Hn & Hx). destruct (ids !! n) eqn:E; [|done]. by simplify_eq/=.
  - intros [Hn Hx]. exists (role_Name x). rewrite Hx. by destruct x.
Qed.

(** One of the two loops: a call for every role outside [other]. *)
Lemma role_loop (call : string → string → Z → prog W (option gerror)) (f : gset Z → Z → gset Z) org (roles other : list role) w w' :
  (∀ w id, effect (call org (WithDefault (slug_of w) "") id) w (assigned_become org (f (assigned w org) id) w)) →
  run (for_each roles (λ x, if negb (bool_decide (x ∈ other)) then let! slug := GetSlug in call org slug (role_ID x)
                            else Ret None)) w = (None, w') →
  assigned_become org (foldl f (assigned w org) (role_ID <$> filter (λ x, x ∉ other) roles)) w w'.
Proof.
  intros Hcall. revert w. induction roles as [|x roles IH]; intros w; simpl; [by intros [= <-]; split_and!|].
  rewrite run_bind, filter_cons. case_bool_decide as Hx; cbn [negb].
  - cbn [run]. rewrite decide_False by tauto. apply IH.
  - rewrite run_bind, role_GetSlug. rewrite decide_True by done. pose proof (Hcall w (role_ID x)) as Hc. unfold effect in Hc.
    destruct (run (call org _ (role_ID x)) w) as [[e|] w1]; step_run; [done|]. destruct Hc as (Ha & Ho & Hr & Hs).
    intros (Ha2 & Ho2 & Hr2 & Hs2)%IH. rewrite Ha in Ha2. simpl.
    split_and!; [done|intros; by rewrite Ho2, Ho|congruence|congruence].
Qed.

Lemma foldl_add ids (s : gset Z) id : id ∈ foldl (λ s id, {[ id ]} ∪ s) s ids ↔ id ∈ s ∨ id ∈ ids.
Proof. revert s. induction ids as [|i ids IH]; intros s; simpl; [set_solver|]. rewrite IH. set_solver. Qed.
Lemma foldl_remove ids (s : gset Z) id : id ∈ foldl (λ s id, s ∖ {[ id ]}) s ids ↔ id ∈ s ∧ id ∉ ids.
Proof. revert s. induction ids as [|i ids IH]; intros s; simpl; [set_solver|]. rewrite IH. set_solver. Qed.

Lemma named_inj l x y : NoDup (or_ID <$> l) → named l x → named l y → role_ID x = role_ID y → x = y.
Proof.
  intros Hnd (r & Hr & Hn & Hi) (r' & Hr' & Hn' & Hi') Heq.
  assert (r = r') as <- by (apply (NoDup_key_inj or_ID l); congruence). destruct x, y; simpl in *; congruence.
Qed.

(** The ids after the two loops, for disjoint names. *)
Lemma roles_settled l (before : gset Z) (assignedRoles expectedRoles : list role) x :
  NoDup (or_ID <$> l) → named l x →
  (∀ x, x ∈ assignedRoles ↔ named l x ∧ role_ID x ∈ before) → (∀ x, x ∈ expectedRoles → named l x) →
  (role_ID x ∈ foldl (λ s id, s ∖ {[ id ]})
     (foldl (λ s id, {[ id ]} ∪ s) before (role_ID <$> filter (λ x, x ∉ assignedRoles) expectedRoles))
     (role_ID <$> filter (λ x, x ∉ expectedRoles) assignedRoles) ↔ x ∈ expectedRoles).
Proof.
  intros Hnd Hx Hass Hexp. rewrite foldl_remove, foldl_add, !list_elem_of_fmap. setoid_rewrite list_elem_of_filter.
  assert (∀ y, named l y → role_ID x = role_ID y → y = x) as Hinj by (intros; by eapply named_inj). split.
  - intros [[Hb|(y & Hy & _ & Hin)] Hno].
    + destruct (decide (x ∈ expectedRoles)) as [|Hne]; [done|]. destruct Hno. exists x. by rewrite Hass.
    + rewrite <-(Hinj y); auto.
  - intros Hin. split.
    + destruct (decide (role_ID x ∈ before)) as [|Hnb]; [by left|right]. exists x. split_and!; [done| |done].
      rewrite Hass. by intros [_ ?].
    + intros (y & Hy & Hne & Hya). apply Hne. rewrite (Hinj y); [done| |done]. by apply Hass in Hya as [? _].
Qed.

Lemma reconcile_roles_for_org_spec org w w' :
  run (reconcile_roles_for_org t org) w = (None, w') →
  (∀ x, named (org_roles w org) x →
    (role_ID x ∈ assigned w' org ↔ role_Name x ∈ t_OrganizationRoles (t_Spec (TeamResource t)))) ∧
  (∀ org', org' ≠ org → assigned w' org' = assigned w org') ∧ org_roles w' = org_roles w.
Proof.
  unfold reconcile_roles_for_org. rewrite run_bind. pose proof (roles_read w org) as Hr. unfold succeeds in Hr.
  destruct (run (GetAllOrgRoles org) w) as [[l|e] w1]; step_run; [|done]. destruct Hr as [-> ->].
  rewrite run_bind. destruct (run (assigned_roles _ _ _ _) w) as [[[ids found]|e] w1] eqn:Hf; step_run; [|done].
  apply assigned_roles_spec in Hf as (-> & Hfound & Hids); [|done|apply role_names].
  assert (∀ x, x ∈ found ↔ named (org_roles w org) x ∧ role_ID x ∈ assigned w org) as Hass.
  { intros x. rewrite Hfound. set_solver. }
  assert (∀ x, x ∈ getRoles t ids ↔
    role_Name x ∈ t_OrganizationRoles (t_Spec (TeamResource t)) ∧ named (org_roles w org) x) as Hexp.
  { intros x. rewrite getRoles_spec, Hids, lookup_empty. destruct x as [n i]. simpl. naive_solver. }
  case_bool_decide as Heq.
  - intros [= <-]. split_and!; [|done|done]. intros x Hx.
    assert (x ∈ found ↔ x ∈ getRoles t ids) as H by (by rewrite Heq). rewrite Hass, Hexp in H. tauto.
  - rewrite run_bind. destruct (run (for_each (getRoles t ids) _) w) as [[e|] w1] eqn:Hadd; step_run; [done|].
    apply (role_loop AddOrgRoleAssignmentForTeam (λ s id, {[ id ]} ∪ s) org _ _ w w1 (λ w id, role_added w org id))
      in Hadd as (Ha1 & Ho1 & Hr1 & Hs1).
    intros (Ha2 & Ho2 & Hr2 & Hs2)%(role_loop RemoveOrgRoleAssignmentForTeam (λ s id, s ∖ {[ id ]}) org _ _ w1 w'
      (λ w id, role_removed w org id)).
    split_and!; [|intros; by rewrite Ho2, Ho1|congruence]. intros x Hx. rewrite Ha2, Ha1.
    rewrite (roles_settled (org_roles w org)); [rewrite Hexp; tauto|apply role_ids|done|done|].
    intros y Hy. by apply Hexp in Hy as [_ ?].
Qed.

(** After a successful run the team has, of the roles an organization knows, exactly the declared ones, in
    every referenced organization; the assignments in other organizations are untouched. *)
Theorem reconcileTeamRoleAssignments_spec w w' :
  run (reconcileTeamRoleAssignments t) w = (None, w') →
  (∀ org r name, org ∈ Current t → r ∈ org_roles w org → or_Name r = Some name →
    (or_ID r ∈ assigned w' org ↔ name ∈ t_OrganizationRoles (t_Spec (TeamResource t)))) ∧
  (∀ org, org ∉ Current t → assigned w' org = assigned w org).
Proof.
  unfold reconcileTeamRoleAssignments. intros Hrun.
  set (P (done : list string) w1 := org_roles w1 = org_roles w ∧
    (∀ org x, org ∈ done → named (org_roles w org) x →
      (role_ID x ∈ assigned w1 org ↔ role_Name x ∈ t_OrganizationRoles (t_Spec (TeamResource t)))) ∧
    (∀ org, org ∉ done → assigned w1 org = assigned w org)).
  pose proof (for_each_inv P (λ _ _, True) (reconcile_roles_for_org t) (Current t)) as Hloop.
  specialize (λ H, Hloop H w). rewrite Hrun in Hloop. destruct Hloop as (_ & Hin & Hout).
  - clear Hrun w'. intros done org rest w1 _ (Hr & Hin & Hout).
    destruct (run (reconcile_roles_for_org t org) w1) as [[e|] w2] eqn:Hrun; [done|].
    apply reconcile_roles_for_org_spec in Hrun as (Hself & Ho & Hr2). rewrite Hr in *. split_and!; [done| |].
    + intros org' x [Hd| ->%list_elem_of_singleton]%elem_of_app Hx; [|by apply Hself].
      destruct (decide (org' = org)) as [->|Hne]; [by apply Hself|]. rewrite Ho by done. by apply Hin.
    + intros org' [Hnd Hne%not_elem_of_cons]%not_elem_of_app. rewrite Ho by apply Hne. by apply Hout.
  - split_and!; [done|set_solver|done].
  - split; [|done]. intros org r name Hcur Hr Hn.
    apply (Hin org {| role_Name := name; role_ID := or_ID r |} Hcur). by exists r.
Qed.
End Roles.

(** ** A concrete GitHub for the witnesses: the slug of a team is its name *)
Module ToyTeams.
Record world := {
  tw_slug : option string; tw_teams : gmap string (gmap string gh_Team); tw_members : gmap string (gset string);
  tw_assigned : gmap string (gset Z); tw_previous : list string }.
Definition at_org {V} `{Empty V} (m : gmap string V) (org : string) : V := default ∅ (m !! org).
Definition set_teams m w := {| tw_slug := tw_slug w; tw_teams := m; tw_members := tw_members w;
  tw_assigned := tw_assigned w; tw_previous := tw_previous w |}.
Definition set_members m w := {| tw_slug := tw_slug w; tw_teams := tw_teams w; tw_members := m;
  tw_assigned := tw_assigned w; tw_previous := tw_previous w |}.
Definition set_assigned m w := {| tw_slug := tw_slug w; tw_teams := tw_teams w; tw_members := tw_members w;
  tw_assigned := m; tw_previous := tw_previous w |}.

Definition slug_of (w : world) : option string := tw_slug w.
Definition teams_of (w : world) (org : string) : gmap string gh_Team :=
  filter (λ p, gt_Slug p.2 = Some p.1 ∧ p.1 = gt_Name p.2) (at_org (tw_teams w) org).
Definition members_of (w : world) (org : string) : gset string := at_org (tw_members w) org.
Definition people (_ : world) (org : string) : gset string := if bool_decide (org = "acme") then {[ "ann"; "bob" ]} else ∅.
Definition roles (_ : world) (_ : string) : list OrgRole := [{| or_Name := Some "admin"; or_ID := 1 |}; {| or_Name := Some "reader"; or_ID := 2 |}].
Definition assigned_of (w : world) (org : string) : gset Z := at_org (tw_assigned w) org.
Definition team_error : gerror := EGitHub {| er_status := Some 404; er_message := "Not Found"; er_errors := [] |}.
Definition slugify (s : string) : string := s.
Definition listed (s : gset string) : list (option string) := Some <$> elements s.

Definition all_teams (w : world) (org : string) : list gh_Team := snd <$> map_to_list (teams_of w org).

Definition held (w : world) (org name : string) : bool :=
  existsb (λ r, bool_decide (or_Name r = Some name) && bool_decide (or_ID r ∈ assigned_of w org)) (roles w org).
#[export] Instance api : TeamApi world := {|
  TeamSlug := gets tw_slug;
  setSlugs s := modify (λ w, {| tw_slug := Some s; tw_teams := tw_teams w; tw_members := tw_members w;
    tw_assigned := tw_assigned w; tw_previous := tw_previous w |});
  setPreviousOrganizationRefs refs := modify (λ w, {| tw_slug := tw_slug w; tw_teams := tw_teams w;
    tw_members := tw_members w; tw_assigned := tw_assigned w; tw_previous := refs |});
  GetTeamBySlug org s := gets (λ w, match teams_of w org !! s with Some g => inl (Some g) | None => inr team_error end);
  GetAllTeamsForOrg org := gets (λ w, inl (all_teams w org));
  CreateTeam org r := call (λ w, (inl (stored slugify r),
    set_teams (<[org := <[tr_Name r := stored slugify r]> (at_org (tw_teams w) org)]> (tw_teams w)) w));
  EditTeamBySlug org s r := call (λ w, (inl (stored slugify r),
    set_teams (<[org := <[tr_Name r := stored slugify r]> (delete s (at_org (tw_teams w) org))]> (tw_teams w)) w));
  DeleteTeamBySlug org s := call (λ w, (None, set_teams (<[org := delete s (at_org (tw_teams w) org)]> (tw_teams w)) w));
  GetAllTeamMembers org _ := gets (λ w, inl (listed (members_of w org)));
  ListMembers org := gets (λ w, inl (listed (people w org)));
  AddTeamMember org _ m := call (λ w, (None, set_members (<[org := {[ m ]} ∪ members_of w org]> (tw_members w)) w));
  RemoveTeamMember org _ m := call (λ w, (None, set_members (<[org := members_of w org ∖ {[ m ]}]> (tw_members w)) w));
  GetAllOrgRoles org := gets (λ w, inl (roles w org));
  GetAllTeamsAssignedToOrgRole org name := gets (λ w,
    inl (if held w org name then [WithDefault (tw_slug w) ""] else []));
  AddOrgRoleAssignmentForTeam org _ id := call (λ w, (None, set_assigned (<[org := {[ id ]} ∪ assigned_of w org]> (tw_assigned w)) w));
  RemoveOrgRoleAssignmentForTeam org _ id := call (λ w, (None, set_assigned (<[org := assigned_of w org ∖ {[ id ]}]> (tw_assigned w)) w));
  GetExternalGroupsForTeamBySlug _ _ := Ret (inl []);
  GetExternalGroupNamesToIDForOrg _ := Ret (inl ∅);
  AddExternalGroupToTeamBySlug _ _ _ := Ret None;
  GetOrganization _ _ := Ret (inr notFoundStatus)
|}.

Lemma at_org_insert {V} `{Empty V} (m : gmap string V) org v : at_org (<[org := v]> m) org = v.
Proof. unfold at_org. by rewrite lookup_insert_eq. Qed.
Lemma at_org_insert_ne {V} `{Empty V} (m : gmap string V) org org' v : org' ≠ org → at_org (<[org := v]> m) org' = at_org m org'.
Proof. intros. unfold at_org. by rewrite lookup_insert_ne. Qed.
Lemma logins_elements (s : gset string) : logins (listed s) = s.
Proof.
  unfold logins, listed. assert (omap id (Some <$> elements s) = elements s) as ->; [|apply list_to_set_elements_L].
  induction (elements s) as [|x l IH]; [done|]. rewrite fmap_cons. simpl. unfold id at 1. by f_equal.
Qed.

#[export] Instance member_laws : MembersLaws slug_of members_of people.
Proof.
  split; [done| | | |]; intros w org; unfold succeeds, effect, members_become; simpl.
  - by rewrite logins_elements.
  - by rewrite logins_elements.
  - intros m. unfold members_of. simpl. split_and!; [apply at_org_insert| |done|done]. intros. by apply at_org_insert_ne.
  - intros m. unfold members_of. simpl. split_and!; [apply at_org_insert| |done|done]. intros. by apply at_org_insert_ne.
Qed.

#[export] Instance team_laws : TeamLaws slug_of teams_of slugify.
Proof.
  split; try done.
  - intros w org s g. by intros (_ & ? & ?)%map_lookup_filter_Some.
  - intros w org s. cbn [GetTeamBySlug api]. rewrite run_gets. by destruct (teams_of w org !! s) as [g|].
  - intros w org. cbn [GetAllTeamsForOrg api]. rewrite run_gets. split; [done|]. intros g. unfold all_teams. rewrite list_elem_of_fmap. split.
    + intros ([s g'] & -> & Hin). exists s. by apply elem_of_map_to_list.
    + intros (s & Hs). exists (s, g). split; [done|]. by apply elem_of_map_to_list.
  - intros w org r. unfold succeeds, teams_become. simpl. split_and!; [done|done| |].
    + unfold teams_of at 1. simpl. rewrite at_org_insert. by rewrite map_filter_insert_True.
    + intros org' Hne. unfold teams_of. simpl. by rewrite at_org_insert_ne.
  - intros w org s r. unfold succeeds, teams_become. simpl. split_and!; [done|done| |].
    + unfold teams_of at 1. simpl. rewrite at_org_insert. rewrite map_filter_insert_True by done. by rewrite map_filter_delete.
    + intros org' Hne. unfold teams_of. simpl. by rewrite at_org_insert_ne.
Qed.

#[export] Instance deletion_laws : TeamDeletionLaws slug_of teams_of tw_previous.
Proof.
  split; [done| |done]. intros w org s. simpl. split_and!; [done|done| |].
  - intros org' Hne. unfold teams_of. simpl. by rewrite at_org_insert_ne.
  - intros _. unfold teams_of. simpl. rewrite at_org_insert. by rewrite map_filter_delete.
Qed.

Lemma role_held w org r name (slug : string) : r ∈ roles w org → or_Name r = Some name →
  slug ∈ (if held w org name then [slug] else []) ↔ or_ID r ∈ assigned_of w org.
Proof.
  intros Hr Hn. assert (∀ r', r' ∈ roles w org → or_Name r' = Some name → r' = r) as Hinj.
  { unfold roles in Hr |- *. apply elem_of_cons in Hr as [->|Hr%list_elem_of_singleton]; simplify_eq/=;
      intros r' [->|Hr'%list_elem_of_singleton]%elem_of_cons; by simplify_eq/=. }
  destruct (held w org name) eqn:Hex.
  - apply existsb_exists in Hex as (r' & Hr'%list_elem_of_In & [Hn' Hi]%andb_true_iff).
    apply bool_decide_eq_true in Hn', Hi. rewrite (Hinj r' Hr' Hn') in Hi. split; [done|]. intros _. apply list_elem_of_here.
  - split; [set_solver|]. intros Hi. apply not_true_iff_false in Hex. destruct Hex. apply existsb_exists.
    exists r. rewrite <-list_elem_of_In, !bool_decide_eq_true_2 by done. done.
Qed.

#[export] Instance role_laws : RoleLaws slug_of roles assigned_of.
Proof.
  split; try done; unfold succeeds, effect, assigned_become.
  - intros w org. repeat constructor; set_solver.
  - intros w org. repeat constructor; set_solver.
  - intros w org r name Hr Hn. cbn [GetAllTeamsAssignedToOrgRole api]. rewrite run_gets. split; [done|].
    apply (role_held w org r name _ Hr Hn).
  - intros w org id. simpl. unfold assigned_of. simpl. split_and!; [apply at_org_insert| |done|done]. intros. by apply at_org_insert_ne.
  - intros w org id. simpl. unfold assigned_of. simpl. split_and!; [apply at_org_insert| |done|done]. intros. by apply at_org_insert_ne.
Qed.
End ToyTeams.
Import ToyTeams.

Definition platform : Team := {|
  t_Meta := {| Name := "platform"; Namespace := "ns"; Generation := 1; DeletionTimestamp := None |};
  t_Spec := {| t_Name := "platform"; t_Members := ["ann"; "carl"; "eve"]; t_IDPGroup := None; t_Description := "d";
    t_Privacy := ""; t_Permission := ""; t_NotificationSetting := ""; t_OrganizationRoles := ["reader"];
    t_OrganizationRefs := ["acme"; "beta"] |};
  t_Status := {| tst_Conditions := []; tst_PreviousOrganizationRefs := []; tst_Slug := None |} |}.
Definition reconciler : GitHubTeamReconciler :=
  {| Current := ["acme"; "beta"]; Previous := ["gone"]; TeamResource := platform; MemberSuffix := "" |}.
Definition with_suffix : GitHubTeamReconciler :=
  {| Current := ["acme"; "beta"]; Previous := ["gone"]; TeamResource := platform; MemberSuffix := "_x" |}.
Definition old_team : gh_Team := stored slugify {| tr_Name := "old"; tr_Description := ""; tr_Privacy := "closed";
  tr_Permission := "pull"; tr_NotificationSetting := "notifications_disabled" |}.
(** The team was called "old" and has members and a role. *)
Definition start : world := {|
  tw_slug := Some "old"; tw_teams := list_to_map ((λ org, (org, {[ "old" := old_team ]})) <$> ["acme"; "beta"; "gone"]);
  tw_members := {[ "acme" := {[ "carl_x"; "dora" ]} ]}; tw_assigned := {[ "acme" := {[ 1 ]} ]}; tw_previous := ["gone"] |}.

Definition outcome (p : prog world (option gerror)) : world := (run p start).2.
Definition after_members := outcome (reconcileTeamMembers default_order with_suffix).
Definition after_team := outcome (reconcileTeam reconciler).
Definition after_roles := outcome (reconcileTeamRoleAssignments reconciler).
Definition after_deletion := outcome (ReconcileTeamDeletion reconciler).

Lemma reconcileTeamMembers_spec_witness :
  let m := "ann_x" in m ∈ members_of after_members "acme" ↔
    (∃ ref, ref ∈ ["ann"; "carl"; "eve"] ∧ m = ref +:+ "_x") ∧ (m ∈ members_of start "acme" ∨ m ∈ people start "acme").
Proof.
  destruct (reconcileTeamMembers_spec (A := api) default_order with_suffix slug_of members_of people (λ _, inr notFoundStatus) start
    after_members ltac:(intros; reflexivity) eq_refl ltac:(vm_compute; reflexivity)) as [H _].
  destruct (H "acme" (list_elem_of_here _ _)) as (suffix & [[_ ->]|[Hs _]] & Hm); [exact (Hm _)|discriminate Hs].
Defined.

Lemma reconcileTeam_spec_witness :
  team_synced reconciler slug_of teams_of slugify after_team "beta".
Proof.
  apply (reconcileTeam_spec (A := api) reconciler slug_of teams_of slugify start); [vm_compute; reflexivity|].
  apply list_elem_of_further, list_elem_of_here.
Defined.

Lemma reconcileRemovedOrgRefs_spec_witness :
  ∃ w', run (reconcileRemovedOrgRefs reconciler) start = (None, w') ∧
    teams_of w' "gone" = delete "old" (teams_of start "gone") ∧ tw_previous w' = ["acme"; "beta"].
Proof.
  pose proof (reconcileRemovedOrgRefs_spec (A := api) reconciler slug_of teams_of tw_previous start) as H.
  destruct (run (reconcileRemovedOrgRefs reconciler) start) as [e w'] eqn:E.
  destruct e as [e|]; [by vm_compute in E|]. exists w'. split; [done|]. destruct H as [H ->]. split; [|done].
  rewrite H, decide_True; [done|]. split; set_solver.
Defined.

Lemma ReconcileTeamDeletion_spec_witness :
  teams_of after_deletion "beta" = delete "old" (teams_of start "beta").
Proof.
  rewrite (ReconcileTeamDeletion_spec (A := api) reconciler slug_of teams_of slugify tw_previous start
    after_deletion ltac:(vm_compute; reflexivity) "beta").
  rewrite decide_True; [done|apply list_elem_of_further, list_elem_of_here].
Defined.

Lemma reconcileTeamRoleAssignments_spec_witness :
  (1 ∈ assigned_of after_roles "acme" ↔ "admin" ∈ ["reader"]) ∧
  (2 ∈ assigned_of after_roles "acme" ↔ "reader" ∈ ["reader"]).
Proof.
  destruct (reconcileTeamRoleAssignments_spec (A := api) reconciler slug_of roles assigned_of start
    after_roles ltac:(vm_compute; reflexivity)) as [H _]. split.
  - apply (H "acme" {| or_Name := Some "admin"; or_ID := 1 |} "admin"); [apply list_elem_of_here..|done].
  - apply (H "acme" {| or_Name := Some "reader"; or_ID := 2 |} "reader"); [apply list_elem_of_here| |done].
    apply list_elem_of_further, list_elem_of_here.
Defined.

(** Renaming a team that exists in two organizations leaves the old one behind in the second: the slug is
    replaced while the first organization is reconciled, so that the team of the second is not found. *)
Lemma rename_leaves_old_team :
  let w' := (run (reconcileTeam reconciler) start).2 in
  (map_to_list (teams_of w' "acme")).*1 = ["platform"] ∧ teams_of w' "beta" !! "old" = Some old_team.
Proof. vm_compute. done. Qed.

(** The organization of an IdP team is looked up by its GitHub login instead of its Kubernetes name; if they
    differ the group is silently not linked. *)
Lemma reconcileIDPGroup_by_login {W} (A : TeamApi W) t w :
  (∀ org, org ∈ Current t → ∃ e, run (GetOrganization (Namespace (t_Meta (TeamResource t))) org) w = (inr e, w)) →
  run (reconcileIDPGroup t) w = (None, w).
Proof.
  intros Hget. unfold reconcileIDPGroup. destruct (t_IDPGroup _) as [group|]; [|done].
  induction (Current t) as [|org orgs IH]; [done|]. cbn [for_each]. rewrite run_bind, run_bind.
  destruct (Hget org) as [e ->]; [apply list_elem_of_here|]. cbn [run]. apply IH. intros. apply Hget. by apply list_elem_of_further.
Qed.
