(* ===== verification/PresetIndex.v ===== *)
(** * Which resources a change of a preset affects (internal/controller/rulesetpreset_index.go)

    [RulesetPresetIndex] maps a changed RulesetPreset to the Organizations and Repositories that have to be
    reconciled again: those that reference it, or a preset that extends it, directly or by an inline ruleset.
    The field indexes are functions of an object; the reader that answers by index is an interface. *)
From S2P Require Import Prelude GoErrors Conditions ApiTypes RulesetMerge RulesetResolve.

Definition indexRulesetPresetExtends (preset : RulesetPreset) : list string :=
  if bool_decide (rs_Extends (rp_Spec preset) = "") then [] else [rs_Extends (rp_Spec preset)].

(** [slices.Compact] after sorting: the first of equal neighbours is kept. *)
Fixpoint Compact (l : list string) : list string :=
  match l with
  | [] => []
  | x :: l => match l with
              | [] => [x]
              | y :: _ => if bool_decide (x = y) then Compact l else x :: Compact l
              end
  end.

Definition referencedRulesetPresetNames (refs : list string) (inline : list RulesetSpec) : list string :=
  Compact (sort_strings (refs ++ filter (λ e, e ≠ "") (rs_Extends <$> inline))).

Definition indexOrganizationRulesetPresets (org : Organization) : list string :=
  referencedRulesetPresetNames (o_RulesetPresetList (o_Spec org)) (o_Rulesets (o_Spec org)).
Definition indexRepositoryRulesetPresets (repo : Repository) : list string :=
  referencedRulesetPresetNames (r_RulesetPresetList (r_Spec repo)) (r_Rulesets (r_Spec repo)).

(** [client.Reader.List] with a namespace and a value of the index [rulesetPresetExtendsIndex] or
    [rulesetPresetsNameIndex]. *)
Class PresetReader (W : Type) := {
  ListPresetsExtending : string → string → prog W (res (list RulesetPreset));
  ListOrganizationsUsing : string → string → prog W (res (list Organization));
  ListRepositoriesUsing : string → string → prog W (res (list Repository))
}.

Section Index.
Context {W : Type} {A : PresetReader W}.

(** The variables of the walk: [names], [seen] and [next]. *)
Record walk := { wk_names : list string; wk_seen : gset string; wk_next : list string }.

Definition walk_child (s : walk) (child : RulesetPreset) : walk :=
  let name := Name (rp_Meta child) in
  if bool_decide (name ∈ wk_seen s) then s
  else {| wk_names := wk_names s ++ [name]; wk_seen := {[ name ]} ∪ wk_seen s; wk_next := wk_next s ++ [name] |}.

(** The loop over one level; the flag is false if a list call failed, which ends the walk. *)
Fixpoint walk_level (namespace : string) (level : list string) (s : walk) : prog W (walk * bool) :=
  match level with
  | [] => Ret (s, true)
  | parent :: level =>
    let! children := ListPresetsExtending namespace parent in
    match children with
    | inr _ => Ret (s, false)
    | inl children => walk_level namespace level (foldl walk_child s children)
    end
  end.

Fixpoint walk_levels (depth : nat) (namespace : string) (level names : list string) (seen : gset string)
    : prog W (list string) :=
  match depth, level with
  | O, _ | _, [] => Ret names
  | S depth, _ =>
    let! walked := walk_level namespace level {| wk_names := names; wk_seen := seen; wk_next := [] |} in
    let '(s, ok) := walked in
    if (ok : bool) then walk_levels depth namespace (wk_next s) (wk_names s) (wk_seen s) else Ret (wk_names s)
  end.

Definition presetWithDescendants (preset : RulesetPreset) : prog W (list string) :=
  let name := Name (rp_Meta preset) in
  walk_levels MaxExtendsDepth (Namespace (rp_Meta preset)) [name] [name] {[ name ]}.

(** [requests]: the objects of one kind, by their namespaced names. *)
Section Requests.
Context {O : Type} (list_using : string → string → prog W (res (list O))) (meta : O → ObjectMeta).

Definition key_of (obj : O) : string * string := (Namespace (meta obj), Name (meta obj)).

Definition add_request (s : list (string * string) * gset (string * string)) (obj : O) :=
  let '(requests, seen) := s in
  if bool_decide (key_of obj ∈ seen) then (requests, seen) else (requests ++ [key_of obj], {[ key_of obj ]} ∪ seen).

Fixpoint request_names (namespace : string) (names : list string) (s : list (string * string) * gset (string * string))
    : prog W (list (string * string)) :=
  match names with
  | [] => Ret s.1
  | name :: names =>
    let! objs := list_using namespace name in
    match objs with
    | inr _ => request_names namespace names s
    | inl objs => request_names namespace names (foldl add_request s objs)
    end
  end.

Definition requests (preset : RulesetPreset) : prog W (list (string * string)) :=
  let! names := presetWithDescendants preset in
  request_names (Namespace (rp_Meta preset)) names ([], ∅).
End Requests.

Definition OrganizationRequests : RulesetPreset → prog W (list (string * string)) := requests ListOrganizationsUsing o_Meta.
Definition RepositoryRequests : RulesetPreset → prog W (list (string * string)) := requests ListRepositoriesUsing r_Meta.
End Index.

(** ** The walk finds the descendants *)
Lemma elem_of_Compact l x : x ∈ Compact l ↔ x ∈ l.
Proof.
  induction l as [|y l IH]; [reflexivity|]. destruct l as [|z l]; [reflexivity|]. cbn [Compact] in *. case_bool_decide as Heq.
  - subst y. rewrite IH. rewrite !elem_of_cons. tauto.
  - rewrite elem_of_cons, IH, !elem_of_cons. tauto.
Qed.

Lemma elem_of_referenced refs inline x :
  x ∈ referencedRulesetPresetNames refs inline ↔ x ∈ refs ∨ (x ≠ "" ∧ ∃ rs, rs ∈ inline ∧ rs_Extends rs = x).
Proof.
  unfold referencedRulesetPresetNames. rewrite elem_of_Compact, sort_strings_perm, elem_of_app, list_elem_of_filter,
    list_elem_of_fmap. naive_solver.
Qed.

Section Cluster.
Context {W : Type} {A : PresetReader W} (lookup : string → string → res RulesetPreset).

(** The presets of the cluster by namespace and name; the index answers with those that extend a name. *)
Class PresetIndexLaws : Prop := {
  preset_name ns name p : lookup ns name = inl p → Name (rp_Meta p) = name;
  list_extending ns parent w : ∃ l, run (ListPresetsExtending ns parent) w = (inl l, w) ∧
    ∀ p, p ∈ l ↔ lookup ns (Name (rp_Meta p)) = inl p ∧ parent ∈ indexRulesetPresetExtends p
}.
Context {L : PresetIndexLaws}.

(** [child] exists and extends [parent]. *)
Definition extends (ns child parent : string) : Prop :=
  parent ≠ "" ∧ ∃ p, lookup ns child = inl p ∧ rs_Extends (rp_Spec p) = parent.

(** [name] reaches [root] in at most [k] extends steps. *)
Fixpoint reaches (ns root : string) (k : nat) (name : string) : Prop :=
  match k with
  | O => name = root
  | S k => reaches ns root k name ∨ ∃ parent, reaches ns root k parent ∧ extends ns name parent
  end.

(** What a part of the walk adds: the names [new], each of them to the next level unless it is known. *)
Definition walked (s s' : walk) (new : string → Prop) : Prop :=
  wk_seen s' = list_to_set (wk_names s') ∧
  (∀ x, x ∈ wk_names s' ↔ x ∈ wk_names s ∨ new x) ∧
  (∀ x, x ∈ wk_next s' ↔ x ∈ wk_next s ∨ (new x ∧ x ∉ wk_names s)).

Lemma walked_refl s : wk_seen s = list_to_set (wk_names s) → walked s s (λ _, False).
Proof. intros Hs. unfold walked. split_and!; [done|tauto|tauto]. Qed.

Lemma walked_trans s1 s2 s3 new1 new2 :
  walked s1 s2 new1 → walked s2 s3 new2 → walked s1 s3 (λ x, new1 x ∨ new2 x).
Proof.
  intros (_ & Hn1 & Hx1) (Hs & Hn2 & Hx2). unfold walked. split_and!; [done| |]; intros x.
  - rewrite Hn2, Hn1. tauto.
  - rewrite Hx2, Hx1, Hn1. destruct (decide (x ∈ wk_names s1)); [tauto|].
    destruct (decide (x ∈ wk_names s2)) as [H|H]; rewrite Hn1 in H; tauto.
Qed.

Lemma walked_iff s s' new new' : walked s s' new → (∀ x, new x ↔ new' x) → walked s s' new'.
Proof. intros (Hs & Hn & Hx) Heq. unfold walked. split_and!; [done| |]; intros x; [rewrite Hn|rewrite Hx]; by rewrite Heq. Qed.

Lemma walk_child_spec s child :
  wk_seen s = list_to_set (wk_names s) → walked s (walk_child s child) (λ x, x = Name (rp_Meta child)).
Proof.
  intros Hs. unfold walked, walk_child. rewrite Hs.
  case_bool_decide as Hin; simpl; rewrite elem_of_list_to_set in Hin.
  - split_and!; [done|set_solver|set_solver].
  - split_and!; [rewrite list_to_set_app_L; set_solver|set_solver|set_solver].
Qed.

Lemma walk_children_spec children s :
  wk_seen s = list_to_set (wk_names s) →
  walked s (foldl walk_child s children) (λ x, ∃ c, c ∈ children ∧ x = Name (rp_Meta c)).
Proof.
  revert s. induction children as [|c children IH]; intros s Hs; simpl.
  - eapply walked_iff; [by apply walked_refl|]. set_solver.
  - pose proof (walk_child_spec s c Hs) as Hc. eapply walked_iff.
    + eapply walked_trans; [exact Hc|apply IH, Hc].
    + intros x. simpl. set_solver.
Qed.

(** The loop over a level finds the presets that extend one of its presets. *)
Lemma walk_level_spec ns level s w :
  wk_seen s = list_to_set (wk_names s) → Forall (λ p, p ≠ "") level →
  ∃ s', run (walk_level ns level s) w = ((s', true), w) ∧
    walked s s' (λ x, ∃ parent, parent ∈ level ∧ extends ns x parent).
Proof.
  intros Hs Hne. revert s Hs. induction Hne as [|parent level Hp _ IH]; intros s Hs; simpl.
  - exists s. split; [done|]. eapply walked_iff; [by apply walked_refl|]. set_solver.
  - rewrite run_bind. destruct (list_extending ns parent w) as (l & -> & Hl). step_run.
    pose proof (walk_children_spec l s Hs) as Hc. destruct (IH (foldl walk_child s l)) as (s' & Hrun & Hw); [apply Hc|].
    exists s'. split; [done|]. eapply walked_iff; [by eapply walked_trans|]. intros x. simpl.
    assert ((∃ c, c ∈ l ∧ x = Name (rp_Meta c)) ↔ extends ns x parent) as ->; [|set_solver].
    unfold extends. split.
    + intros (c & [Hc1 Hc2]%Hl & ->). split; [done|]. exists c. split; [done|].
      unfold indexRulesetPresetExtends in Hc2. case_bool_decide; set_solver.
    + intros (_ & p & Hlk & He). exists p. rewrite Hl. assert (Name (rp_Meta p) = x) as -> by (by eapply preset_name).
      split_and!; [done| |done]. unfold indexRulesetPresetExtends. rewrite He, bool_decide_eq_false_2 by done. set_solver.
Qed.

Lemma extends_not_empty ns root k x : (∀ p, lookup ns "" ≠ inl p) → root ≠ "" → reaches ns root k x → x ≠ "".
Proof.
  intros Hempty Hroot. revert x. induction k as [|k IH]; intros x; simpl; [by intros ->|].
  intros [?|(parent & _ & _ & p & Hp & _)]; [by apply IH|]. intros ->. by apply Hempty in Hp.
Qed.

Lemma reaches_S ns root k x : reaches ns root k x → reaches ns root (S k) x.
Proof. by left. Qed.
Lemma reaches_le ns root k k' x : (k ≤ k')%nat → reaches ns root k x → reaches ns root k' x.
Proof. induction 1; [done|]. intros. by left; auto. Qed.

(** A set of names that is closed under extending presets stays the same. *)
Lemma reaches_closed ns root k (names : list string) :
  (∀ x, x ∈ names ↔ reaches ns root k x) → (∀ x parent, parent ∈ names → extends ns x parent → x ∈ names) →
  ∀ d x, x ∈ names ↔ reaches ns root (k + d) x.
Proof.
  intros Hk Hclosed d x. split; [intros ?%Hk; eapply reaches_le; [|done]; lia|].
  revert x. induction d as [|d IH]; intros x; [by rewrite Nat.add_0_r, Hk|].
  rewrite Nat.add_succ_r. intros [?|(parent & Hp%IH & He)]; [by apply IH|by eapply Hclosed].
Qed.

(** After [k] rounds the names are those within [k] steps, and presets that extend one of them are known or
    extend one of the current level. *)
Lemma walk_levels_spec ns root w : (∀ p, lookup ns "" ≠ inl p) → root ≠ "" → ∀ depth k (level names : list string),
  (∀ x, x ∈ names ↔ reaches ns root k x) → (∀ x, x ∈ level → x ∈ names) →
  (∀ x parent, parent ∈ names → extends ns x parent → x ∈ names ∨ parent ∈ level) →
  ∃ names', run (walk_levels depth ns level names (list_to_set names)) w = (names', w) ∧
    ∀ x, x ∈ names' ↔ reaches ns root (k + depth) x.
Proof.
  intros Hempty Hroot. induction depth as [|depth IH]; intros k level names Hnames Hlevel Hclosed.
  { exists names. split; [by destruct level|]. by rewrite Nat.add_0_r. }
  destruct level as [|p level].
  { exists names. split; [done|]. apply reaches_closed; [done|]. intros x parent Hp He.
    destruct (Hclosed x parent Hp He) as [?|?%not_elem_of_nil]; done. }
  assert (Forall (λ p, p ≠ "") (p :: level)) as Hne.
  { apply Forall_forall. intros x Hx. apply (extends_not_empty ns root k); [done..|]. by apply Hnames, Hlevel. }
  cbn [walk_levels]. rewrite run_bind.
  destruct (walk_level_spec ns (p :: level) {| wk_names := names; wk_seen := list_to_set names; wk_next := [] |} w eq_refl Hne)
    as (s & -> & Hseen & Hn & Hx). step_run. cbn [wk_names wk_next] in *. rewrite Hseen, Nat.add_succ_r.
  apply (IH (S k)).
  - intros x. rewrite Hn. cbn [reaches]. split.
    + intros [?%Hnames|(parent & Hp & He)]; [by left|right]. exists parent. split; [by apply Hnames, Hlevel|done].
    + intros [?%Hnames|(parent & Hp%Hnames & He)]; [by left|].
      destruct (Hclosed x parent Hp He) as [?|?]; [by left|right]. by exists parent.
  - intros x Hin. apply Hx in Hin as [[]%not_elem_of_nil|[? _]]. apply Hn. by right.
  - intros x parent Hp He. apply Hn in Hp as [Hp|Hp].
    + left. apply Hn. destruct (Hclosed x parent Hp He) as [?|?]; [by left|right]. by exists parent.
    + destruct (decide (parent ∈ names)) as [Hin|Hnin].
      * left. apply Hn. destruct (Hclosed x parent Hin He) as [?|?]; [by left|right]. by exists parent.
      * right. apply Hx. by right.
Qed.

Lemma presetWithDescendants_spec preset w :
  let root := Name (rp_Meta preset) in let ns := Namespace (rp_Meta preset) in
  (∀ p, lookup ns "" ≠ inl p) → root ≠ "" →
  ∃ names, run (presetWithDescendants preset) w = (names, w) ∧ ∀ x, x ∈ names ↔ reaches ns root MaxExtendsDepth x.
Proof.
  intros root ns Hempty Hroot. unfold presetWithDescendants. fold root ns.
  pose proof (walk_levels_spec ns root w Hempty Hroot MaxExtendsDepth 0 [root] [root]) as H.
  assert ({[ root ]} = (list_to_set [root] : gset string)) as -> by (by rewrite list_to_set_singleton_L).
  apply H; [set_solver|done|]. intros x parent Hp _. by right.
Qed.

(** A chain of the resolver that leads to a preset reaching [root] consists of presets that reach it. *)
Lemma path_reaches ns root start l next k :
  (∀ p, lookup ns "" ≠ inl p) → root ≠ "" →
  path lookup ns start l next → reaches ns root k next → reaches ns root (length l + k) start.
Proof.
  intros Hempty Hroot Hpath. revert k. induction Hpath as [|l next p Hpath IH Hnext Hp]; intros k Hk; [done|].
  rewrite length_app. cbn [length]. rewrite <-Nat.add_assoc. apply IH. right. exists (rs_Extends (rp_Spec p)).
  split; [done|]. split; [by apply (extends_not_empty ns root k)|by exists p].
Qed.
End Cluster.

(** ** The requests *)
Section RequestsSpec.
Context {W : Type} {A : PresetReader W} (lookup : string → string → res RulesetPreset) {L : PresetIndexLaws lookup}.
Context {O : Type} (list_using : string → string → prog W (res (list O))) (meta : O → ObjectMeta).
Context (stored : W → O → Prop) (index : O → list string).
Implicit Types (s : list (string * string) * gset (string * string)).

(** The objects of the cluster; the index answers with those of the namespace that have the value. *)
Definition lists_by_index : Prop := ∀ ns name w, ∃ l, run (list_using ns name) w = (inl l, w) ∧
  ∀ obj, obj ∈ l ↔ stored w obj ∧ Namespace (meta obj) = ns ∧ name ∈ index obj.

Definition requested s (new : string * string → Prop) s' : Prop :=
  s'.2 = list_to_set s'.1 ∧ NoDup s'.1 ∧ ∀ key, key ∈ s'.1 ↔ key ∈ s.1 ∨ new key.

Lemma add_requests_spec objs s :
  s.2 = list_to_set s.1 → NoDup s.1 →
  requested s (λ key, ∃ obj, obj ∈ objs ∧ key = key_of meta obj) (foldl (add_request meta) s objs).
Proof.
  revert s. induction objs as [|obj objs IH]; intros [keys seen] Hs Hnd; simpl in *.
  { split_and!; [done|done|set_solver]. }
  subst seen. case_bool_decide as Hin; rewrite elem_of_list_to_set in Hin.
  - destruct (IH (keys, list_to_set keys)) as (Hs & Hnd' & Hk); [done|done|]. split_and!; [done|done|].
    intros key. rewrite Hk. set_solver.
  - destruct (IH (keys ++ [key_of meta obj], {[ key_of meta obj ]} ∪ list_to_set keys)) as (Hs & Hnd' & Hk).
    + simpl. rewrite list_to_set_app_L. set_solver.
    + apply NoDup_app. split_and!; [done|set_solver|apply NoDup_singleton].
    + split_and!; [done|done|]. intros key. rewrite Hk. set_solver.
Qed.

Lemma request_names_spec ns names s w : lists_by_index →
  s.2 = list_to_set s.1 → NoDup s.1 →
  ∃ keys, run (request_names list_using meta ns names s) w = (keys, w) ∧ NoDup keys ∧
    ∀ key, key ∈ keys ↔ key ∈ s.1 ∨
      ∃ obj name, stored w obj ∧ Namespace (meta obj) = ns ∧ name ∈ names ∧ name ∈ index obj ∧ key = key_of meta obj.
Proof.
  intros Hlist. revert s. induction names as [|name names IH]; intros s Hs Hnd; simpl.
  { exists s.1. split_and!; [done|done|]. set_solver. }
  rewrite run_bind. destruct (Hlist ns name w) as (objs & -> & Hobjs). step_run.
  destruct (add_requests_spec objs s Hs Hnd) as (Hs' & Hnd' & Hk).
  destruct (IH _ Hs' Hnd') as (keys & Hrun & Hnd2 & Hkeys). exists keys. split_and!; [done|done|].
  intros key. rewrite Hkeys, Hk. split.
  - intros [[?|(obj & (? & ? & ?)%Hobjs & ->)]|(obj & n & ? & ? & ? & ? & ->)]; [by left|right..].
    + exists obj, name. split_and!; [done|done|apply list_elem_of_here|done|done].
    + exists obj, n. split_and!; [done|done|by apply list_elem_of_further|done|done].
  - intros [?|(obj & n & ? & ? & Hn & ? & ->)]; [by left; left|].
    apply elem_of_cons in Hn as [->|Hn]; [left; right; exists obj; by rewrite Hobjs|right; by exists obj, n].
Qed.

Lemma requests_spec preset w : lists_by_index →
  (∀ ns p, lookup ns "" ≠ inl p) → Name (rp_Meta preset) ≠ "" →
  let ns := Namespace (rp_Meta preset) in
  ∃ keys, run (requests list_using meta preset) w = (keys, w) ∧ NoDup keys ∧
    ∀ key, key ∈ keys ↔ ∃ obj name, stored w obj ∧ Namespace (meta obj) = ns ∧ key = key_of meta obj ∧
      name ∈ index obj ∧ reaches lookup ns (Name (rp_Meta preset)) MaxExtendsDepth name.
Proof.
  intros Hlist Hempty Hroot ns. unfold requests. rewrite run_bind.
  destruct (presetWithDescendants_spec lookup preset w (Hempty ns) Hroot) as (names & -> & Hnames). step_run.
  destruct (request_names_spec ns names ([], ∅) w Hlist eq_refl (NoDup_nil_2)) as (keys & Hrun & Hnd & Hkeys).
  exists keys. split_and!; [done|done|]. intros key. rewrite Hkeys. cbn [fst]. split.
  - intros [[]%not_elem_of_nil|(obj & n & ? & ? & ?%Hnames & ? & ->)]. by exists obj, n.
  - intros (obj & n & ? & ? & -> & ? & ?). right. exists obj, n. by rewrite Hnames.
Qed.
End RequestsSpec.

(** The rulesets of a resource depend on the preset [root]: it is referenced, or the chain the resolver follows
    from a referenced preset or from an inline ruleset asks for it within its depth limit. *)
Definition depends (lookup : string → string → res RulesetPreset) (ns : string) (refs : list string)
    (inline : list RulesetSpec) (root : string) : Prop :=
  root ∈ refs ∨
  (∃ ref p l, ref ∈ refs ∧ lookup ns ref = inl p ∧ path lookup ns (rs_Extends (rp_Spec p)) l root ∧ (length l < MaxExtendsDepth)%nat) ∨
  (∃ rs l, rs ∈ inline ∧ rs_Extends rs ≠ "" ∧ path lookup ns (rs_Extends rs) l root ∧ (length l < MaxExtendsDepth)%nat).

Lemma depends_reaches lookup ns refs inline root :
  (∀ ns p, lookup ns "" ≠ inl p) → root ≠ "" → depends lookup ns refs inline root →
  ∃ name, name ∈ referencedRulesetPresetNames refs inline ∧ reaches lookup ns root MaxExtendsDepth name.
Proof.
  intros Hempty Hroot [Hin|[(ref & p & l & Hin & Hp & Hpath & Hlen)|(rs & l & Hin & Hne & Hpath & Hlen)]].
  - exists root. rewrite elem_of_referenced. split; [by left|]. by apply (reaches_le lookup ns root 0); [lia|].
  - exists ref. rewrite elem_of_referenced. split; [by left|].
    assert (reaches lookup ns root (length l) (rs_Extends (rp_Spec p))) as Hr.
    { rewrite <-(Nat.add_0_r (length l)). by eapply path_reaches. }
    apply (reaches_le lookup ns root (S (length l))); [done|]. right. exists (rs_Extends (rp_Spec p)).
    split; [done|]. split; [by apply (extends_not_empty lookup ns root (length l))|by exists p].
  - exists (rs_Extends rs). rewrite elem_of_referenced. split; [right; eauto|].
    apply (reaches_le lookup ns root (length l + 0)); [lia|]. by eapply path_reaches.
Qed.

Section Theorems.
Context {W : Type} {A : PresetReader W} (lookup : string → string → res RulesetPreset) {L : PresetIndexLaws lookup}.
Context (orgs : W → Organization → Prop) (repos : W → Repository → Prop).

(** A resource whose rulesets depend on the preset is among the requests, by whatever it is indexed. *)
Lemma dependents_requested {O} (list_using : string → string → prog W (res (list O))) (meta : O → ObjectMeta) (stored : W → O → Prop)
    (refs : O → list string) (inline : O → list RulesetSpec) preset w obj :
  lists_by_index list_using meta stored (λ obj, referencedRulesetPresetNames (refs obj) (inline obj)) →
  (∀ ns p, lookup ns "" ≠ inl p) → Name (rp_Meta preset) ≠ "" →
  let ns := Namespace (rp_Meta preset) in
  stored w obj → Namespace (meta obj) = ns → depends lookup ns (refs obj) (inline obj) (Name (rp_Meta preset)) →
  key_of meta obj ∈ (run (requests list_using meta preset) w).1.
Proof.
  intros Hlist Hempty Hroot ns Hst Hns Hdep.
  destruct (requests_spec lookup list_using meta stored _ preset w Hlist Hempty Hroot) as (keys & -> & _ & Hkeys).
  apply Hkeys. apply depends_reaches in Hdep as (name & Hin & Hr); [|done..]. by exists obj, name.
Qed.

(** C26: when a preset changes, every repository of its namespace whose rulesets depend on it is reconciled
    again: whatever preset the chain resolution of one of its rulesets asks for, also one that is missing, it is
    requested once, and no repository that does not reference the preset or one of its descendants is. *)
Theorem RepositoryRequests_complete preset w :
  lists_by_index ListRepositoriesUsing r_Meta repos indexRepositoryRulesetPresets →
  (∀ ns p, lookup ns "" ≠ inl p) → Name (rp_Meta preset) ≠ "" →
  let ns := Namespace (rp_Meta preset) in let root := Name (rp_Meta preset) in
  ∃ keys, run (RepositoryRequests preset) w = (keys, w) ∧ NoDup keys ∧
    (∀ repo, repos w repo → Namespace (r_Meta repo) = ns →
      depends lookup ns (r_RulesetPresetList (r_Spec repo)) (r_Rulesets (r_Spec repo)) root → key_of r_Meta repo ∈ keys) ∧
    (∀ key, key ∈ keys → ∃ repo name, repos w repo ∧ key = key_of r_Meta repo ∧ Namespace (r_Meta repo) = ns ∧
      name ∈ indexRepositoryRulesetPresets repo ∧ reaches lookup ns root MaxExtendsDepth name).
Proof.
  intros Hlist Hempty Hroot ns root.
  destruct (requests_spec lookup ListRepositoriesUsing r_Meta repos indexRepositoryRulesetPresets preset w Hlist Hempty Hroot)
    as (keys & Hrun & Hnd & Hkeys). exists keys. split_and!; [done|done| |].
  - intros repo Hrepo Hns Hdep. apply Hkeys. apply depends_reaches in Hdep as (name & Hin & Hr); [|done..].
    exists repo, name. done.
  - intros key (repo & name & ? & ? & ? & ? & ?)%Hkeys. by exists repo, name.
Qed.

End Theorems.

(** ** A concrete cluster for the witness: the preset "mid" extends "base", a repository extends "mid" *)
Module ToyCluster.
Definition spec (name extends : string) : RulesetSpec := {| rs_Name := name; rs_Extends := extends; rs_Target := "";
  rs_Conditions := None; rs_Enforcement := "active"; rs_BypassActors := []; rs_Rules := no_rules |}.
Definition preset (name extends : string) : RulesetPreset :=
  {| rp_Meta := {| Name := name; Namespace := "ns"; Generation := 1; DeletionTimestamp := None |}; rp_Spec := spec name extends |}.
Definition base := preset "base" "".
Definition mid := preset "mid" "base".
Definition lookup (_ name : string) : res RulesetPreset :=
  if bool_decide (name = "base") then inl base else if bool_decide (name = "mid") then inl mid else inr notFoundStatus.

Definition repo : Repository := {|
  r_Meta := {| Name := "r"; Namespace := "ns"; Generation := 1; DeletionTimestamp := None |};
  r_Spec := {|
    r_Name := "r"; r_CustomProperties := []; r_DefaultBranch := "main"; r_Visibility := "private"; r_HasIssues := None;
    r_HasProjects := None; r_HasWiki := None; r_HasDownloads := None; r_IsTemplate := None; r_MergeCommitTitle := "";
    r_MergeCommitMessage := ""; r_AllowedMergeStrategies := []; r_DeleteBranchOnMerge := None;
    r_About := {| ab_Description := ""; ab_Website := ""; ab_Topics := [] |};
    r_Archived := None; r_ActionsEnabled := None; r_AccessLevelForExternalWorkflows := None;
    r_AvailableActionsRunnerGroups := []; r_OrganizationRef := "org"; r_RulesetPresetList := []; r_Rulesets := [spec "mine" "mid"];
    r_WebhookPresetList := []; r_Webhooks := []; r_WebhookIgnorePresetsList := []; r_WebhookIgnores := [];
    r_AutolinksPresetList := []; r_Autolinks := []; r_DeployKeyList := []; r_AttachedCodeSecurityConfiguration := None |};
  r_Status := {| rst_Webhooks := ∅; rst_Conditions := []; rst_ID := None; rst_ObservedSubResourceGenerations := None |} |}.

#[export] Instance reader : PresetReader unit := {|
  ListPresetsExtending _ parent := Ret (inl (filter (λ p, parent ∈ indexRulesetPresetExtends p) [base; mid]));
  ListOrganizationsUsing _ _ := Ret (inl []);
  ListRepositoriesUsing ns name :=
    Ret (inl (filter (λ r, Namespace (r_Meta r) = ns ∧ name ∈ indexRepositoryRulesetPresets r) [repo])) |}.

#[export] Instance laws : PresetIndexLaws lookup.
Proof.
  split.
  - intros ns name p. unfold lookup. repeat case_bool_decide; intros [= <-]; by subst.
  - intros ns parent w. eexists. split; [reflexivity|]. intros p. rewrite list_elem_of_filter, (and_comm (parent ∈ _)).
    apply and_iff_compat_r. unfold lookup. rewrite elem_of_cons, list_elem_of_singleton. split.
    + by intros [->| ->].
    + repeat case_bool_decide; intros [= <-]; auto.
Qed.
End ToyCluster.

Import ToyCluster.

Lemma RepositoryRequests_complete_witness :
  ∃ keys, run (RepositoryRequests ToyCluster.base) tt = (keys, tt) ∧ ("ns", "r") ∈ keys.
Proof.
  destruct (RepositoryRequests_complete ToyCluster.lookup (λ _ r, r = ToyCluster.repo) ToyCluster.base tt) as (keys & Hrun & _ & H & _).
  - intros ns name w. eexists. split; [reflexivity|]. intros r. rewrite list_elem_of_filter, list_elem_of_singleton. tauto.
  - done.
  - done.
  - exists keys. split; [done|]. apply (H ToyCluster.repo); [done|done|]. right; right.
    exists (ToyCluster.spec "mine" "mid"), [("mid", ToyCluster.mid)]. split_and!; [apply list_elem_of_here|done| |simpl; unfold MaxExtendsDepth; lia].
    by apply (path_snoc ToyCluster.lookup "ns" "mid" [] "mid" ToyCluster.mid (path_nil _ _ _)).
Defined.
