(* ===== verification/RepoRec.v ===== *)
(** * Repositories

    internal/reconciler/reporec/rec_repo.go, error.go and the deletion of reconciler.go, with
    internal/mapper/github_repo_mapper.go.  Deploy keys, autolinks and topics are in RepoLists, webhooks in
    Webhooks. *)
From S2P Require Import Prelude GoErrors Conditions Executor ApiTypes RulesetMapper RulesetResolve RulesetSync.

(** ** github_repo_mapper.go *)

(** [github.Repository], as far as it is read or sent; [gr_CreatedAt] is [GetCreatedAt().Time]. *)
Record gh_Repository := {
  gr_ID : option Z; gr_Name : option string; gr_CreatedAt : Z; gr_Visibility : option string; gr_Archived : option bool;
  gr_HasIssues : option bool; gr_HasProjects : option bool; gr_HasWiki : option bool; gr_HasDownloads : option bool;
  gr_IsTemplate : option bool; gr_AllowSquashMerge : option bool; gr_AllowRebaseMerge : option bool;
  gr_AllowMergeCommit : option bool; gr_DeleteBranchOnMerge : option bool; gr_MergeCommitTitle : option string;
  gr_MergeCommitMessage : option string; gr_Homepage : option string; gr_Description : option string;
  gr_DefaultBranch : option string }.

(** [github.CreateRepositoryRequest]. *)
Record CreateRepositoryRequest := {
  cr_Name : string; cr_Visibility : option string; cr_HasIssues : option bool; cr_HasProjects : option bool;
  cr_HasWiki : option bool; cr_IsTemplate : option bool; cr_AllowSquashMerge : option bool;
  cr_AllowRebaseMerge : option bool; cr_AllowMergeCommit : option bool; cr_DeleteBranchOnMerge : option bool;
  cr_MergeCommitTitle : option string; cr_MergeCommitMessage : option string; cr_Homepage : option string;
  cr_Description : option string; cr_AutoInit : option bool }.

Definition getMergeStrategy (spec : RepositorySpec) (strategy : string) : bool :=
  bool_decide (strategy ∈ r_AllowedMergeStrategies spec).

Definition RepoToGithubRepo (repo : Repository) : gh_Repository :=
  let s := r_Spec repo in {|
  gr_ID := None; gr_Name := Some (r_Name s); gr_CreatedAt := zero_time; gr_Visibility := Some (r_Visibility s);
  gr_Archived := r_Archived s; gr_HasIssues := r_HasIssues s; gr_HasProjects := r_HasProjects s; gr_HasWiki := r_HasWiki s;
  gr_HasDownloads := r_HasDownloads s; gr_IsTemplate := r_IsTemplate s;
  gr_AllowSquashMerge := Some (getMergeStrategy s "squash"); gr_AllowRebaseMerge := Some (getMergeStrategy s "rebase");
  gr_AllowMergeCommit := Some (getMergeStrategy s "merge"); gr_DeleteBranchOnMerge := r_DeleteBranchOnMerge s;
  gr_MergeCommitTitle := Some (r_MergeCommitTitle s); gr_MergeCommitMessage := Some (r_MergeCommitMessage s);
  gr_Homepage := WithDefaultAsPtr (Some (ab_Website (r_About s))) "";
  gr_Description := WithDefaultAsPtr (Some (ab_Description (r_About s))) "";
  gr_DefaultBranch := Some (r_DefaultBranch s) |}.

(** The request with [AutoInit], which the caller sets. *)
Definition RepoToGithubCreateRepositoryRequest (repo : Repository) : CreateRepositoryRequest :=
  let s := r_Spec repo in {|
  cr_Name := r_Name s; cr_Visibility := Some (r_Visibility s); cr_HasIssues := r_HasIssues s;
  cr_HasProjects := r_HasProjects s; cr_HasWiki := r_HasWiki s; cr_IsTemplate := r_IsTemplate s;
  cr_AllowSquashMerge := Some (getMergeStrategy s "squash"); cr_AllowRebaseMerge := Some (getMergeStrategy s "rebase");
  cr_AllowMergeCommit := Some (getMergeStrategy s "merge"); cr_DeleteBranchOnMerge := r_DeleteBranchOnMerge s;
  cr_MergeCommitTitle := Some (r_MergeCommitTitle s); cr_MergeCommitMessage := Some (r_MergeCommitMessage s);
  cr_Homepage := WithDefaultAsPtr (Some (ab_Website (r_About s))) "";
  cr_Description := WithDefaultAsPtr (Some (ab_Description (r_About s))) ""; cr_AutoInit := None |}.
Definition with_AutoInit (r : CreateRepositoryRequest) : CreateRepositoryRequest := {|
  cr_Name := cr_Name r; cr_Visibility := cr_Visibility r; cr_HasIssues := cr_HasIssues r;
  cr_HasProjects := cr_HasProjects r; cr_HasWiki := cr_HasWiki r; cr_IsTemplate := cr_IsTemplate r;
  cr_AllowSquashMerge := cr_AllowSquashMerge r; cr_AllowRebaseMerge := cr_AllowRebaseMerge r;
  cr_AllowMergeCommit := cr_AllowMergeCommit r; cr_DeleteBranchOnMerge := cr_DeleteBranchOnMerge r;
  cr_MergeCommitTitle := cr_MergeCommitTitle r; cr_MergeCommitMessage := cr_MergeCommitMessage r;
  cr_Homepage := cr_Homepage r; cr_Description := cr_Description r; cr_AutoInit := Some true |}.

Definition GetArchived (r : gh_Repository) : bool := WithDefault (gr_Archived r) false.

Definition RepoStaysArchived (repo : Repository) (githubRepo : gh_Repository) : bool :=
  let wantArchived := match r_Archived (r_Spec repo) with Some b => b | None => false end in
  GetArchived githubRepo && Bool.eqb (GetArchived githubRepo) wantArchived.

(** [gh == nil || *gh != want]. *)
Definition field_differs {A} `{EqDecision A} (gh : option A) (want : A) : bool :=
  match gh with None => true | Some v => bool_decide (v ≠ want) end.

Definition RepoDiffers (repo : Repository) (g : gh_Repository) : bool :=
  let s := r_Spec repo in
  if field_differs (gr_Name g) (r_Name s) then true
  else if (let specArchived := WithDefault (r_Archived s) false in
           match gr_Archived g with None => specArchived | Some a => negb (Bool.eqb specArchived a) end) then true
  else if field_differs (gr_Visibility g) (r_Visibility s) then true
  else if field_differs (gr_HasIssues g) (WithDefault (r_HasIssues s) true) then true
  else if field_differs (gr_HasProjects g) (WithDefault (r_HasProjects s) false) then true
  else if field_differs (gr_HasWiki g) (WithDefault (r_HasWiki s) false) then true
  else if field_differs (gr_HasDownloads g) (WithDefault (r_HasDownloads s) false) then true
  else if field_differs (gr_IsTemplate g) (WithDefault (r_IsTemplate s) false) then true
  else if field_differs (gr_AllowSquashMerge g) (getMergeStrategy s "squash") then true
  else if field_differs (gr_AllowRebaseMerge g) (getMergeStrategy s "rebase") then true
  else if field_differs (gr_AllowMergeCommit g) (getMergeStrategy s "merge") then true
  else if field_differs (gr_DeleteBranchOnMerge g) (WithDefault (r_DeleteBranchOnMerge s) true) then true
  else if field_differs (gr_MergeCommitTitle g) (r_MergeCommitTitle s) then true
  else if field_differs (gr_MergeCommitMessage g) (r_MergeCommitMessage s) then true
  else if field_differs (gr_Homepage g) (ab_Website (r_About s)) then true
  else if bool_decide (WithDefault (gr_Description g) "" ≠ ab_Description (r_About s)) then true
  else field_differs (gr_DefaultBranch g) (r_DefaultBranch s).

(** ** rec_repo.go *)
Definition newRepositoryGracePeriod : Z := Minute.
Definition ArchivedMessage : string :=
  "repository is archived (read-only); settings are not reconciled until it is unarchived".

(** GitHub, the Kubernetes API server, the clock, and the variables of the reconciler: [GitHub.Resource.Name] and
    the repository id ([GitHub.Resource.ID] and [Status.ID]).  The owner is fixed. *)
Class RepoApi (W : Type) := {
  RepoName : prog W string;
  StoredID : prog W (option Z);
  SetRepoFields : string → Z → prog W unit;
  Now : prog W Z;
  GetRepositoryByID : Z → prog W (res gh_Repository);
  GetRepository : string → prog W (res gh_Repository);
  CreateRepository : CreateRepositoryRequest → prog W (res gh_Repository);
  EditRepository : string → gh_Repository → prog W (res gh_Repository);
  DeleteRepository : string → prog W (option gerror);
  GetBranch : string → string → prog W (option gerror);
  (* the annotation that triggers the reconciliation of the organization *)
  ApplyReconcileTrigger : string → prog W (option gerror)
}.

(** [FinalizeMode]: the environment variable as it is. *)
Record GitHubRepoReconciler := { Owner : string; RepoResource : Repository; FinalizeMode : string }.

Section Reconciler.
Context {W : Type} {A : RepoApi W} (r : GitHubRepoReconciler).

Definition updateRecFieldsFromGitHub (ghRepo : gh_Repository) : prog W (option gerror) :=
  match gr_ID ghRepo, gr_Name ghRepo with
  | Some id, Some name => let! _ := SetRepoFields name id in Ret None
  | _, _ => Ret (Some (EPlain "unable to update reconciler fields with nil data"))
  end.

Definition triggerOrganizationReconciliation : prog W (option gerror) :=
  let orgName := r_OrganizationRef (r_Spec (RepoResource r)) in
  if bool_decide (orgName = "") then Ret None else ApplyReconcileTrigger orgName.

(** The end of [getRepo]. *)
Definition recorded (ghRepo : gh_Repository) : prog W (res gh_Repository) :=
  let! err := updateRecFieldsFromGitHub ghRepo in
  match err with Some err => Ret (inr err) | None => Ret (inl ghRepo) end.

Definition create_repo : prog W (res gh_Repository) :=
  let! created := CreateRepository (with_AutoInit (RepoToGithubCreateRepositoryRequest (RepoResource r))) in
  match created with
  | inr err => Ret (inr err)
  | inl ghRepo =>
    let! _ := triggerOrganizationReconciliation in (* its error is only logged *)
    recorded ghRepo
  end.

(** The lookup by name, also when the lookup by id failed. *)
Definition getRepo_by_name : prog W (res gh_Repository) :=
  let! name := RepoName in
  let! got := GetRepository name in
  match got with
  | inl ghRepo => recorded ghRepo
  | inr err => if isNotFoundResponse err then create_repo else Ret (inr err)
  end.

Definition getRepo : prog W (res gh_Repository) :=
  let! storedID := StoredID in
  let! byID := match storedID with
    | Some id => let! got := GetRepositoryByID id in Ret (Some got)
    | None => Ret None
    end in
  match byID with
  | Some (inl ghRepo) => recorded ghRepo
  | _ => getRepo_by_name
  end.

Definition ensureDefaultBranchExists (ghRepo : gh_Repository) : prog W (option gerror) :=
  let desired := r_DefaultBranch (r_Spec (RepoResource r)) in
  if bool_decide (desired = "") || bool_decide (WithDefault (gr_DefaultBranch ghRepo) "" = desired) then Ret None
  else
    let! name := RepoName in
    let! err := GetBranch name desired in
    match err with
    | None => Ret None
    | Some err =>
      match as_type (λ e, match e with EGitHub resp => Some resp | _ => None end) err with
      | Some resp =>
        if bool_decide (er_status resp = Some 404) || bool_decide (er_status resp = Some 301)
        then Ret (Some (EDefaultBranchNotFound (Owner r) name desired)) else Ret (Some err)
      | None => Ret (Some err)
      end
    end.

Definition updateRepo : prog W (res gh_Repository) :=
  let! name := RepoName in
  let! edited := EditRepository name (RepoToGithubRepo (RepoResource r)) in
  match edited with
  | inr err => Ret (inr err)
  | inl ghRepo => recorded ghRepo
  end.

(** The part of [reconcileRepository] after it found that the repository differs. *)
Definition update_differing (ghRepo : gh_Repository) : prog W (option gerror) :=
  check ensureDefaultBranchExists ghRepo in
  let createdAt := gr_CreatedAt ghRepo in
  let! updated := updateRepo in
  match updated with
  | inr err =>
    let! now := Now in
    if negb (bool_decide (createdAt = zero_time)) && bool_decide (sat64 (now - createdAt) < newRepositoryGracePeriod)
    then Ret (Some (ENewRepositoryUpdate err)) else Ret (Some err)
  | inl ghRepo => if GetArchived ghRepo then Ret (Some (EStop ArchivedMessage)) else Ret None
  end.

Definition reconcileRepository : prog W (option gerror) :=
  let! got := getRepo in
  match got with
  | inr err => Ret (Some err)
  | inl ghRepo =>
    if RepoStaysArchived (RepoResource r) ghRepo then Ret (Some (EStop ArchivedMessage))
    else if negb (RepoDiffers (RepoResource r) ghRepo) then Ret None
    else update_differing ghRepo
  end.

(** ** reconciler.go: deletion *)
Definition deleteRepository : prog W (option gerror) :=
  let! name := RepoName in
  let! err := DeleteRepository name in
  match err with
  | Some err => if isNotFoundResponse err then Ret None else Ret (Some err)
  | None => Ret None
  end.

Definition archived_only : gh_Repository := {|
  gr_ID := None; gr_Name := None; gr_CreatedAt := zero_time; gr_Visibility := None; gr_Archived := Some true;
  gr_HasIssues := None; gr_HasProjects := None; gr_HasWiki := None; gr_HasDownloads := None; gr_IsTemplate := None;
  gr_AllowSquashMerge := None; gr_AllowRebaseMerge := None; gr_AllowMergeCommit := None; gr_DeleteBranchOnMerge := None;
  gr_MergeCommitTitle := None; gr_MergeCommitMessage := None; gr_Homepage := None; gr_Description := None;
  gr_DefaultBranch := None |}.

Definition archiveRepository : prog W (option gerror) :=
  let! name := RepoName in
  let! got := GetRepository name in
  match got with
  | inr err => Ret (Some err)
  | inl ghRepo =>
    if GetArchived ghRepo then Ret None
    else
      let! edited := EditRepository name archived_only in
      match edited with inr err => Ret (Some err) | inl _ => Ret None end
  end.

Definition Ignore : string := "ignore".
Definition Archive : string := "archive".
Definition Delete : string := "delete".

Definition ReconcileRepoDeletion : prog W (option gerror) :=
  let mode := FinalizeMode r in
  if bool_decide (mode = "") || bool_decide (mode = Ignore) then Ret None
  else if bool_decide (mode = Delete) then deleteRepository
  else if bool_decide (mode = Archive) then archiveRepository
  else Ret (Some (EPlain ("invalid finalize mode: " +:+ mode))).
End Reconciler.

(** ** Comparing and updating *)

(** What GitHub keeps after an update: the fields that are sent, and the old value of the others. *)
Definition sent {A} (new old : option A) : option A := match new with Some _ => new | None => old end.
Definition apply_edit (upd old : gh_Repository) : gh_Repository := {|
  gr_ID := gr_ID old; gr_Name := sent (gr_Name upd) (gr_Name old); gr_CreatedAt := gr_CreatedAt old;
  gr_Visibility := sent (gr_Visibility upd) (gr_Visibility old); gr_Archived := sent (gr_Archived upd) (gr_Archived old);
  gr_HasIssues := sent (gr_HasIssues upd) (gr_HasIssues old); gr_HasProjects := sent (gr_HasProjects upd) (gr_HasProjects old);
  gr_HasWiki := sent (gr_HasWiki upd) (gr_HasWiki old); gr_HasDownloads := sent (gr_HasDownloads upd) (gr_HasDownloads old);
  gr_IsTemplate := sent (gr_IsTemplate upd) (gr_IsTemplate old);
  gr_AllowSquashMerge := sent (gr_AllowSquashMerge upd) (gr_AllowSquashMerge old);
  gr_AllowRebaseMerge := sent (gr_AllowRebaseMerge upd) (gr_AllowRebaseMerge old);
  gr_AllowMergeCommit := sent (gr_AllowMergeCommit upd) (gr_AllowMergeCommit old);
  gr_DeleteBranchOnMerge := sent (gr_DeleteBranchOnMerge upd) (gr_DeleteBranchOnMerge old);
  gr_MergeCommitTitle := sent (gr_MergeCommitTitle upd) (gr_MergeCommitTitle old);
  gr_MergeCommitMessage := sent (gr_MergeCommitMessage upd) (gr_MergeCommitMessage old);
  gr_Homepage := sent (gr_Homepage upd) (gr_Homepage old); gr_Description := sent (gr_Description upd) (gr_Description old);
  gr_DefaultBranch := sent (gr_DefaultBranch upd) (gr_DefaultBranch old) |}.

(** The settings as the comparison sees them. *)
Record settings := {
  st_Name : string; st_Visibility : string; st_Archived : bool; st_HasIssues : bool; st_HasProjects : bool; st_HasWiki : bool;
  st_HasDownloads : bool; st_IsTemplate : bool; st_Squash : bool; st_Rebase : bool; st_Merge : bool; st_DeleteBranch : bool;
  st_Title : string; st_Message : string; st_Homepage : string; st_Description : string; st_DefaultBranch : string }.

Definition declared_settings (repo : Repository) : settings := let s := r_Spec repo in {|
  st_Name := r_Name s; st_Visibility := r_Visibility s; st_Archived := WithDefault (r_Archived s) false;
  st_HasIssues := WithDefault (r_HasIssues s) true; st_HasProjects := WithDefault (r_HasProjects s) false;
  st_HasWiki := WithDefault (r_HasWiki s) false; st_HasDownloads := WithDefault (r_HasDownloads s) false;
  st_IsTemplate := WithDefault (r_IsTemplate s) false; st_Squash := getMergeStrategy s "squash";
  st_Rebase := getMergeStrategy s "rebase"; st_Merge := getMergeStrategy s "merge";
  st_DeleteBranch := WithDefault (r_DeleteBranchOnMerge s) true; st_Title := r_MergeCommitTitle s;
  st_Message := r_MergeCommitMessage s; st_Homepage := ab_Website (r_About s); st_Description := ab_Description (r_About s);
  st_DefaultBranch := r_DefaultBranch s |}.

(** [g] has the settings [s]; archiving and the description may be missing. *)
Definition has_settings (g : gh_Repository) (s : settings) : Prop :=
  gr_Name g = Some (st_Name s) ∧ GetArchived g = st_Archived s ∧ gr_Visibility g = Some (st_Visibility s) ∧
  gr_HasIssues g = Some (st_HasIssues s) ∧ gr_HasProjects g = Some (st_HasProjects s) ∧ gr_HasWiki g = Some (st_HasWiki s) ∧
  gr_HasDownloads g = Some (st_HasDownloads s) ∧ gr_IsTemplate g = Some (st_IsTemplate s) ∧
  gr_AllowSquashMerge g = Some (st_Squash s) ∧ gr_AllowRebaseMerge g = Some (st_Rebase s) ∧
  gr_AllowMergeCommit g = Some (st_Merge s) ∧ gr_DeleteBranchOnMerge g = Some (st_DeleteBranch s) ∧
  gr_MergeCommitTitle g = Some (st_Title s) ∧ gr_MergeCommitMessage g = Some (st_Message s) ∧
  gr_Homepage g = Some (st_Homepage s) ∧ WithDefault (gr_Description g) "" = st_Description s ∧
  gr_DefaultBranch g = Some (st_DefaultBranch s).

Lemma field_differs_false {A} `{EqDecision A} (gh : option A) want : field_differs gh want = false ↔ gh = Some want.
Proof. unfold field_differs. destruct gh as [v|]; [|done]. rewrite bool_decide_eq_false. split; [intros H; f_equal; by apply dec_stable|naive_solver]. Qed.

Lemma if_true_false (b c : bool) : (if b then true else c) = false ↔ b = false ∧ c = false.
Proof. destruct b; naive_solver. Qed.

Lemma archived_false (g : gh_Repository) (a : bool) :
  match gr_Archived g with None => a | Some b => negb (Bool.eqb a b) end = false ↔ GetArchived g = a.
Proof. unfold GetArchived. destruct (gr_Archived g) as [[]|], a; naive_solver. Qed.

Lemma RepoDiffers_false repo g : RepoDiffers repo g = false ↔ has_settings g (declared_settings repo).
Proof.
  unfold RepoDiffers, has_settings. rewrite !if_true_false, !field_differs_false, archived_false, bool_decide_eq_false.
  cbn [st_Name st_Visibility st_Archived st_HasIssues st_HasProjects st_HasWiki st_HasDownloads st_IsTemplate st_Squash st_Rebase
    st_Merge st_DeleteBranch st_Title st_Message st_Homepage st_Description st_DefaultBranch declared_settings].
  assert (∀ x y : string, ¬ x ≠ y ↔ x = y) as ->; [|tauto]. intros x y. split; [apply dec_stable|auto].
Qed.

(** The optional settings are present, as the defaults of the resource definition make sure. *)
Definition complete (repo : Repository) : Prop := let s := r_Spec repo in
  is_Some (r_Archived s) ∧ is_Some (r_HasIssues s) ∧ is_Some (r_HasProjects s) ∧ is_Some (r_HasWiki s) ∧
  is_Some (r_HasDownloads s) ∧ is_Some (r_IsTemplate s) ∧ is_Some (r_DeleteBranchOnMerge s).

Lemma edit_has_settings repo old :
  complete repo → has_settings (apply_edit (RepoToGithubRepo repo) old) (declared_settings repo).
Proof.
  intros ([a Ha] & [b Hb] & [c Hc] & [d Hd] & [e He] & [f Hf] & [g Hg]). unfold has_settings, GetArchived, declared_settings.
  cbn. rewrite Ha, Hb, Hc, Hd, He, Hf, Hg. done.
Qed.

(** The comparison finds no difference exactly if every managed setting on GitHub has its declared value
    (an absent description counts as empty), and after GitHub applied the update built from a complete spec
    there is none, whatever the repository looked like before: updates are not repeated. *)
Theorem RepoDiffers_converges repo g :
  (RepoDiffers repo g = false ↔ has_settings g (declared_settings repo)) ∧
  (complete repo → RepoDiffers repo (apply_edit (RepoToGithubRepo repo) g) = false).
Proof. split; [apply RepoDiffers_false|]. intros H. by apply RepoDiffers_false, edit_has_settings. Qed.

(** ** Reconciling the repository *)
Section Store.
Context {W : Type} {A : RepoApi W} (r : GitHubRepoReconciler).
Context (repos : W → gmap Z gh_Repository) (name_of : W → string) (id_of : W → option Z) (clock : W → Z).
Implicit Types (w : W) (g : gh_Repository).
Notation repo := (RepoResource r).

(** Only the repository [id] changed. *)
Definition only_changed (id : Z) w w' : Prop := ∀ j, j ≠ id → repos w' !! j = repos w !! j.

(** The repositories GitHub keeps; failed calls change nothing. *)
Class RepoLaws : Prop := {
  repo_ids w id g : repos w !! id = Some g → gr_ID g = Some id ∧ is_Some (gr_Name g);
  repo_names w i j g h : repos w !! i = Some g → repos w !! j = Some h → gr_Name g = gr_Name h → i = j;
  name_read w : run RepoName w = (name_of w, w);
  id_read w : run StoredID w = (id_of w, w);
  now_read w : run Now w = (clock w, w);
  fields_set n id w : let '(_, w') := run (SetRepoFields n id) w in name_of w' = n ∧ id_of w' = Some id ∧ repos w' = repos w;
  get_by_id w id : match run (GetRepositoryByID id) w with
    | (inl g, w') => w' = w ∧ repos w !! id = Some g | (inr _, w') => w' = w end;
  get_by_name w n : match run (GetRepository n) w with
    | (inl g, w') => w' = w ∧ gr_Name g = Some n ∧ ∃ id, repos w !! id = Some g
    | (inr e, w') => w' = w ∧ (isNotFoundResponse e = true → ∀ id g, repos w !! id = Some g → gr_Name g ≠ Some n) end;
  repo_created w req : match run (CreateRepository req) w with
    | (inl g, w') => gr_Name g = Some (cr_Name req) ∧ id_of w' = id_of w ∧
        ∃ id, repos w !! id = None ∧ repos w' = <[id := g]> (repos w)
    | (inr _, w') => repos w' = repos w ∧ id_of w' = id_of w end;
  repo_edited w n upd : match run (EditRepository n upd) w with
    | (inl g, w') => ∃ id old, repos w !! id = Some old ∧ gr_Name old = Some n ∧ g = apply_edit upd old ∧
        repos w' = <[id := g]> (repos w)
    | (inr _, w') => repos w' = repos w end;
  repo_deleted w n : match run (DeleteRepository n) w with
    | (None, w') => ∀ id, repos w' !! id = match repos w !! id with
        | Some g => if decide (gr_Name g = Some n) then None else Some g | None => None end
    | (Some e, w') => repos w' = repos w ∧ (isNotFoundResponse e = true → ∀ id g, repos w !! id = Some g → gr_Name g ≠ Some n) end;
  branch_read w n b : let '(_, w') := run (GetBranch n b) w in w' = w;
  triggered w o : let '(_, w') := run (ApplyReconcileTrigger o) w in repos w' = repos w ∧ id_of w' = id_of w
}.
Context {L : RepoLaws}.

(** The repository under reconciliation is the recorded one. *)
Definition recorded_as w id g : Prop := repos w !! id = Some g ∧ id_of w = Some id ∧ gr_Name g = Some (name_of w).

Lemma recorded_spec w id g :
  repos w !! id = Some g → ∃ w', run (recorded g) w = (inl g, w') ∧ repos w' = repos w ∧ recorded_as w' id g.
Proof.
  intros Hg. destruct (repo_ids w id g Hg) as [Hid [n Hn]]. unfold recorded, updateRecFieldsFromGitHub. rewrite Hid, Hn.
  rewrite run_bind, run_bind. pose proof (fields_set n id w) as H. destruct (run (SetRepoFields n id) w) as [u w'].
  destruct H as (Hname & Hid' & Hr). cbn [run]. exists w'. split_and!; [done|done|]. split_and!; [by rewrite Hr|done|by rewrite Hname].
Qed.

(** No existing repository changed; at most one was created. *)
Definition created_or_same w w' : Prop :=
  repos w' = repos w ∨ ∃ id g, repos w !! id = None ∧ repos w' = <[id := g]> (repos w).
Definition got_ok w (out : res gh_Repository) w' : Prop :=
  created_or_same w w' ∧ ∀ g, out = inl g → ∃ id, recorded_as w' id g.

Lemma recorded_ok w w1 id g : created_or_same w w1 → repos w1 !! id = Some g →
  let '(out, w') := run (recorded g) w1 in got_ok w out w'.
Proof.
  intros Hc Hg. destruct (recorded_spec w1 id g Hg) as (w' & -> & Hr & Has). unfold got_ok, created_or_same in *.
  rewrite Hr. split; [done|]. intros g' [= <-]. by exists id.
Qed.

Lemma create_repo_ok w : let '(out, w') := run (create_repo r) w in got_ok w out w'.
Proof.
  unfold create_repo. rewrite run_bind. set (req := with_AutoInit _). pose proof (repo_created w req) as Hc.
  destruct (run (CreateRepository req) w) as [[g|e] w1]; step_run.
  - destruct Hc as (_ & _ & id & Hid & Hr). rewrite run_bind. unfold triggerOrganizationReconciliation. case_bool_decide; cbn [run].
    + apply (recorded_ok w w1 id); [right; eauto|]. by rewrite Hr, lookup_insert_eq.
    + pose proof (triggered w1 (r_OrganizationRef (r_Spec repo))) as Ht.
      destruct (run (ApplyReconcileTrigger _) w1) as [u w2]. destruct Ht as [Ht _].
      apply (recorded_ok w w2 id); [right; exists id, g; by rewrite Ht|]. by rewrite Ht, Hr, lookup_insert_eq.
  - destruct Hc as [Hr _]. split; [by left|done].
Qed.

Lemma getRepo_by_name_ok w : let '(out, w') := run (getRepo_by_name r) w in got_ok w out w'.
Proof.
  unfold getRepo_by_name. rewrite run_bind, name_read. step_run. rewrite run_bind. pose proof (get_by_name w (name_of w)) as Hg.
  destruct (run (GetRepository _) w) as [[g|e] w1]; step_run.
  - destruct Hg as (-> & _ & id & Hid). apply (recorded_ok w w id); [by left|done].
  - destruct Hg as [-> _]. destruct (isNotFoundResponse e); [apply create_repo_ok|]. split; [by left|done].
Qed.

(** [getRepo] changes no existing repository; it returns a stored one, or one it created. *)
Lemma getRepo_ok w : let '(out, w') := run (getRepo r) w in got_ok w out w'.
Proof.
  unfold getRepo. rewrite run_bind, id_read. step_run. rewrite run_bind. destruct (id_of w) as [id|]; cbn [run].
  - rewrite run_bind. pose proof (get_by_id w id) as Hg. destruct (run (GetRepositoryByID id) w) as [[g|e] w1]; cbn [run].
    + destruct Hg as [-> Hid]. apply (recorded_ok w w id); [by left|done].
    + subst w1. apply getRepo_by_name_ok.
  - apply getRepo_by_name_ok.
Qed.

(** An update hits the recorded repository, and nothing else. *)
Lemma updateRepo_spec w id g :
  recorded_as w id g →
  match run (updateRepo r) w with
  | (inl g', w') => g' = apply_edit (RepoToGithubRepo repo) g ∧ recorded_as w' id g' ∧ only_changed id w w'
  | (inr _, w') => only_changed id w w'
  end.
Proof.
  intros (Hg & Hid & Hn). unfold updateRepo. rewrite run_bind, name_read. step_run. rewrite run_bind.
  pose proof (repo_edited w (name_of w) (RepoToGithubRepo repo)) as He.
  destruct (run (EditRepository _ _) w) as [[g'|e] w1]; step_run; [|unfold only_changed; cbn [run]; by rewrite He].
  destruct He as (id' & old & Hold & Hname & -> & Hr).
  assert (id' = id) as -> by (apply (repo_names w id' id old g); congruence). assert (old = g) as -> by congruence.
  destruct (recorded_spec w1 id (apply_edit (RepoToGithubRepo repo) g)) as (w2 & -> & Hr2 & Has).
  { by rewrite Hr, lookup_insert_eq. }
  split_and!; [done|done|]. intros j Hj. by rewrite Hr2, Hr, lookup_insert_ne by done.
Qed.

Lemma ensureDefaultBranchExists_reads g w : ∃ e, run (ensureDefaultBranchExists r g) w = (e, w).
Proof.
  unfold ensureDefaultBranchExists. case_bool_decide; cbn [orb]; [by eexists|]. case_bool_decide; [by eexists|].
  rewrite run_bind, name_read. step_run. rewrite run_bind. set (b := r_DefaultBranch _).
  pose proof (branch_read w (name_of w) b) as Hb. destruct (run (GetBranch _ b) w) as [[e|] w1]; subst w1; [|by eexists].
  destruct (as_type _ e) as [resp|]; [|by eexists]. destruct (_ || _); by eexists.
Qed.

Lemma update_differing_spec w id g :
  recorded_as w id g → complete repo →
  let '(e, w') := run (update_differing r g) w in
  only_changed id w w' ∧ (e = None → ∃ g', recorded_as w' id g' ∧ has_settings g' (declared_settings repo)).
Proof.
  intros Has Hcomp. unfold update_differing. rewrite run_bind. destruct (ensureDefaultBranchExists_reads g w) as [e ->].
  destruct e as [e|]; [by split|]. rewrite run_bind. pose proof (updateRepo_spec w id g Has) as Hu.
  destruct (run (updateRepo r) w) as [[g'|e] w1].
  - destruct Hu as (-> & Has' & Hch). destruct (GetArchived _); cbn [run]; [by split|]. split; [done|]. intros _.
    eexists. split; [done|]. by apply edit_has_settings.
  - rewrite run_bind, now_read. step_run. destruct (_ && _); by split.
Qed.

(** C15: a run that ends without error or stop leaves the repository on GitHub, recorded by its id, with every
    declared setting; whatever the outcome is, no other repository that existed before is modified or deleted. *)
Theorem reconcileRepository_synced w : complete repo →
  let '(e, w') := run (reconcileRepository r) w in
  (e = None → ∃ id g, id_of w' = Some id ∧ repos w' !! id = Some g ∧ has_settings g (declared_settings repo)) ∧
  (∃ id, ∀ j g, j ≠ id → repos w !! j = Some g → repos w' !! j = Some g).
Proof.
  intros Hcomp. unfold reconcileRepository. rewrite run_bind. pose proof (getRepo_ok w) as Hget.
  destruct (run (getRepo r) w) as [[g|e] w1]; destruct Hget as [Hc Hg].
  - destruct (Hg g eq_refl) as [id Has].
    assert (∀ j h, repos w !! j = Some h → repos w1 !! j = Some h) as Hkeep.
    { intros j h Hj. destruct Hc as [->|(i & g' & Hi & ->)]; [done|]. rewrite lookup_insert_ne; [done|]. congruence. }
    destruct (RepoStaysArchived repo g); cbn [run]; [split; [done|]; exists id; auto|].
    destruct (RepoDiffers repo g) eqn:Hd; cbn [negb].
    + pose proof (update_differing_spec w1 id g Has Hcomp) as Hu.
      destruct (run (update_differing r g) w1) as [e w2]. destruct Hu as [Hch Hok]. split.
      * intros He. destruct (Hok He) as (g' & (? & ? & _) & ?). by exists id, g'.
      * exists id. intros j h Hj Hh. rewrite Hch by done. by apply Hkeep.
    + split; [|exists id; auto]. intros _. destruct Has as (? & ? & _). exists id, g. split_and!; [done|done|]. by apply RepoDiffers_false.
  - cbn [run]. split; [done|]. exists 0. intros j h _ Hj. destruct Hc as [->|(i & g' & Hi & ->)]; [done|].
    rewrite lookup_insert_ne; [done|]. congruence.
Qed.

(** What a run does with the repository it found: an archived repository that shall stay archived stops the
    run without a change; one without differences is left alone; if the default branch has to change to one that
    does not exist, no update is sent and the error waits for a change on GitHub; and a failed update of a
    repository younger than a minute is reported as retryable. *)
Theorem reconcileRepository_branches w g w1 :
  run (getRepo r) w = (inl g, w1) →
  let desired := r_DefaultBranch (r_Spec repo) in
  (RepoStaysArchived repo g = true → run (reconcileRepository r) w = (Some (EStop ArchivedMessage), w1)) ∧
  (RepoStaysArchived repo g = false → RepoDiffers repo g = false → run (reconcileRepository r) w = (None, w1)) ∧
  (∀ resp, RepoStaysArchived repo g = false → RepoDiffers repo g = true → desired ≠ "" →
     gr_DefaultBranch g ≠ Some desired → er_status resp = Some 404 ∨ er_status resp = Some 301 →
     run (GetBranch (name_of w1) desired) w1 = (Some (EGitHub resp), w1) →
     let err := EDefaultBranchNotFound (Owner r) (name_of w1) desired in
     run (reconcileRepository r) w = (Some err, w1) ∧ RequiresUserAction err = true ∧ AwaitsGitHubChange err = true) ∧
  (∀ err w2, RepoStaysArchived repo g = false → RepoDiffers repo g = true →
     gr_DefaultBranch g = Some desired → run (updateRepo r) w1 = (inr err, w2) →
     gr_CreatedAt g ≠ zero_time → 0 ≤ clock w2 - gr_CreatedAt g < Minute →
     run (reconcileRepository r) w = (Some (ENewRepositoryUpdate err), w2) ∧
     RequiresUserAction (ENewRepositoryUpdate err) = false).
Proof.
  intros Hget desired. unfold reconcileRepository. rewrite run_bind, Hget. step_run. split_and!.
  - by intros ->.
  - by intros -> ->.
  - intros resp -> -> Hne Hdiff Hst Hbr. cbn [negb]. split_and!; [|done|done]. unfold update_differing, ensureDefaultBranchExists.
    fold desired. rewrite run_bind, bool_decide_eq_false_2 by done. cbn [orb].
    assert (WithDefault (gr_DefaultBranch g) "" ≠ desired) as Hd.
    { destruct (gr_DefaultBranch g); simpl; [congruence|]. by intros <-. }
    rewrite bool_decide_eq_false_2 by done. rewrite run_bind, name_read. step_run. rewrite run_bind, Hbr. step_run.
    cbn [as_type]. assert (bool_decide (er_status resp = Some 404) || bool_decide (er_status resp = Some 301) = true) as ->.
    { destruct Hst as [-> | ->]; done. }
    done.
  - intros err w2 -> -> Hbr Hup Hz Hage. cbn [negb]. split; [|done]. unfold update_differing, ensureDefaultBranchExists.
    fold desired. rewrite run_bind, Hbr. cbn [WithDefault]. rewrite (bool_decide_eq_true_2 (desired = desired)) by done.
    rewrite orb_true_r. cbn [run]. rewrite run_bind, Hup. step_run. rewrite run_bind, now_read. step_run.
    rewrite (bool_decide_eq_false_2 (gr_CreatedAt g = zero_time)) by done. rewrite bool_decide_eq_true_2; [done|].
    unfold newRepositoryGracePeriod, sat64, Minute, Second, min_int64, max_int64 in *. lia.
Qed.

End Store.

(** If the lookup by the recorded id fails for any reason, say a server error, and the name is unknown because it
    was changed in the spec, a second repository is created although the recorded one exists. *)
Lemma failed_lookup_by_id_creates {W} (A : RepoApi W) r w id name e resp :
  run StoredID w = (Some id, w) → run RepoName w = (name, w) → run (GetRepositoryByID id) w = (inr e, w) →
  run (GetRepository name) w = (inr (EGitHub resp), w) → er_status resp = Some 404 →
  run (getRepo r) w = run (create_repo r) w.
Proof.
  intros Hid Hname Hby Hget Hst. unfold getRepo. rewrite run_bind, Hid. step_run. rewrite run_bind, run_bind, Hby. cbn [run].
  unfold getRepo_by_name. rewrite run_bind, Hname. step_run. rewrite run_bind, Hget. step_run.
  assert (isNotFoundResponse (EGitHub resp) = true) as ->; [|done]. unfold isNotFoundResponse. cbn [as_type]. by rewrite Hst.
Qed.

(** ** A concrete GitHub with at most one repository, for the witnesses *)
Module ToyRepository.
Record world := { tw_repo : option gh_Repository; tw_name : string; tw_id : option Z }.
Definition empty_repo : gh_Repository := {|
  gr_ID := None; gr_Name := None; gr_CreatedAt := 0; gr_Visibility := None; gr_Archived := None;
  gr_HasIssues := None; gr_HasProjects := None; gr_HasWiki := None; gr_HasDownloads := None; gr_IsTemplate := None;
  gr_AllowSquashMerge := None; gr_AllowRebaseMerge := None; gr_AllowMergeCommit := None; gr_DeleteBranchOnMerge := None;
  gr_MergeCommitTitle := None; gr_MergeCommitMessage := None; gr_Homepage := None; gr_Description := None;
  gr_DefaultBranch := Some "main" |}.
(** Repositories have the id 1 and a name. *)
Definition view (g : gh_Repository) : gh_Repository := {|
  gr_ID := Some 1; gr_Name := WithDefaultAsPtr (gr_Name g) "unnamed"; gr_CreatedAt := gr_CreatedAt g; gr_Visibility := gr_Visibility g;
  gr_Archived := gr_Archived g; gr_HasIssues := gr_HasIssues g; gr_HasProjects := gr_HasProjects g; gr_HasWiki := gr_HasWiki g;
  gr_HasDownloads := gr_HasDownloads g; gr_IsTemplate := gr_IsTemplate g; gr_AllowSquashMerge := gr_AllowSquashMerge g;
  gr_AllowRebaseMerge := gr_AllowRebaseMerge g; gr_AllowMergeCommit := gr_AllowMergeCommit g;
  gr_DeleteBranchOnMerge := gr_DeleteBranchOnMerge g; gr_MergeCommitTitle := gr_MergeCommitTitle g;
  gr_MergeCommitMessage := gr_MergeCommitMessage g; gr_Homepage := gr_Homepage g; gr_Description := gr_Description g;
  gr_DefaultBranch := gr_DefaultBranch g |}.
Definition named (n : string) : gh_Repository := view (apply_edit (RepoToGithubRepo (Samples.repo n [] [])) empty_repo).

Definition repos (w : world) : gmap Z gh_Repository := match tw_repo w with Some g => {[ 1 := view g ]} | None => ∅ end.
Definition not_found : gerror := EGitHub {| er_status := Some 404; er_message := "Not Found"; er_errors := [] |}.
Definition with_repo (g : option gh_Repository) (w : world) : world := {| tw_repo := g; tw_name := tw_name w; tw_id := tw_id w |}.
Definition find_name (n : string) (w : world) : option gh_Repository :=
  match tw_repo w with
  | Some g => if bool_decide (gr_Name (view g) = Some n) then Some (view g) else None
  | None => None
  end.

#[export] Instance api : RepoApi world := {|
  RepoName := gets tw_name;
  StoredID := gets tw_id;
  SetRepoFields n id := modify (λ w, {| tw_repo := tw_repo w; tw_name := n; tw_id := Some id |});
  Now := gets (λ _, 10 * Second);
  GetRepositoryByID id := gets (λ w, match repos w !! id with Some g => inl g | None => inr not_found end);
  GetRepository n := gets (λ w, match find_name n w with Some g => inl g | None => inr not_found end);
  CreateRepository req := call (λ w, match tw_repo w with
    | Some _ => (inr (EPlain "exists"), w)
    | None => (inl (named (cr_Name req)), with_repo (Some (named (cr_Name req))) w) end);
  EditRepository n upd := call (λ w, match find_name n w with
    | Some g => (inl (apply_edit upd g), with_repo (Some (apply_edit upd g)) w) | None => (inr not_found, w) end);
  DeleteRepository n := call (λ w, match find_name n w with Some _ => (None, with_repo None w) | None => (Some not_found, w) end);
  GetBranch _ b := gets (λ _, if bool_decide (b = "main") then None else Some not_found);
  ApplyReconcileTrigger _ := Ret None |}.

Lemma repos_lookup w id g : repos w !! id = Some g ↔ id = 1 ∧ ∃ h, tw_repo w = Some h ∧ g = view h.
Proof.
  unfold repos. destruct (tw_repo w) as [h|]; [rewrite lookup_singleton_Some|rewrite lookup_empty]; naive_solver.
Qed.
Lemma find_name_spec n w : match find_name n w with
  | Some g => gr_Name g = Some n ∧ repos w !! 1 = Some g
  | None => ∀ id g, repos w !! id = Some g → gr_Name g ≠ Some n end.
Proof.
  unfold find_name. destruct (tw_repo w) as [h|] eqn:Hw; [case_bool_decide as Hn|].
  - split; [done|]. apply repos_lookup. split; [done|]. by exists h.
  - intros id g (_ & h' & Hh & ->)%repos_lookup. congruence.
  - intros id g (_ & h' & Hh & ->)%repos_lookup. congruence.
Qed.
Lemma view_view g : gr_ID g = Some 1 → is_Some (gr_Name g) → view g = g.
Proof. intros Hid [n Hn]. destruct g; simpl in *. unfold view; simpl. by rewrite Hid, Hn. Qed.
Lemma repos_with g w : gr_ID g = Some 1 → is_Some (gr_Name g) → repos (with_repo (Some g) w) = {[ 1 := g ]}.
Proof. intros. unfold repos; simpl. by rewrite view_view. Qed.
Lemma edited_view upd g : gr_ID g = Some 1 → is_Some (gr_Name g) →
  gr_ID (apply_edit upd g) = Some 1 ∧ is_Some (gr_Name (apply_edit upd g)).
Proof. intros Hid [n Hn]. simpl. rewrite Hn. split; [done|]. destruct (gr_Name upd); by eexists. Qed.
Lemma viewed w id g : repos w !! id = Some g → gr_ID g = Some 1 ∧ is_Some (gr_Name g).
Proof. intros (_ & h & _ & ->)%repos_lookup. simpl. rewrite WithDefaultAsPtr_WithDefault. eauto. Qed.
Lemma repos_insert w g g' : repos w !! 1 = Some g → {[ 1 := g' ]} = <[1 := g']> (repos w).
Proof. intros (_ & h & Hh & ->)%repos_lookup. unfold repos. rewrite Hh. by rewrite insert_singleton_eq. Qed.

#[export] Instance laws : RepoLaws repos tw_name tw_id (λ _, 10 * Second).
Proof.
  split; try done.
  - intros w id g Hg. pose proof (viewed w id g Hg) as [? ?]. apply repos_lookup in Hg as [-> _]. done.
  - intros w i j g h (-> & _)%repos_lookup (-> & _)%repos_lookup. done.
  - intros w id. cbn [GetRepositoryByID api]. rewrite run_gets. by destruct (repos w !! id).
  - intros w n. cbn [GetRepository api]. rewrite run_gets. pose proof (find_name_spec n w) as H.
    destruct (find_name n w) as [g|]; [|done]. destruct H. split_and!; [done|done|]. by exists 1.
  - intros w req. cbn [CreateRepository api]. rewrite run_call. destruct (tw_repo w) as [g|] eqn:Hw; [done|].
    split_and!; [done|done|]. exists 1. unfold repos at 1 3. rewrite Hw. split; [done|]. by rewrite repos_with by done.
  - intros w n upd. cbn [EditRepository api]. rewrite run_call. pose proof (find_name_spec n w) as H.
    destruct (find_name n w) as [g|]; [|done]. destruct H as [Hn Hg]. destruct (viewed w 1 g Hg) as [Hid Hname].
    destruct (edited_view upd g Hid Hname) as [Hid' Hname']. exists 1, g. split_and!; [done|done|done|].
    rewrite repos_with by done. by apply (repos_insert w g).
  - intros w n. cbn [DeleteRepository api]. rewrite run_call. pose proof (find_name_spec n w) as H.
    destruct (find_name n w) as [g|]; [|by split]. destruct H as [Hn Hg]. intros id.
    destruct (repos w !! id) as [h|] eqn:Hh; [|done]. assert (h = g) as ->.
    { pose proof Hh as Hh'. apply repos_lookup in Hh' as [-> _]. congruence. }
    rewrite decide_True; done.
Qed.
End ToyRepository.
Import ToyRepository.

(** A complete spec, with a default branch. *)
Definition declared (branch : string) : Repository := {|
  r_Meta := no_meta; r_Status := {| rst_Webhooks := ∅; rst_Conditions := []; rst_ID := None; rst_ObservedSubResourceGenerations := None |};
  r_Spec := {|
    r_Name := "r"; r_CustomProperties := []; r_DefaultBranch := branch; r_Visibility := "private"; r_HasIssues := Some true;
    r_HasProjects := Some false; r_HasWiki := Some false; r_HasDownloads := Some false; r_IsTemplate := Some false;
    r_MergeCommitTitle := "PR_TITLE"; r_MergeCommitMessage := "BLANK"; r_AllowedMergeStrategies := ["squash"];
    r_DeleteBranchOnMerge := Some true; r_About := {| ab_Description := "d"; ab_Website := ""; ab_Topics := [] |};
    r_Archived := Some false; r_ActionsEnabled := None; r_AccessLevelForExternalWorkflows := None;
    r_AvailableActionsRunnerGroups := []; r_OrganizationRef := "org"; r_RulesetPresetList := []; r_Rulesets := [];
    r_WebhookPresetList := []; r_Webhooks := []; r_WebhookIgnorePresetsList := []; r_WebhookIgnores := [];
    r_AutolinksPresetList := []; r_Autolinks := []; r_DeployKeyList := []; r_AttachedCodeSecurityConfiguration := None |} |}.
Definition reconciler (branch mode : string) : GitHubRepoReconciler :=
  {| Owner := "acme"; RepoResource := declared branch; FinalizeMode := mode |}.
Lemma declared_complete branch : complete (declared branch).
Proof. repeat split; by eexists. Qed.

Definition fresh_org : world := {| tw_repo := None; tw_name := "r"; tw_id := None |}.
Definition existing : world := {| tw_repo := Some (named "r"); tw_name := "r"; tw_id := Some 1 |}.

Lemma RepoDiffers_converges_witness :
  RepoDiffers (declared "main") empty_repo = true ∧
  RepoDiffers (declared "main") (apply_edit (RepoToGithubRepo (declared "main")) empty_repo) = false.
Proof. split; [done|]. apply (RepoDiffers_converges (declared "main") empty_repo), declared_complete. Defined.

Lemma reconcileRepository_synced_witness :
  let '(e, w') := run (reconcileRepository (reconciler "main" "")) fresh_org in
  e = None ∧ ∃ id g, tw_id w' = Some id ∧ repos w' !! id = Some g ∧ has_settings g (declared_settings (declared "main")).
Proof.
  pose proof (reconcileRepository_synced (reconciler "main" "") repos tw_name tw_id (λ _, 10 * Second) fresh_org (declared_complete "main")) as H.
  assert ((run (reconcileRepository (reconciler "main" "")) fresh_org).1 = None) as He by (vm_compute; reflexivity).
  destruct (run (reconcileRepository (reconciler "main" "")) fresh_org) as [e w']. simpl in He. destruct H as [H _]. auto.
Defined.

Lemma reconcileRepository_branches_witness :
  run (reconcileRepository (reconciler "dev" "")) existing = (Some (EDefaultBranchNotFound "acme" "r" "dev"), existing).
Proof.
  apply (reconcileRepository_branches (reconciler "dev" "") repos tw_name tw_id (λ _, 10 * Second) existing (named "r") existing)
    with (resp := {| er_status := Some 404; er_message := "Not Found"; er_errors := [] |});
    [vm_compute; reflexivity|vm_compute; reflexivity|vm_compute; reflexivity|discriminate|vm_compute; discriminate|by left|
     vm_compute; reflexivity].
Defined.

Definition after_deletion : world := (run (ReconcileRepoDeletion (reconciler "main" "delete")) existing).2.

