(* ===== verification/RulesetRec.v ===== *)
(** * The rulesets of repositories and organizations

    internal/reconciler/reporec/rec_rulesets.go and internal/reconciler/orgrec/rec_rulesets.go: the guards, the
    collection of the desired rulesets and the synchronisation (RulesetSync) with the targets and options of the two
    levels.  The resolver of names is the interface [RepoResourceNameResolver] of the source (see IdResolver). *)
From S2P Require Import Prelude GoErrors Conditions ApiTypes RulesetMapper RulesetResolve RulesetSync.

(** The GitHub calls for the rulesets of one repository or organization ([includesParents] is false). *)
Record RulesetClient W := {
  rcl_GetAll : prog W (res (list (option RepositoryRuleset)));
  rcl_Get : Z → prog W (res RepositoryRuleset);
  rcl_Create : RepositoryRuleset → prog W (res RepositoryRuleset);
  rcl_Update : Z → RepositoryRuleset → prog W (res RepositoryRuleset);
  rcl_Delete : Z → prog W (option gerror)
}.
Arguments rcl_GetAll {W} _.
Arguments rcl_Get {W} _ _.
Arguments rcl_Create {W} _ _.
Arguments rcl_Update {W} _ _ _.
Arguments rcl_Delete {W} _ _.

(** The clients: GitHub for a repository and an organization, the Kubernetes API server, the name resolver. *)
Class RulesetsApi (W : Type) := {
  RepositoryRulesets : string → string → RulesetClient W;
  OrganizationRulesets : string → RulesetClient W;
  FetchOrganization : string → string → prog W (res Organization);
  FetchRulesetPreset : string → string → W → res RulesetPreset * W;
  IsNotFound : gerror → bool; (* apierrors.IsNotFound *)
  ResolveRuleset : RulesetSpec → prog W (res RulesetSpec)
}.

Section Reconcile.
Context {W : Type} {A : RulesetsApi W} (o : MapOrder).

(** [createRuleset], [updateRuleset] and [deleteRuleset], the same for both levels but for the word in the error. *)
Definition createRuleset (scope : string) (C : RulesetClient W) (gh : RepositoryRuleset) (desired : Desired) : prog W (option gerror) :=
  let! created := rcl_Create C gh in
  Ret (match created with
    | inr err => Some (EWrap ("failed to create " +:+ scope +:+ " ruleset " +:+ d_Name desired +:+ " (" +:+ d_Source desired +:+ ")") err)
    | inl _ => None
    end).
Definition updateRuleset (scope : string) (C : RulesetClient W) (id : Z) (gh : RepositoryRuleset) (desired : Desired)
    : prog W (option gerror) :=
  let! updated := rcl_Update C id gh in
  Ret (match updated with
    | inr err => Some (EWrap ("failed to update " +:+ scope +:+ " ruleset " +:+ d_Name desired +:+ " (" +:+ d_Source desired +:+ ")") err)
    | inl _ => None
    end).
Definition deleteRuleset (scope : string) (C : RulesetClient W) (id : Z) (rulesetName : string) : prog W (option gerror) :=
  let! err := rcl_Delete C id in
  Ret (EWrap ("failed to delete " +:+ scope +:+ " ruleset " +:+ rulesetName) <$> err).

Definition ruleset_target (scope : string) (C : RulesetClient W) : Target W := {|
  tg_List := rcl_GetAll C; tg_Get := rcl_Get C; tg_Create := createRuleset scope C; tg_Update := updateRuleset scope C;
  tg_Delete := deleteRuleset scope C |}.

(** ** reporec/rec_rulesets.go *)
Definition skip_repository_target (d : Desired) : bool := bool_decide (rs_Target (d_Spec d) = "repository").

Definition repo_options (enableReviewers : bool) : SyncOptions W := {|
  Resolver := ResolveRuleset; EnableRequiredReviewersRules := enableReviewers;
  Skip := Some skip_repository_target; Adjust := None |}.

Definition reconcileRuleSets (enableReviewers : bool) (owner name : string) (repo : Repository) : prog W (option gerror) :=
  let! org := FetchOrganization (Namespace (r_Meta repo)) (r_OrganizationRef (r_Spec repo)) in
  match org with
  | inr err => Ret (Some err)
  | inl org =>
    if bool_decide (GetPlan org = PlanFree) && negb (bool_decide (r_Visibility (r_Spec repo) = VisibilityPublic)) then Ret None
    else
      let! desired := Collect FetchRulesetPreset IsNotFound (Namespace (r_Meta repo)) (r_RulesetPresetList (r_Spec repo))
        (r_Rulesets (r_Spec repo)) in
      match desired with
      | inr err => Ret (Some err)
      | inl desired => Sync o (ruleset_target "repository" (RepositoryRulesets owner name)) (repo_options enableReviewers) desired
      end
  end.

(** ** orgrec/rec_rulesets.go *)
Definition all_repositories : RepositoryNameCondition :=
  {| nc_Include := ["~ALL"]; nc_Exclude := []; nc_Protected := Some false |}.

Definition addDefaultOrgRepositoryConditions (conditions : option RulesetConditions) : option RulesetConditions :=
  match conditions with
  | None => None
  | Some c =>
    match rc_RepositoryName c, rc_RepositoryProperty c with
    | None, None => Some {| rc_RefName := rc_RefName c; rc_RepositoryName := Some all_repositories; rc_RepositoryProperty := None |}
    | _, _ => Some c
    end
  end.
Definition add_default_conditions (s : RulesetSpec) : RulesetSpec := {|
  rs_Name := rs_Name s; rs_Extends := rs_Extends s; rs_Target := rs_Target s;
  rs_Conditions := addDefaultOrgRepositoryConditions (rs_Conditions s); rs_Enforcement := rs_Enforcement s;
  rs_BypassActors := rs_BypassActors s; rs_Rules := rs_Rules s |}.

Definition org_options (enableReviewers : bool) : SyncOptions W := {|
  Resolver := ResolveRuleset; EnableRequiredReviewersRules := enableReviewers; Skip := None;
  Adjust := Some add_default_conditions |}.

Definition reconcileRulesets (enableReviewers : bool) (login : string) (org : Organization) : prog W (option gerror) :=
  if negb (HasEnterpriseFeatures org) then Ret None
  else
    let! desired := Collect FetchRulesetPreset IsNotFound (Namespace (o_Meta org)) (o_RulesetPresetList (o_Spec org))
      (o_Rulesets (o_Spec org)) in
    match desired with
    | inr err => Ret (Some err)
    | inl desired => Sync o (ruleset_target "organization" (OrganizationRulesets login)) (org_options enableReviewers) desired
    end.
End Reconcile.

(** ** Collecting only reads *)
Section CollectKeeps.
Context {W V : Type} (f : W → V) (Get : string → string → W → res RulesetPreset * W) (isNotFound : gerror → bool).
Hypothesis reads : ∀ ns name w, f (Get ns name w).2 = f w.

Lemma GetPreset_keeps r name : keeps f (GetPreset Get r name).
Proof.
  unfold GetPreset. solve_keeps. intros w. rewrite run_call. apply reads.
Qed.

Lemma resolve_walk_keeps levels ruleset next specs chain seen r :
  keeps f (resolve_walk Get isNotFound levels ruleset next specs chain seen r).
Proof.
  revert next specs chain seen r. induction levels as [|levels IH]; intros; simpl; solve_keeps; try apply GetPreset_keeps.
  all: try apply IH.
Qed.

Lemma resolveDesired_keeps r source spec self : keeps f (resolveDesired Get isNotFound r source spec self).
Proof. unfold resolveDesired, Resolve. solve_keeps; apply resolve_walk_keeps. Qed.

Lemma Collect_keeps ns refs inline : keeps f (Collect Get isNotFound ns refs inline).
Proof.
  assert (∀ r, keeps f (collect_presets Get isNotFound r refs)) as Hpresets.
  { induction refs as [|ref refs' IH]; intros r; simpl; solve_keeps;
      first [apply GetPreset_keeps|apply resolveDesired_keeps|apply IH]. }
  assert (∀ n r, keeps f (collect_inline Get isNotFound r n inline)) as Hinline.
  { induction inline as [|spec inl' IH]; intros n r; simpl; solve_keeps; first [apply resolveDesired_keeps|apply IH]. }
  unfold Collect, collect_candidates. solve_keeps; auto.
Qed.
End CollectKeeps.

(** ** Theorems *)
Section Correct.
Context {W : Type} {A : RulesetsApi W} (o : MapOrder) (store : W → gmap Z RepositoryRuleset).

(** GitHub keeps the rulesets of the owner by id; a failed call changes nothing. *)
Class ClientLaws (C : RulesetClient W) : Prop := {
  all_listed w : let '(r, w') := run (rcl_GetAll C) w in
    store w' = store w ∧ ∀ l, r = inl l →
      (∀ id r, store w !! id = Some r → ∃ s, Some s ∈ l ∧ g_ID s = Some id ∧ g_Name s = g_Name r) ∧
      (∀ s, Some s ∈ l → ∃ id r, g_ID s = Some id ∧ g_Name s = g_Name r ∧ store w !! id = Some r);
  one_read id w : let '(r, w') := run (rcl_Get C id) w in
    store w' = store w ∧ ∀ full, r = inl full → ∃ r, store w !! id = Some r ∧ full = with_id id r;
  one_created gh w : match run (rcl_Create C gh) w with
    | (inl _, w') => ∃ id, store w !! id = None ∧ store w' = <[id := gh]> (store w) | (inr _, w') => store w' = store w end;
  one_updated id gh w : match run (rcl_Update C id gh) w with
    | (inl _, w') => store w' = <[id := gh]> (store w) | (inr _, w') => store w' = store w end;
  one_deleted id w : match run (rcl_Delete C id) w with
    | (None, w') => store w' = base.delete id (store w) | (Some _, w') => store w' = store w end
}.

#[export] Instance ruleset_target_laws scope C : ClientLaws C → TargetLaws (ruleset_target scope C) store.
Proof.
  intros L. split; simpl.
  - apply all_listed.
  - apply one_read.
  - intros gh d w. unfold createRuleset. rewrite run_bind. pose proof (one_created gh w) as H.
    by destruct (run _ w) as [[r|e] w'].
  - intros id gh d w. unfold updateRuleset. rewrite run_bind. pose proof (one_updated id gh w) as H.
    by destruct (run _ w) as [[r|e] w'].
  - intros id name w. unfold deleteRuleset. rewrite run_bind. pose proof (one_deleted id w) as H.
    by destruct (run _ w) as [[e|] w'].
Qed.

(** The other calls leave the rulesets alone, and the resolver is a function that keeps the name. *)
Class ReaderLaws (resolve : RulesetSpec → res RulesetSpec) : Prop := {
  orgs_read ns name : keeps store (FetchOrganization ns name);
  presets_read ns name w : store (FetchRulesetPreset ns name w).2 = store w;
  names_resolved s w : let '(r, w') := run (ResolveRuleset s) w in r = resolve s ∧ store w' = store w;
  resolved_name s s' : resolve s = inl s' → rs_Name s' = rs_Name s
}.
Context (resolve : RulesetSpec → res RulesetSpec) {R : ReaderLaws resolve}.

#[export] Instance repo_options_laws b : OptionsLaws (repo_options b) store resolve.
Proof. split; simpl; [apply names_resolved|apply resolved_name|done]. Qed.
#[export] Instance org_options_laws b : OptionsLaws (org_options b) store resolve.
Proof. split; simpl; [apply names_resolved|apply resolved_name|done]. Qed.

(** No nameless rulesets, and no two with the same name. *)
Definition proper_rulesets (st : gmap Z RepositoryRuleset) : Prop :=
  unique_names st ∧ ∀ id r, st !! id = Some r → g_Name r ≠ "".

Lemma Collect_names ns refs inline w ds w' :
  run (Collect FetchRulesetPreset IsNotFound ns refs inline) w = (inl ds, w') → NoDup (d_Name <$> ds).
Proof.
  unfold Collect. rewrite run_bind. destruct (run (collect_candidates _ _ _ _ _) w) as [[cs|e] w1]; [|done].
  cbn [run]. intros [= Hc _]. by apply combine_sound in Hc as [? _].
Qed.

(** What happens once the guards are passed: errors of the collection are returned before any ruleset is touched. *)
Lemma collect_and_sync scope C opts ns refs inline w :
  ClientLaws C → OptionsLaws opts store resolve → proper_rulesets (store w) →
  let '(desired, w1) := run (Collect FetchRulesetPreset IsNotFound ns refs inline) w in
  let '(err, w') := run (let! desired := Collect FetchRulesetPreset IsNotFound ns refs inline in
    match desired with inr err => Ret (Some err) | inl desired => Sync o (ruleset_target scope C) opts desired end) w in
  match desired with
  | inr e => err = Some e ∧ store w' = store w
  | inl desired => rulesets_synced opts resolve desired err (store w) (store w')
  end.
Proof.
  intros HC HO [Hu Hne]. rewrite run_bind.
  pose proof (Collect_keeps store FetchRulesetPreset IsNotFound presets_read ns refs inline w) as Hk.
  destruct (run (Collect _ _ _ _ _) w) as [[desired|e] w1] eqn:E; simpl in Hk; [|done].
  pose proof (Sync_synced o (ruleset_target scope C) opts store resolve desired w1) as H.
  rewrite Hk in H. apply H; [done|done|]. by eapply Collect_names.
Qed.

(** C4: the rulesets of a repository.  If the organization cannot be read, or the repository is not public and
    its organization has the free plan, or the definitions conflict, no ruleset is touched (and the error, if
    there is one, is returned).  Otherwise, whatever happens, a ruleset whose definition is unresolved keeps its state,
    and rulesets with target "repository", which do not belong to a repository, are not applied.  If moreover all calls
    succeed, so that at most the errors of the unresolved definitions are returned, then every applied ruleset is on
    GitHub either as it was sent or in a state that RulesetsDiffer accepts as equal to the desired one (it does not
    compare the merge methods, for instance); and every other ruleset is deleted.  GitHub is taken to have no two
    rulesets of one name, and none without a name. *)
Theorem reconcileRuleSets_correct b owner name repo w :
  ClientLaws (RepositoryRulesets owner name) → proper_rulesets (store w) →
  let '(org, w1) := run (FetchOrganization (Namespace (r_Meta repo)) (r_OrganizationRef (r_Spec repo))) w in
  let '(desired, _) := run (Collect FetchRulesetPreset IsNotFound (Namespace (r_Meta repo))
    (r_RulesetPresetList (r_Spec repo)) (r_Rulesets (r_Spec repo))) w1 in
  let '(err, w') := run (reconcileRuleSets o b owner name repo) w in
  match org with
  | inr e => err = Some e ∧ store w' = store w
  | inl org =>
    if bool_decide (GetPlan org = PlanFree ∧ r_Visibility (r_Spec repo) ≠ VisibilityPublic) then err = None ∧ store w' = store w
    else match desired with
      | inr e => err = Some e ∧ store w' = store w
      | inl desired => rulesets_synced (repo_options b) resolve desired err (store w) (store w') ∧
          ∀ d, applied (repo_options b) d → rs_Target (d_Spec d) ≠ "repository"
      end
  end.
Proof.
  intros HC Hp. unfold reconcileRuleSets. rewrite run_bind. pose proof (orgs_read (Namespace (r_Meta repo)) (r_OrganizationRef (r_Spec repo)) w) as Hk.
  destruct (run (FetchOrganization _ _) w) as [[org|e] w1]; simpl in Hk; step_run.
  2:{ by destruct (run (Collect _ _ _ _ _) w1). }
  rewrite <-bool_decide_not, <-bool_decide_and. rewrite <-Hk in Hp |- *.
  pose proof (collect_and_sync "repository" (RepositoryRulesets owner name) (repo_options b) (Namespace (r_Meta repo))
    (r_RulesetPresetList (r_Spec repo)) (r_Rulesets (r_Spec repo)) w1 HC _ Hp) as H.
  destruct (run (Collect _ _ _ _ _) w1) as [desired w2]. case_bool_decide; [done|].
  destruct (run (bind _ _) w1) as [err w']. destruct desired as [ds|e]; [|done]. split; [done|].
  intros d [_ Hs]. unfold skipped, skip_repository_target in Hs. simpl in Hs. by apply bool_decide_eq_false in Hs.
Qed.

(** The conditions of an organization ruleset say to which repositories it applies. *)
Definition says_repositories (s : RulesetSpec) : Prop :=
  ∀ c, rs_Conditions s = Some c → is_Some (rc_RepositoryName c) ∨ is_Some (rc_RepositoryProperty c).

(** The rulesets of an organization.  Nothing is touched on the free plan or when the definitions conflict;
    otherwise the rulesets are synchronised as for a repository, and what is sent for one with conditions
    always says to which repositories it applies: to all unless the definition restricts them. *)
Theorem reconcileRulesets_correct b login org w :
  ClientLaws (OrganizationRulesets login) → proper_rulesets (store w) →
  let '(desired, _) := run (Collect FetchRulesetPreset IsNotFound (Namespace (o_Meta org))
    (o_RulesetPresetList (o_Spec org)) (o_Rulesets (o_Spec org))) w in
  let '(err, w') := run (reconcileRulesets o b login org) w in
  if HasEnterpriseFeatures org then
    match desired with
    | inr e => err = Some e ∧ store w' = store w
    | inl desired => rulesets_synced (org_options b) resolve desired err (store w) (store w') ∧
        ∀ d spec, final_spec (org_options b) resolve d = inl spec → says_repositories spec
    end
  else err = None ∧ w' = w.
Proof.
  intros HC Hp. unfold reconcileRulesets.
  pose proof (collect_and_sync "organization" (OrganizationRulesets login) (org_options b) (Namespace (o_Meta org))
    (o_RulesetPresetList (o_Spec org)) (o_Rulesets (o_Spec org)) w HC _ Hp) as H.
  destruct (HasEnterpriseFeatures org); cbn [negb]; [|by destruct (run (Collect _ _ _ _ _) w)].
  destruct (run (Collect _ _ _ _ _) w) as [[ds|e] w2]; destruct (run (bind _ _) w) as [err w']; [|done].
  split; [done|]. intros d spec. unfold final_spec. destruct (resolve _) as [s|e]; [|done]. intros [= <-] c. simpl.
  unfold addDefaultOrgRepositoryConditions. destruct (rs_Conditions s) as [c'|]; [|done].
  destruct (rc_RepositoryName c') eqn:E1, (rc_RepositoryProperty c') eqn:E2; intros [= <-]; simpl; rewrite ?E1, ?E2; eauto.
Qed.
End Correct.

(** ** Witnesses: a repository and an organization with three rulesets on GitHub *)
Module ToyRulesets.
Definition toy_list (w : gmap Z RepositoryRuleset) : res (list (option RepositoryRuleset)) :=
  inl ((λ '(id, r), Some (with_id id r)) <$> map_to_list w).
Definition toy_get (id : Z) (w : gmap Z RepositoryRuleset) : res RepositoryRuleset :=
  match w !! id with Some r => inl (with_id id r) | None => inr notFoundStatus end.

Definition client : RulesetClient (gmap Z RepositoryRuleset) := {|
  rcl_GetAll := gets toy_list;
  rcl_Get id := gets (toy_get id);
  rcl_Create gh := call (λ w, (inl (with_id (fresh (dom w)) gh), <[fresh (dom w) := gh]> w));
  rcl_Update id gh := call (λ w, (inl (with_id id gh), <[id := gh]> w));
  rcl_Delete id := call (λ w, (None, base.delete id w)) |}.

#[export] Instance client_laws : ClientLaws (λ w, w) client.
Proof.
  split; simpl.
  - intros w. split; [done|]. intros l [= <-]. split.
    + intros id r Hr. exists (with_id id r). split_and!; [|done|done].
      apply list_elem_of_fmap. exists (id, r). split; [done|]. by apply elem_of_map_to_list.
    + intros s ([id r] & Hs & Hin)%list_elem_of_fmap. injection Hs as ->. exists id, r.
      split_and!; [done|done|]. by apply elem_of_map_to_list.
  - intros id w. split; [done|]. intros full. unfold toy_get. destruct (w !! id) as [r|]; [|done]. intros [= <-]. by exists r.
  - intros gh w. exists (fresh (dom w)). split; [|done]. apply not_elem_of_dom, is_fresh.
  - done.
  - done.
Qed.

Definition org : list RulesetSpec → Organization := Samples.org Samples.no_actions [] [].
Definition repo : list RulesetSpec → Repository := Samples.repo "r" [].

Definition spec (name extends target : string) : RulesetSpec := {|
  rs_Name := name; rs_Extends := extends; rs_Target := target;
  rs_Conditions := Some {| rc_RefName := None; rc_RepositoryName := None; rc_RepositoryProperty := None |};
  rs_Enforcement := "active"; rs_BypassActors := []; rs_Rules := no_rules |}.
Definition on_github (name : string) : RepositoryRuleset := {|
  g_ID := None; g_Name := name; g_Target := Some "branch"; g_Enforcement := "disabled"; g_BypassActors := [];
  g_Conditions := None; g_Rules := None |}.

(** One ruleset to update, one whose parent is missing, one that is not defined any more, and a new one. *)
Definition before : gmap Z RepositoryRuleset := list_to_map [(1, on_github "main"); (2, on_github "kept"); (3, on_github "orphan")].
Definition rulesets : list RulesetSpec := [spec "main" "" "branch"; spec "kept" "gone" "branch"; spec "new" "" "branch"].

#[export] Instance api : RulesetsApi (gmap Z RepositoryRuleset) := {|
  RepositoryRulesets _ _ := client; OrganizationRulesets _ := client;
  FetchOrganization _ _ := Ret (inl (org []));
  FetchRulesetPreset _ _ w := (inr notFoundStatus, w);
  IsNotFound _ := true;
  ResolveRuleset s := Ret (inl s) |}.

#[export] Instance reader_laws : ReaderLaws (λ w, w) (λ s, inl s).
Proof. split; [intros; apply keeps_ret|done|done|congruence]. Qed.

Lemma before_proper : proper_rulesets before.
Proof.
  assert (∀ id r, before !! id = Some r →
    (id = 1 ∧ r = on_github "main") ∨ (id = 2 ∧ r = on_github "kept") ∨ (id = 3 ∧ r = on_github "orphan")) as Hb.
  { intros id r Hr. apply elem_of_list_to_map_2 in Hr. set_solver. }
  split.
  - intros i j r s Hi%Hb Hj%Hb Hn.
    destruct Hi as [[-> ->]|[[-> ->]|[-> ->]]], Hj as [[-> ->]|[[-> ->]|[-> ->]]]; done.
  - intros id r Hr%Hb. destruct Hr as [[-> ->]|[[-> ->]|[-> ->]]]; done.
Qed.

(** The names on GitHub. *)
Definition names (w : gmap Z RepositoryRuleset) : list string := sort_strings ((λ x, g_Name x.2) <$> map_to_list w).
End ToyRulesets.
Import ToyRulesets.

Lemma reconcileRuleSets_correct_witness :
  let '(err, after) := run (reconcileRuleSets default_order true "acme" "r" (repo rulesets)) before in
  names after = ["kept"; "main"; "new"] ∧ is_Some err ∧
  ∃ desired, rulesets_synced (repo_options true) (λ s, inl s) desired err before after.
Proof.
  pose proof (reconcileRuleSets_correct default_order (λ w, w) (λ s, inl s) true "acme" "r" (repo rulesets) before client_laws before_proper) as H.
  destruct (run (reconcileRuleSets _ _ _ _ _) before) as [err after] eqn:E.
  destruct (run (FetchOrganization _ _) before) as [o1 w1] eqn:E1. vm_compute in E1. injection E1 as <- <-.
  destruct (run (Collect _ _ _ _ _) _) as [desired w2] eqn:E2. vm_compute in E2. injection E2 as <- _.
  destruct H as [H _]. vm_compute in E. injection E as <- <-. split_and!; [vm_compute; done|by eexists|]. eexists. exact H.
Defined.

Lemma reconcileRulesets_correct_witness :
  let '(err, after) := run (reconcileRulesets default_order true "acme" (org rulesets)) before in
  names after = ["kept"; "main"; "new"] ∧ is_Some err ∧
  ∃ desired, rulesets_synced (org_options true) (λ s, inl s) desired err before after.
Proof.
  pose proof (reconcileRulesets_correct default_order (λ w, w) (λ s, inl s) true "acme" (org rulesets) before client_laws before_proper) as H.
  destruct (run (reconcileRulesets _ _ _ _) before) as [err after] eqn:E.
  destruct (run (Collect _ _ _ _ _) _) as [desired w2] eqn:E2. vm_compute in E2. injection E2 as <- _.
  destruct H as [H _]. vm_compute in E. injection E as <- <-. split_and!; [vm_compute; done|by eexists|]. eexists. exact H.
Defined.
