(* ===== verification/IdResolver.v ===== *)
(** * Resolving names to ids

    internal/reconciler/common/idresolver/resolver.go: slugs of teams and apps, names of roles and repositories in
    rulesets and code security configurations are replaced by the numeric ids GitHub wants.  The maps of the resolver
    may be older than GitHub; a failed lookup refreshes them once. *)
From S2P Require Import Prelude GoErrors Conditions ApiTypes.

(** What the resolver reads of [github.Installation], [github.Team] and [github.CustomOrgRole]; an id that is not
    set reads as 0 ([GetID]) where the code does so. *)
Record Installation := { in_AppSlug : option string; in_AppID : option Z }.
Record TeamEntry := { te_Slug : option string; te_ID : option Z }.
Record RoleEntry := { re_Name : option string; re_RoleID : option Z }.

(** The maps of [Resolver]. *)
Record LookUpMaps := {
  appsBySlug : gmap string (option Z); teamsBySlug : gmap string Z; rolesByName : gmap string Z }.

(** The client (with a cache for the three lists, which [InvalidateCache] clears) and the maps, variables of the
    resolver.  [GetRepositoryID] is [GetRepository] with the field that is used. *)
Class ResolverApi (W : Type) := {
  GetGitHubAppsInstallations : string → prog W (res (list Installation));
  GetTeamsForOrg : string → prog W (res (list TeamEntry));
  GetRolesForOrg : string → prog W (res (list RoleEntry));
  InvalidateCache : prog W unit;
  GetRepositoryID : string → string → prog W (res (option Z));
  getMaps : prog W LookUpMaps;
  setMaps : LookUpMaps → prog W unit
}.

(** ** Lookups *)
Definition notFound (msg : string) : gerror := EUnresolvableReference msg true.
Definition unresolvable (msg : string) : gerror := EUnresolvableReference msg false.

Section Lookups.
Context (orgName : string) (m : LookUpMaps).

Definition ResolveTeamSlug (slug : string) : res Z :=
  match teamsBySlug m !! slug with
  | Some id => inl id
  | None => inr (notFound ("team with slug " +:+ slug +:+ " not found in org " +:+ orgName))
  end.
Definition ResolveRoleName (name : string) : res Z :=
  match rolesByName m !! name with
  | Some id => inl id
  | None => inr (notFound ("org role with name " +:+ name +:+ " not found in org " +:+ orgName))
  end.
Definition resolveAppSlug (slug : string) : res (option Z) :=
  match appsBySlug m !! slug with
  | Some id => inl id
  | None => inr (notFound ("no GitHub App with slug " +:+ slug +:+ " installed on org " +:+ orgName))
  end.

(** ** Bypass actors *)
Definition set_ActorID (a : RulesetBypassActor) (id : option Z) : RulesetBypassActor :=
  {| ba_ActorID := id; ba_ActorSlug := ba_ActorSlug a; ba_ActorType := ba_ActorType a; ba_BypassMode := ba_BypassMode a |}.

(** The nil guard for the actor is left out: every caller passes the address of a variable. *)
Definition resolveBypassActorWith (actor : RulesetBypassActor) (resolver : string → res (option Z)) : res RulesetBypassActor :=
  match ba_ActorID actor, ba_ActorSlug actor with
  | Some _, _ => inl actor
  | None, None => inr (unresolvable ("bypass actor with type " +:+ ba_ActorType actor +:+
      " requires either actor_id or actor_slug to be set"))
  | None, Some slug => match resolver slug with inl id => inl (set_ActorID actor id) | inr err => inr err end
  end.

Definition as_pointer (r : res Z) : res (option Z) := match r with inl id => inl (Some id) | inr err => inr err end.

(** The body of the loop of [resolveBypassActors]. *)
Definition resolve_actor (a : RulesetBypassActor) : res RulesetBypassActor :=
  if bool_decide (ba_ActorType a = "Team") then resolveBypassActorWith a (λ slug, as_pointer (ResolveTeamSlug slug))
  else if bool_decide (ba_ActorType a = "Integration") then resolveBypassActorWith a resolveAppSlug
  else if bool_decide (ba_ActorType a = "RepositoryRole") then
    resolveBypassActorWith a (λ slug, as_pointer (ResolveRoleName slug))
  else if bool_decide (ba_ActorType a = "DeployKey") then
    inl {| ba_ActorID := None; ba_ActorSlug := None; ba_ActorType := ba_ActorType a; ba_BypassMode := ba_BypassMode a |}
  else inl a.
Definition resolveBypassActors (l : list RulesetBypassActor) : res (list RulesetBypassActor) := try_map resolve_actor l.

(** ** Status checks and reviewers *)
Definition resolve_check (c : StatusCheck) : StatusCheck :=
  match sc_AppSlug c with
  | None => c
  | Some slug => {| sc_Context := sc_Context c; sc_AppSlug := sc_AppSlug c;
      sc_IntegrationID := match resolveAppSlug slug with inl id => id | inr _ => None end |}
  end.
Definition resolveStatusCheckAppSlugs (c : RequiredStatusChecks) : RequiredStatusChecks :=
  {| sc_Checks := resolve_check <$> sc_Checks c; sc_StrictPolicy := sc_StrictPolicy c |}.

Definition set_ReviewerID (r : RequiredPullRequestReviewer) (id : Z) : RequiredPullRequestReviewer := {|
  rr_MinimumApprovals := rr_MinimumApprovals r; rr_FilePatterns := rr_FilePatterns r;
  rr_Reviewer := {| re_ID := Some id; re_Slug := re_Slug (rr_Reviewer r); re_Type := re_Type (rr_Reviewer r) |} |}.
Definition resolve_reviewer (r : RequiredPullRequestReviewer) : res RequiredPullRequestReviewer :=
  match re_ID (rr_Reviewer r), re_Slug (rr_Reviewer r) with
  | None, Some slug =>
    if bool_decide (re_Type (rr_Reviewer r) = "Team") then
      match ResolveTeamSlug slug with
      | inl id => inl (set_ReviewerID r id)
      | inr err => inr (EWrap ("failed to resolve required reviewer slug " +:+ slug +:+ " to ID") err)
      end
    else inr (unresolvable ("unsupported required reviewer type " +:+ re_Type (rr_Reviewer r) +:+ " for slug resolution"))
  | _, _ => inl r
  end.
Definition resolve_reviewers (l : list RequiredPullRequestReviewer) : res (list RequiredPullRequestReviewer) := try_map resolve_reviewer l.

(** ** Bypass reviewers of a code security configuration *)
Definition set_ReviewerId (r : BypassReviewer) (id : Z) : BypassReviewer :=
  {| br_ReviewerId := Some id; br_ReviewerName := br_ReviewerName r; br_ReviewerType := br_ReviewerType r |}.
Definition resolve_bypass_reviewer (r : BypassReviewer) : res BypassReviewer :=
  match br_ReviewerName r with
  | None => inl r
  | Some name =>
    if bool_decide (br_ReviewerType r = "TEAM") then
      match ResolveTeamSlug name with inl id => inl (set_ReviewerId r id) | inr err => inr err end
    else if bool_decide (br_ReviewerType r = "ROLE") then
      match ResolveRoleName name with inl id => inl (set_ReviewerId r id) | inr err => inr err end
    else inl r
  end.
Definition resolve_bypass_reviewers (l : list BypassReviewer) : res (list BypassReviewer) := try_map resolve_bypass_reviewer l.
End Lookups.

Definition set_BypassReviewers (c : CodeSecurityConfiguration) (l : list BypassReviewer) : CodeSecurityConfiguration :=
  let s := csc_Spec c in {| csc_Meta := csc_Meta c; csc_Spec := {|
  csc_Name := csc_Name s; csc_Description := csc_Description s; csc_AdvancedSecurity := csc_AdvancedSecurity s;
  csc_DependencyGraph := csc_DependencyGraph s; csc_DependencyGraphAutosubmitAction := csc_DependencyGraphAutosubmitAction s;
  csc_DependencyGraphAutosubmitActionOptions := csc_DependencyGraphAutosubmitActionOptions s;
  csc_DependabotAlerts := csc_DependabotAlerts s; csc_DependabotSecurityUpdates := csc_DependabotSecurityUpdates s;
  csc_CodeScanningDefaultSetup := csc_CodeScanningDefaultSetup s;
  csc_CodeScanningDefaultSetupOptions := csc_CodeScanningDefaultSetupOptions s;
  csc_CodeScanningDelegatedAlertDismissal := csc_CodeScanningDelegatedAlertDismissal s;
  csc_CodeScanningOptions := csc_CodeScanningOptions s; csc_CodeSecurity := csc_CodeSecurity s;
  csc_SecretScanning := csc_SecretScanning s; csc_SecretScanningPushProtection := csc_SecretScanningPushProtection s;
  csc_SecretScanningValidityChecks := csc_SecretScanningValidityChecks s;
  csc_SecretScanningNonProviderPatterns := csc_SecretScanningNonProviderPatterns s;
  csc_SecretScanningGenericSecrets := csc_SecretScanningGenericSecrets s;
  csc_SecretScanningDelegatedAlertDismissal := csc_SecretScanningDelegatedAlertDismissal s;
  csc_SecretProtection := csc_SecretProtection s; csc_PrivateVulnerabilityReporting := csc_PrivateVulnerabilityReporting s;
  csc_Enforcement := csc_Enforcement s; csc_SecretScanningDelegatedBypass := csc_SecretScanningDelegatedBypass s;
  csc_SecretScanningDelegatedBypassOptions := Some l; csc_DefaultForNewRepos := csc_DefaultForNewRepos s |} |}.

(** ** Setting parts of a ruleset *)
Definition set_BypassActors (s : RulesetSpec) (l : list RulesetBypassActor) : RulesetSpec := {|
  rs_Name := rs_Name s; rs_Extends := rs_Extends s; rs_Target := rs_Target s; rs_Conditions := rs_Conditions s;
  rs_Enforcement := rs_Enforcement s; rs_BypassActors := l; rs_Rules := rs_Rules s |}.
Definition set_Rules (s : RulesetSpec) (r : RulesetRules) : RulesetSpec := {|
  rs_Name := rs_Name s; rs_Extends := rs_Extends s; rs_Target := rs_Target s; rs_Conditions := rs_Conditions s;
  rs_Enforcement := rs_Enforcement s; rs_BypassActors := rs_BypassActors s; rs_Rules := r |}.
(** The three rules that hold references. *)
Definition set_references (s : RulesetSpec) (pr : option PullRequestRule) (sc : option RequiredStatusChecks)
    (wf : option WorkflowsRule) : RulesetSpec :=
  let r := rs_Rules s in set_Rules s {|
  ru_Creation := ru_Creation r; ru_Update := ru_Update r; ru_Deletion := ru_Deletion r;
  ru_RequiredLinearHistory := ru_RequiredLinearHistory r; ru_RequiredSignatures := ru_RequiredSignatures r;
  ru_PullRequest := pr; ru_RequiredStatusChecks := sc; ru_NonFastForward := ru_NonFastForward r;
  ru_CommitMessagePattern := ru_CommitMessagePattern r; ru_CommitAuthorEmailPattern := ru_CommitAuthorEmailPattern r;
  ru_CommitterEmailPattern := ru_CommitterEmailPattern r; ru_BranchNamePattern := ru_BranchNamePattern r;
  ru_TagNamePattern := ru_TagNamePattern r; ru_CopilotReview := ru_CopilotReview r; ru_Workflows := wf |}.
Definition set_Reviewers (p : PullRequestRule) (l : list RequiredPullRequestReviewer) : PullRequestRule := {|
  pr_AllowedMergeMethods := pr_AllowedMergeMethods p; pr_DismissStaleReviewsOnPush := pr_DismissStaleReviewsOnPush p;
  pr_RequireCodeOwnerReviews := pr_RequireCodeOwnerReviews p; pr_RequireLastPushApproval := pr_RequireLastPushApproval p;
  pr_RequiredApprovingReviewCount := pr_RequiredApprovingReviewCount p;
  pr_RequiredReviewThreadResolution := pr_RequiredReviewThreadResolution p; pr_RequiredReviewers := l |}.
Definition set_RepositoryID (wf : RuleWorkflow) (id : option Z) : RuleWorkflow := {|
  wf_Path := wf_Path wf; wf_RepositoryName := wf_RepositoryName wf; wf_Ref := wf_Ref wf; wf_ResolvedRepositoryID := id |}.
Definition set_Workflows (w : WorkflowsRule) (l : list RuleWorkflow) : WorkflowsRule :=
  {| ws_DoNotEnforceOnCreate := ws_DoNotEnforceOnCreate w; ws_Workflows := l |}.

(** ** The resolver *)
Section Resolver.
Context {W : Type} {A : ResolverApi W} (orgName : string).

Definition index_apps (apps : list Installation) : gmap string (option Z) :=
  in_AppID <$> index_by (λ i, WithDefault (in_AppSlug i) "") apps.
Definition index_teams (teams : list TeamEntry) : gmap string Z :=
  foldl (λ m t, match te_Slug t with None => m | Some slug => <[slug := WithDefault (te_ID t) 0]> m end) ∅ teams.
Definition index_roles (roles : list RoleEntry) : gmap string Z :=
  foldl (λ m r, match re_Name r with None => m | Some name => <[name := WithDefault (re_RoleID r) 0]> m end) ∅ roles.

Definition loadLookUpMaps : prog W (option gerror) :=
  let! apps := GetGitHubAppsInstallations orgName in
  match apps with
  | inr err => Ret (Some (EWrap ("failed to load GitHub App installations for org " +:+ orgName) err))
  | inl apps =>
    let! teams := GetTeamsForOrg orgName in
    match teams with
    | inr err => Ret (Some (EWrap ("failed to load teams for org " +:+ orgName) err))
    | inl teams =>
      let! roles := GetRolesForOrg orgName in
      match roles with
      | inr err => Ret (Some (EWrap ("failed to load org roles for org " +:+ orgName) err))
      | inl roles =>
        let! _ := setMaps {| appsBySlug := index_apps apps; teamsBySlug := index_teams teams; rolesByName := index_roles roles |} in
        Ret None
      end
    end
  end.

(** [New] for the maps; the client is never nil afterwards. *)
Definition New : prog W (option gerror) := loadLookUpMaps.

Definition refreshMaps : prog W bool :=
  let! _ := InvalidateCache in
  let! err := loadLookUpMaps in
  Ret (match err with None => true | Some _ => false end).

(** The functions below return the spec as they leave it, and the error: the rules are pointers, so what they
    change before an error stays changed for the caller. *)
Fixpoint resolve_workflows (l : list RuleWorkflow) : prog W (list RuleWorkflow * option gerror) :=
  match l with
  | [] => Ret ([], None)
  | wf :: rest =>
    match wf_ResolvedRepositoryID wf with
    | Some _ => let! r := resolve_workflows rest in let '(rest, err) := r in Ret (wf :: rest, err)
    | None =>
      let! repo := GetRepositoryID orgName (wf_RepositoryName wf) in
      match repo with
      | inr err => Ret (wf :: rest, Some (EWrap ("failed to resolve workflow repository " +:+ wf_RepositoryName wf +:+ " to ID") err))
      | inl id =>
        let! r := resolve_workflows rest in
        let '(rest, err) := r in Ret (set_RepositoryID wf id :: rest, err)
      end
    end
  end.

Definition resolveWorkflowRepositoryNames (rs : RulesetSpec) : prog W (RulesetSpec * option gerror) :=
  let r := rs_Rules rs in
  match ru_Workflows r with
  | None => Ret (rs, None)
  | Some w =>
    let! resolved := resolve_workflows (ws_Workflows w) in
    let '(l, err) := resolved in
    Ret (set_references rs (ru_PullRequest r) (ru_RequiredStatusChecks r) (Some (set_Workflows w l)), err)
  end.

Definition resolve_status_checks (m : LookUpMaps) (rs : RulesetSpec) : RulesetSpec :=
  let r := rs_Rules rs in
  match ru_RequiredStatusChecks r with
  | None => rs
  | Some c => set_references rs (ru_PullRequest r) (Some (resolveStatusCheckAppSlugs orgName m c)) (ru_Workflows r)
  end.

Definition resolveRequiredReviewerSlugs (m : LookUpMaps) (rs : RulesetSpec) : RulesetSpec * option gerror :=
  let r := rs_Rules rs in
  match ru_PullRequest r with
  | None => (rs, None)
  | Some p =>
    match resolve_reviewers orgName m (pr_RequiredReviewers p) with
    | inr err => (rs, Some err)
    | inl l => (set_references rs (Some (set_Reviewers p l)) (ru_RequiredStatusChecks r) (ru_Workflows r), None)
    end
  end.

Definition doResolveRuleset (rs : RulesetSpec) : prog W (RulesetSpec * option gerror) :=
  let! m := getMaps in
  match resolveBypassActors orgName m (rs_BypassActors rs) with
  | inr err => Ret (rs, Some err)
  | inl actors =>
    let! named := resolveWorkflowRepositoryNames (set_BypassActors rs actors) in
    let '(rs, err) := named in
    match err with
    | Some err => Ret (rs, Some err)
    | None => Ret (resolveRequiredReviewerSlugs m (resolve_status_checks m rs))
    end
  end.

Definition ResolveRuleset (rs : RulesetSpec) : prog W (RulesetSpec * option gerror) :=
  let! first := doResolveRuleset rs in
  let '(result, err) := first in
  match err with
  | None => Ret (result, None)
  | Some err =>
    let! refreshed := refreshMaps in
    if (refreshed : bool) then doResolveRuleset (set_Rules rs (rs_Rules result)) else Ret (result, Some err)
  end.

(** The reviewers that a failed first attempt resolved are resolved again by the second. *)
Definition doResolveCscBypassReviewers (csc : CodeSecurityConfiguration) : prog W (res CodeSecurityConfiguration) :=
  let! m := getMaps in
  Ret (match csc_SecretScanningDelegatedBypassOptions (csc_Spec csc) with
    | None => inl csc
    | Some reviewers =>
      match resolve_bypass_reviewers orgName m reviewers with
      | inl l => inl (set_BypassReviewers csc l)
      | inr err => inr err
      end
    end).

Definition ResolveCscBypassReviewers (csc : CodeSecurityConfiguration) : prog W (res CodeSecurityConfiguration) :=
  let! first := doResolveCscBypassReviewers csc in
  match first with
  | inl result => Ret (inl result)
  | inr err =>
    let! refreshed := refreshMaps in
    if (refreshed : bool) then doResolveCscBypassReviewers csc else Ret (inr err)
  end.
End Resolver.

(** ** Resolving against a fixed directory

    The reference: all lookups in one set of maps, repositories by a function. *)
Section Pure.
Context (orgName : string) (repos : string → res (option Z)).
Implicit Types (m D : LookUpMaps) (rs : RulesetSpec).

Fixpoint pure_workflows (l : list RuleWorkflow) : list RuleWorkflow * option gerror :=
  match l with
  | [] => ([], None)
  | wf :: rest =>
    match wf_ResolvedRepositoryID wf with
    | Some _ => let '(rest, err) := pure_workflows rest in (wf :: rest, err)
    | None =>
      match repos (wf_RepositoryName wf) with
      | inr err => (wf :: rest, Some (EWrap ("failed to resolve workflow repository " +:+ wf_RepositoryName wf +:+ " to ID") err))
      | inl id => let '(rest, err) := pure_workflows rest in (set_RepositoryID wf id :: rest, err)
      end
    end
  end.

Definition pure_names rs : RulesetSpec * option gerror :=
  let r := rs_Rules rs in
  match ru_Workflows r with
  | None => (rs, None)
  | Some w =>
    let '(l, err) := pure_workflows (ws_Workflows w) in
    (set_references rs (ru_PullRequest r) (ru_RequiredStatusChecks r) (Some (set_Workflows w l)), err)
  end.

Definition pure_resolve m rs : RulesetSpec * option gerror :=
  match resolveBypassActors orgName m (rs_BypassActors rs) with
  | inr err => (rs, Some err)
  | inl actors =>
    let '(rs, err) := pure_names (set_BypassActors rs actors) in
    match err with
    | Some err => (rs, Some err)
    | None => resolveRequiredReviewerSlugs orgName m (resolve_status_checks orgName m rs)
    end
  end.

(** Repositories that were looked up are found resolved, or looked up with the same result. *)
Lemma pure_workflows_again l : pure_workflows (pure_workflows l).1 = pure_workflows l.
Proof.
  induction l as [|wf l IH]; [done|]. simpl. destruct (wf_ResolvedRepositoryID wf) as [id|] eqn:E.
  - destruct (pure_workflows l) as [l' err]. simpl in *. by rewrite E, IH.
  - destruct (repos _) as [[id|]|err] eqn:R; simpl.
    + destruct (pure_workflows l) as [l' err]. simpl in *. by rewrite IH.
    + destruct (pure_workflows l) as [l' err]. simpl in *. by rewrite R, IH.
    + by rewrite E, R.
Qed.

(** The maps of the resolver may miss what was created on GitHub meanwhile. *)
Record older m D : Prop := {
  old_apps : appsBySlug m ⊆ appsBySlug D;
  old_teams : teamsBySlug m ⊆ teamsBySlug D;
  old_roles : rolesByName m ⊆ rolesByName D }.

(** The apps of the status checks are not among what is missing. *)
Definition apps_known m D rs : Prop :=
  ∀ c sc slug, ru_RequiredStatusChecks (rs_Rules rs) = Some c → sc ∈ sc_Checks c → sc_AppSlug sc = Some slug →
  appsBySlug m !! slug = appsBySlug D !! slug.

Lemma ResolveTeamSlug_older m D slug id : older m D → ResolveTeamSlug orgName m slug = inl id → ResolveTeamSlug orgName D slug = inl id.
Proof.
  intros Ho. unfold ResolveTeamSlug. destruct (teamsBySlug m !! slug) as [i|] eqn:E; [|done]. intros [= ->].
  by rewrite (lookup_weaken _ _ _ _ E (old_teams _ _ Ho)).
Qed.
Lemma ResolveRoleName_older m D name id : older m D → ResolveRoleName orgName m name = inl id → ResolveRoleName orgName D name = inl id.
Proof.
  intros Ho. unfold ResolveRoleName. destruct (rolesByName m !! name) as [i|] eqn:E; [|done]. intros [= ->].
  by rewrite (lookup_weaken _ _ _ _ E (old_roles _ _ Ho)).
Qed.
Lemma resolveAppSlug_older m D slug id : older m D → resolveAppSlug orgName m slug = inl id → resolveAppSlug orgName D slug = inl id.
Proof.
  intros Ho. unfold resolveAppSlug. destruct (appsBySlug m !! slug) as [i|] eqn:E; [|done]. intros [= ->].
  by rewrite (lookup_weaken _ _ _ _ E (old_apps _ _ Ho)).
Qed.

Lemma resolveBypassActorWith_weaken a (f g : string → res (option Z)) a' :
  (∀ slug id, f slug = inl id → g slug = inl id) → resolveBypassActorWith a f = inl a' → resolveBypassActorWith a g = inl a'.
Proof.
  intros Hfg. unfold resolveBypassActorWith. destruct (ba_ActorID a), (ba_ActorSlug a) as [slug|]; try done.
  destruct (f slug) as [id|] eqn:E; [|done]. by rewrite (Hfg slug id E).
Qed.

Lemma as_pointer_inl r id : as_pointer r = inl id → ∃ i, r = inl i ∧ id = Some i.
Proof. destruct r; [|done]. intros [= <-]. eauto. Qed.

Lemma resolve_actor_older m D a a' : older m D → resolve_actor orgName m a = inl a' → resolve_actor orgName D a = inl a'.
Proof.
  intros Ho. unfold resolve_actor. repeat case_bool_decide; try done; apply resolveBypassActorWith_weaken; intros slug id.
  - intros (i & Hi & ->)%as_pointer_inl. by rewrite (ResolveTeamSlug_older m D _ _ Ho Hi).
  - by apply resolveAppSlug_older.
  - intros (i & Hi & ->)%as_pointer_inl. by rewrite (ResolveRoleName_older m D _ _ Ho Hi).
Qed.

Lemma resolve_reviewer_older m D r r' : older m D → resolve_reviewer orgName m r = inl r' → resolve_reviewer orgName D r = inl r'.
Proof.
  intros Ho. unfold resolve_reviewer. destruct (re_ID (rr_Reviewer r)), (re_Slug (rr_Reviewer r)) as [slug|]; try done. case_bool_decide; [|done].
  destruct (ResolveTeamSlug orgName m slug) as [i|] eqn:E; [|done]. by rewrite (ResolveTeamSlug_older m D _ _ Ho E).
Qed.

Lemma try_map_weaken {A B} (f g : A → res B) l l' : (∀ x y, f x = inl y → g x = inl y) → try_map f l = inl l' → try_map g l = inl l'.
Proof. intros Hfg. rewrite !try_map_inl. intros H. eapply Forall2_impl; [done|]. auto. Qed.

Lemma resolve_check_known m D c :
  (∀ slug, sc_AppSlug c = Some slug → appsBySlug m !! slug = appsBySlug D !! slug) →
  resolve_check orgName m c = resolve_check orgName D c.
Proof. intros H. unfold resolve_check, resolveAppSlug. destruct (sc_AppSlug c) as [slug|]; [|done]. by rewrite H. Qed.

(** Resolving the checks of a spec twice, with whatever maps the first time. *)
Lemma resolve_check_again m D c : resolve_check orgName D (resolve_check orgName m c) = resolve_check orgName D c.
Proof. unfold resolve_check at 2. destruct (sc_AppSlug c) eqn:E; [|done]. unfold resolve_check. simpl. by rewrite E. Qed.

Lemma resolve_checks_again m D (l : list StatusCheck) :
  resolve_check orgName D <$> (resolve_check orgName m <$> l) = resolve_check orgName D <$> l.
Proof. rewrite <-list_fmap_compose. apply list_fmap_ext. intros i x _. apply resolve_check_again. Qed.

Lemma pure_names_checks rs :
  ru_RequiredStatusChecks (rs_Rules (pure_names rs).1) = ru_RequiredStatusChecks (rs_Rules rs).
Proof.
  unfold pure_names. destruct (ru_Workflows (rs_Rules rs)) as [w|]; [|done].
  by destruct (pure_workflows (ws_Workflows w)).
Qed.

(** What resolves with older maps resolves to the same with the directory. *)
Lemma pure_resolve_older m D rs rs' :
  older m D → apps_known m D rs → pure_resolve m rs = (rs', None) → pure_resolve D rs = (rs', None).
Proof.
  intros Ho Hk. unfold pure_resolve.
  destruct (resolveBypassActors orgName m _) as [actors|e] eqn:Ha; [|done].
  assert (resolveBypassActors orgName D (rs_BypassActors rs) = inl actors) as ->.
  { revert Ha. apply try_map_weaken. intros x y. by apply resolve_actor_older. }
  pose proof (pure_names_checks (set_BypassActors rs actors)) as Hc.
  destruct (pure_names (set_BypassActors rs actors)) as [rs1 [e|]]; [done|]. cbn [fst rs_Rules set_BypassActors] in Hc.
  assert (resolve_status_checks orgName m rs1 = resolve_status_checks orgName D rs1) as ->.
  { unfold resolve_status_checks. destruct (ru_RequiredStatusChecks (rs_Rules rs1)) as [c|] eqn:E; [|done].
    do 2 f_equal. unfold resolveStatusCheckAppSlugs. f_equal. apply list_fmap_ext. intros i sc Hi.
    apply resolve_check_known. intros slug Hs. apply (Hk c sc slug); [congruence|by eapply list_elem_of_lookup_2|done]. }
  unfold resolveRequiredReviewerSlugs. destruct (ru_PullRequest _) as [p|]; [|done].
  destruct (resolve_reviewers orgName m _) as [l|e] eqn:Hr; [|done].
  assert (resolve_reviewers orgName D (pr_RequiredReviewers p) = inl l) as ->; [|done].
  revert Hr. apply try_map_weaken. intros x y. by apply resolve_reviewer_older.
Qed.

(** A second attempt starts with the rules the first one left behind; it has the same outcome as if it had
    started with the original ones. *)
Lemma pure_resolve_again m D rs rs1 e :
  pure_resolve m rs = (rs1, Some e) →
  (pure_resolve D (set_Rules rs (rs_Rules rs1))).2 = (pure_resolve D rs).2 ∧
  ((pure_resolve D rs).2 = None → pure_resolve D (set_Rules rs (rs_Rules rs1)) = pure_resolve D rs).
Proof.
  intros H.
  assert (∀ x y : RulesetSpec * option gerror, x.2 = y.2 ∧ x.1 = y.1 → x.2 = y.2 ∧ (y.2 = None → x = y)) as Hpair.
  { intros [] []; simpl. naive_solver. }
  destruct rs as [n ex tg c en ba [? ? ? ? ? pr sc ? ? ? ? ? ? ? wf]]. unfold pure_resolve in H |- *. cbn in H |- *.
  destruct (try_map (resolve_actor orgName m) ba) as [actors|e1]; [|injection H as <- <-; cbn; auto].
  destruct (try_map (resolve_actor orgName D) ba) as [actors'|e2]; [|done].
  unfold pure_names, resolveRequiredReviewerSlugs, resolve_status_checks in *.
  destruct wf as [[d l]|]; cbn in *;
    [pose proof (pure_workflows_again l) as Hagain; destruct (pure_workflows l) as [l1 [e1|]]; cbn in *;
      [injection H as <- <-; cbn; by rewrite Hagain|]|];
    (destruct sc as [[checks strict]|]; cbn in *; (destruct pr as [p|]; [|done]);
      destruct (resolve_reviewers orgName m _) as [rv|e3]; [done| |done|]; injection H as <- <-; cbn;
      rewrite ?Hagain; cbn; unfold resolveStatusCheckAppSlugs; cbn; by rewrite ?resolve_checks_again).
Qed.
End Pure.

(** ** The resolver against GitHub *)
Section Correct.
Context {W : Type} {A : ResolverApi W} (orgName : string) (repos : string → res (option Z)) (D : LookUpMaps).
Context (maps_of : W → LookUpMaps) (current : W → Prop).

(** GitHub does not change meanwhile: [D] is its directory, [repos] what it answers for repositories.  A list may be
    answered from the cache, unless that is empty or [current]. *)
Class ResolverLaws : Prop := {
  maps_read w : run getMaps w = (maps_of w, w);
  maps_set m w : maps_of (run (setMaps m) w).2 = m;
  repository_read name w : let '(r, w') := run (GetRepositoryID orgName name) w in r = repos name ∧ maps_of w' = maps_of w;
  cache_cleared w : current (run InvalidateCache w).2 ∧ maps_of (run InvalidateCache w).2 = maps_of w;
  apps_listed w : current w → let '(r, w') := run (GetGitHubAppsInstallations orgName) w in
    current w' ∧ ∀ l, r = inl l → index_apps l = appsBySlug D;
  teams_listed w : current w → let '(r, w') := run (GetTeamsForOrg orgName) w in
    current w' ∧ ∀ l, r = inl l → index_teams l = teamsBySlug D;
  roles_listed w : current w → let '(r, w') := run (GetRolesForOrg orgName) w in
    current w' ∧ ∀ l, r = inl l → index_roles l = rolesByName D
}.
Context {L : ResolverLaws}.

(** The three lists can be fetched. *)
Definition lists_available : Prop := ∀ w,
  (∃ l, (run (GetGitHubAppsInstallations orgName) w).1 = inl l) ∧ (∃ l, (run (GetTeamsForOrg orgName) w).1 = inl l) ∧
  (∃ l, (run (GetRolesForOrg orgName) w).1 = inl l).

(** A refresh that succeeds brings the maps up to date. *)
Lemma refreshMaps_spec w :
  let '(ok, w') := run (refreshMaps orgName) w in (ok = true → maps_of w' = D) ∧ (lists_available → ok = true).
Proof.
  unfold refreshMaps, loadLookUpMaps. rewrite run_bind. destruct (cache_cleared w) as [Hc _].
  destruct (run InvalidateCache w) as [[] w1]. simpl in Hc. rewrite !run_bind.
  pose proof (apps_listed w1 Hc) as Ha. pose proof (λ H : lists_available, proj1 (H w1)) as Ha'.
  destruct (run (GetGitHubAppsInstallations _) w1) as [[apps|e] w2]; cbn [run fst] in *; [|split; [done|intros H; by destruct (Ha' H)]].
  destruct Ha as [Hc2 Ha]. rewrite !run_bind. pose proof (teams_listed w2 Hc2) as Ht.
  pose proof (λ H : lists_available, proj1 (proj2 (H w2))) as Ht'.
  destruct (run (GetTeamsForOrg _) w2) as [[teams|e] w3]; cbn [run fst] in *; [|split; [done|intros H; by destruct (Ht' H)]].
  destruct Ht as [Hc3 Ht]. rewrite !run_bind. pose proof (roles_listed w3 Hc3) as Hr.
  pose proof (λ H : lists_available, proj2 (proj2 (H w3))) as Hr'.
  destruct (run (GetRolesForOrg _) w3) as [[roles|e] w4]; cbn [run fst] in *; [|split; [done|intros H; by destruct (Hr' H)]].
  destruct Hr as [_ Hr]. rewrite run_bind. pose proof (maps_set {| appsBySlug := index_apps apps;
    teamsBySlug := index_teams teams; rolesByName := index_roles roles |} w4) as Hs.
  destruct (run (setMaps _) w4) as [[] w5]. cbn [run]. simpl in Hs. split; [|done]. intros _.
  rewrite Hs, (Ha apps), (Ht teams), (Hr roles) by done. by destruct D.
Qed.

Lemma resolve_workflows_run l w :
  let '(r, w') := run (resolve_workflows orgName l) w in r = pure_workflows repos l ∧ maps_of w' = maps_of w.
Proof.
  revert w. induction l as [|wf l IH]; intros w; [done|]. simpl. destruct (wf_ResolvedRepositoryID wf) as [id|].
  - rewrite run_bind. pose proof (IH w) as H. destruct (run (resolve_workflows _ l) w) as [[l' e] w']. destruct H as [<- H]. done.
  - rewrite run_bind. pose proof (repository_read (wf_RepositoryName wf) w) as H.
    destruct (run (GetRepositoryID _ _) w) as [[id|e] w1]; destruct H as [<- H1]; [|done].
    rewrite run_bind. pose proof (IH w1) as H2. destruct (run (resolve_workflows _ l) w1) as [[l' e'] w'].
    destruct H2 as [<- H2]. simpl. split; [done|congruence].
Qed.

Lemma doResolveRuleset_run rs w :
  let '(r, w') := run (doResolveRuleset orgName rs) w in
  r = pure_resolve orgName repos (maps_of w) rs ∧ maps_of w' = maps_of w.
Proof.
  unfold doResolveRuleset, pure_resolve. rewrite run_bind, maps_read. step_run.
  destruct (resolveBypassActors _ _ _) as [actors|e]; [|done].
  assert (let '(r, w') := run (resolveWorkflowRepositoryNames orgName (set_BypassActors rs actors)) w in
    r = pure_names repos (set_BypassActors rs actors) ∧ maps_of w' = maps_of w) as H.
  { unfold resolveWorkflowRepositoryNames, pure_names. destruct (ru_Workflows _) as [ws|]; [|done]. rewrite run_bind.
    pose proof (resolve_workflows_run (ws_Workflows ws) w) as H. destruct (run (resolve_workflows _ _) w) as [[l e] w'].
    by destruct H as [<- H]. }
  rewrite run_bind. destruct (run (resolveWorkflowRepositoryNames _ _) w) as [[rs1 e] w']. destruct H as [<- H].
  by destruct e.
Qed.


(** ** What a resolved ruleset is *)

(** The id behind a slug, by the type of the actor; [None] for the types that have no slug. *)
Definition directory (m : LookUpMaps) (ty slug : string) : option (option Z) :=
  if bool_decide (ty = "Team") then Some <$> teamsBySlug m !! slug
  else if bool_decide (ty = "Integration") then appsBySlug m !! slug
  else if bool_decide (ty = "RepositoryRole") then Some <$> rolesByName m !! slug
  else None.

(** An actor of a type with slugs has the id it was declared with, or that of its slug. *)
Definition actor_resolved (m : LookUpMaps) (a a' : RulesetBypassActor) : Prop :=
  ba_ActorType a' = ba_ActorType a ∧ ba_BypassMode a' = ba_BypassMode a ∧
  (ba_ActorType a ∈ ["Team"; "Integration"; "RepositoryRole"] →
    match ba_ActorID a with
    | Some id => a' = a
    | None => ∃ slug, ba_ActorSlug a = Some slug ∧ directory m (ba_ActorType a) slug = Some (ba_ActorID a')
    end).

Definition reviewer_resolved (m : LookUpMaps) (r r' : RequiredPullRequestReviewer) : Prop :=
  match re_ID (rr_Reviewer r), re_Slug (rr_Reviewer r) with
  | None, Some slug => ∃ id, teamsBySlug m !! slug = Some id ∧ r' = set_ReviewerID r id
  | _, _ => r' = r
  end.

Definition workflow_resolved (wf wf' : RuleWorkflow) : Prop :=
  match wf_ResolvedRepositoryID wf with
  | Some _ => wf' = wf
  | None => ∃ id, repos (wf_RepositoryName wf) = inl id ∧ wf' = set_RepositoryID wf id
  end.

Definition reviewers_of (s : RulesetSpec) : list RequiredPullRequestReviewer :=
  from_option pr_RequiredReviewers [] (ru_PullRequest (rs_Rules s)).
Definition workflows_of (s : RulesetSpec) : list RuleWorkflow := from_option ws_Workflows [] (ru_Workflows (rs_Rules s)).

Lemma resolve_actor_resolved m a a' : resolve_actor orgName m a = inl a' → actor_resolved m a a'.
Proof.
  assert (∀ f, resolveBypassActorWith a f = inl a' →
    (∀ slug id, f slug = inl id → directory m (ba_ActorType a) slug = Some id) → actor_resolved m a a') as Hwith.
  { intros f. unfold resolveBypassActorWith, actor_resolved.
    destruct (ba_ActorID a) as [id|]; [by intros [= <-]|]. destruct (ba_ActorSlug a) as [slug|]; [|done].
    destruct (f slug) as [id|e] eqn:E; [|done]. intros [= <-] Hdir. simpl. split_and!; [done|done|].
    intros _. exists slug. split; [done|]. by apply Hdir. }
  unfold resolve_actor. repeat case_bool_decide.
  - intros H'. apply (Hwith _ H'). intros slug id (i & Hi & ->)%as_pointer_inl. unfold directory.
    rewrite bool_decide_true by done. unfold ResolveTeamSlug in Hi. by destruct (teamsBySlug m !! slug); simplify_eq/=.
  - intros H'. apply (Hwith _ H'). intros slug id Hi. unfold directory.
    rewrite bool_decide_false, bool_decide_true by done. unfold resolveAppSlug in Hi.
    by destruct (appsBySlug m !! slug); simplify_eq/=.
  - intros H'. apply (Hwith _ H'). intros slug id (i & Hi & ->)%as_pointer_inl. unfold directory.
    rewrite 2!bool_decide_false, bool_decide_true by done. unfold ResolveRoleName in Hi.
    by destruct (rolesByName m !! slug); simplify_eq/=.
  - intros [= <-]. unfold actor_resolved. simpl. split_and!; [done|done|]. set_solver.
  - intros [= <-]. split_and!; [done|done|]. set_solver.
Qed.

Lemma resolve_reviewer_resolved m r r' : resolve_reviewer orgName m r = inl r' → reviewer_resolved m r r'.
Proof.
  unfold resolve_reviewer, reviewer_resolved, ResolveTeamSlug. destruct (re_ID (rr_Reviewer r)), (re_Slug (rr_Reviewer r)) as [slug|];
    try by intros [= <-].
  case_bool_decide; [|done]. destruct (teamsBySlug m !! slug) as [id|]; [|done]. intros [= <-]. eauto.
Qed.

Lemma pure_workflows_resolved l l' : pure_workflows repos l = (l', None) → Forall2 workflow_resolved l l'.
Proof.
  revert l'. induction l as [|wf l IH]; intros l'; simpl; [intros [= <-]; constructor|].
  destruct (pure_workflows repos l) as [l1 e] eqn:E. destruct (wf_ResolvedRepositoryID wf) as [id|] eqn:Hid.
  - intros [= <- ->]. constructor; [unfold workflow_resolved; by rewrite Hid|by apply IH].
  - destruct (repos (wf_RepositoryName wf)) as [id|] eqn:Hr; [|done]. intros [= <- ->].
    constructor; [unfold workflow_resolved; rewrite Hid; eauto|by apply IH].
Qed.

(** Errors of the lookups say that the user has to act. *)
Lemma resolve_actor_error m a e : resolve_actor orgName m a = inr e → RequiresUserAction e = true.
Proof.
  assert (∀ f, (∀ slug e, f slug = inr e → RequiresUserAction e = true) → resolveBypassActorWith a f = inr e →
    RequiresUserAction e = true) as Hwith.
  { intros f Hf. unfold resolveBypassActorWith. destruct (ba_ActorID a), (ba_ActorSlug a) as [slug|]; [done..| |by intros [= <-]].
    destruct (f slug) as [id|e'] eqn:E; [done|]. intros [= ->]. by eapply Hf. }
  unfold resolve_actor, ResolveTeamSlug, ResolveRoleName, resolveAppSlug.
  repeat case_bool_decide; try done; apply Hwith; intros slug e'; destruct (_ !! slug); simpl; try done; by intros [= <-].
Qed.

Lemma resolve_reviewer_error m r e : resolve_reviewer orgName m r = inr e → RequiresUserAction e = true.
Proof.
  unfold resolve_reviewer, ResolveTeamSlug. destruct (re_ID (rr_Reviewer r)), (re_Slug (rr_Reviewer r)) as [slug|]; try done.
  case_bool_decide; [|by intros [= <-]]. destruct (teamsBySlug m !! slug); [done|]. by intros [= <-].
Qed.

Lemma pure_workflows_error l l' e : pure_workflows repos l = (l', Some e) → ∃ ctx name e', e = EWrap ctx e' ∧ repos name = inr e'.
Proof.
  revert l'. induction l as [|wf l IH]; intros l'; simpl; [done|].
  destruct (pure_workflows repos l) as [l1 e1]. destruct (wf_ResolvedRepositoryID wf); [intros [= <- ->]; by eapply IH|].
  destruct (repos (wf_RepositoryName wf)) as [id|e2] eqn:Hr; [intros [= <- ->]; by eapply IH|].
  intros [= <- <-]. eauto.
Qed.

(** What a successful attempt returns.  Every actor, reviewer and workflow has the id it was declared with or
    that of the thing its name refers to; names are kept.  A failed attempt reports either that GitHub could not
    be asked for a repository, or an error that tells the user to act. *)
Theorem doResolveRuleset_sound rs w :
  let '((rs', err), _) := run (doResolveRuleset orgName rs) w in
  match err with
  | None =>
    Forall2 (actor_resolved (maps_of w)) (rs_BypassActors rs) (rs_BypassActors rs') ∧
    Forall2 (reviewer_resolved (maps_of w)) (reviewers_of rs) (reviewers_of rs') ∧
    Forall2 workflow_resolved (workflows_of rs) (workflows_of rs') ∧ rs_Name rs' = rs_Name rs
  | Some e => RequiresUserAction e = true ∨ ∃ ctx name e', e = EWrap ctx e' ∧ repos name = inr e'
  end.
Proof.
  pose proof (doResolveRuleset_run rs w) as H. destruct (run (doResolveRuleset orgName rs) w) as [[rs' err] w'].
  destruct H as [H _]. destruct rs as [n ex tg c en ba [? ? ? ? ? pr sc ? ? ? ? ? ? ? wf]].
  unfold pure_resolve, pure_names, resolveRequiredReviewerSlugs, resolve_status_checks in H. cbn in H.
  destruct (try_map _ ba) as [actors|e] eqn:Ha.
  2:{ injection H as -> ->. left. apply try_map_inr in Ha as (a & _ & Ha). by eapply resolve_actor_error. }
  apply try_map_inl in Ha. assert (Forall2 (actor_resolved (maps_of w)) ba actors) as Hactors.
  { eapply Forall2_impl; [done|]. apply resolve_actor_resolved. }
  unfold reviewers_of, workflows_of. cbn [rs_BypassActors rs_Rules ru_PullRequest ru_Workflows].
  assert (∀ pr' l' , (∀ p, pr = Some p → try_map (resolve_reviewer orgName (maps_of w)) (pr_RequiredReviewers p) = inl l' ∧
    pr' = Some (set_Reviewers p l')) → (pr = None → pr' = None) →
    Forall2 (reviewer_resolved (maps_of w)) (from_option pr_RequiredReviewers [] pr) (from_option pr_RequiredReviewers [] pr')) as Hrev.
  { intros pr' l' H1 H2. destruct pr as [p|]; [|rewrite H2 by done; constructor].
    destruct (H1 p eq_refl) as [Hl ->]. simpl. apply try_map_inl in Hl. eapply Forall2_impl; [done|]. apply resolve_reviewer_resolved. }
  destruct wf as [[d l]|]; cbn in H.
  - destruct (pure_workflows repos l) as [l1 [e1|]] eqn:Hl; cbn in H.
    { injection H as -> ->. right. by eapply pure_workflows_error. }
    apply pure_workflows_resolved in Hl.
    destruct sc as [[checks strict]|], pr as [p|]; cbn in H; try (destruct (resolve_reviewers _ _ _) as [rv|e3] eqn:Hr);
      injection H as -> ->; cbn;
      first [by split_and!; [done|apply (Hrev None []); naive_solver|done|done]
            |by split_and!; [done|apply (Hrev (Some (set_Reviewers p rv)) rv); naive_solver|done|done]
            |left; apply try_map_inr in Hr as (r & _ & Hr); by eapply resolve_reviewer_error].
  - destruct sc as [[checks strict]|], pr as [p|]; cbn in H; try (destruct (resolve_reviewers _ _ _) as [rv|e3] eqn:Hr);
      injection H as -> ->; cbn;
      first [by split_and!; [done|apply (Hrev None []); naive_solver|constructor|done]
            |by split_and!; [done|apply (Hrev (Some (set_Reviewers p rv)) rv); naive_solver|constructor|done]
            |left; apply try_map_inr in Hr as (r & _ & Hr); by eapply resolve_reviewer_error].
Qed.
End Correct.

(** ** Witnesses: a team and an app were created after the maps were loaded *)
Module ToyResolver.
Definition apps : list Installation := [{| in_AppSlug := Some "ci"; in_AppID := Some 3 |}].
Definition teams : list TeamEntry := [{| te_Slug := Some "devs"; te_ID := Some 7 |}].
Definition roles : list RoleEntry := [{| re_Name := Some "auditor"; re_RoleID := Some 5 |}].
Definition directory_now : LookUpMaps :=
  {| appsBySlug := index_apps apps; teamsBySlug := index_teams teams; rolesByName := index_roles roles |}.
Definition repos_now (name : string) : res (option Z) :=
  if bool_decide (name = "tools") then inl (Some 9) else inr (EPlain "404").

(** The maps, and whether the cache is empty or current; an old cache knows the roles only. *)
Record world := { tw_maps : LookUpMaps; tw_current : bool }.
Definition listed {X} (now old : list X) : prog world (res (list X)) := gets (λ w, inl (if tw_current w then now else old)).

#[export] Instance api : ResolverApi world := {|
  GetGitHubAppsInstallations _ := listed apps [];
  GetTeamsForOrg _ := listed teams [];
  GetRolesForOrg _ := listed roles roles;
  InvalidateCache := modify (λ w, {| tw_maps := tw_maps w; tw_current := true |});
  GetRepositoryID _ name := Ret (repos_now name);
  getMaps := gets tw_maps;
  setMaps m := modify (λ w, {| tw_maps := m; tw_current := tw_current w |}) |}.

#[export] Instance laws : ResolverLaws "acme" repos_now directory_now tw_maps (λ w, tw_current w = true).
Proof. split; simpl; try done; intros w Hc; rewrite Hc; (split; [done|by intros l [= <-]]). Qed.

Definition stale : world :=
  {| tw_maps := {| appsBySlug := ∅; teamsBySlug := ∅; rolesByName := index_roles roles |}; tw_current := false |}.

Lemma stale_older : older (tw_maps stale) directory_now.
Proof. split; [apply map_empty_subseteq|apply map_empty_subseteq|done]. Qed.

Definition ruleset (checks : option RequiredStatusChecks) : RulesetSpec := {|
  rs_Name := "main"; rs_Extends := ""; rs_Target := "branch"; rs_Conditions := None; rs_Enforcement := "active";
  rs_BypassActors := [{| ba_ActorID := None; ba_ActorSlug := Some "devs"; ba_ActorType := "Team"; ba_BypassMode := "always" |}];
  rs_Rules := rs_Rules (set_references {| rs_Name := ""; rs_Extends := ""; rs_Target := ""; rs_Conditions := None;
    rs_Enforcement := ""; rs_BypassActors := []; rs_Rules := no_rules |} None checks
    (Some {| ws_DoNotEnforceOnCreate := None;
       ws_Workflows := [{| wf_Path := "ci.yml"; wf_RepositoryName := "tools"; wf_Ref := None; wf_ResolvedRepositoryID := None |}] |})) |}.
End ToyResolver.
Import ToyResolver.


Lemma doResolveRuleset_sound_witness :
  let '((rs', err), _) := run (doResolveRuleset "acme" (ruleset None)) {| tw_maps := directory_now; tw_current := true |} in
  err = None ∧ Forall2 (workflow_resolved repos_now) (workflows_of (ruleset None)) (workflows_of rs').
Proof.
  pose proof (doResolveRuleset_sound "acme" repos_now directory_now tw_maps (λ w, tw_current w = true) (ruleset None)
    {| tw_maps := directory_now; tw_current := true |}) as H.
  destruct (run (doResolveRuleset _ _) _) as [[rs' err] w'] eqn:E.
  assert (err = None) as -> by (vm_compute in E; congruence). split; [done|]. by destruct H as (_ & _ & H & _).
Defined.

(** A status check whose app was installed meanwhile: the lookup fails silently, the maps are not refreshed, and the
    check accepts any source although GitHub knows the app. *)
Definition app_check : StatusCheck := {| sc_Context := "build"; sc_IntegrationID := Some 3; sc_AppSlug := Some "ci" |}.
Definition app_checks : RulesetSpec := set_BypassActors (ruleset (Some {| sc_Checks := [app_check]; sc_StrictPolicy := None |})) [].
Definition integrations (s : RulesetSpec) : list (option Z) :=
  sc_IntegrationID <$> from_option sc_Checks [] (ru_RequiredStatusChecks (rs_Rules s)).
Lemma stale_app_slug_accepts_any_source :
  let '((rs', err), _) := run (ResolveRuleset "acme" app_checks) stale in
  err = None ∧ integrations rs' = [None] ∧
  integrations (pure_resolve "acme" repos_now directory_now app_checks).1 = [Some 3].
Proof. vm_compute. done. Qed.
