(* ===== verification/CustomProps.v ===== *)
(** * Custom properties

    internal/mapper/github_custom_property_mapper.go, the definitions of an organization
    (orgrec/rec_custom_properties.go) and the values of a repository (reporec/rec_custom_properties.go).
    [cmp.Equal] with [EquateEmpty] and [SortSlices] is equality in which slices count as sorted and nil and empty
    slices are the same. *)
From S2P Require Import Prelude GoErrors Conditions ApiTypes.

(** ** Values of type [any], as they occur in properties: what the mapper stores, and other JSON values *)
Inductive any :=
  | AString (s : string)
  | AStrings (l : list string)
  | ANilString                  (* a nil *string in the interface, null in JSON *)
  | AJson (text : string).
#[export] Instance any_eq : EqDecision any. Proof. solve_decision. Defined.

(** [github.CustomProperty] and [github.CustomPropertyValue]; a [Value] of [None] is a nil interface. *)
Record gh_CustomProperty := {
  gp_PropertyName : option string; gp_SourceType : option string; gp_ValueType : string; gp_Required : option bool;
  gp_DefaultValue : option any; gp_Description : option string; gp_AllowedValues : option (list string);
  gp_ValuesEditableBy : option string }.
Record gh_CustomPropertyValue := { gv_PropertyName : string; gv_Value : option any }.

(** The methods of the GitHub package that read a default value; [None] is [ok == false]. *)
Class DefaultValues := {
  DefaultValueStrings : gh_CustomProperty → option (list string);
  DefaultValueBool : gh_CustomProperty → option bool;
  DefaultValueString : gh_CustomProperty → option string
}.

Definition GetPropertyName (p : gh_CustomProperty) : string := WithDefault (gp_PropertyName p) "".
Definition GetSourceType (p : gh_CustomProperty) : string := WithDefault (gp_SourceType p) "".
(** [fmt.Sprintf("%t", b)]. *)
Definition bool_text (b : bool) : string := if b then "true" else "false".

(** ** github_custom_property_mapper.go *)
Definition CustomPropertySourceTypeOrganization : string := "organization".

Definition IsK8sOrgCustomProperty (current : gh_CustomProperty) : bool :=
  bool_decide (GetSourceType current = CustomPropertySourceTypeOrganization).

Section Mapper.
Context {DV : DefaultValues}.

Definition conversion_error (what : string) (p : gh_CustomProperty) (target : string) : gerror :=
  EPlain ("failed to convert " +:+ what +:+ " custom property " +:+ GetPropertyName p +:+ " to " +:+ target).

Definition getK8sDefaultValue (current : gh_CustomProperty) : res (option OrgCustomPropertyDefaultValue) :=
  match gp_DefaultValue current with
  | None => inl None
  | Some _ =>
    if bool_decide (gp_ValueType current = "multi_select") then
      match DefaultValueStrings current with
      | Some v => inl (Some {| dv_Value := None; dv_Values := v |})
      | None => inr (conversion_error "default values for" current "[]string")
      end
    else if bool_decide (gp_ValueType current = "true_false") then
      match DefaultValueBool current with
      | Some v => inl (Some {| dv_Value := Some (bool_text v); dv_Values := [] |})
      | None => inr (conversion_error "default value for" current "bool")
      end
    else
      match DefaultValueString current with
      | Some v => inl (Some {| dv_Value := Some v; dv_Values := [] |})
      | None => inr (conversion_error "default value for" current "string")
      end
  end.

Definition ToK8sOrgCustomProperty (current : gh_CustomProperty) : res OrgCustomProperty :=
  match getK8sDefaultValue current with
  | inr err => inr err
  | inl defaultVal => inl {|
      cp_PropertyName := GetPropertyName current; cp_ValueType := gp_ValueType current; cp_Required := gp_Required current;
      cp_DefaultValue := defaultVal; cp_Description := gp_Description current; cp_AllowedValues := gp_AllowedValues current;
      cp_ValuesEditableBy := WithDefault (gp_ValuesEditableBy current) "" |}
  end.

(** [cmp.Equal] on two properties. *)
Definition default_equal (a b : option OrgCustomPropertyDefaultValue) : bool :=
  match a, b with
  | None, None => true
  | Some a, Some b => bool_decide (dv_Value a = dv_Value b) && bool_decide (sort_strings (dv_Values a) = sort_strings (dv_Values b))
  | _, _ => false
  end.
Definition property_equal (a b : OrgCustomProperty) : bool :=
  bool_decide (cp_PropertyName a = cp_PropertyName b) && bool_decide (cp_ValueType a = cp_ValueType b) &&
  bool_decide (cp_Required a = cp_Required b) && default_equal (cp_DefaultValue a) (cp_DefaultValue b) &&
  bool_decide (cp_Description a = cp_Description b) &&
  bool_decide (sort_strings (WithDefault (cp_AllowedValues a) []) = sort_strings (WithDefault (cp_AllowedValues b) [])) &&
  bool_decide (cp_ValuesEditableBy a = cp_ValuesEditableBy b).

(** The nil guard for [current] is left out: the properties in the maps of the caller are not nil. *)
Definition K8sOrgCustomPropertyMatchesGitHubCustomProperty (desired : OrgCustomProperty) (current : gh_CustomProperty) : res bool :=
  if negb (IsK8sOrgCustomProperty current) then inl false
  else match ToK8sOrgCustomProperty current with
    | inr err => inr err
    | inl currentK8sRep => inl (property_equal desired currentK8sRep)
    end.

Definition getGitHubDefaultValue (current : OrgCustomProperty) : option any :=
  match cp_DefaultValue current with
  | None => None
  | Some d =>
    if bool_decide (cp_ValueType current = "multi_select") then Some (AStrings (dv_Values d))
    else match dv_Value d with Some v => Some (AString v) | None => Some ANilString end
  end.

Definition ToGitHubCustomProperty (current : OrgCustomProperty) : gh_CustomProperty := {|
  gp_PropertyName := Some (cp_PropertyName current); gp_SourceType := None; gp_ValueType := cp_ValueType current;
  gp_Required := cp_Required current; gp_DefaultValue := getGitHubDefaultValue current;
  gp_Description := cp_Description current; gp_AllowedValues := cp_AllowedValues current;
  gp_ValuesEditableBy := Some (cp_ValuesEditableBy current) |}.

Definition getDefaultValueAsCPV (definition : gh_CustomProperty) : res gh_CustomPropertyValue :=
  let cpv v := {| gv_PropertyName := GetPropertyName definition; gv_Value := Some v |} in
  if bool_decide (gp_ValueType definition = "multi_select") then
    match DefaultValueStrings definition with
    | Some v => inl (cpv (AStrings v))
    | None => inr (conversion_error "default values for required" definition "[]string")
    end
  else if bool_decide (gp_ValueType definition = "true_false") then
    match DefaultValueBool definition with
    | Some v => inl (cpv (AString (bool_text v)))
    | None => inr (conversion_error "default values for required" definition "bool")
    end
  else
    match DefaultValueString definition with
    | Some v => inl (cpv (AString v))
    | None => inr (conversion_error "default value for required" definition "string")
    end.

Definition ToGitHubCustomPropertyValue (cp : CustomPropertyValue) (definition : gh_CustomProperty) : gh_CustomPropertyValue := {|
  gv_PropertyName := GetPropertyName definition;
  gv_Value :=
    if bool_decide (gp_ValueType definition ∈ ["string"; "single_select"; "true_false"]) then AString <$> cpv_Value cp
    else if bool_decide (gp_ValueType definition = "multi_select") then Some (AStrings (cpv_Values cp))
    else None |}.

(** The value of one definition: the declared one, the default of a required property, or none. *)
Definition property_value (rawByName : gmap string CustomPropertyValue) (definition : gh_CustomProperty) : res gh_CustomPropertyValue :=
  match rawByName !! GetPropertyName definition with
  | Some rawCPV => inl (ToGitHubCustomPropertyValue rawCPV definition)
  | None =>
    if WithDefault (gp_Required definition) false then getDefaultValueAsCPV definition
    else inl {| gv_PropertyName := GetPropertyName definition; gv_Value := None |}
  end.

(** The caller ignores the values when there is an error. *)
Definition ToGitHubCustomPropertyValues (raw : list CustomPropertyValue) (definitions : list gh_CustomProperty)
    : res (list gh_CustomPropertyValue) :=
  let rawByName := index_by cpv_PropertyName raw in
  let results := property_value rawByName <$> definitions in
  let values := omap (λ r, match r with inl v => Some v | inr _ => None end) results in
  match errors_join ((λ r, match r with inl _ => None | inr e => Some e end) <$> results) with
  | Some err => inr err
  | None => inl values
  end.
End Mapper.

(** ** orgrec/rec_custom_properties.go *)
Class OrgPropertiesApi (W : Type) := {
  GetAllCustomPropertiesForOrganization : prog W (res (list gh_CustomProperty));
  CreateOrUpdateOrganizationCustomProperties : list gh_CustomProperty → prog W (res (list gh_CustomProperty))
}.

Definition retainOnlyOrgProperties (current : list gh_CustomProperty) : list gh_CustomProperty :=
  filter (λ p, GetSourceType p = CustomPropertySourceTypeOrganization) current.

Definition set_Required (p : OrgCustomProperty) (b : bool) : OrgCustomProperty := {|
  cp_PropertyName := cp_PropertyName p; cp_ValueType := cp_ValueType p; cp_Required := Some b;
  cp_DefaultValue := cp_DefaultValue p; cp_Description := cp_Description p; cp_AllowedValues := cp_AllowedValues p;
  cp_ValuesEditableBy := cp_ValuesEditableBy p |}.
(** [if desired.Required == nil { desired.Required = new(false) }] *)
Definition with_Required (p : OrgCustomProperty) : OrgCustomProperty :=
  match cp_Required p with None => set_Required p false | Some _ => p end.

Section OrgProperties.
Context {DV : DefaultValues} {W : Type} {A : OrgPropertiesApi W}.

Definition getGitHubOrgCustomPropertiesByPropertyName : prog W (res (gmap string gh_CustomProperty)) :=
  let! allCustomProps := GetAllCustomPropertiesForOrganization in
  Ret (match allCustomProps with
    | inr err => inr err
    | inl l => inl (index_by GetPropertyName (filter (λ p, GetPropertyName p ≠ "") (retainOnlyOrgProperties l)))
    end).

(** The loop over the desired properties: whether one of them is new or has to be updated. *)
Fixpoint any_outdated (current : gmap string gh_CustomProperty) (desired : list OrgCustomProperty) : res bool :=
  match desired with
  | [] => inl false
  | d :: desired =>
    match current !! cp_PropertyName d with
    | Some matchingCurrent =>
      match K8sOrgCustomPropertyMatchesGitHubCustomProperty (with_Required d) matchingCurrent with
      | inr err => inr err
      | inl matches => match any_outdated current desired with inl b => inl (negb matches || b) | inr err => inr err end
      end
    | None => match any_outdated current desired with inl _ => inl true | inr err => inr err end
    end
  end.

Definition reconcileOrgCustomProperties (org : Organization) : prog W (option gerror) :=
  let! currentOrgCustomProps := getGitHubOrgCustomPropertiesByPropertyName in
  match currentOrgCustomProps with
  | inr err => Ret (Some err)
  | inl current =>
    let desired := o_CustomProperties (o_Spec org) in
    match any_outdated current desired with
    | inr err => Ret (Some err)
    | inl hasNewOrUpdatedProps =>
      let orgCustomPropsToApply := (λ d, ToGitHubCustomProperty (with_Required d)) <$> desired in
      if hasNewOrUpdatedProps || negb (bool_decide (length orgCustomPropsToApply = size current)) then
        let! updated := CreateOrUpdateOrganizationCustomProperties orgCustomPropsToApply in
        match updated with inr err => Ret (Some err) | inl _ => Ret None end
      else Ret None
    end
  end.
End OrgProperties.

(** ** reporec/rec_custom_properties.go *)
Class RepoPropertiesApi (W : Type) := {
  GetAllCustomPropertyValues : prog W (res (list gh_CustomPropertyValue));
  GetOrgPropertyDefinitions : prog W (res (list gh_CustomProperty)); (* GetAllCustomPropertiesForOrganization *)
  CreateOrUpdateRepositoryCustomProperties : list gh_CustomPropertyValue → prog W (option gerror)
}.

Definition value_equal (a b : option any) : bool :=
  match a, b with
  | Some (AStrings a), Some (AStrings b) => bool_decide (sort_strings a = sort_strings b)
  | _, _ => bool_decide (a = b)
  end.
Definition cpv_equal (a b : gh_CustomPropertyValue) : bool :=
  bool_decide (gv_PropertyName a = gv_PropertyName b) && value_equal (gv_Value a) (gv_Value b).

Definition by_property_name (a b : gh_CustomPropertyValue) : Prop := String.le (gv_PropertyName a) (gv_PropertyName b).
#[export] Instance by_property_name_dec : RelDecision by_property_name.
Proof. intros a b. unfold by_property_name. apply _. Defined.
Fixpoint all_equal (l1 l2 : list gh_CustomPropertyValue) : bool :=
  match l1, l2 with
  | [], [] => true
  | a :: l1, b :: l2 => cpv_equal a b && all_equal l1 l2
  | _, _ => false
  end.
Definition values_equal (a b : list gh_CustomPropertyValue) : bool :=
  all_equal (merge_sort by_property_name a) (merge_sort by_property_name b).

Definition expectedFromDesiredCustomPropertyValues (desiredValues : list gh_CustomPropertyValue) : list gh_CustomPropertyValue :=
  filter (λ v, gv_Value v ≠ None) desiredValues.

Definition reconcileRepoCustomProperties {DV : DefaultValues} {W} {A : RepoPropertiesApi W} (repo : Repository) : prog W (option gerror) :=
  let! currentValues := GetAllCustomPropertyValues in
  match currentValues with
  | inr err => Ret (Some err)
  | inl currentValues =>
    let! definitions := GetOrgPropertyDefinitions in
    match definitions with
    | inr err => Ret (Some err)
    | inl definitions =>
      match ToGitHubCustomPropertyValues (r_CustomProperties (r_Spec repo)) definitions with
      | inr err => Ret (Some err)
      | inl desiredValues =>
        if negb (values_equal currentValues (expectedFromDesiredCustomPropertyValues desiredValues)) then
          CreateOrUpdateRepositoryCustomProperties desiredValues
        else Ret None
      end
    end
  end.

(** ** Theorems *)

(** The documented behaviour of the getters on values as this program writes them. *)
Class DefaultValuesLaws (DV : DefaultValues) : Prop := {
  strings_decoded p l : gp_ValueType p = "multi_select" → gp_DefaultValue p = Some (AStrings l) → DefaultValueStrings p = Some l;
  bool_decoded p b : gp_ValueType p = "true_false" → gp_DefaultValue p = Some (AString (bool_text b)) → DefaultValueBool p = Some b;
  string_decoded p s : gp_ValueType p ∈ ["string"; "single_select"; "url"] → gp_DefaultValue p = Some (AString s) → DefaultValueString p = Some s
}.

(** What GitHub stores for a property of the organization. *)
Definition stored_property (p : gh_CustomProperty) : gh_CustomProperty := {|
  gp_PropertyName := gp_PropertyName p; gp_SourceType := Some CustomPropertySourceTypeOrganization; gp_ValueType := gp_ValueType p;
  gp_Required := gp_Required p;
  gp_DefaultValue := match gp_DefaultValue p with Some ANilString => None | v => v end;
  gp_Description := gp_Description p; gp_AllowedValues := gp_AllowedValues p; gp_ValuesEditableBy := gp_ValuesEditableBy p |}.

(** The default value has the form that belongs to the type of the property. *)
Definition proper_default (ty : string) (d : OrgCustomPropertyDefaultValue) : Prop :=
  if bool_decide (ty = "multi_select") then dv_Value d = None
  else dv_Values d = [] ∧ if bool_decide (ty = "true_false") then ∃ b, dv_Value d = Some (bool_text b) else is_Some (dv_Value d).
Definition proper_property (p : OrgCustomProperty) : Prop :=
  cp_ValueType p ∈ ["string"; "single_select"; "multi_select"; "true_false"] ∧ cp_PropertyName p ≠ "" ∧
  ∀ d, cp_DefaultValue p = Some d → proper_default (cp_ValueType p) d.

Lemma property_equal_refl p : property_equal p p = true.
Proof.
  unfold property_equal, default_equal. destruct (cp_DefaultValue p); by rewrite !bool_decide_true by done.
Qed.

Section Roundtrip.
Context {DV : DefaultValues} {DL : DefaultValuesLaws DV}.

Lemma stored_default p :
  proper_property p → getK8sDefaultValue (stored_property (ToGitHubCustomProperty p)) = inl (cp_DefaultValue p).
Proof.
  intros (Hty & _ & Hd). unfold getK8sDefaultValue. simpl. unfold getGitHubDefaultValue.
  destruct (cp_DefaultValue p) as [d|] eqn:E; [|done]. specialize (Hd d eq_refl). unfold proper_default in Hd.
  case_bool_decide as Hm.
  - erewrite (strings_decoded (DV := DV)); [|done|simpl; unfold getGitHubDefaultValue; rewrite E, bool_decide_true by done; done].
    destruct d. simpl in *. by subst.
  - destruct Hd as [Hnil Hd]. case_bool_decide as Ht.
    + destruct Hd as [b Hb]. rewrite Hb.
      erewrite (bool_decoded (DV := DV) _ b); [|done|simpl; unfold getGitHubDefaultValue; rewrite E, bool_decide_false, Hb by done; done].
      destruct d. simpl in *. by subst.
    + destruct Hd as [v Hv]. rewrite Hv.
      erewrite (string_decoded (DV := DV) _ v);
        [|simpl; set_solver|simpl; unfold getGitHubDefaultValue; rewrite E, bool_decide_false, Hv by done; done].
      destruct d. simpl in *. by subst.
Qed.

(** A property that GitHub stored is recognised as the declared one. *)
Lemma stored_matches p :
  proper_property p →
  K8sOrgCustomPropertyMatchesGitHubCustomProperty p (stored_property (ToGitHubCustomProperty p)) = inl true.
Proof.
  intros Hp. unfold K8sOrgCustomPropertyMatchesGitHubCustomProperty, IsK8sOrgCustomProperty, ToK8sOrgCustomProperty.
  rewrite stored_default by done. cbn. f_equal. destruct p. apply property_equal_refl.
Qed.
End Roundtrip.

(** *** The definitions of an organization *)
Section OrgSynced.
Context {DV : DefaultValues} {DL : DefaultValuesLaws DV} {W : Type} {A : OrgPropertiesApi W}.
Context (store : W → gmap string gh_CustomProperty).

(** GitHub keeps properties by name; the batch call creates or replaces the properties it is given. *)
Class OrgPropertiesLaws : Prop := {
  properties_listed w : match run GetAllCustomPropertiesForOrganization w with
    | (inl l, w') => w' = w ∧ ∀ g, g ∈ l ↔ store w !! GetPropertyName g = Some g
    | (inr _, w') => store w' = store w end;
  properties_applied ps w : NoDup (GetPropertyName <$> ps) →
    match run (CreateOrUpdateOrganizationCustomProperties ps) w with
    | (inl _, w') => (∀ p, p ∈ ps → store w' !! GetPropertyName p = Some (stored_property p)) ∧
        ∀ n, n ∉ GetPropertyName <$> ps → store w' !! n = store w !! n
    | (inr _, _) => True end;
  properties_named w n g : store w !! n = Some g → GetPropertyName g = n
}.
Context {L : OrgPropertiesLaws}.

(** The properties with a name that belong to the organization. *)
Definition org_properties (m : gmap string gh_CustomProperty) : gmap string gh_CustomProperty :=
  filter (λ p, GetSourceType p.2 = CustomPropertySourceTypeOrganization ∧ p.1 ≠ "") m.

Lemma getGitHubOrgCustomPropertiesByPropertyName_spec w :
  match run getGitHubOrgCustomPropertiesByPropertyName w with
  | (inl m, w') => w' = w ∧ m = org_properties (store w)
  | (inr _, w') => store w' = store w
  end.
Proof.
  unfold getGitHubOrgCustomPropertiesByPropertyName. rewrite run_bind. pose proof (properties_listed w) as H.
  destruct (run GetAllCustomPropertiesForOrganization w) as [[l|e] w']; [|done]. destruct H as [-> Hl]. cbn [run]. split; [done|].
  set (l' := filter _ (retainOnlyOrgProperties l)).
  assert (∀ g, g ∈ l' ↔ org_properties (store w) !! GetPropertyName g = Some g) as Hl'.
  { intros g. unfold l', retainOnlyOrgProperties, org_properties.
    rewrite !list_elem_of_filter, map_lookup_filter_Some, Hl. simpl. tauto. }
  apply map_eq. intros n. destruct (index_by GetPropertyName l' !! n) as [g|] eqn:E.
  - apply index_by_Some in E as [Hg <-]. symmetry. by apply Hl'.
  - symmetry. apply eq_None_not_Some. intros [g Hg].
    assert (GetPropertyName g = n) as Hn.
    { unfold org_properties in Hg. apply map_lookup_filter_Some in Hg as [Hg _]. by eapply properties_named. }
    rewrite index_by_None in E. apply (E g); [|done]. apply Hl'. by rewrite Hn.
Qed.

(** [g] is the property [d] as declared. *)
Definition property_matches (m : gmap string gh_CustomProperty) (d : OrgCustomProperty) : Prop :=
  ∃ g, m !! cp_PropertyName d = Some g ∧ K8sOrgCustomPropertyMatchesGitHubCustomProperty (with_Required d) g = inl true.

Lemma any_outdated_spec m desired b :
  any_outdated m desired = inl b → (b = false ↔ ∀ d, d ∈ desired → property_matches m d).
Proof.
  revert b. induction desired as [|d ds IH]; intros b; simpl; [intros [= <-]; set_solver|].
  destruct (m !! cp_PropertyName d) as [g|] eqn:Hd.
  - destruct (K8sOrgCustomPropertyMatchesGitHubCustomProperty _ g) as [matches|e] eqn:Hm; [|done].
    destruct (any_outdated m ds) as [b'|e]; [|done]. intros [= <-]. specialize (IH b' eq_refl).
    rewrite orb_false_iff, negb_false_iff, IH. split.
    + intros [-> Hds] x [->|Hx]%elem_of_cons; [by exists g|by apply Hds].
    + intros H. split; [|intros x Hx; apply H; by right].
      destruct (H d (list_elem_of_here _ _)) as (g' & Hg' & Hm'). congruence.
  - destruct (any_outdated m ds) as [b'|e]; [|done]. intros [= <-]. split; [done|].
    intros H. destruct (H d (list_elem_of_here _ _)) as (g' & Hg' & _). congruence.
Qed.

Lemma with_Required_proper d : proper_property d → proper_property (with_Required d).
Proof. unfold with_Required. by destruct (cp_Required d). Qed.
Lemma with_Required_name d : GetPropertyName (ToGitHubCustomProperty (with_Required d)) = cp_PropertyName d.
Proof. unfold with_Required. by destruct (cp_Required d). Qed.

(** After a successful reconciliation every declared property definition is on GitHub as declared, the other
    properties are as before, and if the definitions agreed from the beginning and there were no others, nothing
    was sent. *)
Theorem reconcileOrgCustomProperties_synced org w w' :
  let desired := o_CustomProperties (o_Spec org) in
  NoDup (cp_PropertyName <$> desired) → Forall proper_property desired →
  run (reconcileOrgCustomProperties org) w = (None, w') →
  (∀ d, d ∈ desired → property_matches (store w') d) ∧
  (∀ n, n ∉ cp_PropertyName <$> desired → store w' !! n = store w !! n) ∧
  ((∀ d, d ∈ desired → property_matches (org_properties (store w)) d) →
    size (org_properties (store w)) = length desired → w' = w).
Proof.
  intros desired Hnd Hproper. unfold reconcileOrgCustomProperties. rewrite run_bind.
  pose proof (getGitHubOrgCustomPropertiesByPropertyName_spec w) as H.
  destruct (run getGitHubOrgCustomPropertiesByPropertyName w) as [[m|e] w1]; [|done]. destruct H as [-> ->]. fold desired.
  destruct (any_outdated _ desired) as [b|e] eqn:Hany; [|done]. apply any_outdated_spec in Hany. rewrite length_fmap.
  assert (∀ d, property_matches (org_properties (store w)) d → property_matches (store w) d) as Hweak.
  { intros d (g & [Hg _]%map_lookup_filter_Some & Hm). by exists g. }
  assert (∀ l : list OrgCustomProperty, GetPropertyName <$> ((λ d, ToGitHubCustomProperty (with_Required d)) <$> l) = cp_PropertyName <$> l) as Hnames.
  { intros l. rewrite <-list_fmap_compose. apply list_fmap_ext. intros i d _. apply with_Required_name. }
  destruct (b || negb _) eqn:Hcond.
  - rewrite run_bind. pose proof (properties_applied ((λ d, ToGitHubCustomProperty (with_Required d)) <$> desired) w) as Happ.
    rewrite Hnames in Happ. specialize (Happ Hnd). destruct (run (CreateOrUpdateOrganizationCustomProperties _) w) as [[r|e] w2]; [|done].
    cbn [run]. intros [= <-]. destruct Happ as [Hset Hother]. split_and!; [|done|].
    + intros d Hd. exists (stored_property (ToGitHubCustomProperty (with_Required d))). split.
      * rewrite <-(with_Required_name d). apply Hset. by apply (list_elem_of_fmap_2 (λ d, ToGitHubCustomProperty (with_Required d))).
      * apply stored_matches, with_Required_proper. by rewrite Forall_forall in Hproper; apply Hproper.
    + intros Hall Hsize. apply orb_true_iff in Hcond as [->|Hne]; [by apply Hany in Hall|].
      by rewrite bool_decide_true in Hne by done.
  - cbn [run]. intros [= <-]. apply orb_false_iff in Hcond as [-> _]. split_and!; [|done|done].
    intros d Hd. by apply Hweak, Hany.
Qed.
End OrgSynced.

(** *** The values of a repository *)
Lemma all_equal_elem l1 l2 :
  all_equal l1 l2 = true →
  (∀ x, x ∈ l1 → ∃ y, y ∈ l2 ∧ cpv_equal x y = true) ∧ (∀ y, y ∈ l2 → ∃ x, x ∈ l1 ∧ cpv_equal x y = true).
Proof.
  revert l2. induction l1 as [|a l1 IH]; intros [|b l2]; simpl; try done; [set_solver|].
  intros [Hab [H1 H2]%IH]%andb_true_iff. split; intros x [->|Hx]%elem_of_cons.
  - exists b. split; [apply list_elem_of_here|done].
  - destruct (H1 x Hx) as (y & ? & ?). exists y. split; [by right|done].
  - exists a. split; [apply list_elem_of_here|done].
  - destruct (H2 x Hx) as (y & ? & ?). exists y. split; [by right|done].
Qed.

(** Sorting both sides, equal lists have equal elements. *)
Lemma values_equal_elem l1 l2 :
  values_equal l1 l2 = true →
  (∀ x, x ∈ l1 → ∃ y, y ∈ l2 ∧ cpv_equal x y = true) ∧ (∀ y, y ∈ l2 → ∃ x, x ∈ l1 ∧ cpv_equal x y = true).
Proof.
  intros [H1 H2]%all_equal_elem. split.
  - intros x Hx. destruct (H1 x) as (y & Hy & ?); [by rewrite merge_sort_Permutation|]. exists y.
    by rewrite merge_sort_Permutation in Hy.
  - intros y Hy. destruct (H2 y) as (x & Hx & ?); [by rewrite merge_sort_Permutation|]. exists x.
    by rewrite merge_sort_Permutation in Hx.
Qed.

Section RepoSynced.
Context {DV : DefaultValues} {W : Type} {A : RepoPropertiesApi W}.
Context (store : W → gmap string any) (definitions : list gh_CustomProperty).

(** GitHub keeps the values that are set; a nil value unsets. *)
Class RepoPropertiesLaws : Prop := {
  values_listed w : match run GetAllCustomPropertyValues w with
    | (inl l, w') => w' = w ∧ l ≡ₚ (λ p, {| gv_PropertyName := p.1; gv_Value := Some p.2 |}) <$> map_to_list (store w)
    | (inr _, _) => True end;
  definitions_listed w : match run GetOrgPropertyDefinitions w with
    | (inl l, w') => l = definitions ∧ w' = w | (inr _, _) => True end;
  values_applied vs w : NoDup (gv_PropertyName <$> vs) →
    match run (CreateOrUpdateRepositoryCustomProperties vs) w with
    | (None, w') => (∀ v, v ∈ vs → store w' !! gv_PropertyName v = gv_Value v) ∧
        ∀ n, n ∉ gv_PropertyName <$> vs → store w' !! n = store w !! n
    | (Some _, _) => True end
}.
Context {L : RepoPropertiesLaws}.

Lemma property_value_name raw d v : property_value raw d = inl v → gv_PropertyName v = GetPropertyName d.
Proof.
  unfold property_value. destruct (raw !! _); [by intros [= <-]|]. case_match; [|by intros [= <-]].
  unfold getDefaultValueAsCPV. repeat case_match; try done; by intros [= <-].
Qed.

Lemma ToGitHubCustomPropertyValues_inl raw vs :
  ToGitHubCustomPropertyValues raw definitions = inl vs →
  Forall2 (λ d v, property_value (index_by cpv_PropertyName raw) d = inl v) definitions vs.
Proof.
  unfold ToGitHubCustomPropertyValues, errors_join. set (m := index_by _ _). clearbody m.
  revert vs. induction definitions as [|d ds IH]; intros vs; simpl; [intros [= <-]; constructor|].
  destruct (property_value m d) as [v|e] eqn:E; simpl; [|done].
  match goal with |- match match ?x with _ => _ end with _ => _ end = _ → _ => destruct x eqn:Ho end; simpl; [|done].
  intros [= <-]. constructor; [done|]. apply IH. unfold omap, fmap. by rewrite Ho.
Qed.

Lemma value_equal_refl v : value_equal v v = true.
Proof. destruct v as [[]|]; by apply bool_decide_eq_true. Qed.

(** After a successful reconciliation every defined property of the repository has the declared value, or its
    default if it is required, or none; values that list several strings may be ordered differently.
    Properties without a definition keep their value. *)
Theorem reconcileRepoCustomProperties_synced repo w w' :
  NoDup (GetPropertyName <$> definitions) →
  run (reconcileRepoCustomProperties repo) w = (None, w') →
  (∀ d, d ∈ definitions → ∃ v, property_value (index_by cpv_PropertyName (r_CustomProperties (r_Spec repo))) d = inl v ∧
    value_equal (store w' !! GetPropertyName d) (gv_Value v) = true) ∧
  (∀ n, n ∉ GetPropertyName <$> definitions → store w' !! n = store w !! n).
Proof.
  intros Hnd. unfold reconcileRepoCustomProperties. rewrite run_bind. pose proof (values_listed w) as Hcur.
  destruct (run GetAllCustomPropertyValues w) as [[cur|e] w1]; [|done]. destruct Hcur as [-> Hcur].
  rewrite run_bind. pose proof (definitions_listed w) as Hdef. destruct (run GetOrgPropertyDefinitions w) as [[defs|e] w1]; [|done].
  destruct Hdef as [-> ->]. destruct (ToGitHubCustomPropertyValues _ _) as [vs|e] eqn:Hvs; [|done].
  apply ToGitHubCustomPropertyValues_inl in Hvs. set (m := index_by _ _) in *.
  assert (gv_PropertyName <$> vs = GetPropertyName <$> definitions) as Hnames.
  { symmetry. apply list_eq_Forall2, Forall2_fmap. eapply Forall2_impl; [done|]. intros d v Hv. symmetry. exact (property_value_name _ _ _ Hv). }
  destruct (values_equal cur _) eqn:Heq; cbn [negb run].
  - intros [= <-]. split; [|done]. apply values_equal_elem in Heq as [H1 H2].
    intros d Hd. apply list_elem_of_lookup in Hd as [i Hi]. destruct (Forall2_lookup_l _ _ _ _ _ Hvs Hi) as (v & Hiv & Hv).
    exists v. split; [done|]. apply property_value_name in Hv as Hn. rewrite <-Hn.
    assert (v ∈ vs) as Hin by (by eapply list_elem_of_lookup_2).
    destruct (gv_Value v) as [x|] eqn:Hx.
    + destruct (H2 v) as (c & Hc & [Hcn%bool_decide_eq_true Hce]%andb_true_iff).
      { apply list_elem_of_filter. split; [congruence|done]. }
      rewrite Hcur in Hc. apply list_elem_of_fmap in Hc as ([n y] & -> & Hny%elem_of_map_to_list). simpl in *.
      rewrite <-Hcn, Hny, <-Hx. done.
    + destruct (store w !! gv_PropertyName v) as [y|] eqn:Hy; [|done]. exfalso.
      destruct (H1 {| gv_PropertyName := gv_PropertyName v; gv_Value := Some y |}) as (e & He & [Hen%bool_decide_eq_true _]%andb_true_iff).
      { rewrite Hcur. apply list_elem_of_fmap. exists (gv_PropertyName v, y). split; [done|]. by apply elem_of_map_to_list. }
      apply list_elem_of_filter in He as [Hne He]. simpl in Hen.
      assert (v = e) as -> by (apply (NoDup_key_inj gv_PropertyName vs); [by rewrite Hnames|done..]). done.
  - intros Hrun. pose proof (values_applied vs w) as Happ. rewrite Hnames in Happ. specialize (Happ Hnd). rewrite Hrun in Happ.
    destruct Happ as [Hset Hother]. split; [|done].
    intros d Hd. apply list_elem_of_lookup in Hd as [i Hi]. destruct (Forall2_lookup_l _ _ _ _ _ Hvs Hi) as (v & Hiv & Hv).
    exists v. split; [done|]. apply property_value_name in Hv as Hn. rewrite <-Hn, Hset by (by eapply list_elem_of_lookup_2).
    apply value_equal_refl.
Qed.
End RepoSynced.

(** ** Concrete instances *)
Module ToyProperties.
(** A GitHub package that decodes what [stored_property] keeps. *)
#[export] Instance defaults : DefaultValues := {|
  DefaultValueStrings p := match gp_DefaultValue p with Some (AStrings l) => Some l | _ => None end;
  DefaultValueBool p := match gp_DefaultValue p with
    | Some (AString s) => if bool_decide (s = "true") then Some true else if bool_decide (s = "false") then Some false else None
    | _ => None end;
  DefaultValueString p := match gp_DefaultValue p with Some (AString s) => Some s | _ => None end |}.
#[export] Instance defaults_laws : DefaultValuesLaws defaults.
Proof. split; simpl; [by intros p l _ ->|by intros p [] _ ->|by intros p s _ ->]. Qed.

(** The properties of an organization, under their names. *)
Definition org_store (w : gmap string gh_CustomProperty) : gmap string gh_CustomProperty :=
  filter (λ p, GetPropertyName p.2 = p.1) w.
Definition org_apply (ps : list gh_CustomProperty) (w : gmap string gh_CustomProperty) : gmap string gh_CustomProperty :=
  list_to_map ((λ p, (GetPropertyName p, stored_property p)) <$> ps) ∪ w.
Definition org_list (w : gmap string gh_CustomProperty) : res (list gh_CustomProperty) := inl (snd <$> map_to_list (org_store w)).
#[export] Instance org_api : OrgPropertiesApi (gmap string gh_CustomProperty) := {|
  GetAllCustomPropertiesForOrganization := gets org_list;
  CreateOrUpdateOrganizationCustomProperties ps := call (λ w, (inl ps, org_apply ps w)) |}.

Lemma org_store_lookup w n g : org_store w !! n = Some g ↔ w !! n = Some g ∧ GetPropertyName g = n.
Proof. apply map_lookup_filter_Some. Qed.

#[export] Instance org_laws : OrgPropertiesLaws org_store.
Proof.
  split.
  - intros w. simpl. split; [done|]. intros g. rewrite list_elem_of_fmap. split.
    + intros ([n g'] & -> & Hn%elem_of_map_to_list). simpl. by destruct (proj1 (org_store_lookup _ _ _) Hn) as [_ ->].
    + intros Hg. exists (GetPropertyName g, g). split; [done|]. by apply elem_of_map_to_list.
  - intros ps w Hnd. simpl. set (pairs := (λ p, (GetPropertyName p, stored_property p)) <$> ps).
    assert (pairs.*1 = GetPropertyName <$> ps) as Hfst by (unfold pairs; by rewrite <-list_fmap_compose). split.
    + intros p Hp. apply org_store_lookup. split; [|done]. unfold org_apply. fold pairs. apply lookup_union_Some_l.
      apply elem_of_list_to_map_1; [by rewrite Hfst|]. apply list_elem_of_fmap. by exists p.
    + intros n Hn. apply option_eq. intros g. rewrite !org_store_lookup. unfold org_apply. fold pairs.
      rewrite lookup_union_r; [done|]. apply not_elem_of_list_to_map_1. by rewrite Hfst.
  - intros w n g. by intros [_ ?]%org_store_lookup.
Qed.

(** The values of a repository. *)
Definition values_apply (vs : list gh_CustomPropertyValue) (w : gmap string any) : gmap string any :=
  omap id (list_to_map ((λ v, (gv_PropertyName v, gv_Value v)) <$> vs) : gmap string (option any)) ∪
  filter (λ p, p.1 ∉ gv_PropertyName <$> vs) w.
Definition definition (name : string) (ty : string) (required : bool) (default : option any) : gh_CustomProperty := {|
  gp_PropertyName := Some name; gp_SourceType := Some "organization"; gp_ValueType := ty; gp_Required := Some required;
  gp_DefaultValue := default; gp_Description := None; gp_AllowedValues := None; gp_ValuesEditableBy := None |}.
Definition definitions : list gh_CustomProperty :=
  [definition "tier" "string" true (Some (AString "low")); definition "tags" "multi_select" false None;
   definition "owner" "string" false None].
Definition values_list (w : gmap string any) : res (list gh_CustomPropertyValue) :=
  inl ((λ p, {| gv_PropertyName := p.1; gv_Value := Some p.2 |}) <$> map_to_list w).
#[export] Instance repo_api : RepoPropertiesApi (gmap string any) := {|
  GetAllCustomPropertyValues := gets values_list;
  GetOrgPropertyDefinitions := Ret (inl definitions);
  CreateOrUpdateRepositoryCustomProperties vs := call (λ w, (None, values_apply vs w)) |}.
#[export] Instance repo_laws : RepoPropertiesLaws id definitions.
Proof.
  split; [done|done|]. intros vs w Hnd. simpl. unfold values_apply.
  set (pairs := (λ v, (gv_PropertyName v, gv_Value v)) <$> vs).
  assert (pairs.*1 = gv_PropertyName <$> vs) as Hfst by (unfold pairs; by rewrite <-list_fmap_compose).
  assert (∀ n, n ∉ gv_PropertyName <$> vs → (list_to_map pairs : gmap string (option any)) !! n = None) as Hnone.
  { intros n Hn. apply not_elem_of_list_to_map_1. by rewrite Hfst. }
  split.
  - intros v Hv. rewrite lookup_union, lookup_omap, (elem_of_list_to_map_1 _ _ (gv_Value v)); [|by rewrite Hfst|].
    + rewrite map_lookup_filter_None_2; [by destruct (gv_Value v)|]. right. intros x _. simpl. intros Hn. apply Hn.
      by apply list_elem_of_fmap_2.
    + apply list_elem_of_fmap. by exists v.
  - intros n Hn. rewrite lookup_union, lookup_omap, Hnone by done. rewrite (left_id_L None _). apply option_eq. intros x.
    rewrite map_lookup_filter_Some. naive_solver.
Qed.

Definition tier : OrgCustomProperty := {|
  cp_PropertyName := "tier"; cp_ValueType := "true_false"; cp_Required := None;
  cp_DefaultValue := Some {| dv_Value := Some "true"; dv_Values := [] |}; cp_Description := None; cp_AllowedValues := None;
  cp_ValuesEditableBy := "org_actors" |}.
(** "tier" is to be changed, "owner" belongs to nobody and stays. *)
Definition org_before : gmap string gh_CustomProperty :=
  list_to_map [("tier", definition "tier" "string" false None); ("owner", definition "owner" "string" false None)].
Definition repo_before : gmap string any :=
  list_to_map [("tags", AStrings ["b"; "a"]); ("owner", AString "me"); ("other", AString "x")].
Definition org : Organization := Samples.org Samples.no_actions [tier] [] [].
Definition repo : Repository :=
  Samples.repo "r" [{| cpv_Value := None; cpv_Values := ["a"; "b"]; cpv_PropertyName := "tags" |}] [].
Definition org_after := (run (reconcileOrgCustomProperties org) org_before).2.
Definition repo_after := (run (reconcileRepoCustomProperties repo) repo_before).2.
End ToyProperties.
Import ToyProperties.

Lemma reconcileOrgCustomProperties_synced_witness :
  run (reconcileOrgCustomProperties org) org_before = (None, org_after) ∧ property_matches (org_store org_after) tier ∧
    org_store org_after !! "owner" = org_store org_before !! "owner".
Proof.
  split; [vm_compute; reflexivity|].
  destruct (reconcileOrgCustomProperties_synced org_store org org_before org_after) as (H1 & H2 & _).
  4: { split; [apply H1; by left|apply H2]. simpl. set_solver. }
  - simpl. apply NoDup_singleton.
  - constructor; [|done]. split_and!; [set_solver|done|]. intros d [= <-]. split; [done|]. exists true. reflexivity.
  - vm_compute. reflexivity.
Defined.

Lemma reconcileRepoCustomProperties_synced_witness :
  run (reconcileRepoCustomProperties repo) repo_before = (None, repo_after) ∧
    (∃ v, value_equal (repo_after !! "tier") v = true) ∧ repo_after !! "other" = Some (AString "x").
Proof.
  split; [vm_compute; reflexivity|].
  destruct (reconcileRepoCustomProperties_synced id definitions repo repo_before repo_after) as [H1 H2].
  3: { split.
    - destruct (H1 (definition "tier" "string" true (Some (AString "low")))) as (v & _ & Hv); [by left|]. by exists (gv_Value v).
    - etrans; [apply (H2 "other")|reflexivity]. simpl. set_solver. }
  - simpl. repeat constructor; set_solver.
  - vm_compute. reflexivity.
Defined.

(** A property that is no longer desired is never removed: the call is made in every run and leaves it. *)
Lemma undesired_property_stays :
  let run_once w := run (reconcileOrgCustomProperties org) w in
  let w1 := (run_once org_before).2 in
  (run_once org_before).1 = None ∧ (run_once w1).1 = None ∧ is_Some (w1 !! "owner") ∧
  (run_once w1).2 = w1 ∧ size (org_properties (org_store w1)) ≠ length (o_CustomProperties (o_Spec org)).
Proof. vm_compute. split_and!; [done|done|by eexists|done|lia]. Qed.
