(* ===== verification/OrgRec.v ===== *)
(** * Organizations: settings and deletion

    internal/mapper/github_org_mapper.go, internal/reconciler/orgrec/rec_org.go and the deletion of
    orgrec/reconciler.go.  The other reconciliations of an organization are in CustomProps, RulesetRec, OrgActions and
    Csc. *)
From S2P Require Import Prelude GoErrors Conditions ApiTypes.

(** ** github_org_mapper.go *)

(** [github.Organization], as far as it is read or sent. *)
Record gh_Organization := {
  go_Login : option string; go_Name : option string; go_Description : option string; go_Location : option string;
  go_Blog : option string; go_DefaultRepoPermission : option string;
  go_MembersCanCreatePages : option bool; go_MembersCanCreatePublicPages : option bool;
  go_MembersCanCreatePrivatePages : option bool; go_MembersCanCreatePublicRepos : option bool;
  go_MembersCanCreatePrivateRepos : option bool; go_MembersCanForkPrivateRepos : option bool;
  go_MembersCanCreateInternalRepos : option bool }.

(** A privilege of the spec, if there are privileges. *)
Definition privilege {A} (f : OrganizationMemberPrivileges → option A) (organization : Organization) : option A :=
  match o_MemberPrivileges (o_Spec organization) with Some mp => f mp | None => None end.

Definition OrgToGithubOrg (organization : Organization) : gh_Organization :=
  let nonempty s := if bool_decide (s ≠ "") then Some s else None in
  {| go_Login := Some (GetLogin organization);
     go_Name := Some (GetDisplayName organization);
     go_Description := Some (o_Description (o_Spec organization));
     go_Location := nonempty (o_Location (o_Spec organization));
     go_Blog := nonempty (o_Website (o_Spec organization));
     go_DefaultRepoPermission := privilege mp_DefaultRepositoryPermission organization;
     go_MembersCanCreatePages := privilege mp_MembersCanCreatePages organization;
     go_MembersCanCreatePublicPages := privilege mp_MembersCanCreatePublicPages organization;
     go_MembersCanCreatePrivatePages := privilege mp_MembersCanCreatePrivatePages organization;
     go_MembersCanCreatePublicRepos := privilege mp_MembersCanCreatePublicRepositories organization;
     go_MembersCanCreatePrivateRepos := privilege mp_MembersCanCreatePrivateRepositories organization;
     go_MembersCanForkPrivateRepos := privilege mp_MembersCanForkPrivateRepositories organization;
     go_MembersCanCreateInternalRepos :=
       if HasEnterpriseFeatures organization then privilege mp_MembersCanCreateInternalRepositories organization else None |}.

Definition privilegeDiffers `{EqDecision A} (ghValue specValue : option A) : bool :=
  bool_decide (is_Some specValue) && negb (bool_decide (ghValue = specValue)).

Definition OrgDiffers (org : Organization) (githubOrg : gh_Organization) : bool :=
  if bool_decide (GetLogin org ≠ WithDefault (go_Login githubOrg) "") then true
  else if bool_decide (GetDisplayName org ≠ WithDefault (go_Name githubOrg) "") then true
  else if bool_decide (o_Description (o_Spec org) ≠ WithDefault (go_Description githubOrg) "") then true
  else if bool_decide (o_Location (o_Spec org) ≠ WithDefault (go_Location githubOrg) "") then true
  else if bool_decide (o_Website (o_Spec org) ≠ WithDefault (go_Blog githubOrg) "") then true
  else match o_MemberPrivileges (o_Spec org) with
    | None => false
    | Some mp =>
      privilegeDiffers (go_DefaultRepoPermission githubOrg) (mp_DefaultRepositoryPermission mp) ||
      privilegeDiffers (go_MembersCanCreatePages githubOrg) (mp_MembersCanCreatePages mp) ||
      privilegeDiffers (go_MembersCanCreatePublicPages githubOrg) (mp_MembersCanCreatePublicPages mp) ||
      privilegeDiffers (go_MembersCanCreatePrivatePages githubOrg) (mp_MembersCanCreatePrivatePages mp) ||
      privilegeDiffers (go_MembersCanCreatePublicRepos githubOrg) (mp_MembersCanCreatePublicRepositories mp) ||
      privilegeDiffers (go_MembersCanCreatePrivateRepos githubOrg) (mp_MembersCanCreatePrivateRepositories mp) ||
      privilegeDiffers (go_MembersCanForkPrivateRepos githubOrg) (mp_MembersCanForkPrivateRepositories mp) ||
      (HasEnterpriseFeatures org &&
        privilegeDiffers (go_MembersCanCreateInternalRepos githubOrg) (mp_MembersCanCreateInternalRepositories mp))
    end.

(** ** rec_org.go *)
Class OrgApi (W : Type) := {
  GetOrganization : prog W (res (option gh_Organization));
  EditOrganization : gh_Organization → prog W (res gh_Organization)
}.

Definition reconcileOrganization {W} {A : OrgApi W} (org : Organization) : prog W (option gerror) :=
  let! ghOrg := GetOrganization in
  match ghOrg with
  | inr err => Ret (Some err)
  | inl None => Ret (Some (EPlain "received nil organization from GitHub"))
  | inl (Some ghOrg) =>
    if negb (OrgDiffers org ghOrg) then Ret None
    else
      let! edited := EditOrganization (OrgToGithubOrg org) in
      Ret (match edited with inr err => Some err | inl _ => None end)
  end.

(** ** reconciler.go: deletion *)
Definition OrganizationStillHasReposError : gerror := EFinalizationFailed "organization still has repositories, cannot delete it".
Definition OrganizationStillHasTeamsError : gerror := EFinalizationFailed "organization still has teams, cannot delete it".

(** [client.List] by namespace and the value of an indexed field. *)
Class ListApi (W : Type) := {
  ListRepositories : string → string → string → prog W (res (list Repository));
  ListTeams : string → string → string → prog W (res (list Team))
}.

Section Deletion.
Context {W : Type} {A : ListApi W}.
Implicit Types org : Organization.

Definition getReferencingK8sRepos org : prog W (res (list Repository)) :=
  ListRepositories (Namespace (o_Meta org)) "spec.organizationRef.name" (Name (o_Meta org)).

Definition checkForExistingRepos org : prog W (option gerror) :=
  let! repos := getReferencingK8sRepos org in
  Ret (match repos with
    | inr err => Some err
    | inl repos => if bool_decide (0 < length repos)%nat then Some OrganizationStillHasReposError else None
    end).

Definition checkForExistingTeams org : prog W (option gerror) :=
  let! teams := ListTeams (Namespace (o_Meta org)) "spec.organizationRefs.name" (Name (o_Meta org)) in
  Ret (match teams with
    | inr err => Some err
    | inl teams => if bool_decide (0 < length teams)%nat then Some OrganizationStillHasTeamsError else None
    end).

Definition ReconcileOrgDeletion org : prog W (option gerror) :=
  check checkForExistingRepos org in
  check checkForExistingTeams org in
  Ret None.
End Deletion.

(** ** Theorems *)

(** What GitHub keeps of an edit: fields that are not sent stay, and the login cannot be edited. *)
Definition edit_org (upd old : gh_Organization) : gh_Organization :=
  let keep {X} (f : gh_Organization → option X) := match f upd with Some v => Some v | None => f old end in
  {| go_Login := go_Login old; go_Name := keep go_Name; go_Description := keep go_Description;
     go_Location := keep go_Location; go_Blog := keep go_Blog; go_DefaultRepoPermission := keep go_DefaultRepoPermission;
     go_MembersCanCreatePages := keep go_MembersCanCreatePages;
     go_MembersCanCreatePublicPages := keep go_MembersCanCreatePublicPages;
     go_MembersCanCreatePrivatePages := keep go_MembersCanCreatePrivatePages;
     go_MembersCanCreatePublicRepos := keep go_MembersCanCreatePublicRepos;
     go_MembersCanCreatePrivateRepos := keep go_MembersCanCreatePrivateRepos;
     go_MembersCanForkPrivateRepos := keep go_MembersCanForkPrivateRepos;
     go_MembersCanCreateInternalRepos := keep go_MembersCanCreateInternalRepos |}.

(** A setting that the spec cleared and GitHub still has. *)
Definition uncleared (spec : string) (on_github : option string) : Prop := spec = "" ∧ WithDefault on_github "" ≠ "".

Lemma privilegeDiffers_edit `{EqDecision A} (spec old : option A) :
  privilegeDiffers (match spec with Some v => Some v | None => old end) spec = false.
Proof. unfold privilegeDiffers. destruct spec; [|done]. by rewrite (bool_decide_true (Some a = Some a)). Qed.

Lemma nonempty_kept (s : string) (old : option string) :
  s ≠ WithDefault (match (if bool_decide (s ≠ "") then Some s else None) with Some v => Some v | None => old end) "" ↔
  uncleared s old.
Proof. unfold uncleared. case_bool_decide as Hs; simpl; [naive_solver|]. rewrite Hs. naive_solver. Qed.

(** Sending the settings of an organization makes GitHub agree with the spec, except exactly when the
    login differs or the location or website of the spec is empty and GitHub has one: these are never sent or
    never accepted, so that the difference remains. *)
Lemma OrgDiffers_after_edit org g :
  OrgDiffers org (edit_org (OrgToGithubOrg org) g) = true ↔
  GetLogin org ≠ WithDefault (go_Login g) "" ∨ uncleared (o_Location (o_Spec org)) (go_Location g) ∨
  uncleared (o_Website (o_Spec org)) (go_Blog g).
Proof.
  unfold OrgDiffers. rewrite <-(nonempty_kept (o_Location (o_Spec org))), <-(nonempty_kept (o_Website (o_Spec org))).
  cbn [edit_org OrgToGithubOrg go_Login go_Name go_Description go_Location go_Blog WithDefault].
  set (loc := match _ with Some v => Some v | None => go_Location g end).
  set (web := match _ with Some v => Some v | None => go_Blog g end). clearbody loc web.
  case_bool_decide as Hlogin; [by split; [left|]|]. rewrite !bool_decide_false by (intros Hn; by apply Hn).
  case_bool_decide as Hloc; [by split; [right; left|]|]. case_bool_decide as Hweb; [by split; [right; right|]|].
  split; [|tauto]. unfold edit_org, OrgToGithubOrg, privilege. cbn.
  destruct (o_MemberPrivileges (o_Spec org)) as [mp|]; [|done]. rewrite !privilegeDiffers_edit.
  destruct (HasEnterpriseFeatures org); [by rewrite privilegeDiffers_edit|done].
Qed.

Section Synced.
Context {W : Type} {A : OrgApi W} (org_of : W → gh_Organization).
Class OrgLaws : Prop := {
  org_read w : match run GetOrganization w with
    | (inl g, w') => g = Some (org_of w) ∧ w' = w | (inr _, w') => org_of w' = org_of w end;
  org_edited upd w : match run (EditOrganization upd) w with
    | (inl _, w') => org_of w' = edit_org upd (org_of w) | (inr _, _) => True end
}.
Context {L : OrgLaws}.

(** After a successful reconciliation the organization on GitHub agrees with the spec, unless the login
    differs or a location or website is to be cleared; if it agreed before, nothing was sent. *)
Theorem reconcileOrganization_synced org w w' :
  run (reconcileOrganization org) w = (None, w') →
  (GetLogin org = WithDefault (go_Login (org_of w)) "" →
   ¬ uncleared (o_Location (o_Spec org)) (go_Location (org_of w)) →
   ¬ uncleared (o_Website (o_Spec org)) (go_Blog (org_of w)) →
   OrgDiffers org (org_of w') = false) ∧
  (OrgDiffers org (org_of w) = false → w' = w).
Proof.
  unfold reconcileOrganization. rewrite run_bind. pose proof (org_read w) as Hr.
  destruct (run GetOrganization w) as [[g|e] w1]; [|done]. destruct Hr as [-> ->].
  destruct (OrgDiffers org (org_of w)) eqn:Hd; cbn [negb]; [|intros [= <-]; done].
  rewrite run_bind. pose proof (org_edited (OrgToGithubOrg org) w) as He.
  destruct (run (EditOrganization _) w) as [[g|e] w2]; [|done]. intros [= <-]. split; [|done].
  intros Hlogin Hloc Hweb. rewrite He. apply not_true_is_false. intros Ht%OrgDiffers_after_edit. tauto.
Qed.
End Synced.

Section DeletionSpec.
Context {W : Type} {A : ListApi W} (repos : W → list Repository) (teams : W → list Team).
(** The cluster answers a list call by the indexed field with the objects that match. *)
Class ListLaws : Prop := {
  repositories_listed ns n w : match run (ListRepositories ns "spec.organizationRef.name" n) w with
    | (inl l, w') => w' = w ∧ ∀ r, r ∈ l ↔ r ∈ repos w ∧ Namespace (r_Meta r) = ns ∧ r_OrganizationRef (r_Spec r) = n
    | (inr _, w') => w' = w end;
  teams_listed ns n w : match run (ListTeams ns "spec.organizationRefs.name" n) w with
    | (inl l, w') => w' = w ∧ ∀ t, t ∈ l ↔ t ∈ teams w ∧ Namespace (t_Meta t) = ns ∧ n ∈ t_OrganizationRefs (t_Spec t)
    | (inr _, w') => w' = w end
}.
Context {L : ListLaws}.

Lemma no_elements {X} (l : list X) : ¬ (0 < length l)%nat → l = [].
Proof. destruct l; simpl; [done|lia]. Qed.

(** The deletion of an organization changes nothing; it succeeds only if no repository and no team of
    the namespace refers to the organization, and reports remaining repositories, then remaining teams. *)
Theorem ReconcileOrgDeletion_spec org w :
  let refers_repo r := Namespace (r_Meta r) = Namespace (o_Meta org) ∧ r_OrganizationRef (r_Spec r) = Name (o_Meta org) in
  let refers_team t := Namespace (t_Meta t) = Namespace (o_Meta org) ∧ Name (o_Meta org) ∈ t_OrganizationRefs (t_Spec t) in
  let '(err, w') := run (ReconcileOrgDeletion org) w in
  w' = w ∧
  (err = None → (∀ r, r ∈ repos w → ¬ refers_repo r) ∧ (∀ t, t ∈ teams w → ¬ refers_team t)) ∧
  (err = None ∨ (err = Some OrganizationStillHasReposError ∧ ∃ r, r ∈ repos w ∧ refers_repo r) ∨
   (err = Some OrganizationStillHasTeamsError ∧ ∃ t, t ∈ teams w ∧ refers_team t) ∨
   (∃ e, err = Some e ∧ (run (getReferencingK8sRepos org) w = (inr e, w) ∨
      run (ListTeams (Namespace (o_Meta org)) "spec.organizationRefs.name" (Name (o_Meta org))) w = (inr e, w)))).
Proof.
  intros refers_repo refers_team. unfold ReconcileOrgDeletion, checkForExistingRepos, checkForExistingTeams, getReferencingK8sRepos.
  rewrite !run_bind. pose proof (repositories_listed (Namespace (o_Meta org)) (Name (o_Meta org)) w) as Hr.
  destruct (run (ListRepositories _ _ _) w) as [[l|e] w1] eqn:E1; cbn [run].
  2: { subst. split_and!; [done|done|]. right; right; right. exists e. split; [done|]. by left. }
  destruct Hr as [-> Hl]. case_bool_decide as Hlen; cbn [run].
  { split_and!; [done|done|]. right; left. split; [done|]. destruct l as [|r l]; simpl in Hlen; [lia|].
    exists r. apply Hl. by left. }
  apply no_elements in Hlen as ->.
  rewrite !run_bind. pose proof (teams_listed (Namespace (o_Meta org)) (Name (o_Meta org)) w) as Ht.
  destruct (run (ListTeams _ _ _) w) as [[ts|e] w1] eqn:E2; cbn [run].
  2: { subst. split_and!; [done|done|]. right; right; right. exists e. split; [done|]. by right. }
  destruct Ht as [-> Hts]. case_bool_decide as Hlen; cbn [run].
  { split_and!; [done|done|]. right; right; left. split; [done|]. destruct ts as [|t ts]; simpl in Hlen; [lia|].
    exists t. apply Hts. by left. }
  apply no_elements in Hlen as ->.
  split_and!; [done| |by left]. intros _. split.
  - intros r Hin Href. eapply not_elem_of_nil, Hl. by split.
  - intros t Hin Href. eapply not_elem_of_nil, Hts. by split.
Qed.
End DeletionSpec.

(** ** Concrete instances *)
Module ToyOrg.
#[export] Instance org_api : OrgApi gh_Organization := {|
  GetOrganization := gets (λ g, inl (Some g));
  EditOrganization upd := call (λ g, (inl (edit_org upd g), edit_org upd g)) |}.
#[export] Instance org_laws : OrgLaws id.
Proof. split; done. Qed.

#[export] Instance list_api : ListApi (list Repository * list Team) := {|
  ListRepositories ns field v := gets (λ w, inl (filter (λ r, Namespace (r_Meta r) = ns ∧ r_OrganizationRef (r_Spec r) = v) w.1));
  ListTeams ns field v := gets (λ w, inl (filter (λ t, Namespace (t_Meta t) = ns ∧ v ∈ t_OrganizationRefs (t_Spec t)) w.2)) |}.
#[export] Instance list_laws : ListLaws fst snd.
Proof.
  split; intros ns n w; simpl; (split; [done|]); intros x; rewrite list_elem_of_filter; tauto.
Qed.

Definition on_github (location : option string) : gh_Organization := {|
  go_Login := Some "acme"; go_Name := Some "Old Name"; go_Description := None; go_Location := location; go_Blog := None;
  go_DefaultRepoPermission := None; go_MembersCanCreatePages := None; go_MembersCanCreatePublicPages := None;
  go_MembersCanCreatePrivatePages := None; go_MembersCanCreatePublicRepos := None; go_MembersCanCreatePrivateRepos := None;
  go_MembersCanForkPrivateRepos := None; go_MembersCanCreateInternalRepos := None |}.
Definition org : Organization := Samples.org Samples.no_actions [] [] [].
Definition after : gh_Organization := (run (reconcileOrganization org) (on_github None)).2.
End ToyOrg.
Import ToyOrg.

Lemma reconcileOrganization_synced_witness :
  run (reconcileOrganization org) (on_github None) = (None, after) ∧ OrgDiffers org after = false.
Proof.
  split; [vm_compute; reflexivity|].
  apply (reconcileOrganization_synced id org (on_github None) after); [vm_compute; reflexivity|reflexivity|..]; by intros [_ H].
Defined.

Lemma ReconcileOrgDeletion_spec_witness :
  run (ReconcileOrgDeletion org) ([Samples.repo "r" [] []], []) = (Some OrganizationStillHasReposError, ([Samples.repo "r" [] []], [])).
Proof.
  pose proof (ReconcileOrgDeletion_spec fst snd org ([Samples.repo "r" [] []], [])) as H.
  destruct (run _ _) as [err w'] eqn:E. destruct H as (-> & _ & _). rewrite <-E. vm_compute. reflexivity.
Defined.

(** A location that is removed from the spec stays on GitHub, and the organization is edited in every run. *)
Lemma cleared_location_stays :
  let run_once w := run (reconcileOrganization org) w in
  let w1 := (run_once (on_github (Some "Mars"))).2 in
  (run_once w1).1 = None ∧ OrgDiffers org w1 = true ∧ (run_once w1).2 = w1 ∧ go_Location w1 = Some "Mars".
Proof. by vm_compute. Qed.
