(* ===== verification/OrgActions.v ===== *)
(** * GitHub Actions settings of organizations and repositories

    internal/reconciler/orgrec/rec_actions_settings.go, reporec/rec_actions_settings.go and
    internal/mapper/github_actions_settings.go.  Slices that [cmp.Equal] compares without [EquateEmpty] are options
    of lists, because it tells nil from empty. *)
From S2P Require Import Prelude GoErrors Conditions ApiTypes OrgRec.

(** ** The GitHub side *)
Record gh_ActionsPermissions := {
  pm_EnabledRepositories : string; pm_AllowedActions : option string; pm_SHAPinningRequired : option bool }.
Record gh_ActionsAllowed := {
  aa_GithubOwnedAllowed : option bool; aa_VerifiedAllowed : option bool; aa_PatternsAllowed : option (list string) }.
Record gh_DefaultWorkflowPermission := {
  wp_DefaultWorkflowPermissions : option string; wp_CanApprovePullRequestReviews : option bool }.
Record gh_RunnerGroup := {
  gg_ID : Z; gg_Name : string; gg_Visibility : option string; gg_RestrictedToWorkflows : option bool;
  gg_SelectedWorkflows : option (list string) }.
Record CreateRunnerGroupRequest := {
  cg_Name : string; cg_Visibility : option string; cg_SelectedRepositoryIDs : option (list Z);
  cg_RestrictedToWorkflows : option bool; cg_SelectedWorkflows : option (list string) }.
Record UpdateRunnerGroupRequest := {
  ug_Name : string; ug_Visibility : option string; ug_RestrictedToWorkflows : option bool;
  ug_SelectedWorkflows : option (list string) }.

#[export] Instance gh_ActionsPermissions_eq : EqDecision gh_ActionsPermissions. Proof. solve_decision. Defined.

(** ** github_actions_settings.go *)

(** [cmp.Equal] with [SortSlices]. *)
Definition sorted_equal (a b : option (list string)) : bool := bool_decide (sort_strings <$> a = sort_strings <$> b).

Definition both_or_neither {A B} (eq : A → B → bool) (a : option A) (b : option B) : bool :=
  match a, b with None, None => true | Some a, Some b => eq a b | _, _ => false end.

Definition EqualActionsPermissions : option gh_ActionsPermissions → option gh_ActionsPermissions → bool :=
  both_or_neither (λ configuration current,
    bool_decide (pm_SHAPinningRequired configuration = pm_SHAPinningRequired current) &&
    bool_decide (pm_AllowedActions configuration = pm_AllowedActions current) &&
    bool_decide (pm_EnabledRepositories configuration = pm_EnabledRepositories current)).

Definition EqualActionsAllowed : option gh_ActionsAllowed → option gh_ActionsAllowed → bool :=
  both_or_neither (λ actions current,
    bool_decide (aa_GithubOwnedAllowed actions = aa_GithubOwnedAllowed current) &&
    bool_decide (aa_VerifiedAllowed actions = aa_VerifiedAllowed current) &&
    sorted_equal (aa_PatternsAllowed actions) (aa_PatternsAllowed current)).

Definition EqualDefaultWorkflowPermissions : option gh_DefaultWorkflowPermission → option gh_DefaultWorkflowPermission → bool :=
  both_or_neither (λ expected current,
    bool_decide (wp_DefaultWorkflowPermissions expected = wp_DefaultWorkflowPermissions current) &&
    bool_decide (wp_CanApprovePullRequestReviews expected = wp_CanApprovePullRequestReviews current)).

Definition EqualRunnerGroup (k8sGroup : RunnerGroup) (ghGroup : gh_RunnerGroup) : bool :=
  let equalRestrictedToWorkflows := bool_decide (rg_RestrictedToWorkflows k8sGroup = gg_RestrictedToWorkflows ghGroup) in
  let equalSelectedWorkflows :=
    if equalRestrictedToWorkflows && WithDefault (rg_RestrictedToWorkflows k8sGroup) false
    then sorted_equal (rg_SelectedWorkflows k8sGroup) (gg_SelectedWorkflows ghGroup)
    else true in
  bool_decide (rg_Name k8sGroup = gg_Name ghGroup) && equalRestrictedToWorkflows &&
  bool_decide (rg_Visibility k8sGroup = gg_Visibility ghGroup) && equalSelectedWorkflows.

Definition GetSelectedRepositoryIDsForRunnerGroup (group : RunnerGroup) (repos : list Repository) : option (list Z) :=
  if bool_decide (rg_Visibility group = Some "selected") then
    Some (omap (λ repo, match rst_ID (r_Status repo) with
      | None => None
      | Some id => if bool_decide (rg_Name group ∈ r_AvailableActionsRunnerGroups (r_Spec repo)) then Some id else None
      end) repos)
  else None.

Definition MapRunnerGroupToCreateRequest (group : RunnerGroup) (repos : list Repository) : CreateRunnerGroupRequest := {|
  cg_Name := rg_Name group; cg_Visibility := rg_Visibility group;
  cg_SelectedRepositoryIDs := GetSelectedRepositoryIDsForRunnerGroup group repos;
  cg_RestrictedToWorkflows := rg_RestrictedToWorkflows group; cg_SelectedWorkflows := rg_SelectedWorkflows group |}.

Definition MapRunnerGroupToUpdateRequest (group : RunnerGroup) : UpdateRunnerGroupRequest := {|
  ug_Name := rg_Name group; ug_Visibility := rg_Visibility group;
  ug_RestrictedToWorkflows := rg_RestrictedToWorkflows group; ug_SelectedWorkflows := rg_SelectedWorkflows group |}.

(** The current repositories are given by their ids. *)
Definition EqualRepositoryIDs (expectedSelectedRepositoryIDs : option (list Z)) (currentSelectedRepositories : list Z) : bool :=
  let expected := WithDefault expectedSelectedRepositoryIDs [] in
  bool_decide (length expected = length currentSelectedRepositories) &&
  forallb (λ id, bool_decide (id ∈ expected)) currentSelectedRepositories.

(** ** orgrec/rec_actions_settings.go *)
Definition enabledReposNone : string := "none".

(** The client methods; results that the code drops are left out, repositories are given by their ids. *)
Class ActionsApi (W : Type) := {
  GetActionsPermissionsForOrg : prog W (res (option gh_ActionsPermissions));
  SetActionsPermissionsForOrg : gh_ActionsPermissions → prog W (option gerror);
  GetActionsEnabledRepositoriesForOrg : prog W (res (list Z));
  SetActionsEnabledRepositoriesForOrg : list Z → prog W (option gerror);
  GetActionsRetentionForOrg : prog W (res (option Z));
  SetActionsRetentionForOrg : Z → prog W (option gerror);
  GetActionsAllowedForOrg : prog W (res (option gh_ActionsAllowed));
  SetActionsAllowedForOrg : gh_ActionsAllowed → prog W (option gerror);
  GetActionsDefaultWorkflowPermissionsForOrg : prog W (res (option gh_DefaultWorkflowPermission));
  SetActionsDefaultWorkflowPermissionsForOrg : gh_DefaultWorkflowPermission → prog W (option gerror);
  GetSelfHostedRunnersSettingsForOrg : prog W (res (option string)); (* GetEnabledRepositories *)
  SetSelfHostedRunnersSettingsForOrg : string → prog W (option gerror);
  GetRunnerGroupsForOrg : prog W (res (list gh_RunnerGroup));
  CreateRunnerGroupForOrg : CreateRunnerGroupRequest → prog W (option gerror);
  UpdateRunnerGroupForOrg : Z → UpdateRunnerGroupRequest → prog W (option gerror);
  DeleteRunnerGroupForOrg : Z → prog W (option gerror);
  GetSelectedRepositoriesForRunnerGroup : Z → prog W (res (list Z));
  SetSelectedRepositoriesForRunnerGroup : Z → option (list Z) → prog W (option gerror)
}.

(** The iteration order of [maps.Keys]. *)
Record KeyOrder := { keys : gset Z → list Z; keys_perm s : keys s ≡ₚ elements s }.

Definition containsSameIDs (current : list Z) (ds : gset Z) : bool :=
  bool_decide (length current = size ds) && forallb (λ id, bool_decide (id ∈ ds)) current.

(** Propagate the error of a [(value, error)] call out of a function that returns only an error. *)
Notation "'let^' x ':=' p 'in' k" :=
  (bind p (λ r, match r with inl x => k | inr e => Ret (Some e) end))
  (at level 10, x name, p at level 100, k at level 200) : hubby_scope.

Section Org.
Context {W : Type} {A : ActionsApi W} {LA : ListApi W} (o : KeyOrder) (org : Organization).
Let settings := o_ActionsSettings (o_Spec org).

Definition disableActionsForGHOrg : prog W (option gerror) :=
  let^ current := GetActionsPermissionsForOrg in
  if negb (bool_decide (WithDefault (pm_EnabledRepositories <$> current) "" = enabledReposNone)) then
    SetActionsPermissionsForOrg {| pm_EnabledRepositories := enabledReposNone; pm_AllowedActions := None; pm_SHAPinningRequired := None |}
  else Ret None.

Definition expected_permissions : gh_ActionsPermissions := {|
  pm_EnabledRepositories := WithDefault (as_EnabledRepositories settings) enabledReposNone;
  pm_AllowedActions := WithDefaultAsPtr (as_AllowedActions settings) "selected";
  pm_SHAPinningRequired := WithDefaultAsPtr (as_ShaPinningRequired settings) false |}.

Definition enabled_ids (repos : list Repository) : gset Z :=
  list_to_set (omap (λ k8sRepo, if WithDefault (r_ActionsEnabled (r_Spec k8sRepo)) true then rst_ID (r_Status k8sRepo) else None) repos).

Definition reconcileActionsEnabledRepositories : prog W (option gerror) :=
  let^ repos := getReferencingK8sRepos org in
  let^ current := GetActionsEnabledRepositoriesForOrg in
  if negb (containsSameIDs current (enabled_ids repos))
  then SetActionsEnabledRepositoriesForOrg (keys o (enabled_ids repos))
  else Ret None.

Definition reconcilePermissions : prog W (option gerror) :=
  let^ current := GetActionsPermissionsForOrg in
  if negb (EqualActionsPermissions (Some expected_permissions) current)
  then SetActionsPermissionsForOrg expected_permissions
  else if bool_decide (pm_EnabledRepositories expected_permissions = "selected")
  then reconcileActionsEnabledRepositories
  else Ret None.

Definition expected_retention : Z := WithDefault (as_ArtifactAndLogRetentionDays settings) 400.
Definition reconcileRetention : prog W (option gerror) :=
  let^ current := GetActionsRetentionForOrg in
  if negb (bool_decide (expected_retention = WithDefault current 0)) then SetActionsRetentionForOrg expected_retention else Ret None.

Definition expected_allowed : gh_ActionsAllowed :=
  match as_SelectedAllowedActions settings with
  | None => {| aa_GithubOwnedAllowed := Some false; aa_VerifiedAllowed := Some false; aa_PatternsAllowed := Some [] |}
  | Some s => {|
      aa_GithubOwnedAllowed := WithDefaultAsPtr (sa_GitHubOwnedAllowed s) false;
      aa_VerifiedAllowed := WithDefaultAsPtr (sa_VerifiedAllowed s) false;
      aa_PatternsAllowed := WithEmptyDefault (sa_PatternsAllowed s) |}
  end.

Definition reconcileAllowedActions : prog W (option gerror) :=
  if IsActionsDisabled org then Ret None
  else if bool_decide (as_AllowedActions settings ≠ Some "selected") then Ret None
  else
    let^ current := GetActionsAllowedForOrg in
    if negb (EqualActionsAllowed (Some expected_allowed) current) then SetActionsAllowedForOrg expected_allowed else Ret None.

Definition expected_workflow : gh_DefaultWorkflowPermission := {|
  wp_DefaultWorkflowPermissions := WithDefaultAsPtr (as_DefaultWorkflowPermissions settings) "read";
  wp_CanApprovePullRequestReviews := WithDefaultAsPtr (as_CanApprovePullRequestReviews settings) false |}.
Definition reconcileDefaultWorkflowPermissions : prog W (option gerror) :=
  let^ current := GetActionsDefaultWorkflowPermissionsForOrg in
  if negb (EqualDefaultWorkflowPermissions (Some expected_workflow) current)
  then SetActionsDefaultWorkflowPermissionsForOrg expected_workflow
  else Ret None.

Definition reconcileSelfHostedRunnerSettings : prog W (option gerror) :=
  let^ current := GetSelfHostedRunnersSettingsForOrg in
  if negb (bool_decide (WithDefault current "" = enabledReposNone)) then SetSelfHostedRunnersSettingsForOrg enabledReposNone else Ret None.

Definition updateSelectedRepositoriesForRunnerGroup (matchingName : RunnerGroup) (repos : list Repository) (group : gh_RunnerGroup)
    : prog W (option gerror) :=
  let expectedSelectedRepositoryIDs := GetSelectedRepositoryIDsForRunnerGroup matchingName repos in
  let^ currentSelectedRepositories := GetSelectedRepositoriesForRunnerGroup (gg_ID group) in
  if negb (EqualRepositoryIDs expectedSelectedRepositoryIDs currentSelectedRepositories)
  then SetSelectedRepositoriesForRunnerGroup (gg_ID group) expectedSelectedRepositoryIDs
  else Ret None.

(** The body of the loop over the groups on GitHub. *)
Definition reconcile_group (expectedByName : gmap string RunnerGroup) (repos : list Repository) (group : gh_RunnerGroup)
    : prog W (option gerror) :=
  match expectedByName !! gg_Name group with
  | Some matchingName =>
    check (if negb (EqualRunnerGroup matchingName group)
           then UpdateRunnerGroupForOrg (gg_ID group) (MapRunnerGroupToUpdateRequest matchingName) else Ret None) in
    match rg_Visibility matchingName with
    | Some v => if bool_decide (v ≠ "selected") then Ret None else updateSelectedRepositoriesForRunnerGroup matchingName repos group
    | None => updateSelectedRepositoriesForRunnerGroup matchingName repos group
    end
  | None => DeleteRunnerGroupForOrg (gg_ID group)
  end.

(** [expectedSeen] after the loop: the names of the groups on GitHub that are expected. *)
Definition expected_seen (expectedByName : gmap string RunnerGroup) (current : list gh_RunnerGroup) : list string :=
  omap (λ group, rg_Name <$> expectedByName !! gg_Name group) current.

Definition reconcileRunnerGroups : prog W (option gerror) :=
  let^ current := GetRunnerGroupsForOrg in
  let^ repos := getReferencingK8sRepos org in
  let expected := as_RunnerGroups settings in
  let expectedByName := index_by rg_Name expected in
  check for_each current (reconcile_group expectedByName repos) in
  for_each (filter (λ group, rg_Name group ∉ expected_seen expectedByName current) expected)
    (λ group, CreateRunnerGroupForOrg (MapRunnerGroupToCreateRequest group repos)).

Definition reconcileOrgActionsSettings : prog W (option gerror) :=
  if IsActionsDisabled org then disableActionsForGHOrg
  else for_each [reconcilePermissions; reconcileRetention; reconcileAllowedActions; reconcileDefaultWorkflowPermissions;
    reconcileSelfHostedRunnerSettings; reconcileRunnerGroups] id.
End Org.

(** ** reporec/rec_actions_settings.go *)
Class RepoActionsApi (W : Type) := {
  FetchOrganizationOfRepo : string → string → prog W (res Organization); (* namespace, name *)
  GetAccessLevelForExternalWorkflowsForRepo : prog W (res (option string)); (* GetAccessLevel *)
  SetAccessLevelForExternalWorkflowsForRepo : string → prog W (option gerror)
}.

Section Repo.
Context {W : Type} {A : RepoActionsApi W} (repo : Repository).

Definition reconcileActionsAccessLevelForExternalWorkflows : prog W (option gerror) :=
  let expectedActionsAccessLevel := WithDefault (r_AccessLevelForExternalWorkflows (r_Spec repo)) "none" in
  let^ currentAccessLevel := GetAccessLevelForExternalWorkflowsForRepo in
  if bool_decide (WithDefault currentAccessLevel "" ≠ expectedActionsAccessLevel)
  then SetAccessLevelForExternalWorkflowsForRepo expectedActionsAccessLevel
  else Ret None.

Definition reconcileRepoActionsSettings : prog W (option gerror) :=
  let^ org := FetchOrganizationOfRepo (Namespace (r_Meta repo)) (r_OrganizationRef (r_Spec repo)) in
  if IsActionsDisabled org then Ret None
  else if HasEnterpriseFeatures org && bool_decide (r_Visibility (r_Spec repo) ≠ VisibilityPublic)
  then reconcileActionsAccessLevelForExternalWorkflows
  else Ret None.
End Repo.

(** ** Theorems *)

(** What GitHub keeps for the actions of an organization. *)
Record ActionsState := {
  st_Permissions : gh_ActionsPermissions; st_Enabled : gset Z; st_Retention : Z; st_Allowed : gh_ActionsAllowed;
  st_Workflow : gh_DefaultWorkflowPermission; st_SelfHosted : string;
  st_Groups : gmap Z gh_RunnerGroup; st_Selected : gmap Z (gset Z) }.

Definition with_permissions (v : gh_ActionsPermissions) (s : ActionsState) : ActionsState := {|
  st_Permissions := v; st_Enabled := st_Enabled s; st_Retention := st_Retention s; st_Allowed := st_Allowed s;
  st_Workflow := st_Workflow s; st_SelfHosted := st_SelfHosted s; st_Groups := st_Groups s; st_Selected := st_Selected s |}.
Definition with_enabled (v : gset Z) (s : ActionsState) : ActionsState := {|
  st_Permissions := st_Permissions s; st_Enabled := v; st_Retention := st_Retention s; st_Allowed := st_Allowed s;
  st_Workflow := st_Workflow s; st_SelfHosted := st_SelfHosted s; st_Groups := st_Groups s; st_Selected := st_Selected s |}.
Definition with_retention (v : Z) (s : ActionsState) : ActionsState := {|
  st_Permissions := st_Permissions s; st_Enabled := st_Enabled s; st_Retention := v; st_Allowed := st_Allowed s;
  st_Workflow := st_Workflow s; st_SelfHosted := st_SelfHosted s; st_Groups := st_Groups s; st_Selected := st_Selected s |}.
Definition with_allowed (v : gh_ActionsAllowed) (s : ActionsState) : ActionsState := {|
  st_Permissions := st_Permissions s; st_Enabled := st_Enabled s; st_Retention := st_Retention s; st_Allowed := v;
  st_Workflow := st_Workflow s; st_SelfHosted := st_SelfHosted s; st_Groups := st_Groups s; st_Selected := st_Selected s |}.
Definition with_workflow (v : gh_DefaultWorkflowPermission) (s : ActionsState) : ActionsState := {|
  st_Permissions := st_Permissions s; st_Enabled := st_Enabled s; st_Retention := st_Retention s; st_Allowed := st_Allowed s;
  st_Workflow := v; st_SelfHosted := st_SelfHosted s; st_Groups := st_Groups s; st_Selected := st_Selected s |}.
Definition with_self_hosted (v : string) (s : ActionsState) : ActionsState := {|
  st_Permissions := st_Permissions s; st_Enabled := st_Enabled s; st_Retention := st_Retention s; st_Allowed := st_Allowed s;
  st_Workflow := st_Workflow s; st_SelfHosted := v; st_Groups := st_Groups s; st_Selected := st_Selected s |}.
Definition with_groups (groups : gmap Z gh_RunnerGroup) (selected : gmap Z (gset Z)) (s : ActionsState) : ActionsState := {|
  st_Permissions := st_Permissions s; st_Enabled := st_Enabled s; st_Retention := st_Retention s; st_Allowed := st_Allowed s;
  st_Workflow := st_Workflow s; st_SelfHosted := st_SelfHosted s; st_Groups := groups; st_Selected := selected |}.

(** A group that was created or updated; what an update does not send stays. *)
Definition created_group (r : CreateRunnerGroupRequest) (id : Z) : gh_RunnerGroup := {|
  gg_ID := id; gg_Name := cg_Name r; gg_Visibility := cg_Visibility r; gg_RestrictedToWorkflows := cg_RestrictedToWorkflows r;
  gg_SelectedWorkflows := cg_SelectedWorkflows r |}.
Definition updated_group (r : UpdateRunnerGroupRequest) (g : gh_RunnerGroup) : gh_RunnerGroup :=
  let keep {X} (new old : option X) := match new with Some v => Some v | None => old end in {|
  gg_ID := gg_ID g; gg_Name := ug_Name r; gg_Visibility := keep (ug_Visibility r) (gg_Visibility g);
  gg_RestrictedToWorkflows := keep (ug_RestrictedToWorkflows r) (gg_RestrictedToWorkflows g);
  gg_SelectedWorkflows := keep (ug_SelectedWorkflows r) (gg_SelectedWorkflows g) |}.

(** A group after the defaults of the resource definition, with workflows if it is restricted to some. *)
Definition complete_group (e : RunnerGroup) : Prop :=
  is_Some (rg_Visibility e) ∧ is_Some (rg_RestrictedToWorkflows e) ∧
  (rg_RestrictedToWorkflows e = Some true → is_Some (rg_SelectedWorkflows e)).

Lemma sorted_equal_refl l : sorted_equal l l = true.
Proof. by apply bool_decide_eq_true. Qed.

Lemma EqualRunnerGroup_updated e g :
  complete_group e → EqualRunnerGroup e (updated_group (MapRunnerGroupToUpdateRequest e) g) = true.
Proof.
  intros ([v Hv] & [r Hr] & Hw). unfold EqualRunnerGroup, updated_group. simpl. rewrite Hv, Hr. rewrite Hr in Hw. simpl.
  rewrite !bool_decide_true by done. destruct r; simpl; [|done]. destruct (Hw eq_refl) as [w ->]. apply sorted_equal_refl.
Qed.
Lemma EqualRunnerGroup_created e repos id :
  EqualRunnerGroup e (created_group (MapRunnerGroupToCreateRequest e repos) id) = true.
Proof.
  unfold EqualRunnerGroup. simpl. rewrite !bool_decide_true by done. cbn [andb].
  by destruct (WithDefault _ _); [apply sorted_equal_refl|].
Qed.
Lemma EqualRunnerGroup_name e g : EqualRunnerGroup e g = true → gg_Name g = rg_Name e.
Proof. unfold EqualRunnerGroup. rewrite !andb_true_iff, !bool_decide_eq_true. naive_solver. Qed.

Lemma EqualActionsPermissions_eq a b : EqualActionsPermissions (Some a) (Some b) = true → a = b.
Proof.
  unfold EqualActionsPermissions. simpl. rewrite !andb_true_iff, !bool_decide_eq_true. destruct a, b; naive_solver.
Qed.

(** Lists without duplicates that have the same length and are included one in the other have the same elements. *)
Lemma same_ids (expected current : list Z) :
  NoDup current → length expected = length current → forallb (λ id, bool_decide (id ∈ expected)) current = true →
  (list_to_set expected : gset Z) = list_to_set current.
Proof.
  intros Hnd Hlen Hall. rewrite forallb_forall in Hall.
  assert (current ⊆+ expected) as Hsub.
  { apply NoDup_submseteq; [done|]. intros x Hx%list_elem_of_In. by apply Hall, bool_decide_eq_true in Hx. }
  apply submseteq_length_Permutation in Hsub; [|lia].
  by rewrite Hsub.
Qed.

Lemma containsSameIDs_spec current ds :
  NoDup current → containsSameIDs current ds = true → list_to_set current = ds.
Proof.
  intros Hnd [Hlen%bool_decide_eq_true Hall]%andb_true_iff. rewrite <-(list_to_set_elements_L ds). symmetry.
  apply same_ids; [done|symmetry; exact Hlen|]. rewrite forallb_forall in *. intros x Hx. specialize (Hall x Hx).
  rewrite bool_decide_eq_true in *. by apply elem_of_elements.
Qed.

Section Synced.
Context {W : Type} {A : ActionsApi W} {LA : ListApi W} (o : KeyOrder) (org : Organization).
Context (state : W → ActionsState) (repos : list Repository).
Let settings := o_ActionsSettings (o_Spec org).

(** A read returns what GitHub has, an update changes exactly its setting. *)
Definition reads {X} (p : prog W (res X)) (f : ActionsState → X) : Prop :=
  ∀ w, match run p w with (inl x, w') => x = f (state w) ∧ w' = w | (inr _, _) => True end.
Definition updates (p : prog W (option gerror)) (f : ActionsState → ActionsState) : Prop :=
  ∀ w, match run p w with (None, w') => state w' = f (state w) | (Some _, _) => True end.

(** [repos] are the repositories of the cluster that refer to the organization; an id list is nil only for groups
    that are not restricted to repositories, to which it does not apply. *)
Class ActionsLaws : Prop := {
  cluster_read w : match run (getReferencingK8sRepos org) w with (inl l, w') => l = repos ∧ w' = w | (inr _, _) => True end;
  permissions_read : reads GetActionsPermissionsForOrg (λ s, Some (st_Permissions s));
  permissions_set v : updates (SetActionsPermissionsForOrg v) (with_permissions v);
  enabled_read w : match run GetActionsEnabledRepositoriesForOrg w with
    | (inl l, w') => NoDup l ∧ list_to_set l = st_Enabled (state w) ∧ w' = w | (inr _, _) => True end;
  enabled_set l : updates (SetActionsEnabledRepositoriesForOrg l) (with_enabled (list_to_set l));
  retention_read : reads GetActionsRetentionForOrg (λ s, Some (st_Retention s));
  retention_set v : updates (SetActionsRetentionForOrg v) (with_retention v);
  allowed_read : reads GetActionsAllowedForOrg (λ s, Some (st_Allowed s));
  allowed_set v : updates (SetActionsAllowedForOrg v) (with_allowed v);
  workflow_read : reads GetActionsDefaultWorkflowPermissionsForOrg (λ s, Some (st_Workflow s));
  workflow_set v : updates (SetActionsDefaultWorkflowPermissionsForOrg v) (with_workflow v);
  self_hosted_read : reads GetSelfHostedRunnersSettingsForOrg (λ s, Some (st_SelfHosted s));
  self_hosted_set v : updates (SetSelfHostedRunnersSettingsForOrg v) (with_self_hosted v);
  groups_read w : match run GetRunnerGroupsForOrg w with
    | (inl l, w') => w' = w ∧ NoDup (gg_ID <$> l) ∧ (∀ g, g ∈ l ↔ st_Groups (state w) !! gg_ID g = Some g) | (inr _, _) => True end;
  groups_ids w id g : st_Groups (state w) !! id = Some g → gg_ID g = id;
  group_created r w : match run (CreateRunnerGroupForOrg r) w with
    | (None, w') => ∃ id, st_Groups (state w) !! id = None ∧
        state w' = with_groups (<[id := created_group r id]> (st_Groups (state w)))
          (<[id := list_to_set (WithDefault (cg_SelectedRepositoryIDs r) [])]> (st_Selected (state w))) (state w)
    | (Some _, _) => True end;
  group_updated id r g w : st_Groups (state w) !! id = Some g → match run (UpdateRunnerGroupForOrg id r) w with
    | (None, w') => state w' = with_groups (<[id := updated_group r g]> (st_Groups (state w))) (st_Selected (state w)) (state w)
    | (Some _, _) => True end;
  group_deleted id : updates (DeleteRunnerGroupForOrg id) (λ s, with_groups (delete id (st_Groups s)) (delete id (st_Selected s)) s);
  selected_read id w : match run (GetSelectedRepositoriesForRunnerGroup id) w with
    | (inl l, w') => NoDup l ∧ list_to_set l = WithDefault (st_Selected (state w) !! id) ∅ ∧ w' = w | (inr _, _) => True end;
  selected_set id l : updates (SetSelectedRepositoriesForRunnerGroup id (Some l))
    (λ s, with_groups (st_Groups s) (<[id := list_to_set l]> (st_Selected s)) s)
}.
Context {L : ActionsLaws}.

Lemma run_let_ok {X} (p : prog W (res X)) (k : X → prog W (option gerror)) w w' :
  run (let^ x := p in k x) w = (None, w') → ∃ x w1, run p w = (inl x, w1) ∧ run (k x) w1 = (None, w').
Proof. rewrite run_bind. destruct (run p w) as [[x|e] w1]; [eauto|done]. Qed.

(** Reading a setting and updating it if it is not as expected. *)
Lemma read_and_set {X Y} (get : prog W (res X)) (f : ActionsState → X) (as_expected : X → bool)
    (set_to : Y → prog W (option gerror)) (upd : Y → ActionsState → ActionsState) (v : Y) w w' :
  reads get f → updates (set_to v) (upd v) → (∀ s, as_expected (f (upd v s)) = true) →
  run (let^ current := get in if negb (as_expected current) then set_to v else Ret None) w = (None, w') →
  as_expected (f (state w')) = true ∧ (state w' = state w ∨ state w' = upd v (state w)).
Proof.
  intros Hget Hset Hv (x & w1 & Hx & Hrun)%run_let_ok. specialize (Hget w). rewrite Hx in Hget. destruct Hget as [-> ->].
  destruct (as_expected (f (state w))) eqn:E; cbn [negb] in Hrun.
  - injection Hrun as <-. auto.
  - specialize (Hset w). rewrite Hrun in Hset. rewrite Hset. auto.
Qed.

(** The expected repositories of a group. *)
Definition wanted (e : RunnerGroup) : gset Z := list_to_set (WithDefault (GetSelectedRepositoryIDsForRunnerGroup e repos) []).
(** The group [g] with this id is as declared by [e]. *)
Definition settled (s : ActionsState) (id : Z) (e : RunnerGroup) : Prop :=
  ∃ g, st_Groups s !! id = Some g ∧ EqualRunnerGroup e g = true ∧
    (rg_Visibility e = Some "selected" → WithDefault (st_Selected s !! id) ∅ = wanted e).

(** Nothing but the runner groups is different, and of these only those with an id in [ids]. *)
Definition groups_only (ids : Z → Prop) (s s' : ActionsState) : Prop :=
  (∃ groups selected, s' = with_groups groups selected s) ∧
  ∀ id, ¬ ids id → st_Groups s' !! id = st_Groups s !! id ∧ st_Selected s' !! id = st_Selected s !! id.

Lemma groups_only_refl ids s : groups_only ids s s.
Proof. split; [exists (st_Groups s), (st_Selected s); by destruct s|done]. Qed.
Lemma groups_only_trans ids s1 s2 s3 : groups_only ids s1 s2 → groups_only ids s2 s3 → groups_only ids s1 s3.
Proof.
  intros [(g2 & l2 & ->) H1] [(g3 & l3 & ->) H2]. split; [by exists g3, l3|]. intros id Hid.
  destruct (H1 id Hid) as [Hg Hs], (H2 id Hid) as [Hg' Hs']. by rewrite Hg', Hs'.
Qed.
Lemma groups_only_weaken (ids ids' : Z → Prop) s s' : (∀ id, ids id → ids' id) → groups_only ids s s' → groups_only ids' s s'.
Proof. intros Hsub [Hex H]. split; [done|]. intros id Hid. apply H. auto. Qed.
Lemma settled_kept ids s s' id e : groups_only ids s s' → ¬ ids id → settled s id e → settled s' id e.
Proof. intros [_ H] Hid (g & Hg & He & Hsel). destruct (H id Hid) as [Hg' Hs']. exists g. by rewrite Hg', Hs'. Qed.

(** The ids of the repositories of the cluster are known only once. *)
Context (ids_unique : NoDup (omap (λ r, rst_ID (r_Status r)) repos)).

Lemma wanted_NoDup e l : GetSelectedRepositoryIDsForRunnerGroup e repos = Some l → NoDup l.
Proof.
  unfold GetSelectedRepositoryIDsForRunnerGroup. case_bool_decide; [|done]. intros [= <-].
  eapply sublist_NoDup; [exact ids_unique|]. clear. induction repos as [|r rs IH]; simpl; [constructor|].
  destruct (rst_ID (r_Status r)) as [id|]; [|done]. case_bool_decide; [by apply sublist_skip|by apply sublist_cons].
Qed.

Lemma updateSelectedRepositories_spec e group w w' :
  rg_Visibility e = Some "selected" →
  run (updateSelectedRepositoriesForRunnerGroup e repos group) w = (None, w') →
  groups_only (λ id, id = gg_ID group) (state w) (state w') ∧ st_Groups (state w') = st_Groups (state w) ∧
  WithDefault (st_Selected (state w') !! gg_ID group) ∅ = wanted e.
Proof.
  intros Hsel. unfold updateSelectedRepositoriesForRunnerGroup.
  assert (∃ l, GetSelectedRepositoryIDsForRunnerGroup e repos = Some l) as [l Hl].
  { unfold GetSelectedRepositoryIDsForRunnerGroup. rewrite bool_decide_true by done. by eexists. }
  unfold wanted. rewrite Hl. cbn [WithDefault]. intros (cur & w1 & Hcur & Hrun)%run_let_ok.
  pose proof (selected_read (gg_ID group) w) as Hr. rewrite Hcur in Hr. destruct Hr as (Hnd & Hset & ->).
  destruct (EqualRepositoryIDs (Some l) cur) eqn:Heq; cbn [negb] in Hrun.
  - injection Hrun as <-. split_and!; [apply groups_only_refl|done|]. rewrite <-Hset. symmetry.
    apply andb_true_iff in Heq as [Hlen%bool_decide_eq_true Hall]. by apply same_ids.
  - pose proof (selected_set (gg_ID group) l w) as Hs. rewrite Hrun in Hs. rewrite Hs. simpl. split_and!; [|done|].
    + split; [by eexists _, _|]. intros id Hid. simpl. by rewrite lookup_insert_ne.
    + by rewrite lookup_insert_eq.
Qed.

Lemma reconcile_group_spec m group w w' :
  (∀ n e, m !! n = Some e → rg_Name e = n ∧ complete_group e) →
  st_Groups (state w) !! gg_ID group = Some group →
  run (reconcile_group m repos group) w = (None, w') →
  groups_only (λ id, id = gg_ID group) (state w) (state w') ∧
  match m !! gg_Name group with
  | Some e => settled (state w') (gg_ID group) e
  | None => st_Groups (state w') !! gg_ID group = None
  end.
Proof.
  intros Hm Hg. unfold reconcile_group. destruct (m !! gg_Name group) as [e|] eqn:He.
  - destruct (Hm _ _ He) as [Hname Hcomplete]. rewrite run_bind. intros Hrun.
    match type of Hrun with context [run ?p w] => destruct (run p w) as [[err|] w1] eqn:Hup; [done|] end.
    assert (groups_only (λ id, id = gg_ID group) (state w) (state w1) ∧
      ∃ g, st_Groups (state w1) !! gg_ID group = Some g ∧ EqualRunnerGroup e g = true) as (Honly & g & Hg1 & Heq).
    { destruct (EqualRunnerGroup e group) eqn:Heq; cbn [negb] in Hup.
      - injection Hup as <-. split; [apply groups_only_refl|]. by exists group.
      - pose proof (group_updated (gg_ID group) (MapRunnerGroupToUpdateRequest e) group w Hg) as Hs. rewrite Hup in Hs. rewrite Hs.
        split; [split; [by eexists _, _|]|].
        + intros id Hid. simpl. by rewrite lookup_insert_ne.
        + simpl. rewrite lookup_insert_eq. eexists. split; [done|]. by apply EqualRunnerGroup_updated. }
    destruct Hcomplete as ([v Hv] & _ & _). rewrite Hv in Hrun. destruct (decide (v = "selected")) as [->|Hne].
    + destruct (updateSelectedRepositories_spec e group w1 w' Hv Hrun) as (Honly' & Hgs & Hsel).
      split; [by eapply groups_only_trans|]. exists g. by rewrite Hgs.
    + rewrite bool_decide_true in Hrun by done. injection Hrun as <-. split; [done|]. exists g. split_and!; [done|done|].
      rewrite Hv. naive_solver.
  - intros Hrun. pose proof (group_deleted (gg_ID group) w) as Hd. rewrite Hrun in Hd. rewrite Hd. simpl. split.
    + split; [by eexists _, _|]. intros id Hid. simpl. by rewrite !lookup_delete_ne.
    + apply lookup_delete_eq.
Qed.

(** The loop over the groups on GitHub: afterwards there are no other groups than expected ones, as declared. *)
Lemma reconcile_groups_spec m l w w' :
  (∀ n e, m !! n = Some e → rg_Name e = n ∧ complete_group e) →
  NoDup (gg_ID <$> l) → (∀ g, g ∈ l ↔ st_Groups (state w) !! gg_ID g = Some g) →
  run (for_each l (reconcile_group m repos)) w = (None, w') →
  (∃ groups selected, state w' = with_groups groups selected (state w)) ∧
  ∀ id, match st_Groups (state w) !! id with
    | None => st_Groups (state w') !! id = None
    | Some g => match m !! gg_Name g with Some e => settled (state w') id e | None => st_Groups (state w') !! id = None end
    end.
Proof.
  intros Hm Hnd Hl Hrun.
  pose proof (for_each_inv (λ done w1, groups_only (λ id, id ∈ gg_ID <$> done) (state w) (state w1) ∧
    ∀ g, g ∈ done → match m !! gg_Name g with Some e => settled (state w1) (gg_ID g) e | None => st_Groups (state w1) !! gg_ID g = None end)
    (λ _ _, True) (reconcile_group m repos) l) as H.
  assert (groups_only (λ id, id ∈ gg_ID <$> l) (state w) (state w') ∧
    ∀ g, g ∈ l → match m !! gg_Name g with Some e => settled (state w') (gg_ID g) e | None => st_Groups (state w') !! gg_ID g = None end)
    as [[Hex Hothers] Hdone].
  { specialize (λ Hstep, H Hstep w). rewrite Hrun in H. apply H; [|split; [apply groups_only_refl|set_solver]].
    intros done g rest w1 -> [Honly Hd]. rewrite fmap_app, fmap_cons in Hnd. apply NoDup_app in Hnd as (_ & Hfresh & [_ _]%NoDup_cons).
    assert (gg_ID g ∉ gg_ID <$> done) as Hg by (intros Hin; apply (Hfresh _ Hin); left).
    assert (st_Groups (state w1) !! gg_ID g = Some g) as Hg1.
    { destruct Honly as [_ Ho]. destruct (Ho _ Hg) as [-> _]. apply Hl. set_solver. }
    pose proof (reconcile_group_spec m g w1) as Hs. destruct (run (reconcile_group m repos g) w1) as [[e|] w2]; [done|].
    destruct (Hs w2 Hm Hg1 eq_refl) as [Honly' Hnew]. split.
    - eapply groups_only_trans; (eapply groups_only_weaken; [|done]); intros id; rewrite fmap_app; set_solver.
    - intros g' [Hg'|Hg'%list_elem_of_singleton]%elem_of_app; [|by subst].
      assert (gg_ID g' ≠ gg_ID g) as Hne by (intros Heq; apply Hg; rewrite <-Heq; by apply list_elem_of_fmap_2).
      specialize (Hd g' Hg'). destruct (m !! gg_Name g') as [e|].
      + by eapply settled_kept; [exact Honly'| |].
      + destruct Honly' as [_ Ho]. by destruct (Ho _ Hne) as [-> _]. }
  split; [done|]. intros id. destruct (st_Groups (state w) !! id) as [g|] eqn:Hg.
  - apply groups_ids in Hg as Hid. subst id. apply (Hdone g). by apply Hl.
  - destruct (Hothers id) as [-> _]; [|done]. intros (g & -> & Hin)%list_elem_of_fmap. apply Hl in Hin. congruence.
Qed.

(** The groups on GitHub are the expected ones, and those with the given names are there. *)
Definition groups_expected (expected : list RunnerGroup) (names : list string) (s : ActionsState) : Prop :=
  (∀ id g, st_Groups s !! id = Some g → ∃ e, e ∈ expected ∧ settled s id e) ∧
  (∀ n, n ∈ names → ∃ id g, st_Groups s !! id = Some g ∧ gg_Name g = n).

Lemma create_groups_spec expected names l w w' :
  (∀ e, e ∈ l → e ∈ expected) → groups_expected expected names (state w) →
  run (for_each l (λ group, CreateRunnerGroupForOrg (MapRunnerGroupToCreateRequest group repos))) w = (None, w') →
  (∃ groups selected, state w' = with_groups groups selected (state w)) ∧
  groups_expected expected (names ++ (rg_Name <$> l)) (state w').
Proof.
  intros Hl Hstart Hrun.
  pose proof (for_each_inv (λ done w1, (∃ groups selected, state w1 = with_groups groups selected (state w)) ∧
    groups_expected expected (names ++ (rg_Name <$> done)) (state w1)) (λ _ _, True)
    (λ group, CreateRunnerGroupForOrg (MapRunnerGroupToCreateRequest group repos)) l) as H.
  specialize (λ Hstep, H Hstep w). rewrite Hrun in H. apply H.
  2: { split; [exists (st_Groups (state w)), (st_Selected (state w)); by destruct (state w)|]. by rewrite app_nil_r. }
  intros done e rest w1 -> [(gs & sel & Hw1) [Hall Hnames]].
  pose proof (group_created (MapRunnerGroupToCreateRequest e repos) w1) as Hc.
  destruct (run (CreateRunnerGroupForOrg _) w1) as [[err|] w2]; [done|]. destruct Hc as (id & Hfresh & Hw2). split.
  { rewrite Hw2, Hw1. by eexists _, _. }
  split.
  - intros i g Hg. rewrite Hw2 in Hg. simpl in Hg. destruct (decide (i = id)) as [->|Hne].
    + exists e. split; [apply Hl; set_solver|]. rewrite lookup_insert_eq in Hg. injection Hg as <-.
      exists (created_group (MapRunnerGroupToCreateRequest e repos) id). rewrite Hw2. simpl. rewrite !lookup_insert_eq.
      split_and!; [done|apply EqualRunnerGroup_created|done].
    + rewrite lookup_insert_ne in Hg by done. destruct (Hall i g Hg) as (e' & He' & Hset). exists e'. split; [done|].
      refine (settled_kept (λ j, j = id) _ _ _ _ _ Hne Hset). split; [rewrite Hw2; by eexists _, _|].
      intros j Hj. rewrite Hw2. simpl. by rewrite !lookup_insert_ne.
  - intros n. rewrite fmap_app, app_assoc, elem_of_app. rewrite Hw2. simpl. intros [Hn| ->%list_elem_of_singleton].
    + destruct (Hnames n Hn) as (i & g & Hi & Hgn). exists i, g. split; [|done]. rewrite lookup_insert_ne; [done|]. congruence.
    + eexists id, _. rewrite lookup_insert_eq. done.
Qed.

Lemma reconcileRunnerGroups_spec w w' :
  let expected := as_RunnerGroups settings in
  NoDup (rg_Name <$> expected) → Forall complete_group expected →
  run (reconcileRunnerGroups org) w = (None, w') →
  (∃ groups selected, state w' = with_groups groups selected (state w)) ∧
  groups_expected expected (rg_Name <$> expected) (state w').
Proof.
  intros expected Hnd Hcomplete (cur & w1 & Hcur & Hrun)%run_let_ok.
  pose proof (groups_read w) as Hg. rewrite Hcur in Hg. destruct Hg as (-> & Hids & Hl).
  apply run_let_ok in Hrun as (rs & w1 & Hrs & Hrun). pose proof (cluster_read w) as Hc. rewrite Hrs in Hc. destruct Hc as [-> ->].
  fold settings in Hrun. fold expected in Hrun. set (m := index_by rg_Name expected) in *.
  assert (∀ n e, m !! n = Some e → rg_Name e = n ∧ complete_group e ∧ e ∈ expected) as Hm.
  { intros n e [He <-]%index_by_Some. rewrite Forall_forall in Hcomplete. auto. }
  rewrite run_bind in Hrun. destruct (run (for_each cur _) w) as [[err|] w1] eqn:Hloop; [done|].
  apply reconcile_groups_spec in Hloop as [(gs1 & sel1 & Hex) Hgroups]; [|by intros n e (? & ? & _)%Hm|done|done].
  eapply (create_groups_spec expected (expected_seen m cur)) in Hrun as [(gs2 & sel2 & Hex') [Hall Hnames]].
  - split; [rewrite Hex', Hex; by eexists _, _|]. split; [done|]. intros n Hn. apply Hnames.
    apply list_elem_of_fmap in Hn as (e & -> & He). rewrite elem_of_app.
    destruct (decide (rg_Name e ∈ expected_seen m cur)) as [|Hnew]; [by left|right].
    apply list_elem_of_fmap_2, list_elem_of_filter. by split.
  - intros e. rewrite list_elem_of_filter. by intros [_ ?].
  - split.
    + intros id g Hg. specialize (Hgroups id). destruct (st_Groups (state w) !! id) as [g0|]; [|congruence].
      destruct (m !! gg_Name g0) as [e|] eqn:He; [|congruence]. exists e. split; [by apply Hm in He as (_ & _ & ?)|done].
    + intros n (g & Hin & (e & He & ->)%fmap_Some)%list_elem_of_omap. specialize (Hgroups (gg_ID g)). apply Hl in Hin.
      rewrite Hin, He in Hgroups. destruct Hgroups as (g' & Hg' & Heq & _). exists (gg_ID g), g'. split; [done|]. by apply EqualRunnerGroup_name.
Qed.

Lemma for_each_cons_ok {X} (f : X → prog W (option gerror)) x l w w' :
  run (for_each (x :: l) f) w = (None, w') → ∃ w1, run (f x) w = (None, w1) ∧ run (for_each l f) w1 = (None, w').
Proof. cbn [for_each]. rewrite run_bind. destruct (run (f x) w) as [[e|] w1]; [done|eauto]. Qed.

(** The enabled repositories are reconciled only if the permissions were right before. *)
Lemma reconcilePermissions_spec w w' :
  run (reconcilePermissions o org) w = (None, w') →
  ∃ ids, state w' = with_enabled ids (with_permissions (expected_permissions org) (state w)) ∧
    (st_Permissions (state w) = expected_permissions org → pm_EnabledRepositories (expected_permissions org) = "selected" →
     ids = enabled_ids repos).
Proof.
  intros (cur & w1 & Hcur & Hrun)%run_let_ok. pose proof (permissions_read w) as Hr. rewrite Hcur in Hr. destruct Hr as [-> ->].
  destruct (EqualActionsPermissions _ _) eqn:Heq; cbn [negb] in Hrun.
  - apply EqualActionsPermissions_eq in Heq. case_bool_decide as Hsel.
    + apply run_let_ok in Hrun as (rs & w1 & Hrs & Hrun). pose proof (cluster_read w) as Hc. rewrite Hrs in Hc. destruct Hc as [-> ->].
      apply run_let_ok in Hrun as (ids & w1 & Hids & Hrun). pose proof (enabled_read w) as He. rewrite Hids in He.
      destruct He as (Hnd & Hset & ->). exists (enabled_ids repos). rewrite Heq. split; [|done].
      destruct (containsSameIDs ids (enabled_ids repos)) eqn:Hsame; cbn [negb] in Hrun.
      * injection Hrun as <-. apply containsSameIDs_spec in Hsame; [|done]. rewrite <-Hsame, Hset. by destruct (state w).
      * pose proof (enabled_set (keys o (enabled_ids repos)) w) as Hu. rewrite Hrun in Hu. rewrite Hu, (keys_perm o), list_to_set_elements_L.
        by destruct (state w).
    + injection Hrun as <-. exists (st_Enabled (state w)). rewrite Heq in Hsel |- *. split; [by destruct (state w)|done].
  - pose proof (permissions_set (expected_permissions org) w) as Hu. rewrite Hrun in Hu. exists (st_Enabled (state w)).
    split; [by rewrite Hu; destruct (state w)|]. intros Hp. rewrite <-Hp in Heq. unfold EqualActionsPermissions in Heq. simpl in Heq.
    by rewrite !bool_decide_true in Heq.
Qed.

(** The settings agree with the spec; the enabled repositories only if the permissions did so in [s0]. *)
Definition actions_synced (s0 s : ActionsState) : Prop :=
  st_Permissions s = expected_permissions org ∧
  (st_Permissions s0 = expected_permissions org → pm_EnabledRepositories (expected_permissions org) = "selected" →
   st_Enabled s = enabled_ids repos) ∧
  st_Retention s = expected_retention org ∧
  (as_AllowedActions settings = Some "selected" → EqualActionsAllowed (Some (expected_allowed org)) (Some (st_Allowed s)) = true) ∧
  EqualDefaultWorkflowPermissions (Some (expected_workflow org)) (Some (st_Workflow s)) = true ∧
  st_SelfHosted s = enabledReposNone ∧
  groups_expected (as_RunnerGroups settings) (rg_Name <$> as_RunnerGroups settings) s.

Lemma reconcileAllowedActions_spec w w' :
  run (reconcileAllowedActions org) w = (None, w') →
  (∃ v, state w' = with_allowed v (state w)) ∧
  (IsActionsDisabled org = false → as_AllowedActions settings = Some "selected" →
   EqualActionsAllowed (Some (expected_allowed org)) (Some (st_Allowed (state w'))) = true).
Proof.
  unfold reconcileAllowedActions. assert (∃ v, state w = with_allowed v (state w)) as Hsame.
  { exists (st_Allowed (state w)). by destruct (state w). }
  destruct (IsActionsDisabled org); [by intros [= <-]|]. fold settings. case_bool_decide as Hsel; [by intros [= <-]|].
  intros Hrun. eapply (read_and_set _ _ (λ c, EqualActionsAllowed _ c) _ with_allowed) in Hrun as [Heq Hst];
    [|apply allowed_read|apply allowed_set|].
  - split; [|done]. destruct Hst as [->| ->]; [done|by eexists].
  - intros s. unfold EqualActionsAllowed. simpl. by rewrite !bool_decide_true, sorted_equal_refl by done.
Qed.

(** C7: after a successful run the actions settings of the organization are as declared: disabled for all
    repositories, or with the declared permissions, retention, allowed actions and workflow permissions, no
    self-hosted runners in repositories and exactly the declared runner groups with the repositories that ask for
    them; the enabled repositories only if the permissions were right before the run. *)
Theorem reconcileOrgActionsSettings_synced w w' :
  NoDup (rg_Name <$> as_RunnerGroups settings) → Forall complete_group (as_RunnerGroups settings) →
  run (reconcileOrgActionsSettings o org) w = (None, w') →
  if IsActionsDisabled org
  then pm_EnabledRepositories (st_Permissions (state w')) = enabledReposNone ∧
    ∃ v, state w' = with_permissions v (state w)
  else actions_synced (state w) (state w').
Proof.
  intros Hnd Hcomplete. unfold reconcileOrgActionsSettings. destruct (IsActionsDisabled org) eqn:Hdis.
  - intros Hrun. eapply (read_and_set _ _ (λ c, bool_decide (WithDefault (pm_EnabledRepositories <$> c) "" = enabledReposNone)) _ with_permissions)
      in Hrun as [Heq Hst]; [|apply permissions_read|apply permissions_set|done].
    cbn in Heq. apply bool_decide_eq_true in Heq. split; [exact Heq|]. destruct Hst as [->| ->]; [exists (st_Permissions (state w)); by destruct (state w)|by eexists].
  - intros (w1 & (ids & H1 & Hids)%reconcilePermissions_spec & Hrun)%for_each_cons_ok.
    apply for_each_cons_ok in Hrun as (w2 & Hret & Hrun).
    eapply (read_and_set _ _ (λ c, bool_decide (expected_retention org = WithDefault c 0)) _ with_retention)
      in Hret as [Hdays H2]; [|apply retention_read|apply retention_set|intros; by apply bool_decide_eq_true].
    apply for_each_cons_ok in Hrun as (w3 & [[al H3] Hallowed]%reconcileAllowedActions_spec & Hrun).
    apply for_each_cons_ok in Hrun as (w4 & Hwf & Hrun).
    eapply (read_and_set _ _ (λ c, EqualDefaultWorkflowPermissions _ c) _ with_workflow) in Hwf as [Hworkflow H4];
      [|apply workflow_read|apply workflow_set|intros; simpl; by rewrite !bool_decide_true by done].
    apply for_each_cons_ok in Hrun as (w5 & Hself & Hrun).
    eapply (read_and_set _ _ (λ c, bool_decide (WithDefault c "" = enabledReposNone)) _ with_self_hosted)
      in Hself as [Hsh H5]; [|apply self_hosted_read|apply self_hosted_set|done].
    apply for_each_cons_ok in Hrun as (w6 & Hgroups & [= <-]).
    apply reconcileRunnerGroups_spec in Hgroups as [(gs & sel & H6) Hexp]; [|done|done].
    cbn in Hdays, Hsh. apply bool_decide_eq_true in Hdays. apply bool_decide_eq_true in Hsh. specialize (Hallowed Hdis). unfold actions_synced. rewrite H6 in *. cbn in *.
    destruct H5 as [H5|H5], H4 as [H4|H4], H2 as [H2|H2]; rewrite ?H5, ?H4, ?H3, ?H2, ?H1 in *; cbn in *; split_and!; done.
Qed.
End Synced.

(** After a successful run the access level of a private or internal repository with actions is as declared;
    nothing is changed for public repositories, in organizations on the free plan or without actions. *)
Theorem reconcileRepoActionsSettings_spec {W} {A : RepoActionsApi W} (level : W → string) (orgs : string → string → Organization) repo w w' :
  (∀ ns n w, match run (FetchOrganizationOfRepo ns n) w with (inl org, w') => org = orgs ns n ∧ w' = w | (inr _, _) => True end) →
  (∀ w, match run GetAccessLevelForExternalWorkflowsForRepo w with (inl l, w') => l = Some (level w) ∧ w' = w | (inr _, _) => True end) →
  (∀ l w, match run (SetAccessLevelForExternalWorkflowsForRepo l) w with (None, w') => level w' = l | (Some _, _) => True end) →
  run (reconcileRepoActionsSettings repo) w = (None, w') →
  let org := orgs (Namespace (r_Meta repo)) (r_OrganizationRef (r_Spec repo)) in
  if negb (IsActionsDisabled org) && HasEnterpriseFeatures org && bool_decide (r_Visibility (r_Spec repo) ≠ VisibilityPublic)
  then level w' = WithDefault (r_AccessLevelForExternalWorkflows (r_Spec repo)) "none" ∧
    (level w = level w' → w' = w)
  else w' = w.
Proof.
  intros Horg Hget Hset (org & w1 & Hf & Hrun)%run_let_ok. pose proof (Horg (Namespace (r_Meta repo)) (r_OrganizationRef (r_Spec repo)) w) as Ho.
  rewrite Hf in Ho. destruct Ho as [-> ->]. cbn zeta. destruct (IsActionsDisabled _); cbn [negb andb]; [by injection Hrun|].
  destruct (HasEnterpriseFeatures _ && _); [|by injection Hrun].
  apply run_let_ok in Hrun as (l & w1 & Hl & Hrun). pose proof (Hget w) as Hg. rewrite Hl in Hg. destruct Hg as [-> ->].
  cbn [WithDefault] in Hrun. case_bool_decide as Hne.
  - pose proof (Hset (WithDefault (r_AccessLevelForExternalWorkflows (r_Spec repo)) "none") w) as Hs. rewrite Hrun in Hs.
    split; [done|]. congruence.
  - injection Hrun as <-. by split.
Qed.

(** ** Concrete instances *)
Module ToyActions.
Definition toy_state (w : ActionsState) : ActionsState :=
  with_groups (filter (λ p, gg_ID p.2 = p.1) (st_Groups w)) (st_Selected w) w.
Definition set_to {X} (f : X → ActionsState → ActionsState) (x : X) : prog ActionsState (option gerror) := call (λ w, (None, f x w)).
Definition toy_repos : list Repository :=
  [Samples.known_repo "one" [] [] ["fast"] (Some 11); Samples.known_repo "two" [] [] [] (Some 12)].
Definition toy_order : KeyOrder := {| keys := elements; keys_perm s := reflexivity _ |}.

#[export] Instance lists : ListApi ActionsState := {|
  ListRepositories _ _ _ := Ret (inl toy_repos); ListTeams _ _ _ := Ret (inl []) |}.
Definition groups_list (w : ActionsState) : res (list gh_RunnerGroup) := inl (snd <$> map_to_list (st_Groups (toy_state w))).
Definition ids_list (s : gset Z) : res (list Z) := inl (elements s).
#[export] Instance actions : ActionsApi ActionsState := {|
  GetActionsPermissionsForOrg := gets (λ w, inl (Some (st_Permissions w)));
  SetActionsPermissionsForOrg := set_to with_permissions;
  GetActionsEnabledRepositoriesForOrg := gets (λ w, ids_list (st_Enabled w));
  SetActionsEnabledRepositoriesForOrg l := set_to with_enabled (list_to_set l);
  GetActionsRetentionForOrg := gets (λ w, inl (Some (st_Retention w)));
  SetActionsRetentionForOrg := set_to with_retention;
  GetActionsAllowedForOrg := gets (λ w, inl (Some (st_Allowed w)));
  SetActionsAllowedForOrg := set_to with_allowed;
  GetActionsDefaultWorkflowPermissionsForOrg := gets (λ w, inl (Some (st_Workflow w)));
  SetActionsDefaultWorkflowPermissionsForOrg := set_to with_workflow;
  GetSelfHostedRunnersSettingsForOrg := gets (λ w, inl (Some (st_SelfHosted w)));
  SetSelfHostedRunnersSettingsForOrg := set_to with_self_hosted;
  GetRunnerGroupsForOrg := gets groups_list;
  CreateRunnerGroupForOrg r := call (λ w, let id := fresh (dom (st_Groups w)) in
    (None, with_groups (<[id := created_group r id]> (st_Groups w))
       (<[id := list_to_set (WithDefault (cg_SelectedRepositoryIDs r) [])]> (st_Selected w)) w));
  UpdateRunnerGroupForOrg id r := call (λ w, match st_Groups w !! id with
    | Some g => (None, with_groups (<[id := updated_group r g]> (st_Groups w)) (st_Selected w) w)
    | None => (Some notFoundStatus, w) end);
  DeleteRunnerGroupForOrg id := set_to (λ id w, with_groups (delete id (st_Groups w)) (delete id (st_Selected w)) w) id;
  GetSelectedRepositoriesForRunnerGroup id := gets (λ w, ids_list (WithDefault (st_Selected w !! id) ∅));
  SetSelectedRepositoriesForRunnerGroup id l :=
    set_to (λ l w, with_groups (st_Groups w) (<[id := list_to_set (WithDefault l [])]> (st_Selected w)) w) l |}.

Definition fast : RunnerGroup := {|
  rg_Name := "fast"; rg_Visibility := Some "selected"; rg_RestrictedToWorkflows := Some false; rg_SelectedWorkflows := None |}.
Definition slow : RunnerGroup := {|
  rg_Name := "slow"; rg_Visibility := Some "all"; rg_RestrictedToWorkflows := Some false; rg_SelectedWorkflows := None |}.
Definition declared : ActionsSettings := {|
  as_EnabledRepositories := Some "selected"; as_AllowedActions := Some "selected"; as_SelectedAllowedActions := None;
  as_ShaPinningRequired := None; as_DefaultWorkflowPermissions := None; as_CanApprovePullRequestReviews := None;
  as_ArtifactAndLogRetentionDays := Some 30; as_RunnerGroups := [fast; slow] |}.
Definition org : Organization := Samples.org declared [] [] [].

(** "fast" is open to all repositories, "old" is not declared any more, "slow" is missing. *)
Definition before : ActionsState := {|
  st_Permissions := {| pm_EnabledRepositories := "all"; pm_AllowedActions := Some "all"; pm_SHAPinningRequired := Some false |};
  st_Enabled := ∅; st_Retention := 90;
  st_Allowed := {| aa_GithubOwnedAllowed := Some true; aa_VerifiedAllowed := Some true; aa_PatternsAllowed := Some [] |};
  st_Workflow := {| wp_DefaultWorkflowPermissions := Some "write"; wp_CanApprovePullRequestReviews := Some true |};
  st_SelfHosted := "all";
  st_Groups := list_to_map [
    (1, {| gg_ID := 1; gg_Name := "fast"; gg_Visibility := Some "all"; gg_RestrictedToWorkflows := Some false; gg_SelectedWorkflows := None |});
    (2, {| gg_ID := 2; gg_Name := "old"; gg_Visibility := Some "all"; gg_RestrictedToWorkflows := Some false; gg_SelectedWorkflows := None |})];
  st_Selected := ∅ |}.
Definition after : ActionsState := (run (reconcileOrgActionsSettings toy_order org) before).2.

Lemma toy_lookup w id g : st_Groups (toy_state w) !! id = Some g ↔ st_Groups w !! id = Some g ∧ gg_ID g = id.
Proof. apply map_lookup_filter_Some. Qed.

#[export] Instance laws : ActionsLaws org toy_state toy_repos.
Proof.
  split; try done.
  - intros w. simpl. split_and!; [apply NoDup_elements|apply list_to_set_elements_L|done].
  - intros w. simpl. split; [done|].
    assert ((gg_ID <$> (map_to_list (filter (λ p, gg_ID p.2 = p.1) (st_Groups w))).*2) =
      (map_to_list (filter (λ p, gg_ID p.2 = p.1) (st_Groups w))).*1) as Hids.
    { rewrite <-list_fmap_compose. apply list_fmap_ext. intros i [id g] Hi%list_elem_of_lookup_2%elem_of_map_to_list.
      by apply map_lookup_filter_Some in Hi as [_ ?]. }
    split; [rewrite Hids; apply NoDup_fst_map_to_list|]. intros g. rewrite list_elem_of_fmap. split.
    + intros ([id g'] & -> & Hg%elem_of_map_to_list). simpl.
      apply map_lookup_filter_Some in Hg as Hg'. destruct Hg' as [_ Hid]. simpl in Hid. by rewrite Hid.
    + intros Hg. exists (gg_ID g, g). split; [done|]. by apply elem_of_map_to_list.
  - intros w id g H. by apply toy_lookup in H as [_ ?].
  - intros r w. simpl. exists (fresh (dom (st_Groups w))). split.
    + apply eq_None_not_Some. intros [g [Hg _]%toy_lookup]. apply (is_fresh (dom (st_Groups w))), elem_of_dom. by eexists.
    + unfold toy_state. simpl. unfold with_groups. simpl. f_equal. by apply map_filter_insert_True.
  - intros id r g w [Hg Hid]%toy_lookup. simpl. rewrite Hg. unfold toy_state, with_groups. simpl. f_equal. by apply map_filter_insert_True.
  - intros id w. unfold toy_state, with_groups. simpl. f_equal. apply map_filter_delete.
  - intros id w. simpl. split_and!; [apply NoDup_elements|apply list_to_set_elements_L|done].
Qed.

(** A repository of [org] and its access level. *)
Definition repo_actions : RepoActionsApi string := {|
  FetchOrganizationOfRepo _ _ := Ret (inl org);
  GetAccessLevelForExternalWorkflowsForRepo := gets (λ l, inl (Some l));
  SetAccessLevelForExternalWorkflowsForRepo l := call (λ _, (None, l)) |}.
End ToyActions.
Import ToyActions.

Lemma reconcileOrgActionsSettings_synced_witness :
  run (reconcileOrgActionsSettings toy_order org) before = (None, after) ∧
  st_Retention (toy_state after) = 30 ∧ groups_expected toy_repos [fast; slow] ["fast"; "slow"] (toy_state after).
Proof.
  split; [vm_compute; reflexivity|].
  destruct (reconcileOrgActionsSettings_synced toy_order org toy_state toy_repos) with (w := before) (w' := after)
    as (_ & _ & Hret & _ & _ & _ & Hgroups).
  - simpl. repeat constructor; set_solver.
  - simpl. repeat constructor; set_solver.
  - repeat (constructor; [split_and!; [by eexists|by eexists|done]|]). constructor.
  - vm_compute. reflexivity.
  - split; [exact Hret|exact Hgroups].
Defined.

Lemma reconcileRepoActionsSettings_spec_witness :
  run (reconcileRepoActionsSettings (A := repo_actions) (Samples.repo "r" [] [])) "user" = (None, "none") ∧ "none" = "none".
Proof.
  split; [vm_compute; reflexivity|].
  apply (reconcileRepoActionsSettings_spec (A := repo_actions) id (λ _ _, org) (Samples.repo "r" [] []) "user" "none"); [done..|].
  vm_compute. reflexivity.
Defined.

(** When the permissions are changed to selected repositories, the selection waits for the next run. *)
Lemma selection_waits :
  pm_EnabledRepositories (st_Permissions after) = "selected" ∧ st_Enabled after = ∅ ∧ enabled_ids toy_repos = {[11; 12]} ∧
  st_Enabled (run (reconcileOrgActionsSettings toy_order org) after).2 = {[11; 12]}.
Proof. vm_compute. done. Qed.
