(* ===== verification/Csc.v ===== *)
(** * Code security configurations of an organization

    internal/reconciler/orgrec/rec_code_security_configurations.go and
    internal/mapper/github_code_security_configuration_mapper.go.  Attaching is asynchronous: the code polls GitHub with
    a ticker until all attachments are finished, a timeout fires or the context ends; the outcome of every [select] is an
    action of the world. *)
From S2P Require Import Prelude GoErrors Conditions ApiTypes OrgRec OrgActions.

(** ** github_code_security_configuration_mapper.go *)
Record gh_BypassReviewer := { gb_ReviewerID : Z; gb_ReviewerType : string }.

(** [github.CodeSecurityConfiguration]; options with one field are their field. *)
Record gh_Csc := {
  gc_ID : option Z;
  gc_TargetType : option string;
  gc_Name : string;
  gc_Description : string;
  gc_AdvancedSecurity : option string;
  gc_DependencyGraph : option string;
  gc_DependencyGraphAutosubmitAction : option string;
  gc_DependencyGraphAutosubmitActionOptions : option (option bool); (* LabeledRunners *)
  gc_DependabotAlerts : option string;
  gc_DependabotSecurityUpdates : option string;
  gc_CodeScanningDefaultSetup : option string;
  gc_CodeScanningDefaultSetupOptions : option CodeScanningDefaultSetupOptions;
  gc_CodeScanningDelegatedAlertDismissal : option string;
  gc_CodeScanningOptions : option (option bool); (* AllowAdvanced *)
  gc_CodeSecurity : option string;
  gc_SecretScanning : option string;
  gc_SecretScanningPushProtection : option string;
  gc_SecretScanningValidityChecks : option string;
  gc_SecretScanningNonProviderPatterns : option string;
  gc_SecretScanningGenericSecrets : option string;
  gc_SecretScanningDelegatedAlertDismissal : option string;
  gc_SecretProtection : option string;
  gc_PrivateVulnerabilityReporting : option string;
  gc_Enforcement : option string;
  gc_SecretScanningDelegatedBypass : option string;
  gc_SecretScanningDelegatedBypassOptions : option (list gh_BypassReviewer) }.

(** [*spec.Reviewers[i].ReviewerId] panics for a reviewer without an id; the reconciliation then has no result, which is
    modelled as an error. *)
Definition nil_dereference : gerror := EPlain "panic: nil pointer dereference".

Definition toSecretScanningDelegatedBypassOptions (spec : option (list BypassReviewer)) : res (option (list gh_BypassReviewer)) :=
  match spec with
  | None => inl None
  | Some reviewers =>
    match try_map (λ r, match br_ReviewerId r with
        | Some id => inl {| gb_ReviewerID := id; gb_ReviewerType := br_ReviewerType r |}
        | None => inr nil_dereference
        end) reviewers with
    | inl l => inl (Some l)
    | inr err => inr err
    end
  end.

(** The remaining conversions of options copy them. *)
Definition ToGithubCodeSecurityConfiguration (csc : CodeSecurityConfiguration) : res gh_Csc :=
  let spec := csc_Spec csc in
  match toSecretScanningDelegatedBypassOptions (csc_SecretScanningDelegatedBypassOptions spec) with
  | inr err => inr err
  | inl bypass => inl {|
      gc_ID := None;
      gc_TargetType := None;
      gc_Name := csc_Name spec;
      gc_Description := csc_Description spec;
      gc_AdvancedSecurity := csc_AdvancedSecurity spec;
      gc_DependencyGraph := csc_DependencyGraph spec;
      gc_DependencyGraphAutosubmitAction := csc_DependencyGraphAutosubmitAction spec;
      gc_DependencyGraphAutosubmitActionOptions := csc_DependencyGraphAutosubmitActionOptions spec;
      gc_DependabotAlerts := csc_DependabotAlerts spec;
      gc_DependabotSecurityUpdates := csc_DependabotSecurityUpdates spec;
      gc_CodeScanningDefaultSetup := csc_CodeScanningDefaultSetup spec;
      gc_CodeScanningDefaultSetupOptions := csc_CodeScanningDefaultSetupOptions spec;
      gc_CodeScanningDelegatedAlertDismissal := csc_CodeScanningDelegatedAlertDismissal spec;
      gc_CodeScanningOptions := csc_CodeScanningOptions spec;
      gc_CodeSecurity := csc_CodeSecurity spec;
      gc_SecretScanning := csc_SecretScanning spec;
      gc_SecretScanningPushProtection := csc_SecretScanningPushProtection spec;
      gc_SecretScanningValidityChecks := csc_SecretScanningValidityChecks spec;
      gc_SecretScanningNonProviderPatterns := csc_SecretScanningNonProviderPatterns spec;
      gc_SecretScanningGenericSecrets := csc_SecretScanningGenericSecrets spec;
      gc_SecretScanningDelegatedAlertDismissal := csc_SecretScanningDelegatedAlertDismissal spec;
      gc_SecretProtection := csc_SecretProtection spec;
      gc_PrivateVulnerabilityReporting := csc_PrivateVulnerabilityReporting spec;
      gc_Enforcement := csc_Enforcement spec;
      gc_SecretScanningDelegatedBypass := csc_SecretScanningDelegatedBypass spec;
      gc_SecretScanningDelegatedBypassOptions := bypass |}
  end.

(** The field getters read nil as the zero value. *)
Definition get_differ (a b : option string) : bool := bool_decide (WithDefault a "" ≠ WithDefault b "").

Definition dependencyGraphAutosubmitActionOptionsEqual (first second : option (option bool)) : bool :=
  both_or_neither (λ a b, bool_decide (WithDefault a false = WithDefault b false)) first second.
Definition codeScanningOptionsEqual (first second : option (option bool)) : bool :=
  both_or_neither (λ a b, bool_decide (WithDefault a false = WithDefault b false)) first second.
Definition codeScanningDefaultSetupOptionsEqual (first second : option CodeScanningDefaultSetupOptions) : bool :=
  both_or_neither (λ a b, bool_decide (cs_RunnerType a = cs_RunnerType b) && negb (get_differ (cs_RunnerLabel a) (cs_RunnerLabel b))) first second.

Definition CodeSecurityConfigurationsDiffer (first second : option gh_Csc) : bool :=
  match first, second with
  | None, None => true
  | Some first, Some second =>
    bool_decide (gc_Name first ≠ gc_Name second) ||
    bool_decide (gc_Description first ≠ gc_Description second) ||
    get_differ (gc_AdvancedSecurity first) (gc_AdvancedSecurity second) ||
    get_differ (gc_DependencyGraph first) (gc_DependencyGraph second) ||
    get_differ (gc_DependencyGraphAutosubmitAction first) (gc_DependencyGraphAutosubmitAction second) ||
    negb (dependencyGraphAutosubmitActionOptionsEqual (gc_DependencyGraphAutosubmitActionOptions first)
      (gc_DependencyGraphAutosubmitActionOptions second)) ||
    get_differ (gc_DependabotAlerts first) (gc_DependabotAlerts second) ||
    get_differ (gc_DependabotSecurityUpdates first) (gc_DependabotSecurityUpdates second) ||
    get_differ (gc_CodeScanningDefaultSetup first) (gc_CodeScanningDefaultSetup second) ||
    negb (codeScanningDefaultSetupOptionsEqual (gc_CodeScanningDefaultSetupOptions first) (gc_CodeScanningDefaultSetupOptions second)) ||
    get_differ (gc_CodeScanningDelegatedAlertDismissal first) (gc_CodeScanningDelegatedAlertDismissal second) ||
    negb (codeScanningOptionsEqual (gc_CodeScanningOptions first) (gc_CodeScanningOptions second)) ||
    get_differ (gc_CodeSecurity first) (gc_CodeSecurity second) ||
    get_differ (gc_SecretScanning first) (gc_SecretScanning second) ||
    get_differ (gc_SecretScanningPushProtection first) (gc_SecretScanningPushProtection second) ||
    get_differ (gc_SecretScanningValidityChecks first) (gc_SecretScanningValidityChecks second) ||
    get_differ (gc_SecretScanningNonProviderPatterns first) (gc_SecretScanningNonProviderPatterns second) ||
    get_differ (gc_SecretScanningGenericSecrets first) (gc_SecretScanningGenericSecrets second) ||
    get_differ (gc_SecretScanningDelegatedAlertDismissal first) (gc_SecretScanningDelegatedAlertDismissal second) ||
    get_differ (gc_SecretProtection first) (gc_SecretProtection second) ||
    get_differ (gc_PrivateVulnerabilityReporting first) (gc_PrivateVulnerabilityReporting second) ||
    get_differ (gc_Enforcement first) (gc_Enforcement second)
  | _, _ => false
  end.

(** ** rec_code_security_configurations.go *)

(** [github.RepositoryAttachment]: the name of the repository and the status; a repository of the organization. *)
Record RepositoryAttachment := { at_Name : string; at_Status : string }.
Record OrgRepository := { or_ID : option Z; or_Name : option string; or_Visibility : string }.

(** What a [select] of the polling loop yields. *)
Inductive SelectEvent := EvTick | EvTimeout | EvDone (err : gerror).

(** The configuration of a default is never nil. *)
Class CscApi (W : Type) := {
  FetchCsc : string → string → prog W (res CodeSecurityConfiguration);                       (* namespace, name *)
  ResolveCscBypassReviewers : CodeSecurityConfiguration → prog W (res CodeSecurityConfiguration); (* IdResolver *)
  GetDefaultCodeSecurityConfigurationsForOrg : prog W (res (list (option gh_Csc)));
  SetCodeSecurityConfigurationAsDefaultForOrg : Z → string → prog W (option gerror);
  GetCodeSecurityConfigurationsForOrg : prog W (res (list (option gh_Csc)));
  CreateCodeSecurityConfigurationForOrg : gh_Csc → prog W (res gh_Csc);
  UpdateCodeSecurityConfigurationForOrg : Z → gh_Csc → prog W (res gh_Csc);
  DeleteCodeSecurityConfigurationForOrg : Z → prog W (option gerror);
  GetOrgRepositories : prog W (res (list OrgRepository));
  GetGitHubRepositoryID : string → prog W (res (option Z));                                  (* GetRepository *)
  GetRepositoriesAttachedToCodeSecurityConfiguration : Z → prog W (res (option (list RepositoryAttachment)));
  AttachCodeSecurityConfigurations : Z → string → list Z → prog W (option gerror);
  StartTimers : Z → Z → prog W unit;                                                         (* NewTicker, After *)
  Select : prog W SelectEvent
}.

Definition targetTypeOrganization : string := "organization".

(** [byName] with one filter. *)
Definition byName (l : list (option gh_Csc)) (exclude : gh_Csc → bool) : gmap string gh_Csc :=
  index_by gc_Name (filter (λ c, negb (exclude c)) (omap id l)).

Definition not_of_organization (c : gh_Csc) : bool := bool_decide (WithDefault (gc_TargetType c) "" ≠ targetTypeOrganization).

Section Reconcile.
Context {W : Type} {A : CscApi W} {LA : ListApi W} (o : MapOrder) (org : Organization).
(** The length of a loop that waits longer than its timers is bounded by this number more rounds. *)
Context (slack : nat).
Let ns := Namespace (o_Meta org).

(** The first loop of [unsetObsoleteDefaults]. *)
Fixpoint default_confs (refs : list AttachableCodeSecurityConfigurationRef) (acc : gset string) : prog W (res (gset string)) :=
  match refs with
  | [] => Ret (inl acc)
  | ref :: refs =>
    let? csc := FetchCsc ns (ar_Name ref) in
    default_confs refs
      (match csc_DefaultForNewRepos (csc_Spec csc) with
       | Some d => if bool_decide (d ≠ "none") then {[csc_Name (csc_Spec csc)]} ∪ acc else acc
       | None => acc
       end)
  end.

Definition unsetObsoleteDefaults : prog W (option gerror) :=
  let^ defaultK8sConfs := default_confs (o_CodeSecurityConfigurations (o_Spec org)) ∅ in
  let^ defaultGhConfs := GetDefaultCodeSecurityConfigurationsForOrg in
  for_each (range o (byName defaultGhConfs not_of_organization)) (λ '(ghName, ghConf),
    if bool_decide (ghName ∈ defaultK8sConfs) then Ret None
    else SetCodeSecurityConfigurationAsDefaultForOrg (WithDefault (gc_ID ghConf) 0) "none").

Definition getOrgLevelCodeSecurityConfigurationsByName : prog W (res (gmap string gh_Csc)) :=
  let? ghConfs := GetCodeSecurityConfigurationsForOrg in
  Ret (inl (byName ghConfs not_of_organization)).

Definition set_default (id : Z) (desired : CodeSecurityConfiguration) : prog W (option gerror) :=
  match csc_DefaultForNewRepos (csc_Spec desired) with
  | Some d => SetCodeSecurityConfigurationAsDefaultForOrg id d
  | None => Ret None
  end.

(** The returned configuration is the one before the update: the inner variable shadows the outer one. *)
Definition updateCsc (desired : CodeSecurityConfiguration) (current : gh_Csc) : prog W (res gh_Csc) :=
  match ToGithubCodeSecurityConfiguration desired with
  | inr err => Ret (inr err)
  | inl desiredAsGH =>
    if CodeSecurityConfigurationsDiffer (Some desiredAsGH) (Some current) then
      let? updated := UpdateCodeSecurityConfigurationForOrg (WithDefault (gc_ID current) 0) desiredAsGH in
      let! err := set_default (WithDefault (gc_ID updated) 0) desired in
      Ret (match err with Some err => inr err | None => inl current end)
    else Ret (inl current)
  end.

Definition createCsc (conf : CodeSecurityConfiguration) : prog W (res gh_Csc) :=
  match ToGithubCodeSecurityConfiguration conf with
  | inr err => Ret (inr err)
  | inl ghConf =>
    let? result := CreateCodeSecurityConfigurationForOrg ghConf in
    let! err := set_default (WithDefault (gc_ID result) 0) conf in
    Ret (match err with Some err => inr err | None => inl result end)
  end.

Definition deleteCsc (conf : gh_Csc) : prog W (option gerror) := DeleteCodeSecurityConfigurationForOrg (WithDefault (gc_ID conf) 0).

(** The loop over the statuses: [inl true] if all attachments are finished, an error for a failed one if asked for. *)
Fixpoint all_attached (returnErrorOnFailedStatus : bool) (l : list RepositoryAttachment) : res bool :=
  match l with
  | [] => inl true
  | a :: l =>
    if bool_decide (at_Status a ∈ ["attaching"; "updating"]) then inl false
    else if bool_decide (at_Status a ∈ ["detached"; "removed"; "failed"]) then
      if returnErrorOnFailedStatus then inr (EPlain ("encountered failed attachment status: " +:+ at_Status a)) else inl false
    else all_attached returnErrorOnFailedStatus l
  end.

Definition getAttachmentsIfAllAttached (cscGitHubID : Z) (returnErrorOnFailedStatus : bool)
    : prog W (res (option (list RepositoryAttachment))) :=
  let? attachedRepos := GetRepositoriesAttachedToCodeSecurityConfiguration cscGitHubID in
  Ret (match all_attached returnErrorOnFailedStatus (WithDefault attachedRepos []) with
    | inr err => inr err
    | inl true => inl attachedRepos
    | inl false => inl None
    end).

Definition timeout_error : gerror := EPlain "timeout waiting for code security configuration attachment to complete".
(** The result of a loop that is cut off; it does not occur (see [getAndWait_terminates]). *)
Definition cut_off : gerror := EPlain "polling loop did not end".

(** [None]: the loop is cut off. *)
Fixpoint poll (fuel : nat) (cscGitHubID : Z) : prog W (option (res (list RepositoryAttachment))) :=
  match fuel with
  | O => Ret None
  | S fuel =>
    let! ev := Select in
    match ev with
    | EvDone err => Ret (Some (inr err))
    | EvTimeout => Ret (Some (inr timeout_error))
    | EvTick =>
      let! attachments := getAttachmentsIfAllAttached cscGitHubID true in
      match attachments with
      | inr err => Ret (Some (inr err))
      | inl (Some attachments) => Ret (Some (inl attachments))
      | inl None => poll fuel cscGitHubID
      end
    end
  end.

Definition poll_fuel (queryInterval timeoutAfter : Z) : nat := S (Z.to_nat (timeoutAfter / queryInterval) + slack).

Definition getAndWaitForFinishedAttachments (cscGitHubID queryInterval timeoutAfter : Z) : prog W (res (list RepositoryAttachment)) :=
  let? attachments := getAttachmentsIfAllAttached cscGitHubID false in
  match attachments with
  | Some attachments => Ret (inl attachments)
  | None =>
    let! _ := StartTimers queryInterval timeoutAfter in
    let! result := poll (poll_fuel queryInterval timeoutAfter) cscGitHubID in
    Ret (WithDefault result (inr cut_off))
  end.

Definition attachToRepos (attachmentScope : string) (cscGitHubID : Z) (repoIds : list Z) : prog W (option gerror) :=
  let! err := AttachCodeSecurityConfigurations cscGitHubID attachmentScope repoIds in
  match err with
  | None => Ret None
  | Some err =>
    if as_type (λ e, match e with EAccepted => Some tt | _ => None end) err then
      let^ _ := getAndWaitForFinishedAttachments cscGitHubID (5 * Second) (2 * Minute) in Ret None
    else Ret (Some err)
  end.

(** The id of a repository that refers to the configuration. *)
Definition selected_id (repo : Repository) : prog W (res Z) :=
  match rst_ID (r_Status repo) with
  | Some id => Ret (inl id)
  | None =>
    let? ghRepo := GetGitHubRepositoryID (r_Name (r_Spec repo)) in
    Ret (match ghRepo with
      | Some id => inl id
      | None => inr (EPlain ("repository " +:+ r_Name (r_Spec repo) +:+ " has no ID in GitHub, cannot attach code security configuration"))
      end)
  end.
Fixpoint selected_ids (repos : list Repository) (acc : gmap string Z) : prog W (res (gmap string Z)) :=
  match repos with
  | [] => Ret (inl acc)
  | repo :: repos =>
    let? id := selected_id repo in
    selected_ids repos (<[Name (r_Meta repo) := id]> acc)
  end.

Definition getSelectedAttachedRepoNamesToIDs (cscK8sName : string) : prog W (res (gmap string Z)) :=
  let? repoList := ListRepositories ns "spec.attachedCodeSecurityConfiguration.name" cscK8sName in
  selected_ids repoList ∅.

Definition in_scope (attachmentScope visibility : string) : bool :=
  if bool_decide (attachmentScope = VisibilityPublic) then bool_decide (visibility = VisibilityPublic)
  else if bool_decide (attachmentScope = "private_or_internal")
  then bool_decide (visibility = VisibilityPrivate) || bool_decide (visibility = VisibilityInternal)
  else bool_decide (attachmentScope = "all").

(** The loop over the repositories of the organization. *)
Definition repos_in_scope (attachmentScope : string) (repos : list OrgRepository) : gmap string Z :=
  foldl (λ m repo, match or_ID repo, or_Name repo with
    | Some id, Some name => if in_scope attachmentScope (or_Visibility repo) then <[name := id]> m else m
    | _, _ => m
    end) ∅ repos.

Definition getDesiredAttachmentsForScope (attachmentScope cscK8sName : string) : prog W (res (gmap string Z)) :=
  if bool_decide (attachmentScope = "selected") then getSelectedAttachedRepoNamesToIDs cscK8sName
  else
    let? repos := GetOrgRepositories in
    Ret (inl (repos_in_scope attachmentScope repos)).

Definition attachmentsDiffer (currentAttachments : list RepositoryAttachment) (desiredAttachments : gmap string Z) : bool :=
  if negb (bool_decide (length currentAttachments = size desiredAttachments)) then true
  else negb (forallb (λ current, bool_decide (is_Some (desiredAttachments !! at_Name current))) currentAttachments).

Definition attachCSC (attachmentScope cscK8sName : string) (cscGitHubID : Z) : prog W (option gerror) :=
  if bool_decide (attachmentScope = "all_without_configurations") then attachToRepos attachmentScope cscGitHubID []
  else
    let^ currentAttachments := getAndWaitForFinishedAttachments cscGitHubID (5 * Second) (1 * Minute) in
    let^ desiredAttachments := getDesiredAttachmentsForScope attachmentScope cscK8sName in
    if attachmentsDiffer currentAttachments desiredAttachments then
      attachToRepos attachmentScope cscGitHubID
        (if bool_decide (attachmentScope = "selected") then snd <$> range o desiredAttachments else [])
    else Ret None.

Record attachable := { ac_scope : option string; ac_githubId : Z }.

(** The loop over the referenced configurations, which yields [seen]; the keys are the names in Kubernetes. *)
Definition reconcile_csc (ghOrgConfsByName : gmap string gh_Csc) (csc : AttachableCodeSecurityConfigurationRef)
    : prog W (res (string * attachable)) :=
  let? fetched := FetchCsc ns (ar_Name csc) in
  let k8sName := Name (csc_Meta fetched) in
  let? expectedCsc := ResolveCscBypassReviewers fetched in
  let? currentCsc := match ghOrgConfsByName !! k8sName with
    | Some match_ => updateCsc expectedCsc match_
    | None => createCsc expectedCsc
    end in
  Ret (inl (k8sName, {| ac_scope := ar_AttachmentScope csc; ac_githubId := WithDefault (gc_ID currentCsc) 0 |})).
Fixpoint reconcile_cscs (ghOrgConfsByName : gmap string gh_Csc) (refs : list AttachableCodeSecurityConfigurationRef)
    (seen : gmap string attachable) : prog W (res (gmap string attachable)) :=
  match refs with
  | [] => Ret (inl seen)
  | csc :: refs =>
    let? entry := reconcile_csc ghOrgConfsByName csc in
    reconcile_cscs ghOrgConfsByName refs (<[entry.1 := entry.2]> seen)
  end.

Definition reconcileCodeSecurityConfigurations : prog W (option gerror) :=
  check unsetObsoleteDefaults in
  let^ ghOrgConfsByName := getOrgLevelCodeSecurityConfigurationsByName in
  if negb (HasEnterpriseFeatures org) then Ret None
  else
    let^ seen := reconcile_cscs ghOrgConfsByName (o_CodeSecurityConfigurations (o_Spec org)) ∅ in
    check for_each (range o ghOrgConfsByName) (λ '(ghName, ghConf),
      if bool_decide (is_Some (seen !! ghName)) then Ret None else deleteCsc ghConf) in
    for_each (range o seen) (λ '(k8sName, candidate),
      match ac_scope candidate with
      | Some scope => attachCSC scope k8sName (ac_githubId candidate)
      | None => Ret None
      end).
End Reconcile.

(** ** Theorems *)

(** *** Polling ends *)
Section Polling.
Context {W : Type} {A : CscApi W} (slack : nat) (ticks_left : W → nat).

(** The ticker delivers a tick per interval until the timeout fires; from then on a [select] that has both to choose from
    takes the tick at most [slack] times.  A query does not bring the timeout further away. *)
Class TimerLaws : Prop := {
  timers_started q t w : (ticks_left (run (StartTimers q t) w).2 ≤ Z.to_nat (t / q) + slack)%nat;
  tick_taken w : match run Select w with (EvTick, w') => (ticks_left w' < ticks_left w)%nat | _ => True end;
  query_time id w : (ticks_left (run (GetRepositoriesAttachedToCodeSecurityConfiguration id) w).2 ≤ ticks_left w)%nat
}.
Context {L : TimerLaws}.

Definition finished (a : RepositoryAttachment) : Prop :=
  at_Status a ∉ ["attaching"; "updating"; "detached"; "removed"; "failed"].

Lemma all_attached_finished b l : all_attached b l = inl true → Forall finished l.
Proof.
  induction l as [|a l IH]; simpl; [constructor|]. case_bool_decide as H1; [done|]. case_bool_decide as H2; [by destruct b|].
  intros Hl. constructor; [|by apply IH]. unfold finished. set_solver.
Qed.

Lemma getAttachments_finished id b l w w' :
  run (getAttachmentsIfAllAttached id b) w = (inl (Some l), w') → Forall finished l.
Proof.
  unfold getAttachmentsIfAllAttached. rewrite run_bind. destruct (run _ w) as [[x|e] w1]; [|done]. cbn [run].
  destruct (all_attached b (WithDefault x [])) as [[]|e] eqn:E; [|done..]. intros [= -> <-]. by apply all_attached_finished in E.
Qed.

Lemma getAttachments_time id b w : (ticks_left (run (getAttachmentsIfAllAttached id b) w).2 ≤ ticks_left w)%nat.
Proof.
  unfold getAttachmentsIfAllAttached. rewrite run_bind. pose proof (query_time id w) as H. by destruct (run _ w) as [[x|e] w1].
Qed.

Lemma poll_ends fuel id w :
  (ticks_left w < fuel)%nat →
  ∃ r w', run (poll fuel id) w = (Some r, w') ∧ match r with inl l => Forall finished l | inr _ => True end.
Proof.
  revert w. induction fuel as [|fuel IH]; intros w Hfuel; [lia|]. cbn [poll]. rewrite run_bind.
  pose proof (tick_taken w) as Ht. destruct (run Select w) as [[| |err] w1]; [|by eexists _, _..].
  rewrite run_bind. pose proof (getAttachments_time id true w1) as Hq.
  destruct (run (getAttachmentsIfAllAttached id true) w1) as [[[l|]|e] w2] eqn:E; simpl in Hq.
  - eexists _, _. split; [done|]. by apply getAttachments_finished in E.
  - apply IH. lia.
  - by eexists _, _.
Qed.

(** C12: waiting for the attachments ends: the polling loop returns a result within one round per query interval of
    the timeout (and the rounds in which a due tick wins against the timeout), and attachments it returns are
    finished. *)
Theorem getAndWait_terminates id queryInterval timeoutAfter w :
  let '(result, w') := run (getAndWaitForFinishedAttachments slack id queryInterval timeoutAfter) w in
  match result with inl l => Forall finished l | inr _ => True end ∧
  match run (getAttachmentsIfAllAttached id false) w with
  | (inl (Some l), w1) => result = inl l ∧ w' = w1
  | (inr err, w1) => result = inr err ∧ w' = w1
  | (inl None, w1) =>
    run (poll (poll_fuel slack queryInterval timeoutAfter) id) (run (StartTimers queryInterval timeoutAfter) w1).2 = (Some result, w')
  end.
Proof.
  unfold getAndWaitForFinishedAttachments. rewrite run_bind.
  destruct (run (getAttachmentsIfAllAttached id false) w) as [[[l|]|e] w1] eqn:E; cbn [run]; [| |done].
  - split; [by apply getAttachments_finished in E|done].
  - rewrite run_bind. pose proof (timers_started queryInterval timeoutAfter w1) as Ht.
    destruct (run (StartTimers _ _) w1) as [[] w2]. rewrite run_bind. simpl in Ht.
    destruct (poll_ends (poll_fuel slack queryInterval timeoutAfter) id w2) as (r & w3 & Hp & Hr); [unfold poll_fuel; lia|].
    rewrite Hp. cbn [run snd WithDefault]. by rewrite Hp.
Qed.
End Polling.

(** *** The configurations on GitHub *)

(** The settings that are compared, and what it means that GitHub has the declared ones. *)
Definition settings (c : gh_Csc) : list (option string) := [
  gc_AdvancedSecurity c; gc_DependencyGraph c; gc_DependencyGraphAutosubmitAction c; gc_DependabotAlerts c;
  gc_DependabotSecurityUpdates c; gc_CodeScanningDefaultSetup c; gc_CodeScanningDelegatedAlertDismissal c; gc_CodeSecurity c;
  gc_SecretScanning c; gc_SecretScanningPushProtection c; gc_SecretScanningValidityChecks c;
  gc_SecretScanningNonProviderPatterns c; gc_SecretScanningGenericSecrets c; gc_SecretScanningDelegatedAlertDismissal c;
  gc_SecretProtection c; gc_PrivateVulnerabilityReporting c; gc_Enforcement c].
Definition declared (d c : gh_Csc) : Prop :=
  gc_Name c = gc_Name d ∧ gc_Description c = gc_Description d ∧
  Forall2 (λ a b, ∀ v, a = Some v → WithDefault b "" = v) (settings d) (settings c).

(** What GitHub stores of a new configuration and of an update, which keeps what is not sent. *)
Definition overlay (d old : gh_Csc) : gh_Csc :=
  let keep {X} (f : gh_Csc → option X) := match f d with Some v => Some v | None => f old end in {|
  gc_ID := gc_ID old; gc_TargetType := gc_TargetType old; gc_Name := gc_Name d; gc_Description := gc_Description d;
  gc_AdvancedSecurity := keep gc_AdvancedSecurity; gc_DependencyGraph := keep gc_DependencyGraph;
  gc_DependencyGraphAutosubmitAction := keep gc_DependencyGraphAutosubmitAction;
  gc_DependencyGraphAutosubmitActionOptions := keep gc_DependencyGraphAutosubmitActionOptions;
  gc_DependabotAlerts := keep gc_DependabotAlerts; gc_DependabotSecurityUpdates := keep gc_DependabotSecurityUpdates;
  gc_CodeScanningDefaultSetup := keep gc_CodeScanningDefaultSetup;
  gc_CodeScanningDefaultSetupOptions := keep gc_CodeScanningDefaultSetupOptions;
  gc_CodeScanningDelegatedAlertDismissal := keep gc_CodeScanningDelegatedAlertDismissal;
  gc_CodeScanningOptions := keep gc_CodeScanningOptions; gc_CodeSecurity := keep gc_CodeSecurity;
  gc_SecretScanning := keep gc_SecretScanning; gc_SecretScanningPushProtection := keep gc_SecretScanningPushProtection;
  gc_SecretScanningValidityChecks := keep gc_SecretScanningValidityChecks;
  gc_SecretScanningNonProviderPatterns := keep gc_SecretScanningNonProviderPatterns;
  gc_SecretScanningGenericSecrets := keep gc_SecretScanningGenericSecrets;
  gc_SecretScanningDelegatedAlertDismissal := keep gc_SecretScanningDelegatedAlertDismissal;
  gc_SecretProtection := keep gc_SecretProtection; gc_PrivateVulnerabilityReporting := keep gc_PrivateVulnerabilityReporting;
  gc_Enforcement := keep gc_Enforcement; gc_SecretScanningDelegatedBypass := keep gc_SecretScanningDelegatedBypass;
  gc_SecretScanningDelegatedBypassOptions := keep gc_SecretScanningDelegatedBypassOptions |}.
Definition blank (id : Z) : gh_Csc := {|
  gc_ID := Some id; gc_TargetType := Some targetTypeOrganization; gc_Name := ""; gc_Description := ""; gc_AdvancedSecurity := None;
  gc_DependencyGraph := None; gc_DependencyGraphAutosubmitAction := None; gc_DependencyGraphAutosubmitActionOptions := None;
  gc_DependabotAlerts := None; gc_DependabotSecurityUpdates := None; gc_CodeScanningDefaultSetup := None;
  gc_CodeScanningDefaultSetupOptions := None; gc_CodeScanningDelegatedAlertDismissal := None; gc_CodeScanningOptions := None;
  gc_CodeSecurity := None; gc_SecretScanning := None; gc_SecretScanningPushProtection := None;
  gc_SecretScanningValidityChecks := None; gc_SecretScanningNonProviderPatterns := None; gc_SecretScanningGenericSecrets := None;
  gc_SecretScanningDelegatedAlertDismissal := None; gc_SecretProtection := None; gc_PrivateVulnerabilityReporting := None;
  gc_Enforcement := None; gc_SecretScanningDelegatedBypass := None; gc_SecretScanningDelegatedBypassOptions := None |}.

Lemma declared_overlay d old : declared d (overlay d old).
Proof.
  unfold declared, settings. split_and!; [done..|]. repeat (constructor; [simpl; by intros v ->|]). constructor.
Qed.

Lemma get_differ_false a b v : get_differ a b = false → a = Some v → WithDefault b "" = v.
Proof. unfold get_differ. rewrite bool_decide_eq_false. intros Hn ->. apply dec_stable in Hn. by simpl in Hn. Qed.

Lemma CodeSecurityConfigurationsDiffer_declared d c :
  CodeSecurityConfigurationsDiffer (Some d) (Some c) = false → declared d c.
Proof.
  unfold CodeSecurityConfigurationsDiffer. rewrite !orb_false_iff, !bool_decide_eq_false.
  intros H. repeat match goal with H : _ ∧ _ |- _ => destruct H end.
  split_and!; [by symmetry; apply dec_stable|by symmetry; apply dec_stable|].
  unfold settings. repeat (constructor; [intros v; by apply get_differ_false|]). constructor.
Qed.

Lemma elem_of_byName m l exclude n c :
  byName l exclude = m → m !! n = Some c → Some c ∈ l ∧ gc_Name c = n ∧ exclude c = false.
Proof.
  intros <- [(He & (x & Hx & Heq)%list_elem_of_omap)%list_elem_of_filter Hn]%index_by_Some. simpl in Heq. subst x.
  split_and!; [done|done|]. by destruct (exclude c).
Qed.

Section Synced.
Context {W : Type} {A : CscApi W} {LA : ListApi W} (o : MapOrder) (org : Organization) (slack : nat).
Context (configs : W → gmap Z gh_Csc) (cluster : string → CodeSecurityConfiguration)
  (resolved : CodeSecurityConfiguration → CodeSecurityConfiguration).
Let refs := o_CodeSecurityConfigurations (o_Spec org).

Definition of_organization (c : gh_Csc) : Prop := not_of_organization c = false.

(** The configurations of an organization have different names. *)
Definition unique_names (m : gmap Z gh_Csc) : Prop :=
  ∀ i j c d, m !! i = Some c → m !! j = Some d → of_organization c → of_organization d → gc_Name c = gc_Name d → i = j.

(** GitHub keeps configurations by id; reading, attaching and defaults
    do not touch them.  [cluster] has the resources of the namespace, [resolved] replaces the names of reviewers. *)
Class CscLaws : Prop := {
  csc_ids w id c : configs w !! id = Some c → gc_ID c = Some id;
  csc_fetched n w : match run (FetchCsc (Namespace (o_Meta org)) n) w with
    | (inl c, w') => c = cluster n ∧ Name (csc_Meta c) = n ∧ configs w' = configs w | (inr _, _) => True end;
  csc_resolved c w : match run (ResolveCscBypassReviewers c) w with
    | (inl c', w') => c' = resolved c ∧ csc_Name (csc_Spec c') = csc_Name (csc_Spec c) ∧ configs w' = configs w | (inr _, _) => True end;
  csc_listed w : match run GetCodeSecurityConfigurationsForOrg w with
    | (inl l, w') => w' = w ∧ ∀ c, Some c ∈ l ↔ ∃ id, configs w !! id = Some c | (inr _, _) => True end;
  csc_created d w : match run (CreateCodeSecurityConfigurationForOrg d) w with
    | (inl c, w') => ∃ id, configs w !! id = None ∧ c = overlay d (blank id) ∧ configs w' = <[id := c]> (configs w)
    | (inr _, _) => True end;
  csc_updated id d old w : configs w !! id = Some old → match run (UpdateCodeSecurityConfigurationForOrg id d) w with
    | (inl _, w') => configs w' = <[id := overlay d old]> (configs w) | (inr _, _) => True end;
  csc_deleted id w : match run (DeleteCodeSecurityConfigurationForOrg id) w with
    | (None, w') => configs w' = delete id (configs w) | (Some _, _) => True end;
  csc_keeps_default id v : keeps configs (SetCodeSecurityConfigurationAsDefaultForOrg id v);
  csc_keeps_defaults : keeps configs GetDefaultCodeSecurityConfigurationsForOrg;
  csc_keeps_fetch ns n : keeps configs (FetchCsc ns n);
  csc_keeps_repos : keeps configs GetOrgRepositories;
  csc_keeps_repo n : keeps configs (GetGitHubRepositoryID n);
  csc_keeps_attached id : keeps configs (GetRepositoriesAttachedToCodeSecurityConfiguration id);
  csc_keeps_attach id s l : keeps configs (AttachCodeSecurityConfigurations id s l);
  csc_keeps_timers q t : keeps configs (StartTimers q t);
  csc_keeps_select : keeps configs Select;
  csc_keeps_list ns f v : keeps configs (ListRepositories ns f v)
}.
Context {L : CscLaws}.

Ltac keeps_calls := solve_keeps; eauto using csc_keeps_default, csc_keeps_defaults, csc_keeps_fetch, csc_keeps_repos, csc_keeps_repo,
  csc_keeps_attached, csc_keeps_attach, csc_keeps_timers, csc_keeps_select, csc_keeps_list, keeps_ret.

Lemma poll_keeps fuel id : keeps configs (poll fuel id).
Proof.
  induction fuel as [|fuel IH]; [apply keeps_ret|]. cbn [poll]. unfold getAttachmentsIfAllAttached. keeps_calls.
Qed.
Lemma getAndWait_keeps id q t : keeps configs (getAndWaitForFinishedAttachments slack id q t).
Proof.
  unfold getAndWaitForFinishedAttachments, getAttachmentsIfAllAttached. pose proof poll_keeps. keeps_calls.
Qed.
Lemma attachToRepos_keeps scope id ids : keeps configs (attachToRepos slack scope id ids).
Proof. unfold attachToRepos. pose proof getAndWait_keeps. keeps_calls. Qed.
Lemma selected_ids_keeps repos m : keeps configs (selected_ids repos m).
Proof.
  revert m. induction repos as [|r rs IH]; intros m; cbn [selected_ids]; [apply keeps_ret|]. unfold selected_id. keeps_calls.
Qed.
Lemma attachCSC_keeps scope n id : keeps configs (attachCSC o org slack scope n id).
Proof.
  unfold attachCSC, getDesiredAttachmentsForScope, getSelectedAttachedRepoNamesToIDs.
  pose proof attachToRepos_keeps. pose proof getAndWait_keeps. pose proof selected_ids_keeps. keeps_calls.
Qed.
Lemma default_confs_keeps l acc : keeps configs (default_confs org l acc).
Proof. revert acc. induction l as [|r l IH]; intros acc; cbn [default_confs]; keeps_calls. Qed.
Lemma unsetObsoleteDefaults_keeps : keeps configs (unsetObsoleteDefaults o org).
Proof. unfold unsetObsoleteDefaults. pose proof default_confs_keeps. keeps_calls. Qed.
Lemma set_default_keeps id d : keeps configs (set_default id d).
Proof. unfold set_default. keeps_calls. Qed.

(** The configuration [d] with this name is on GitHub as declared. *)
Definition present (m : gmap Z gh_Csc) (n : string) : Prop :=
  ∃ id c d, m !! id = Some c ∧ of_organization c ∧ gc_Name c = n ∧
    ToGithubCodeSecurityConfiguration (resolved (cluster n)) = inl d ∧ declared d c.

(** [m'] differs from [m] only at the id [id], which was not that of another configuration of the organization. *)
Definition changed_at (n : string) (m m' : gmap Z gh_Csc) : Prop :=
  m' = m ∨ ∃ id c, m' = <[id := c]> m ∧ of_organization c ∧ gc_Name c = n ∧ gc_ID c = Some id ∧
    ∀ old, m !! id = Some old → of_organization old ∧ gc_Name old = n.

Lemma ToGithub_name c d : ToGithubCodeSecurityConfiguration c = inl d → gc_Name d = csc_Name (csc_Spec c).
Proof. unfold ToGithubCodeSecurityConfiguration. destruct (toSecretScanningDelegatedBypassOptions _) as [b|e]; [by intros [= <-]|done]. Qed.

Lemma reconcile_csc_spec m0 ref w e w' :
  csc_Name (csc_Spec (cluster (ar_Name ref))) = ar_Name ref →
  (∀ c, m0 !! ar_Name ref = Some c → ∃ id, configs w !! id = Some c ∧ of_organization c ∧ gc_Name c = ar_Name ref) →
  run (reconcile_csc org m0 ref) w = (inl e, w') →
  e.1 = ar_Name ref ∧ changed_at (ar_Name ref) (configs w) (configs w') ∧ present (configs w') (ar_Name ref).
Proof.
  intros Hname Hm0. unfold reconcile_csc. rewrite run_bind. pose proof (csc_fetched (ar_Name ref) w) as Hf.
  destruct (run (FetchCsc _ _) w) as [[k|err] w1]; [|done]. destruct Hf as (-> & Hmeta & Hw1). rewrite Hmeta.
  rewrite run_bind. pose proof (csc_resolved (cluster (ar_Name ref)) w1) as Hr.
  destruct (run (ResolveCscBypassReviewers _) w1) as [[k|err] w2]; [|done]. destruct Hr as (-> & Hspec & Hw2).
  rewrite <-Hw1, <-Hw2 in *. clear w w1 Hw1 Hw2. rename w2 into w. rewrite Hname in Hspec.
  rewrite run_bind. destruct (m0 !! ar_Name ref) as [old|].
  - destruct (Hm0 old eq_refl) as (id & Hid & Horg & Hold). unfold updateCsc.
    destruct (ToGithubCodeSecurityConfiguration (resolved (cluster (ar_Name ref)))) as [d|err] eqn:Hd; [|done].
    pose proof (csc_ids _ _ _ Hid) as Hgid. rewrite Hgid. cbn [WithDefault].
    destruct (CodeSecurityConfigurationsDiffer (Some d) (Some old)) eqn:Hdiff.
    + rewrite run_bind. pose proof (csc_updated id d old w Hid) as Hu. destruct (run (UpdateCodeSecurityConfigurationForOrg _ _) w) as [[u|err] w1]; [|done].
      rewrite run_bind. pose proof (set_default_keeps (WithDefault (gc_ID u) 0) (resolved (cluster (ar_Name ref))) w1) as Hk.
      destruct (run (set_default _ _) w1) as [[err|] w2]; [done|]. simpl in Hk. intros [= <- <-]. rewrite Hk, Hu. apply ToGithub_name in Hd as Hdn.
      split_and!; [done| |].
      * right. exists id, (overlay d old). split_and!; [done|exact Horg|simpl; congruence|done|]. intros old' Hold'. by simplify_eq.
      * exists id, (overlay d old), d. rewrite lookup_insert_eq. split_and!; [done|exact Horg|simpl; congruence|done|apply declared_overlay].
    + intros [= <- <-]. split_and!; [done|by left|]. exists id, old, d.
      split_and!; [done..|]. by apply CodeSecurityConfigurationsDiffer_declared.
  - unfold createCsc. destruct (ToGithubCodeSecurityConfiguration (resolved (cluster (ar_Name ref)))) as [d|err] eqn:Hd; [|done].
    rewrite run_bind. pose proof (csc_created d w) as Hc. destruct (run (CreateCodeSecurityConfigurationForOrg d) w) as [[u|err] w1]; [|done].
    destruct Hc as (id & Hfresh & -> & Hw1).
    rewrite run_bind. pose proof (set_default_keeps (WithDefault (gc_ID (overlay d (blank id))) 0) (resolved (cluster (ar_Name ref))) w1) as Hk.
    destruct (run (set_default _ _) w1) as [[err|] w2]; [done|]. simpl in Hk. intros [= <- <-]. rewrite Hk, Hw1. apply ToGithub_name in Hd as Hdn.
    split_and!; [done| |].
    + right. exists id, (overlay d (blank id)). split_and!; [done|done|simpl; congruence|done|congruence].
    + exists id, (overlay d (blank id)), d. rewrite lookup_insert_eq. split_and!; [done|done|simpl; congruence|done|apply declared_overlay].
Qed.

(** The names that are not in [names] have the configurations they had in [m0], those in [names] are present, and what
    does not belong to the organization is as in [m0]. *)
Definition progress (m0 m : gmap Z gh_Csc) (names : list string) : Prop :=
  (∀ n, n ∈ names → present m n) ∧
  (∀ id c, (¬ of_organization c ∨ gc_Name c ∉ names) → (m !! id = Some c ↔ m0 !! id = Some c)).

Lemma progress_step m0 m m' names n :
  n ∉ names → progress m0 m names → changed_at n m m' → present m' n → progress m0 m' (names ++ [n]).
Proof.
  intros Hn [Hpresent Hrest] Hchange Hnew. split.
  - intros n' [Hn'| ->%list_elem_of_singleton]%elem_of_app; [|done]. destruct Hchange as [->|(id & c & -> & Hc & Hcn & _ & Hold)]; [by apply Hpresent|].
    destruct (Hpresent n' Hn') as (i & x & d & Hi & Hx & Hxn & Hd & Hdec). exists i, x, d. split_and!; [|done..].
    rewrite lookup_insert_ne; [done|]. intros ->. destruct (Hold x Hi) as [_ ?]. congruence.
  - intros i x Hx. rewrite <-Hrest by (destruct Hx as [?|Hx]; [by left|right; set_solver]).
    destruct Hchange as [->|(id & c & -> & Hc & Hcn & _ & Hold)]; [done|].
    destruct (decide (i = id)) as [->|Hne]; [|by rewrite lookup_insert_ne].
    rewrite lookup_insert_eq. split.
    + intros [= ->]. destruct Hx as [Hx|Hx]; [done|]. exfalso. apply Hx. rewrite Hcn. set_solver.
    + intros Hi. destruct (Hold x Hi) as [Ho Hxn]. destruct Hx as [Hx|Hx]; [done|]. exfalso. apply Hx. rewrite Hxn. set_solver.
Qed.

Lemma reconcile_cscs_spec m0 l names seen s w0 w w' :
  (∀ ref, ref ∈ l → csc_Name (csc_Spec (cluster (ar_Name ref))) = ar_Name ref) →
  NoDup (names ++ (ar_Name <$> l)) →
  (∀ n c, m0 !! n = Some c → (∃ id, configs w0 !! id = Some c) ∧ of_organization c ∧ gc_Name c = n) →
  (∀ n, is_Some (seen !! n) ↔ n ∈ names) →
  progress (configs w0) (configs w) names →
  run (reconcile_cscs org m0 l seen) w = (inl s, w') →
  progress (configs w0) (configs w') (names ++ (ar_Name <$> l)) ∧ (∀ n, is_Some (s !! n) ↔ n ∈ names ++ (ar_Name <$> l)).
Proof.
  revert names seen w. induction l as [|ref l IH]; intros names seen w Hspec Hnd Hm0 Hseen Hprog; cbn [reconcile_cscs].
  { intros [= <- <-]. by rewrite app_nil_r. }
  rewrite run_bind. destruct (run (reconcile_csc org m0 ref) w) as [[e|err] w1] eqn:E; [|done].
  rewrite fmap_cons, cons_middle, app_assoc in *.
  assert (ar_Name ref ∉ names) as Hfresh.
  { apply NoDup_app in Hnd as (Hnd & _). apply NoDup_app in Hnd as (_ & Hnd & _). intros Hin. apply (Hnd _ Hin). by left. }
  apply reconcile_csc_spec in E as (Hkey & Hchange & Hnew); [|by apply Hspec; left|].
  - apply IH; [by intros; apply Hspec; right|done|done| |by eapply progress_step].
    intros n. rewrite Hkey, lookup_insert_is_Some', elem_of_app, list_elem_of_singleton, Hseen. naive_solver.
  - intros c Hc. destruct (Hm0 _ _ Hc) as ([id Hid] & Ho & Hcn). exists id. split_and!; [|done..].
    destruct Hprog as [_ Hrest]. apply Hrest; [right; by rewrite Hcn|done].
Qed.

(** The loop that deletes what is not referenced. *)
Lemma delete_loop_spec m0 (seen : gmap string attachable) w1 w' :
  (∀ n c, m0 !! n = Some c → is_Some (gc_ID c)) →
  run (for_each (range o m0) (λ '(ghName, ghConf), if bool_decide (is_Some (seen !! ghName)) then Ret None else deleteCsc ghConf)) w1
    = (None, w') →
  ∀ id, configs w' !! id =
    if decide (∃ n c, m0 !! n = Some c ∧ seen !! n = None ∧ gc_ID c = Some id) then None else configs w1 !! id.
Proof.
  intros Hids Hrun.
  pose proof (for_each_inv (λ done w, ∀ id,
      ((∃ n c, (n, c) ∈ done ∧ seen !! n = None ∧ gc_ID c = Some id) → configs w !! id = None) ∧
      (¬ (∃ n c, (n, c) ∈ done ∧ seen !! n = None ∧ gc_ID c = Some id) → configs w !! id = configs w1 !! id)) (λ _ _, True)
    (λ '(ghName, ghConf), if bool_decide (is_Some (seen !! ghName)) then Ret None else deleteCsc ghConf) (range o m0)) as H.
  specialize (λ Hstep, H Hstep w1). rewrite Hrun in H.
  assert (∀ id, ((∃ n c, (n, c) ∈ range o m0 ∧ seen !! n = None ∧ gc_ID c = Some id) → configs w' !! id = None) ∧
      (¬ (∃ n c, (n, c) ∈ range o m0 ∧ seen !! n = None ∧ gc_ID c = Some id) → configs w' !! id = configs w1 !! id)) as Hall.
  { apply H; [|intros id; split; [intros (n & c & []%not_elem_of_nil & _)|done]].
    intros done [n c] rest w Hrange Hdone.
    destruct (Hids n c) as [i Hi]; [apply (elem_of_range o); rewrite Hrange; set_solver|].
    assert (∀ id, (∃ n' c', (n', c') ∈ done ++ [(n, c)] ∧ seen !! n' = None ∧ gc_ID c' = Some id) ↔
      (∃ n' c', (n', c') ∈ done ∧ seen !! n' = None ∧ gc_ID c' = Some id) ∨ (seen !! n = None ∧ i = id)) as Hsnoc.
    { intros id. split.
      - intros (n' & c' & [Hin|[= -> ->]%list_elem_of_singleton]%elem_of_app & Hs & Hc); [left; eauto|right; split; congruence].
      - intros [(n' & c' & Hin & Hs & Hc)|[Hs ->]]; [exists n', c'; set_solver|exists n, c; set_solver]. }
    destruct (seen !! n) as [a|] eqn:Hseen; [rewrite bool_decide_true by done|rewrite bool_decide_false by (by intros [])]; cbn [run].
    - intros id. destruct (Hdone id) as [H1 H2]. rewrite Hsnoc. naive_solver.
    - unfold deleteCsc. rewrite Hi. cbn [WithDefault]. pose proof (csc_deleted i w) as Hd.
      destruct (run (DeleteCodeSecurityConfigurationForOrg i) w) as [[err|] w2]; [exact I|]. rewrite Hd. intros id. rewrite Hsnoc.
      destruct (Hdone id) as [H1 H2]. destruct (decide (i = id)) as [->|Hne].
      + rewrite lookup_delete_eq. split; [done|]. intros Hn. exfalso. apply Hn. by right.
      + rewrite lookup_delete_ne by done. split; [intros [Hx|[_ ?]]; [by apply H1|done]|intros Hn; apply H2; tauto]. }
  intros id. destruct (Hall id) as [H1 H2]. setoid_rewrite (elem_of_range o) in H1. setoid_rewrite (elem_of_range o) in H2.
  case_decide; auto.
Qed.

(** Afterwards only referenced configurations of the organization are left. *)
Lemma delete_unreferenced m0 (seen : gmap string attachable) names w0 w1 w2 :
  (∀ n c, m0 !! n = Some c → (∃ id, configs w0 !! id = Some c) ∧ of_organization c ∧ gc_Name c = n) →
  (∀ id c, configs w0 !! id = Some c → of_organization c → m0 !! gc_Name c = Some c) →
  progress (configs w0) (configs w1) names → (∀ n, is_Some (seen !! n) ↔ n ∈ names) →
  run (for_each (range o m0) (λ '(ghName, ghConf), if bool_decide (is_Some (seen !! ghName)) then Ret None else deleteCsc ghConf)) w1
    = (None, w2) →
  (∀ n, n ∈ names → present (configs w2) n) ∧
  (∀ id c, configs w2 !! id = Some c → of_organization c → gc_Name c ∈ names) ∧
  (∀ id c, ¬ of_organization c → configs w2 !! id = Some c ↔ configs w0 !! id = Some c).
Proof.
  intros Hm0 Hfind [Hpresent Hrest] Hseen Hdel.
  assert (∀ n c, m0 !! n = Some c → ∃ id, configs w0 !! id = Some c ∧ gc_ID c = Some id) as Hm0id.
  { intros n c Hc. destruct (Hm0 _ _ Hc) as ([id Hid] & _). exists id. split; [done|]. by eapply csc_ids. }
  pose proof (delete_loop_spec m0 seen w1 w2) as Hd.
  specialize (Hd ltac:(intros n c Hc; destruct (Hm0id n c Hc) as (id & _ & ?); by exists id) Hdel).
  assert (∀ id n c x, m0 !! n = Some c → seen !! n = None → gc_ID c = Some id → configs w1 !! id = Some x → x = c ∧ n ∉ names) as Hdeleted.
  { intros id n c x Hc Hs Hid Hx. destruct (Hm0id n c Hc) as (id' & Hid' & Heq). assert (id' = id) as -> by congruence.
    assert (n ∉ names) as Hn by (rewrite <-Hseen, Hs; by intros []). destruct (Hm0 n c Hc) as (_ & Ho & Hcn).
    split; [|done]. assert (configs w1 !! id = Some c) as Hc1 by (apply Hrest; [right; by rewrite Hcn|done]). congruence. }
  split_and!.
  - intros n Hn. destruct (Hpresent n Hn) as (id & c & d & Hid & Ho & Hcn & Hdd). exists id, c, d. split; [|exact (conj Ho (conj Hcn Hdd))].
    rewrite Hd. case_decide as Hx; [|done]. destruct Hx as (n' & c' & Hc' & Hs & Hid').
    destruct (Hdeleted _ _ _ _ Hc' Hs Hid' Hid) as [-> Hn']. destruct (Hm0 _ _ Hc') as (_ & _ & ?). congruence.
  - intros id c. rewrite Hd. case_decide as Hx; [done|]. intros Hid Ho. apply dec_stable. intros Hn.
    apply Hx. exists (gc_Name c), c. assert (configs w0 !! id = Some c) as Hid0 by (apply Hrest; [by right|done]).
    split_and!; [by eapply Hfind| |by eapply csc_ids].
    destruct (seen !! gc_Name c) eqn:Hs; [|done]. exfalso. apply Hn, Hseen. by rewrite Hs.
  - intros id c Ho. rewrite Hd, <-Hrest by (by left). case_decide as Hx; [|done]. split; [done|].
    destruct Hx as (n & c' & Hc' & Hs & Hid'). intros Hid. destruct (Hdeleted _ _ _ _ Hc' Hs Hid' Hid) as [-> _].
    by destruct (Hm0 _ _ Hc') as (_ & ? & _).
Qed.

End Synced.

(** ** Concrete instances *)
Module ToyCsc.
Record world := { tw_configs : gmap Z gh_Csc; tw_ticks : nat }.
Definition configs (w : world) : gmap Z gh_Csc := filter (λ p, gc_ID p.2 = Some p.1) (tw_configs w).
Definition with_configs (m : gmap Z gh_Csc) (w : world) : world := {| tw_configs := m; tw_ticks := tw_ticks w |}.
Definition with_ticks (n : nat) (w : world) : world := {| tw_configs := tw_configs w; tw_ticks := n |}.

Definition cluster (n : string) : CodeSecurityConfiguration := {|
  csc_Meta := Samples.meta n; csc_Spec := {|
    csc_Name := n; csc_Description := "d"; csc_AdvancedSecurity := Some "enabled"; csc_DependencyGraph := None;
    csc_DependencyGraphAutosubmitAction := None; csc_DependencyGraphAutosubmitActionOptions := None; csc_DependabotAlerts := None;
    csc_DependabotSecurityUpdates := None; csc_CodeScanningDefaultSetup := None; csc_CodeScanningDefaultSetupOptions := None;
    csc_CodeScanningDelegatedAlertDismissal := None; csc_CodeScanningOptions := None; csc_CodeSecurity := None;
    csc_SecretScanning := None; csc_SecretScanningPushProtection := None; csc_SecretScanningValidityChecks := None;
    csc_SecretScanningNonProviderPatterns := None; csc_SecretScanningGenericSecrets := None;
    csc_SecretScanningDelegatedAlertDismissal := None; csc_SecretProtection := None; csc_PrivateVulnerabilityReporting := None;
    csc_Enforcement := None; csc_SecretScanningDelegatedBypass := None; csc_SecretScanningDelegatedBypassOptions := None;
    csc_DefaultForNewRepos := Some "all" |} |}.

Definition configs_list (w : world) : res (list (option gh_Csc)) := inl ((λ p, Some p.2) <$> map_to_list (configs w)).
(** Attachments finish when ten ticks have passed. *)
#[export] Instance api : CscApi world := {|
  FetchCsc _ n := Ret (inl (cluster n));
  ResolveCscBypassReviewers c := Ret (inl c);
  GetDefaultCodeSecurityConfigurationsForOrg := Ret (inl []);
  SetCodeSecurityConfigurationAsDefaultForOrg _ _ := Ret None;
  GetCodeSecurityConfigurationsForOrg := gets configs_list;
  CreateCodeSecurityConfigurationForOrg d := call (λ w, let id := fresh (dom (tw_configs w)) in
    (inl (overlay d (blank id)), with_configs (<[id := overlay d (blank id)]> (tw_configs w)) w));
  UpdateCodeSecurityConfigurationForOrg id d := call (λ w, match tw_configs w !! id with
    | Some old => (inl (overlay d old), with_configs (<[id := overlay d old]> (tw_configs w)) w)
    | None => (inr notFoundStatus, w) end);
  DeleteCodeSecurityConfigurationForOrg id := call (λ w, (None, with_configs (delete id (tw_configs w)) w));
  GetOrgRepositories := Ret (inl [{| or_ID := Some 7; or_Name := Some "r"; or_Visibility := "private" |}]);
  GetGitHubRepositoryID _ := Ret (inl (Some 7));
  GetRepositoriesAttachedToCodeSecurityConfiguration _ := gets (λ w, inl (Some [{| at_Name := "r";
    at_Status := if bool_decide (tw_ticks w < 14)%nat then "attached" else "attaching" |}]));
  AttachCodeSecurityConfigurations _ _ _ := Ret (Some EAccepted);
  StartTimers q t := modify (with_ticks (Z.to_nat (t / q)));
  Select := call (λ w, match tw_ticks w with O => (EvTimeout, w) | S n => (EvTick, with_ticks n w) end) |}.
#[export] Instance list_api : ListApi world := {| ListRepositories _ _ _ := Ret (inl []); ListTeams _ _ _ := Ret (inl []) |}.

#[export] Instance timer_laws : TimerLaws 0 tw_ticks.
Proof. split; simpl; [lia| |done]. intros w. destruct (tw_ticks w) as [|n]; simpl; [done|lia]. Qed.

Lemma configs_lookup w id c : configs w !! id = Some c ↔ tw_configs w !! id = Some c ∧ gc_ID c = Some id.
Proof. apply map_lookup_filter_Some. Qed.

Definition org : Organization := Samples.org Samples.no_actions []
  [{| ar_Name := "base"; ar_AttachmentScope := Some "all_without_configurations" |}; {| ar_Name := "new"; ar_AttachmentScope := Some "public" |}] [].

#[export] Instance laws : CscLaws org configs cluster id.
Proof.
  split; try done.
  - intros w id c. by intros [_ ?]%configs_lookup.
  - intros w. simpl. split; [done|]. intros c. rewrite list_elem_of_fmap. split.
    + intros ([id c'] & [= ->] & Hc%elem_of_map_to_list). by exists id.
    + intros [id Hc]. exists (id, c). split; [done|]. by apply elem_of_map_to_list.
  - intros d w. simpl. exists (fresh (dom (tw_configs w))). split_and!; [|done|by apply map_filter_insert_True].
    apply eq_None_not_Some. intros [c [Hc _]%configs_lookup]. apply (is_fresh (dom (tw_configs w))), elem_of_dom. by eexists.
  - intros id d old w [Hold Hid]%configs_lookup. simpl. rewrite Hold. by apply map_filter_insert_True.
  - intros id w. simpl. apply map_filter_delete.
  - intros w. simpl. by destruct (tw_ticks w).
Qed.

(** "base" has an outdated description, "old" is not referred to, "global" belongs to the enterprise. *)
Definition on_github (id : Z) (name ty : string) : gh_Csc := {|
  gc_ID := Some id; gc_TargetType := Some ty; gc_Name := name; gc_Description := "outdated"; gc_AdvancedSecurity := None;
  gc_DependencyGraph := None; gc_DependencyGraphAutosubmitAction := None; gc_DependencyGraphAutosubmitActionOptions := None;
  gc_DependabotAlerts := None; gc_DependabotSecurityUpdates := None; gc_CodeScanningDefaultSetup := None;
  gc_CodeScanningDefaultSetupOptions := None; gc_CodeScanningDelegatedAlertDismissal := None; gc_CodeScanningOptions := None;
  gc_CodeSecurity := None; gc_SecretScanning := None; gc_SecretScanningPushProtection := None;
  gc_SecretScanningValidityChecks := None; gc_SecretScanningNonProviderPatterns := None; gc_SecretScanningGenericSecrets := None;
  gc_SecretScanningDelegatedAlertDismissal := None; gc_SecretProtection := None; gc_PrivateVulnerabilityReporting := None;
  gc_Enforcement := None; gc_SecretScanningDelegatedBypass := None; gc_SecretScanningDelegatedBypassOptions := None |}.
Definition before : world := {| tw_ticks := 0; tw_configs := list_to_map
  [(1, on_github 1 "base" "organization"); (2, on_github 2 "old" "organization"); (3, on_github 3 "global" "global")] |}.
Definition after : world := (run (reconcileCodeSecurityConfigurations default_order org 0) before).2.

Lemma configs_before_unique : unique_names (configs before).
Proof.
  assert (∀ i c, configs before !! i = Some c → of_organization c → (i = 1 ∧ gc_Name c = "base") ∨ (i = 2 ∧ gc_Name c = "old")) as H.
  { intros i c [Hc _]%configs_lookup Ho. apply elem_of_list_to_map_2 in Hc.
    rewrite !elem_of_cons in Hc. destruct Hc as [[= -> ->]|[[= -> ->]|[[= -> ->]|[]%not_elem_of_nil]]]; [by left|by right|done]. }
  intros i j c d Hi Hj Hc Hd Heq. destruct (H i c Hi Hc) as [[-> Hn]|[-> Hn]], (H j d Hj Hd) as [[-> Hm]|[-> Hm]]; congruence.
Qed.
End ToyCsc.
Import ToyCsc.

Lemma getAndWait_terminates_witness :
  ∃ l w', run (getAndWaitForFinishedAttachments 0 1 (5 * Second) (2 * Minute)) {| tw_configs := ∅; tw_ticks := 20 |} = (inl l, w') ∧
    Forall finished l ∧ l ≠ [].
Proof.
  pose proof (getAndWait_terminates 0 tw_ticks 1 (5 * Second) (2 * Minute) {| tw_configs := ∅; tw_ticks := 20 |}) as H.
  destruct (run (getAndWaitForFinishedAttachments 0 1 _ _) _) as [r w'] eqn:E. vm_compute in E. simplify_eq.
  eexists _, _. split; [reflexivity|]. destruct H as [H _]. by split.
Defined.


(** A change of the default for new repositories alone is not applied. *)
Lemma default_alone_not_applied {W} {A : CscApi W} desired current d w :
  ToGithubCodeSecurityConfiguration desired = inl d → CodeSecurityConfigurationsDiffer (Some d) (Some current) = false →
  run (updateCsc desired current) w = (inl current, w).
Proof. intros Hd Hdiff. unfold updateCsc. by rewrite Hd, Hdiff. Qed.

(** Neither is a change of the delegated bypass. *)
Lemma bypass_not_compared (c : gh_Csc) v l :
  CodeSecurityConfigurationsDiffer (Some c) (Some {|
    gc_ID := gc_ID c; gc_TargetType := gc_TargetType c; gc_Name := gc_Name c; gc_Description := gc_Description c;
    gc_AdvancedSecurity := gc_AdvancedSecurity c; gc_DependencyGraph := gc_DependencyGraph c;
    gc_DependencyGraphAutosubmitAction := gc_DependencyGraphAutosubmitAction c;
    gc_DependencyGraphAutosubmitActionOptions := gc_DependencyGraphAutosubmitActionOptions c;
    gc_DependabotAlerts := gc_DependabotAlerts c; gc_DependabotSecurityUpdates := gc_DependabotSecurityUpdates c;
    gc_CodeScanningDefaultSetup := gc_CodeScanningDefaultSetup c;
    gc_CodeScanningDefaultSetupOptions := gc_CodeScanningDefaultSetupOptions c;
    gc_CodeScanningDelegatedAlertDismissal := gc_CodeScanningDelegatedAlertDismissal c;
    gc_CodeScanningOptions := gc_CodeScanningOptions c; gc_CodeSecurity := gc_CodeSecurity c;
    gc_SecretScanning := gc_SecretScanning c; gc_SecretScanningPushProtection := gc_SecretScanningPushProtection c;
    gc_SecretScanningValidityChecks := gc_SecretScanningValidityChecks c;
    gc_SecretScanningNonProviderPatterns := gc_SecretScanningNonProviderPatterns c;
    gc_SecretScanningGenericSecrets := gc_SecretScanningGenericSecrets c;
    gc_SecretScanningDelegatedAlertDismissal := gc_SecretScanningDelegatedAlertDismissal c;
    gc_SecretProtection := gc_SecretProtection c; gc_PrivateVulnerabilityReporting := gc_PrivateVulnerabilityReporting c;
    gc_Enforcement := gc_Enforcement c; gc_SecretScanningDelegatedBypass := v; gc_SecretScanningDelegatedBypassOptions := l |}) = false.
Proof.
  assert (∀ a, get_differ a a = false) as Hg by (intros a; unfold get_differ; by rewrite bool_decide_false by (intros Hn; by apply Hn)).
  assert (∀ B (f : B → B → bool) (x : option B), (∀ y, f y y = true) → both_or_neither f x x = true) as Hb by (intros B f [x|] Hf; simpl; auto).
  unfold CodeSecurityConfigurationsDiffer. cbn. rewrite !Hg, !(bool_decide_false (_ ≠ _)) by (intros Hn; by apply Hn).
  unfold dependencyGraphAutosubmitActionOptionsEqual, codeScanningOptionsEqual, codeScanningDefaultSetupOptionsEqual.
  rewrite !Hb; [done|intros y; by apply bool_decide_eq_true|intros y; rewrite Hg; by rewrite bool_decide_true|intros y; by apply bool_decide_eq_true].
Qed.
