(* ===== verification/Parallel.v ===== *)
(** * Reconciliations that do not interfere

    The reconciliations of a group run in parallel (Executor).  When each of them works on a part of the world of its
    own, every schedule gives each of them the result it has alone, and leaves its part as it would alone.  A part is
    given by the relation of the worlds that agree on it; a program may use other observations (the clock) as long as
    they influence neither its part nor the part of its result that counts. *)
From S2P Require Import Prelude GoErrors Conditions Executor.

Section Alone.
Context {W R : Type} (Rs : nat → relation W) (E : relation R).

(** [p] and [q] run in lockstep in worlds that agree on part [i]; their actions leave the other parts alone. *)
Fixpoint alike (i : nat) (p q : prog W R) : Prop :=
  match p, q with
  | Ret a, Ret b => E a b
  | Act op k, Act op' k' =>
    (∀ j w, j ≠ i → Rs j w (op w).2) ∧
    (∀ w1 w2, Rs i w1 w2 → Rs i (op w1).2 (op' w2).2) ∧
    (∀ w1 w2, Rs i w1 w2 → alike i (k (op w1).1) (k' (op' w2).1))
  | _, _ => False
  end.

Context `{∀ i, Equivalence (Rs i)}.

(** The remaining program [t] in the world [w] will end like the original one alone in [w0]. *)
Definition on_track (i : nat) (t : prog W R) (w : W) (t0 : prog W R) (w0 : W) : Prop :=
  ∃ t1 w1, alike i t t1 ∧ Rs i w w1 ∧ run t0 w0 = run t1 w1.

(** The action of another thread does not matter. *)
Lemma on_track_other i t w w' t0 w0 : Rs i w w' → on_track i t w t0 w0 → on_track i t w' t0 w0.
Proof. intros Hw (t1 & w1 & Ht & Hw1 & Hrun). exists t1, w1. split_and!; [done| |done]. by etrans. Qed.

Lemma on_track_step i B (op : W → B * W) k w t0 w0 :
  on_track i (Act op k) w t0 w0 → on_track i (k (op w).1) (op w).2 t0 w0 ∧ ∀ j, j ≠ i → Rs j w (op w).2.
Proof.
  intros ([a|B' op' k'] & w1 & Ht & Hw & Hrun); [done|]. destruct Ht as (Hothers & Hown & Hk).
  split; [|by intros; apply Hothers]. exists (k' (op' w1).1), (op' w1).2. split_and!; [by apply Hk|by apply Hown|].
  rewrite Hrun. simpl. by destruct (op' w1).
Qed.

Lemma interleave_on_track sched : ∀ ts w (ts0 : list (prog W R)) w0,
  (∀ i t, ts !! i = Some t → ∃ t0, ts0 !! i = Some t0 ∧ on_track i t w t0 w0) →
  ∀ i t, (interleave sched ts w).1 !! i = Some t → ∃ t0, ts0 !! i = Some t0 ∧ on_track i t (interleave sched ts w).2 t0 w0.
Proof.
  induction sched as [|j sched IH]; intros ts w ts0 w0 Hts; simpl; [done|].
  unfold step_at. destruct (ts !! j) as [[r|B op k]|] eqn:Hj; [by apply IH| |by apply IH].
  destruct (Hts j _ Hj) as (tj & Htj & Htrack). apply on_track_step in Htrack as [Hstep Hothers].
  destruct (op w) as [b w'] eqn:Hop. simpl in *. apply IH. intros i t Hi.
  destruct (decide (i = j)) as [->|Hne].
  - rewrite list_lookup_insert_eq in Hi by (by eapply lookup_lt_Some). simplify_eq. eauto.
  - rewrite list_lookup_insert_ne in Hi by done. destruct (Hts i t Hi) as (t0 & Ht0 & Ht). exists t0. split; [done|].
    by eapply on_track_other; [apply Hothers|].
Qed.

Lemma alike_run i t t1 w w1 :
  alike i t t1 → Rs i w w1 →
  E (run t w).1 (run t1 w1).1 ∧ Rs i (run t w).2 (run t1 w1).2 ∧ ∀ j, j ≠ i → Rs j w (run t w).2.
Proof.
  revert t1 w w1. induction t as [a|B op k IH]; intros [b|B' op' k'] w w1; try done; simpl.
  intros (Hothers & Hown & Hk) Hw. specialize (Hown w w1 Hw). specialize (IH _ _ (op w).2 (op' w1).2 (Hk w w1 Hw) Hown).
  specialize (λ j, Hothers j w). destruct (op w) as [b w'], (op' w1) as [b1 w1']. simpl in *. destruct IH as (? & ? & Ho).
  split_and!; [done..|]. intros j Hj. etrans; [by apply Hothers|by apply Ho].
Qed.

Lemma finish_all_on_track ts : ∀ n w (ts0 : list (prog W R)) w0,
  (∀ i t, ts !! i = Some t → ∃ t0, ts0 !! (n + i)%nat = Some t0 ∧ on_track (n + i) t w t0 w0) →
  (∀ i t0, ts0 !! (n + i)%nat = Some t0 → (i < length ts)%nat →
    ∃ r, (finish_all ts w).1 !! i = Some r ∧ E r (run t0 w0).1 ∧ Rs (n + i) (finish_all ts w).2 (run t0 w0).2) ∧
  (∀ j, (j < n)%nat → Rs j w (finish_all ts w).2).
Proof.
  induction ts as [|t ts IH]; intros n w ts0 w0 Hts; simpl; [split; [intros; lia|intros; reflexivity]|].
  destruct (Hts 0%nat t eq_refl) as (t0 & Ht0 & t1 & w1 & Halike & Hw & Hrun). rewrite Nat.add_0_r in *.
  destruct (alike_run _ _ _ _ _ Halike Hw) as (Hr & Hown & Hothers). rewrite <-Hrun in Hr, Hown.
  destruct (run t w) as [r w'] eqn:Ht. simpl in *.
  destruct (IH (S n) w' ts0 w0) as [Hrest Hkept].
  { intros i t' Hi. destruct (Hts (S i) t' Hi) as (t0' & Ht0' & Htrack). rewrite Nat.add_succ_r in *. exists t0'. split; [done|].
    by eapply on_track_other; [apply Hothers; lia|]. }
  destruct (finish_all ts w') as [rs w''] eqn:Hf. simpl in *. split.
  - intros [|i] t0' Ht0' Hlen.
    + rewrite Nat.add_0_r in *. simplify_eq. exists r. split_and!; [done..|]. etrans; [|exact Hown]. symmetry. apply Hkept. lia.
    + rewrite Nat.add_succ_r in *. apply Hrest; [done|lia].
  - intros j Hj. etrans; [apply Hothers; lia|apply Hkept; lia].
Qed.

(** Every thread ends as it does alone. *)
Lemma run_threads_alone sched ts w i t :
  (∀ i t, ts !! i = Some t → alike i t t) → ts !! i = Some t →
  ∃ r, (run_threads sched ts w).1 !! i = Some r ∧ E r (run t w).1 ∧ Rs i (run_threads sched ts w).2 (run t w).2.
Proof.
  intros Halike Hi. pose proof (interleave_on_track sched ts w ts w) as Hint.
  pose proof (interleave_length sched ts w) as Hlen. unfold run_threads. destruct (interleave sched ts w) as [ts' w'].
  apply (finish_all_on_track ts' 0 w' ts w); [|done|simpl in Hlen; rewrite Hlen; by eapply lookup_lt_Some].
  apply Hint. intros j u Hj. exists u. split; [done|]. exists u, w. split_and!; [by apply Halike|reflexivity|done].
Qed.
End Alone.

(** ** Programs on a part of the world *)
Record Lens (W V : Type) := {
  view : W → V;
  put : V → W → W;
  view_put v w : view (put v w) = v
}.
Arguments view {W V}. Arguments put {W V}. Arguments view_put {W V}.

Fixpoint lift {W V A} (l : Lens W V) (p : prog V A) : prog W A :=
  match p with
  | Ret a => Ret a
  | Act op k => Act (λ w, let '(b, v) := op (view l w) in (b, put l v w)) (λ b, lift l (k b))
  end.

Lemma run_lift {W V A} (l : Lens W V) (p : prog V A) w :
  (run (lift l p) w).1 = (run p (view l w)).1 ∧ view l (run (lift l p) w).2 = (run p (view l w)).2.
Proof.
  revert w. induction p as [a|B op k IH]; intros w; simpl; [done|].
  destruct (op (view l w)) as [b v]. specialize (IH b (put l v w)). by rewrite view_put in IH.
Qed.

Lemma alike_bind {W A R} (Rs : nat → relation W) (E : relation R) i (p q : prog W A) (f : A → prog W R) :
  alike Rs eq i p q → (∀ a, alike Rs E i (f a) (f a)) → alike Rs E i (bind p f) (bind q f).
Proof.
  intros Hp Hf. revert q Hp. induction p as [a|B op k IH]; intros [b|B' op' k'] Hp; try done; simpl.
  { simpl in Hp. subst. apply Hf. }
  destruct Hp as (Hothers & Hown & Hk). split_and!; [done..|]. intros w1 w2 Hw. by apply IH, Hk.
Qed.

(** A lifted program is alone on its part, if putting it leaves the other parts. *)
Lemma alike_lift {W V A} (Rs : nat → relation W) i (l : Lens W V) (p : prog V A) :
  (∀ w1 w2, Rs i w1 w2 → view l w1 = view l w2) →
  (∀ w1 w2 v, Rs i w1 w2 → Rs i (put l v w1) (put l v w2)) →
  (∀ j v w, j ≠ i → Rs j w (put l v w)) →
  alike Rs eq i (lift l p) (lift l p).
Proof.
  intros Hview Hput Hothers. induction p as [a|B op k IH]; simpl; [done|]. split_and!.
  - intros j w Hj. destruct (op (view l w)) as [b v]. by apply Hothers.
  - intros w1 w2 Hw. rewrite (Hview w1 w2 Hw). destruct (op (view l w2)) as [b v]. by apply Hput.
  - intros w1 w2 Hw. rewrite (Hview w1 w2 Hw). destruct (op (view l w2)) as [b v]. apply IH.
Qed.

(** ** Groups *)

(** A group of one reconciliation is that reconciliation. *)
Lemma single_reconciliation {W} {HE : Env W} sched (r : Reconciliation W) w :
  ∃ res, run (runReconciliationGroup sched [r]) w = ([res], (run (Function r) w).2) ∧ rr_Error res = (run (Function r) w).1.
Proof.
  set (Rs := λ i : nat, match i with O => eq | _ => λ _ _ : W, True end).
  assert (∀ i, Equivalence (Rs i)) as HRs by (intros [|i]; simpl; [apply _|split; done]).
  assert (∀ A (p : prog W A), alike Rs eq 0 p p) as Halike.
  { intros A p. induction p as [a|B op k IH]; simpl; [done|]. split_and!; [by intros [|j]|by intros w1 w2 ->|intros w1 w2 ->; apply IH]. }
  unfold runReconciliationGroup. rewrite run_call.
  destruct (run_threads_alone Rs eq sched [goroutine r] w 0 (goroutine r)) as (res & Hres & Herr & Hw); [|done|].
  { intros [|i] t; [intros [= <-]; apply Halike|done]. }
  assert (length (run_threads sched [goroutine r] w).1 = 1%nat) as Hlen.
  { unfold run_threads. pose proof (interleave_length sched [goroutine r] w) as Hi.
    destruct (interleave sched [goroutine r] w) as [ts w']. rewrite finish_all_length. exact Hi. }
  cbn [fmap list_fmap]. destruct (run_threads sched [goroutine r] w) as [rs w']. simpl in *. destruct rs as [|res' [|? ?]]; [done| |done].
  injection Hres as ->. unfold goroutine in Herr, Hw. rewrite run_bind in Herr, Hw. exists res.
  destruct (run (Function r) w) as [e w1]. simpl in *. by subst.
Qed.

Section Group.
Context {W : Type} {HE : Env W} (Rs : nat → relation W) `{∀ i, Equivalence (Rs i)}.

Lemma goroutine_alike i (r : Reconciliation W) :
  alike Rs eq i (Function r) (Function r) →
  alike Rs (λ a b, rr_Error a = rr_Error b) i (goroutine r) (goroutine r).
Proof.
  intros Hf. unfold goroutine. eapply alike_bind; [exact Hf|]. intros err. simpl. split_and!; [intros; reflexivity|done|done].
Qed.

(** Under every schedule each of them has the result it has alone, and its part ends as it does when it runs alone. *)
Lemma group_alone sched (group : list (Reconciliation W)) w i r :
  (∀ i r, group !! i = Some r → alike Rs eq i (Function r) (Function r)) →
  group !! i = Some r →
  ∃ res, (run (runReconciliationGroup sched group) w).1 !! i = Some res ∧ rr_Error res = (run (Function r) w).1 ∧
    Rs i (run (runReconciliationGroup sched group) w).2 (run (Function r) w).2.
Proof.
  intros Halike Hi. unfold runReconciliationGroup. rewrite run_call.
  destruct (run_threads_alone Rs (λ a b, rr_Error a = rr_Error b) sched (goroutine <$> group) w i (goroutine r)) as (res & Hres & Herr & Hw).
  - intros j t (rj & -> & Hj)%list_lookup_fmap_Some_1. apply goroutine_alike. by eapply Halike.
  - by rewrite list_lookup_fmap, Hi.
  - exists res. split; [done|]. unfold goroutine in Herr, Hw. rewrite run_bind in Herr, Hw. destruct (run (Function r) w) as [e w'].
    by split.
Qed.

(** A reconciliation that has succeeded in the group also succeeds alone, with the same effect on its part. *)
Lemma group_part {V} sched group w rs w' i rec (l : Lens W V) (p : prog V (option gerror)) :
  (∀ i r, group !! i = Some r → alike Rs eq i (Function r) (Function r)) →
  run (runReconciliationGroup sched group) w = (rs, w') → Forall (λ r, rr_Error r = None) rs →
  group !! i = Some rec → run (Function rec) w = run (lift l p) w →
  (∀ w1 w2, Rs i w1 w2 → view l w1 = view l w2) →
  run p (view l w) = (None, view l w').
Proof.
  intros Halike Hrun Hclean Hi Hf Hpart.
  destruct (group_alone sched group w i rec Halike Hi) as (res & Hres & Herr & Hw).
  rewrite Hrun in Hres, Hw. simpl in Hres, Hw. rewrite Hf in Herr, Hw. apply Hpart in Hw.
  rewrite Forall_lookup in Hclean. rewrite (Hclean i res Hres) in Herr.
  destruct (run_lift l p w) as [H1 H2]. rewrite H1 in Herr. rewrite H2 in Hw.
  destruct (run p (view l w)) as [e v]. simpl in *. congruence.
Qed.
End Group.

(** ** Runs without an error and without a stop *)
Section Clean.
Context {W : Type} {HE : Env W}.

Lemma results_kept scheds groups : ∀ idx (acc : list reconciliationResult) (w : W) rs err w',
  run (run_groups scheds idx groups acc) w = ((rs, err), w') → ∃ more, rs = acc ++ more.
Proof.
  induction groups as [|group rest IH]; intros idx acc w rs err w'.
  { intros [= <- <- <-]. exists []. by rewrite app_nil_r. }
  rewrite run_groups_cons. destruct (run (runReconciliationGroup _ _) w) as [grs w1]. simpl. case_decide.
  - destruct (first_stop grs); [intros [= <- <- <-]; rewrite <-app_assoc; eauto|].
    intros (more & ->)%IH. rewrite <-app_assoc. eauto.
  - intros [= <- <- <-]. eauto.
Qed.

Lemma mark_stop_clean r : Stop (mark_stop r) = None → mark_stop r = r.
Proof. unfold mark_stop. by destruct (asStopReconciliation (rr_Error r)). Qed.

Lemma clean_results grs :
  omap rr_Error (mark_stop <$> grs) = [] → Forall (λ r, Stop r = None) (mark_stop <$> grs) → Forall (λ r, rr_Error r = None) grs.
Proof.
  induction grs as [|r grs IH]; [constructor|]. rewrite fmap_cons. intros Herr [Hr Hs]%Forall_cons.
  rewrite (mark_stop_clean r Hr) in Herr. cbn [omap list_omap] in Herr. destruct (rr_Error r) as [e|] eqn:He; [done|].
  constructor; [done|by apply IH].
Qed.

(** If the run succeeds and nothing stopped it, its first group ran, all of it succeeded, and the rest ran. *)
Lemma run_groups_clean scheds idx group rest acc (w : W) rs w' :
  run (run_groups scheds idx (group :: rest) acc) w = ((rs, None), w') → Forall (λ r, Stop r = None) rs →
  ∃ grs w1, run (runReconciliationGroup (scheds idx) group) w = (grs, w1) ∧ Forall (λ r, rr_Error r = None) grs ∧
    run (run_groups scheds (S idx) rest (acc ++ (mark_stop <$> grs))) w1 = ((rs, None), w').
Proof.
  rewrite run_groups_cons. destruct (run (runReconciliationGroup _ _) w) as [grs w1]. simpl. intros Hrun Hstop.
  exists grs, w1. split; [done|]. case_decide as Herr.
  2: { exfalso. rewrite errors_join_Some in Hrun. by destruct (omap rr_Error _). }
  assert (Forall (λ r, rr_Error r = None) grs) as Hclean.
  { apply clean_results; [done|]. destruct (first_stop grs) as [s|].
    - injection Hrun as <- _. by apply Forall_app in Hstop as [[_ ?]%Forall_app _].
    - apply results_kept in Hrun as (more & ->). by apply Forall_app in Hstop as [[_ ?]%Forall_app _]. }
  split; [done|]. assert (first_stop grs = None) as Hnone; [|by rewrite Hnone in Hrun].
  clear -Hclean. induction Hclean as [|r grs Hr _ IH]; simpl; [done|]. by rewrite Hr.
Qed.
End Clean.
