(* ===== verification/Rely.v ===== *)
(** * Shared state under concurrency

    Reconciliations run in parallel (controllers with several workers, goroutines of a group) and share the client
    factory, the response caches and the rate limit registry.  Where they do interfere, an invariant of the shared
    state and a relation that every action of every thread satisfies are enough to know what a thread's result
    means: [guards] is that obligation for one thread, [run_threads_guards] the theorem for all schedules. *)
From S2P Require Import Prelude GoErrors Conditions Executor.

Section Rely.
Context {W : Type} (I : W → Prop) (G : relation W) `{!PreOrder G}.

(** Whatever the other threads do between two actions, each action of [p] keeps the invariant and stays within [G],
    and the result satisfies [Q] from then on. *)
Fixpoint guards {R} (Q : R → W → Prop) (p : prog W R) (w : W) : Prop :=
  match p with
  | Ret r => ∀ w', G w w' → I w' → Q r w'
  | Act op k => ∀ w', G w w' → I w' → I (op w').2 ∧ G w' (op w').2 ∧ guards Q (k (op w').1) (op w').2
  end.

Lemma guards_stable {R} (Q : R → W → Prop) p w w' : G w w' → guards Q p w → guards Q p w'.
Proof. intros Hw. destruct p as [r|B op k]; simpl; intros H w'' Hw''; apply H; by etrans. Qed.

(** The moment at which the obligation is met may be any later one. *)
Lemma guards_later {R} (Q : R → W → Prop) p w : (∀ w', G w w' → I w' → guards Q p w') → guards Q p w.
Proof. destruct p as [r|B op k]; simpl; intros H w' Hw HI; by apply (H w'). Qed.

Lemma guards_ret {R} (Q : R → W → Prop) r w : (∀ w', G w w' → I w' → Q r w') → guards Q (Ret r) w.
Proof. done. Qed.

Lemma guards_bind {A R} (Q : R → W → Prop) (p : prog W A) (f : A → prog W R) w :
  guards (λ a w', guards Q (f a) w') p w → guards Q (bind p f) w.
Proof.
  revert w. induction p as [a|B op k IH]; intros w; simpl.
  - intros H. apply guards_later. done.
  - intros H w' Hw HI. destruct (H w' Hw HI) as (? & ? & Hk). auto.
Qed.

Lemma guards_call {R} (Q : R → W → Prop) (op : W → R * W) w :
  (∀ w', G w w' → I w' → I (op w').2 ∧ G w' (op w').2 ∧ ∀ w'', G (op w').2 w'' → I w'' → Q (op w').1 w'') →
  guards Q (call op) w.
Proof. done. Qed.

Lemma guards_gets {R} (Q : R → W → Prop) (f : W → R) w :
  (∀ w', G w w' → I w' → ∀ w'', G w' w'' → I w'' → Q (f w') w'') → guards Q (gets f) w.
Proof. intros H. apply guards_call. intros w' Hw HI. simpl. split_and!; [done|reflexivity|by apply H]. Qed.

Lemma guards_mono {R} (Q Q' : R → W → Prop) p w :
  (∀ r w', G w w' → I w' → Q r w' → Q' r w') → guards Q p w → guards Q' p w.
Proof.
  revert w. induction p as [r|B op k IH]; intros w HQ; simpl; [auto|].
  intros H w' Hw HI. destruct (H w' Hw HI) as (HI' & HG & Hk). split_and!; [done..|].
  apply (IH _ (op w').2); [|done]. intros r w'' Hw'' HI'' Hr. apply HQ; [|done..]. etrans; [done|]. by etrans.
Qed.

(** A thread that runs alone. *)
Lemma guards_run {R} (Q : R → W → Prop) p w :
  I w → guards Q p w → I (run p w).2 ∧ G w (run p w).2 ∧ guards Q (Ret (run p w).1) (run p w).2.
Proof.
  revert w. induction p as [r|B op k IH]; intros w HI H; simpl in *; [split_and!; [done|reflexivity|done]|].
  destruct (H w (reflexivity w) HI) as (HI' & HG & Hk). destruct (op w) as [b w'].
  destruct (IH b w' HI' Hk) as (? & ? & ?). split_and!; [done|by etrans|done].
Qed.

Lemma guards_run_result {R} (Q : R → W → Prop) p w :
  I w → guards Q p w → I (run p w).2 ∧ G w (run p w).2 ∧ Q (run p w).1 (run p w).2.
Proof. intros HI H. destruct (guards_run Q p w HI H) as (? & ? & Hq). split_and!; [done..|]. by apply Hq. Qed.

Section Threads.
Context {R : Type}.
Implicit Types (Qs : list (R → W → Prop)) (ts : list (prog W R)).

Lemma guards_all_stable Qs ts w w' :
  G w w' → Forall2 (λ Q t, guards Q t w) Qs ts → Forall2 (λ Q t, guards Q t w') Qs ts.
Proof. intros Hw H. eapply Forall2_impl; [exact H|]. intros Q t. by apply guards_stable. Qed.

Lemma interleave_guards Qs sched : ∀ ts w,
  I w → Forall2 (λ Q t, guards Q t w) Qs ts →
  let '(ts', w') := interleave sched ts w in I w' ∧ G w w' ∧ Forall2 (λ Q t, guards Q t w') Qs ts'.
Proof.
  induction sched as [|i sched IH]; intros ts w HI H; simpl; [split_and!; [done|reflexivity|done]|].
  unfold step_at. destruct (ts !! i) as [[r|B op k]|] eqn:Hi; [by apply IH| |by apply IH].
  destruct (Forall2_lookup_r _ _ _ _ _ H Hi) as (Q & HQ & Hg). destruct (Hg w (reflexivity w) HI) as (HI' & HG & Hk).
  destruct (op w) as [b w'] eqn:Hop. simpl in *.
  assert (Forall2 (λ Q t, guards Q t w') Qs (<[i := k b]> ts)) as H'.
  { rewrite <-(list_insert_id Qs i Q) by done. apply Forall2_insert; [|done]. by apply (guards_all_stable _ _ w). }
  specialize (IH _ w' HI' H'). destruct (interleave sched _ w') as [ts' w'']. destruct IH as (? & ? & ?).
  split_and!; [done|by etrans|done].
Qed.

Lemma finish_all_guards Qs : ∀ ts w,
  I w → Forall2 (λ Q t, guards Q t w) Qs ts →
  let '(rs, w') := finish_all ts w in I w' ∧ G w w' ∧ Forall2 (λ Q r, guards Q (Ret r) w') Qs rs.
Proof.
  induction Qs as [|Q Qs IH]; intros ts w HI H; inversion H as [|? t ? ts' Ht Hts]; subst; simpl;
    [split_and!; [done|reflexivity|constructor]|].
  destruct (guards_run Q t w HI Ht) as (HI1 & HG1 & HQ). destruct (run t w) as [r w1]. cbn [fst snd] in *.
  specialize (IH ts' w1 HI1 (guards_all_stable _ _ _ _ HG1 Hts)). destruct (finish_all ts' w1) as [rs w2].
  destruct IH as (HI2 & HG2 & Hrs). split_and!; [done|by etrans|]. constructor; [|done]. exact (guards_stable Q (Ret r) w1 w2 HG2 HQ).
Qed.

(** Every schedule of threads that meet their obligations keeps the invariant, and all results mean what they
    should in the final world. *)
Lemma run_threads_guards sched Qs ts w :
  I w → Forall2 (λ Q t, guards Q t w) Qs ts →
  let '(rs, w') := run_threads sched ts w in I w' ∧ G w w' ∧ Forall2 (λ Q r, Q r w') Qs rs.
Proof.
  intros HI H. unfold run_threads. pose proof (interleave_guards Qs sched ts w HI H) as Hint.
  destruct (interleave sched ts w) as [ts' w1]. destruct Hint as (HI1 & HG1 & H1).
  pose proof (finish_all_guards Qs ts' w1 HI1 H1) as Hfin. destruct (finish_all ts' w1) as [rs w2].
  destruct Hfin as (HI2 & HG2 & H2). split_and!; [done|by etrans|].
  eapply Forall2_impl; [exact H2|]. intros Q r Hr. by apply Hr.
Qed.
End Threads.
End Rely.

(** ** What no thread touches *)
Section Untouched.
Context {W V : Type} (f : W → V).
Definition same_view : relation W := λ w w', f w' = f w.
#[export] Instance same_view_preorder : PreOrder same_view.
Proof. split; unfold same_view; [by intros w|]. intros w1 w2 w3 H1 H2. by rewrite H2. Qed.

Definition leaves {A} (p : prog W A) : Prop := ∀ w, guards (λ _, True) same_view (λ _ _, True) p w.

Lemma leaves_ret {A} (a : A) : leaves (Ret a).
Proof. by intros w w' _ _. Qed.
Lemma leaves_bind {A B} (p : prog W A) (k : A → prog W B) : leaves p → (∀ a, leaves (k a)) → leaves (bind p k).
Proof.
  intros Hp Hk w. apply guards_bind; [apply _|]. eapply guards_mono; [apply _| |apply Hp]. intros a w' _ _ _. apply Hk.
Qed.
Lemma leaves_gets {A} (g : W → A) : leaves (gets g).
Proof. intros w. by apply guards_gets; [apply _|]. Qed.

Lemma leaves_run {A} (p : prog W A) w : leaves p → f (run p w).2 = f w.
Proof. intros Hp. by destruct (guards_run (λ _, True) same_view (λ _ _, True) p w I (Hp w)) as (_ & H & _). Qed.

Context {HE : Env W}.
Definition leaves_all (groups : list (list (Reconciliation W))) : Prop := Forall (Forall (λ r, leaves (Function r))) groups.

Lemma group_leaves sched group w :
  Forall (λ r, leaves (Function r)) group → f (run (runReconciliationGroup sched group) w).2 = f w.
Proof.
  intros Hg. unfold runReconciliationGroup. rewrite run_call.
  pose proof (run_threads_guards (λ _, True) same_view sched ((λ _ _ _, True) <$> group) (goroutine <$> group) w I) as H.
  destruct (run_threads sched (goroutine <$> group) w) as [rs w']. refine (proj1 (proj2 (H _))). clear H.
  apply Forall2_fmap, Forall_Forall2_diag. eapply Forall_impl; [exact Hg|]. intros r Hr.
  apply leaves_bind; [exact Hr|]. intros err. apply leaves_bind; [apply leaves_gets|]. intros t. apply leaves_ret.
Qed.

Lemma run_groups_leaves {KH : K8sHelpers} scheds groups : ∀ idx acc w,
  leaves_all groups → f (run (run_groups scheds idx groups acc) w).2 = f w.
Proof.
  induction groups as [|group rest IH]; intros idx acc w Hg; [done|]. apply Forall_cons in Hg as [Hgroup Hrest].
  rewrite run_groups_cons. pose proof (group_leaves (scheds idx) group w Hgroup) as Hs.
  destruct (run (runReconciliationGroup _ _) w) as [grs w1]. cbn [snd] in *. cbv zeta.
  case_decide; [|done]. destruct (first_stop grs); [done|]. by rewrite IH.
Qed.
End Untouched.
