(* ===== verification/Shared.v ===== *)
(** * Reconciliations that share a part of the world

    The rulesets and the code security configurations of an organization are reconciled in parallel and share one
    resolver of names (internal/reconciler/common/idresolver/resolver.go), whose maps each of them may replace while the
    other one reads them.  Their own parts of the world do not interfere (Parallel); what they read of the shared part
    may change between any two of their actions.  If everything the resolver may come to know agrees with one
    directory, a reconciliation that succeeds ends as if this directory had answered. *)
From S2P Require Import Prelude GoErrors Conditions Executor ApiTypes RulesetResolve RulesetMapper RulesetSync RulesetRec IdResolver OrgRec OrgActions Csc Parallel Rely.

(** ** Threads with parts of their own *)
Section Threads.
Context {W R : Type} (Rs : nat → relation W) (I : W → Prop).

(** The actions of thread [i] keep the invariant of the shared part and leave the parts of the others alone. *)
Fixpoint good (i : nat) (p : prog W R) : Prop :=
  match p with
  | Ret _ => True
  | Act op k => ∀ w, I w → I (op w).2 ∧ (∀ j, j ≠ i → Rs j w (op w).2) ∧ good i (k (op w).1)
  end.

(** [p] ends with [r] in [w'] if others act between its actions: they leave part [i] alone, and keep the invariant. *)
Fixpoint amid (i : nat) (p : prog W R) (w : W) (r : R) (w' : W) : Prop :=
  match p with
  | Ret a => r = a ∧ Rs i w w'
  | Act op k => ∃ w1, Rs i w w1 ∧ I w1 ∧ amid i (k (op w1).1) (op w1).2 r w'
  end.

Context `{∀ i, Equivalence (Rs i)}.

Lemma amid_before i p w w1 r w' : Rs i w w1 → amid i p w1 r w' → amid i p w r w'.
Proof.
  intros Hw. destruct p as [a|B op k]; simpl; [intros [-> ?]; split; [done|by etrans]|].
  intros (w2 & ? & ? & ?). exists w2. split_and!; [by etrans|done..].
Qed.
Lemma amid_after i p w r w1 w' : Rs i w1 w' → amid i p w r w1 → amid i p w r w'.
Proof.
  intros Hw. revert w. induction p as [a|B op k IH]; intros w; simpl; [intros [-> ?]; split; [done|by etrans]|].
  intros (w2 & ? & ? & ?). exists w2. split_and!; [done..|]. by apply IH.
Qed.

(** Alone is amid others that do nothing. *)
Lemma good_run i p w : good i p → I w →
  I (run p w).2 ∧ (∀ j, j ≠ i → Rs j w (run p w).2) ∧ amid i p w (run p w).1 (run p w).2.
Proof.
  revert w. induction p as [a|B op k IH]; intros w Hp HI; simpl; [split_and!; [done|reflexivity|done|reflexivity]|].
  destruct (Hp w HI) as (HI' & Hothers & Hk). specialize (IH _ (op w).2 Hk HI').
  destruct (op w) as [b w1] eqn:E. cbn [fst snd] in *. destruct IH as (? & Ho & Ha). split_and!; [done|..].
  - intros j Hj. etrans; [by apply Hothers|by apply Ho].
  - exists w. rewrite E. split_and!; [reflexivity|done..].
Qed.

(** What the remaining program [t] may end with from [w] on, the original one may end with from [w0] on. *)
Definition leads (i : nat) (t : prog W R) (w : W) (t0 : prog W R) (w0 : W) : Prop :=
  good i t ∧ ∀ r w', amid i t w r w' → amid i t0 w0 r w'.

Lemma leads_other i t w w1 t0 w0 : Rs i w w1 → leads i t w t0 w0 → leads i t w1 t0 w0.
Proof. intros Hw [Hg Hl]. split; [done|]. intros r w' Ha. apply Hl. by eapply amid_before. Qed.

Lemma interleave_leads sched : ∀ ts w (ts0 : list (prog W R)) w0,
  I w → (∀ i t, ts !! i = Some t → ∃ t0, ts0 !! i = Some t0 ∧ leads i t w t0 w0) →
  let '(ts', w') := interleave sched ts w in
  I w' ∧ ∀ i t, ts' !! i = Some t → ∃ t0, ts0 !! i = Some t0 ∧ leads i t w' t0 w0.
Proof.
  induction sched as [|j sched IH]; intros ts w ts0 w0 HI Hts; simpl; [done|].
  unfold step_at. destruct (ts !! j) as [[r|B op k]|] eqn:Hj; [by apply IH| |by apply IH].
  destruct (Hts j _ Hj) as (tj & Htj & Hg & Hl). destruct (Hg w HI) as (HI' & Hothers & Hk).
  destruct (op w) as [b w1] eqn:E. cbn [fst snd] in *. apply IH; [done|]. intros i t Hi. destruct (decide (i = j)) as [->|Hne].
  - rewrite list_lookup_insert_eq in Hi by (by eapply lookup_lt_Some). injection Hi as <-. exists tj. split; [done|]. split; [done|].
    intros r w' Ha. apply Hl. exists w. rewrite E. split_and!; [reflexivity|done..].
  - rewrite list_lookup_insert_ne in Hi by done. destruct (Hts i t Hi) as (t0 & Ht0 & Ht). exists t0. split; [done|].
    by eapply leads_other; [apply Hothers|].
Qed.

Lemma finish_all_leads ts : ∀ n w (ts0 : list (prog W R)) w0,
  I w → (∀ i t, ts !! i = Some t → ∃ t0, ts0 !! (n + i)%nat = Some t0 ∧ leads (n + i) t w t0 w0) →
  let '(rs, w') := finish_all ts w in
  (∀ j, (j < n)%nat → Rs j w w') ∧
  ∀ i r, rs !! i = Some r → ∃ t0, ts0 !! (n + i)%nat = Some t0 ∧ amid (n + i) t0 w0 r w'.
Proof.
  induction ts as [|t ts IH]; intros n w ts0 w0 HI Hts; simpl; [split; [intros; reflexivity|done]|].
  destruct (Hts 0%nat t eq_refl) as (t0 & Ht0 & Hg & Hl). rewrite Nat.add_0_r in *.
  destruct (good_run n t w Hg HI) as (HI1 & Hothers & Ha). destruct (run t w) as [r w1]. cbn [fst snd] in *.
  specialize (IH (S n) w1 ts0 w0 HI1). destruct (finish_all ts w1) as [rs w2]. destruct IH as [Hkept Hrest].
  { intros i t' Hi. destruct (Hts (S i) t' Hi) as (t0' & Ht0' & Htl). rewrite Nat.add_succ_r in *. exists t0'. split; [done|].
    eapply leads_other; [apply Hothers; lia|done]. }
  split; [intros j Hj; etrans; [apply Hothers; lia|apply Hkept; lia]|]. intros [|i] r' Hi.
  - injection Hi as <-. rewrite Nat.add_0_r. exists t0. split; [done|]. apply Hl. eapply amid_after; [apply Hkept; lia|done].
  - rewrite Nat.add_succ_r. by apply Hrest.
Qed.

(** Under every schedule every thread ends as it may end amid the others. *)
Lemma run_threads_amid sched ts w :
  I w → (∀ i t, ts !! i = Some t → good i t) →
  let '(rs, w') := run_threads sched ts w in ∀ i r, rs !! i = Some r → ∃ t, ts !! i = Some t ∧ amid i t w r w'.
Proof.
  intros HI Hg. unfold run_threads. pose proof (interleave_leads sched ts w ts w HI) as Hint.
  destruct (interleave sched ts w) as [ts' w1]. destruct Hint as [HI1 Hts'].
  { intros i t Hi. exists t. split; [done|]. split; [by eapply Hg|done]. }
  pose proof (finish_all_leads ts' 0 w1 ts w HI1 Hts') as Hfin. destruct (finish_all ts' w1) as [rs w2]. apply Hfin.
Qed.
End Threads.

Lemma good_bind {W A R} (Rs : nat → relation W) (I : W → Prop) i (p : prog W A) (f : A → prog W R) :
  good Rs I i p → (∀ a, good Rs I i (f a)) → good Rs I i (bind p f).
Proof.
  intros Hp Hf. induction p as [a|B op k IH]; simpl; [apply Hf|]. intros w HI. destruct (Hp w HI) as (? & ? & ?). auto.
Qed.

Lemma amid_bind {W A R} (Rs : nat → relation W) `{∀ i, Equivalence (Rs i)} (I : W → Prop) i (p : prog W A) (f : A → prog W R) w r w' :
  amid Rs I i (bind p f) w r w' → ∃ a w1, amid Rs I i p w a w1 ∧ amid Rs I i (f a) w1 r w'.
Proof.
  revert w. induction p as [a|B op k IH]; intros w; simpl; [intros Ha; exists a, w; split; [split; [done|reflexivity]|done]|].
  intros (w1 & Hw & HI & Ha). apply IH in Ha as (a & w2 & Ha & Hf). exists a, w2. split; [by exists w1|done].
Qed.

(** Under every schedule every reconciliation of a group ends as it may end amid the others. *)
Lemma group_amid {W} {HE : Env W} (Rs : nat → relation W) `{∀ i, Equivalence (Rs i)} (I : W → Prop)
    sched (group : list (Reconciliation W)) w rs w' i rec :
  (∀ i rec, group !! i = Some rec → good Rs I i (Function rec)) → I w →
  run (runReconciliationGroup sched group) w = (rs, w') → group !! i = Some rec →
  ∃ res, rs !! i = Some res ∧ amid Rs I i (Function rec) w (rr_Error res) w'.
Proof.
  intros Hg HI Hrun Hi. unfold runReconciliationGroup in Hrun. rewrite run_call in Hrun.
  assert (∀ j t, (goroutine <$> group) !! j = Some t → good Rs I j t) as Hgood.
  { intros j t (rec' & -> & Hj)%list_lookup_fmap_Some_1. apply good_bind; [by eapply Hg|]. intros e w1 HI1. simpl.
    split_and!; [done|reflexivity|done]. }
  pose proof (run_threads_amid Rs I sched (goroutine <$> group) w HI Hgood) as Ha. rewrite Hrun in Ha.
  assert (length rs = length group) as Hlen.
  { pose proof (interleave_length sched (goroutine <$> group) w) as Hil. unfold run_threads in Hrun.
    destruct (interleave sched _ w) as [ts' w1]. pose proof (finish_all_length ts' w1) as Hf. rewrite Hrun in Hf. cbn [fst] in *.
    by rewrite Hf, Hil, length_fmap. }
  destruct (lookup_lt_is_Some_2 rs i) as [res Hres]; [rewrite Hlen; by eapply lookup_lt_Some|].
  exists res. split; [done|]. destruct (Ha i res Hres) as (t & Ht & Hamid). rewrite list_lookup_fmap, Hi in Ht. injection Ht as <-.
  unfold goroutine in Hamid. apply amid_bind in Hamid as (e & w1 & He & Hend); [|done].
  destruct Hend as (w2 & Hw2 & _ & -> & Hw'). cbn [rr_Error]. eapply amid_after; [done| |exact He]. by etrans.
Qed.

(** ** Programs on a part of their own and a shared part *)
Section Noise.
Context {V S : Type} (J : S → Prop).

(** Their actions keep the invariant of the shared part. *)
Fixpoint safe {R} (p : prog (V * S) R) : Prop :=
  match p with
  | Ret _ => True
  | Act op k => ∀ v s, J s → J (op (v, s)).2.2 ∧ safe (k (op (v, s)).1)
  end.

(** [p] ends with [r] and [v'] on its own part [v] if it finds something else in the shared part every time: whatever
    satisfies the invariant. *)
Fixpoint amidst {R} (p : prog (V * S) R) (v : V) (r : R) (v' : V) : Prop :=
  match p with
  | Ret a => r = a ∧ v' = v
  | Act op k => ∃ s, J s ∧ amidst (k (op (v, s)).1) (op (v, s)).2.1 r v'
  end.

Definition own : Lens (V * S) V := {| view := fst; put v w := (v, w.2); view_put v w := eq_refl |}.
Definition shared : Lens (V * S) S := {| view := snd; put s w := (w.1, s); view_put s w := eq_refl |}.

Lemma safe_bind {A R} (p : prog (V * S) A) (f : A → prog (V * S) R) : safe p → (∀ a, safe (f a)) → safe (bind p f).
Proof. intros Hp Hf. induction p as [a|B op k IH]; simpl; [apply Hf|]. intros v s Hs. destruct (Hp v s Hs). auto. Qed.

Lemma amidst_bind {A R} (p : prog (V * S) A) (f : A → prog (V * S) R) v r v' :
  amidst (bind p f) v r v' → ∃ a v1, amidst p v a v1 ∧ amidst (f a) v1 r v'.
Proof.
  revert v. induction p as [a|B op k IH]; intros v; simpl; [eauto|]. intros (s & Hs & Ha).
  apply IH in Ha as (a & v1 & Ha & Hf). exists a, v1. split; [by exists s|done].
Qed.

(** *** In the world of all parts *)
Context {W : Type} (Rs : nat → relation W) (I : W → Prop) (i : nat).

Lemma good_lift_shared {R} (l : Lens W (V * S)) (p : prog (V * S) R) :
  (∀ w, I w → J (view l w).2) → (∀ v s w, J s → I (put l (v, s) w)) → (∀ j x w, j ≠ i → Rs j w (put l x w)) →
  safe p → good Rs I i (lift l p).
Proof.
  intros Hview Hput Hothers. induction p as [a|B op k IH]; simpl; [done|]. intros Hp w HI.
  specialize (Hp (view l w).1 (view l w).2 (Hview w HI)). rewrite <-surjective_pairing in Hp.
  destruct (op (view l w)) as [b [v s]]. cbn [fst snd] in *. destruct Hp. split_and!; [by apply Hput|by intros; apply Hothers|by apply IH].
Qed.

Lemma good_lift_own {X R} (l : Lens W X) (p : prog X R) :
  (∀ v w, I w → I (put l v w)) → (∀ j x w, j ≠ i → Rs j w (put l x w)) → good Rs I i (lift l p).
Proof.
  intros Hput Hothers. induction p as [a|B op k IH]; simpl; [done|]. intros w HI.
  destruct (op (view l w)) as [b v]. cbn [fst snd]. split_and!; [by apply Hput|by intros; apply Hothers|apply IH].
Qed.

Lemma amid_lift_shared {R} (l : Lens W (V * S)) (p : prog (V * S) R) w r w' :
  (∀ w1 w2, Rs i w1 w2 → (view l w1).1 = (view l w2).1) → (∀ w, I w → J (view l w).2) →
  amid Rs I i (lift l p) w r w' → amidst p (view l w).1 r (view l w').1.
Proof.
  intros Hown Hview. revert w. induction p as [a|B op k IH]; intros w; simpl.
  { intros [-> Hw]. by rewrite (Hown _ _ Hw). }
  intros (w1 & Hw & HI & Ha). rewrite (Hown _ _ Hw). exists (view l w1).2. split; [by apply Hview|]. rewrite <-surjective_pairing.
  destruct (op (view l w1)) as [b x]. cbn [fst snd] in *. apply IH in Ha. by rewrite view_put in Ha.
Qed.

Lemma amid_lift_own {X R} (l : Lens W X) (p : prog X R) w r w' :
  (∀ w1 w2, Rs i w1 w2 → view l w1 = view l w2) → amid Rs I i (lift l p) w r w' → run p (view l w) = (r, view l w').
Proof.
  intros Hown. revert w. induction p as [a|B op k IH]; intros w; simpl.
  { intros [-> Hw]. by rewrite (Hown _ _ Hw). }
  intros (w1 & Hw & HI & Ha). rewrite (Hown _ _ Hw). destruct (op (view l w1)) as [b x]. cbn [fst snd] in *.
  apply IH in Ha. by rewrite view_put in Ha.
Qed.
End Noise.

(** Without an invariant every program is safe. *)
Lemma safe_trivial {V S R} (p : prog (V * S) R) : safe (λ _, True) p.
Proof. induction p as [a|B op k IH]; simpl; auto. Qed.

(** ** Following a program that nothing disturbs *)
Section Follows.
Context {V S : Type} (J : S → Prop).

(** Whatever [p] finds in the shared part, it ends as [q] does, or with a result that counts as a failure. *)
Definition follows {R} (E : R → Prop) (p : prog (V * S) R) (q : prog V R) : Prop :=
  safe J p ∧ ∀ v r v', amidst J p v r v' → run q v = (r, v') ∨ E r.

Definition never {R} (_ : R) : Prop := False.
Definition is_error {A} (r : res A) : Prop := ∃ e, r = inr e.
Definition failed (r : option gerror) : Prop := r ≠ None.

Lemma follows_weaken {R} (E E' : R → Prop) p q : (∀ r, E r → E' r) → follows E p q → follows E' p q.
Proof. intros HE [Hs Hf]. split; [done|]. intros v r v' Ha. destruct (Hf v r v' Ha); auto. Qed.
Lemma follows_pure {R} (E : R → Prop) p q : follows never p q → follows E p q.
Proof. by apply follows_weaken. Qed.
Lemma follows_ret {R} (E : R → Prop) a : follows E (Ret a) (Ret a).
Proof. split; [done|]. intros v r v' [-> ->]. by left. Qed.

(** A failure of the first part is one of the whole. *)
Lemma follows_bind {A R} (E1 : A → Prop) (E : R → Prop) p q f g :
  follows E1 p q → (∀ a, follows E (f a) (g a)) → (∀ a, E1 a → ∀ v r v', amidst J (f a) v r v' → E r) →
  follows E (bind p f) (bind q g).
Proof.
  intros [Hs Hp] Hf HE. split; [apply safe_bind; [done|]; intros a; apply Hf|].
  intros v r v' (a & v1 & Ha & Hr)%amidst_bind. destruct (Hp v a v1 Ha) as [Hq|He]; [|right; by eapply HE].
  rewrite run_bind, Hq. by apply (Hf a).
Qed.
Lemma follows_then {A R} (E : R → Prop) (p : prog (V * S) A) q f g :
  follows never p q → (∀ a, follows E (f a) (g a)) → follows E (bind p f) (bind q g).
Proof. intros Hp Hf. by apply (follows_bind never). Qed.
Lemma follows_try {A B} (p : prog (V * S) (res A)) q (f : A → prog (V * S) (res B)) g :
  follows is_error p q → (∀ a, follows is_error (f a) (g a)) → follows is_error (let? x := p in f x) (let? x := q in g x).
Proof.
  intros Hp Hf. apply (follows_bind is_error); [done|intros [a|e]; [apply Hf|apply follows_ret]|].
  intros a [e ->] v r v' [-> _]. by exists e.
Qed.
Lemma follows_value {A} (p : prog (V * S) (res A)) q (f : A → prog (V * S) (option gerror)) g :
  follows is_error p q → (∀ a, follows failed (f a) (g a)) → follows failed (let^ x := p in f x) (let^ x := q in g x).
Proof.
  intros Hp Hf. apply (follows_bind is_error); [done|intros [a|e]; [apply Hf|apply follows_ret]|].
  intros a [e ->] v r v' [-> _]. done.
Qed.
Lemma follows_check (p : prog (V * S) (option gerror)) q f g :
  follows failed p q → follows failed f g → follows failed (check p in f) (check q in g).
Proof.
  intros Hp Hf. apply (follows_bind failed); [done|intros [e|]; [apply follows_ret|apply Hf]|].
  intros [e|] Ha v r v' H; [destruct H as [-> _]; done|done].
Qed.
Lemma follows_for_each {A} (l : list A) (f : A → prog (V * S) (option gerror)) g :
  (∀ x, follows never (f x) (g x)) → follows never (for_each l f) (for_each l g).
Proof.
  intros Hf. induction l as [|x l IH]; simpl; [apply follows_ret|]. apply follows_then; [done|]. intros [e|]; [apply follows_ret|done].
Qed.

(** What works on the part of its own only. *)
Lemma follows_own {R} (E : R → Prop) (p : prog V R) : follows E (lift own p) p.
Proof.
  apply follows_pure. split.
  - induction p as [a|B op k IH]; simpl; [done|]. intros v s Hs. by destruct (op v).
  - intros v r v' Ha. left. revert v Ha. induction p as [a|B op k IH]; intros v; simpl; [by intros [-> ->]|].
    intros (s & Hs & Ha). destruct (op v) as [b v1]. by apply IH.
Qed.

(** What asks the shared part, and is answered [c] unless it fails. *)
Lemma follows_shared {R} (E : R → Prop) (p : prog S R) c s0 :
  J s0 → (∀ s, J s → guards J (λ _ _, True) (λ a _, c = a ∨ E a) p s) → follows E (lift shared p) (Ret c).
Proof.
  intros H0 Hp. specialize (Hp s0 H0). split.
  - revert s0 H0 Hp. induction p as [a|B op k IH]; intros s0 H0 Hp; simpl; [done|]. intros v s Hs.
    destruct (Hp s I Hs) as (Hs' & _ & Hk). destruct (op s) as [b s']. split; [done|]. by eapply IH.
  - intros v r v' Ha. revert s0 H0 Hp v Ha. induction p as [a|B op k IH]; intros s0 H0 Hp v; simpl.
    + intros [-> ->]. destruct (Hp s0 I H0) as [->|?]; [by left|by right].
    + intros (s & Hs & Ha). destruct (Hp s I Hs) as (Hs' & _ & Hk). destruct (op s) as [b s']. by eapply IH.
Qed.
End Follows.

(** Decompose two versions of one program into their calls. *)
Ltac solve_follows := repeat first
  [ assumption
  | match goal with
    | |- follows _ _ (Ret _) (Ret _) => apply follows_ret
    | |- follows _ _ (lift own _) _ => apply follows_own
    | |- follows _ never (bind _ _) (bind _ _) => apply follows_then; [|intros ?]
    | |- follows _ never (for_each _ _) (for_each _ _) => apply follows_for_each; intros ?
    end
  | progress cbv beta | case_match ].
