(* ===== verification/SharedResolver.v ===== *)
(** * The resolver that an organization's reconciliations share

    internal/reconciler/orgrec/reconciler.go gives one resolver to the reconciliation of the rulesets
    (orgrec/rec_rulesets.go) and to that of the code security configurations
    (orgrec/rec_code_security_configurations.go), which run in parallel.  Here are the two with this resolver, and what
    their success means when everything the resolver may come to know agrees with one directory. *)
From S2P Require Import Prelude GoErrors Conditions Executor ApiTypes RulesetResolve RulesetMapper RulesetSync RulesetRec IdResolver OrgRec OrgActions Csc Parallel Rely Shared.

(** ** The calls of a reconciliation that works on a part of its own and the resolver *)
Section Apis.
Context {V Res : Type} {RS : ResolverApi Res} (orgName : string).

Definition client_on (C : RulesetClient V) : RulesetClient (V * Res) := {|
  rcl_GetAll := lift own (rcl_GetAll C); rcl_Get id := lift own (rcl_Get C id); rcl_Create gh := lift own (rcl_Create C gh);
  rcl_Update id gh := lift own (rcl_Update C id gh); rcl_Delete id := lift own (rcl_Delete C id) |}.

(** The spec of the resolver counts only without an error. *)
Definition returned (r : RulesetSpec * option gerror) : res RulesetSpec := match r.2 with None => inl r.1 | Some err => inr err end.

(** The resolver that [AR] comes with is not used. *)
Definition shared_rulesets {AR : RulesetsApi V} : RulesetsApi (V * Res) := {|
  RepositoryRulesets owner name := client_on (RepositoryRulesets owner name);
  OrganizationRulesets login := client_on (OrganizationRulesets login);
  FetchOrganization ns name := lift own (FetchOrganization ns name);
  FetchRulesetPreset ns name w := let '(r, v) := FetchRulesetPreset ns name w.1 in (r, (v, w.2));
  IsNotFound := IsNotFound;
  RulesetRec.ResolveRuleset s := lift shared (let! r := IdResolver.ResolveRuleset orgName s in Ret (returned r)) |}.

Definition shared_cscs {AC : CscApi V} : CscApi (V * Res) := {|
  FetchCsc ns n := lift own (FetchCsc ns n);
  Csc.ResolveCscBypassReviewers c := lift shared (IdResolver.ResolveCscBypassReviewers orgName c);
  GetDefaultCodeSecurityConfigurationsForOrg := lift own GetDefaultCodeSecurityConfigurationsForOrg;
  SetCodeSecurityConfigurationAsDefaultForOrg id v := lift own (SetCodeSecurityConfigurationAsDefaultForOrg id v);
  GetCodeSecurityConfigurationsForOrg := lift own GetCodeSecurityConfigurationsForOrg;
  CreateCodeSecurityConfigurationForOrg d := lift own (CreateCodeSecurityConfigurationForOrg d);
  UpdateCodeSecurityConfigurationForOrg id d := lift own (UpdateCodeSecurityConfigurationForOrg id d);
  DeleteCodeSecurityConfigurationForOrg id := lift own (DeleteCodeSecurityConfigurationForOrg id);
  GetOrgRepositories := lift own GetOrgRepositories;
  GetGitHubRepositoryID n := lift own (GetGitHubRepositoryID n);
  GetRepositoriesAttachedToCodeSecurityConfiguration id := lift own (GetRepositoriesAttachedToCodeSecurityConfiguration id);
  AttachCodeSecurityConfigurations id s l := lift own (AttachCodeSecurityConfigurations id s l);
  StartTimers q t := lift own (StartTimers q t);
  Select := lift own Select |}.
Definition shared_lists {LA : ListApi V} : ListApi (V * Res) := {|
  ListRepositories ns f v := lift own (ListRepositories ns f v); ListTeams ns f v := lift own (ListTeams ns f v) |}.

(** The same calls with fixed answers in the place of the resolver. *)
Definition answered_rulesets {AR : RulesetsApi V} (answer : RulesetSpec → res RulesetSpec) : RulesetsApi V := {|
  RepositoryRulesets := RepositoryRulesets; OrganizationRulesets := OrganizationRulesets; FetchOrganization := FetchOrganization;
  FetchRulesetPreset := FetchRulesetPreset; IsNotFound := IsNotFound; RulesetRec.ResolveRuleset s := Ret (answer s) |}.
Definition answered_cscs {AC : CscApi V} (answer : CodeSecurityConfiguration → res CodeSecurityConfiguration) : CscApi V := {|
  FetchCsc := FetchCsc; Csc.ResolveCscBypassReviewers c := Ret (answer c);
  GetDefaultCodeSecurityConfigurationsForOrg := GetDefaultCodeSecurityConfigurationsForOrg;
  SetCodeSecurityConfigurationAsDefaultForOrg := SetCodeSecurityConfigurationAsDefaultForOrg;
  GetCodeSecurityConfigurationsForOrg := GetCodeSecurityConfigurationsForOrg;
  CreateCodeSecurityConfigurationForOrg := CreateCodeSecurityConfigurationForOrg;
  UpdateCodeSecurityConfigurationForOrg := UpdateCodeSecurityConfigurationForOrg;
  DeleteCodeSecurityConfigurationForOrg := DeleteCodeSecurityConfigurationForOrg;
  GetOrgRepositories := GetOrgRepositories; GetGitHubRepositoryID := GetGitHubRepositoryID;
  GetRepositoriesAttachedToCodeSecurityConfiguration := GetRepositoriesAttachedToCodeSecurityConfiguration;
  AttachCodeSecurityConfigurations := AttachCodeSecurityConfigurations; StartTimers := StartTimers; Select := Select |}.
End Apis.

(** ** Rulesets *)
Section Rulesets.
Context {V Res : Type} {RS : ResolverApi Res} {AR : RulesetsApi V} (o : MapOrder) (orgName : string) (J : Res → Prop).
Context (answer : RulesetSpec → res RulesetSpec).
Let Sh := shared_rulesets (V := V) orgName.
Let An := answered_rulesets (V := V) answer.
Context (resolved : ∀ s, follows J is_error (RulesetRec.ResolveRuleset (RulesetsApi := Sh) s) (Ret (answer s))).

Lemma GetPreset_follows r name :
  follows J never (GetPreset (FetchRulesetPreset (RulesetsApi := Sh)) r name) (GetPreset (FetchRulesetPreset (RulesetsApi := An)) r name).
Proof.
  unfold GetPreset. destruct (cr_presets r !! name); [apply follows_ret|]. apply follows_then; [|intros a; apply follows_ret]. split.
  - intros v s Hs. cbn. by destruct (FetchRulesetPreset _ _ v).
  - intros v a v' (s & _ & H). left. rewrite run_call. cbn in *. destruct (FetchRulesetPreset _ _ v). by destruct H as [-> ->].
Qed.

Lemma resolve_walk_follows levels : ∀ ruleset next specs chain seen r,
  follows J never (resolve_walk (FetchRulesetPreset (RulesetsApi := Sh)) IsNotFound levels ruleset next specs chain seen r)
    (resolve_walk (FetchRulesetPreset (RulesetsApi := An)) IsNotFound levels ruleset next specs chain seen r).
Proof.
  pose proof GetPreset_follows. induction levels as [|levels IH]; intros; simpl; solve_follows; first [apply GetPreset_follows|apply IH].
Qed.

Lemma resolveDesired_follows r source spec self :
  follows J never (resolveDesired (FetchRulesetPreset (RulesetsApi := Sh)) IsNotFound r source spec self)
    (resolveDesired (FetchRulesetPreset (RulesetsApi := An)) IsNotFound r source spec self).
Proof. unfold resolveDesired, Resolve. solve_follows; apply resolve_walk_follows. Qed.

Lemma Collect_follows ns refs inline :
  follows J never (Collect (FetchRulesetPreset (RulesetsApi := Sh)) IsNotFound ns refs inline)
    (Collect (FetchRulesetPreset (RulesetsApi := An)) IsNotFound ns refs inline).
Proof.
  unfold Collect, collect_candidates. generalize (NewChainResolver ns). intros r. solve_follows.
  - revert r. induction refs as [|ref refs IH]; intros r; simpl; solve_follows;
      first [apply GetPreset_follows|apply resolveDesired_follows|apply IH].
  - match goal with |- follows _ _ (collect_inline _ _ ?r ?n _) _ => generalize n, r end.
    induction inline as [|spec inline IH]; intros n' r'; simpl; solve_follows; first [apply resolveDesired_follows|apply IH].
Qed.

Section Synchronised.
Context (scope : string) (C : RulesetClient V) (opts1 : SyncOptions (V * Res)) (opts2 : SyncOptions V).
Context (same_options : opts1 = {| Resolver := RulesetRec.ResolveRuleset (RulesetsApi := Sh);
  EnableRequiredReviewersRules := EnableRequiredReviewersRules opts2; Skip := Skip opts2; Adjust := Adjust opts2 |}).
Context (answers : Resolver opts2 = λ s, Ret (answer s)).
Let T1 := ruleset_target scope (client_on (Res := Res) C).
Let T2 := ruleset_target scope C.

Lemma apply_ruleset_follows byName toDelete d gh :
  follows J never (apply_ruleset T1 byName toDelete d gh) (apply_ruleset T2 byName toDelete d gh).
Proof. unfold apply_ruleset. solve_follows; unfold T1, T2; simpl; unfold createRuleset, updateRuleset; solve_follows; apply follows_own. Qed.

Lemma sync_one_follows byName s d : follows J is_error (sync_one T1 opts1 byName s d) (sync_one T2 opts2 byName s d).
Proof.
  unfold sync_one. destruct s as [toDelete unresolved]. destruct (d_Unresolved d); [apply follows_ret|].
  assert (skipped opts1 d = skipped opts2 d) as -> by by rewrite same_options.
  destruct (skipped opts2 d); [apply follows_ret|]. rewrite answers.
  assert (strip_disabled opts1 (d_Spec d) = strip_disabled opts2 (d_Spec d)) as -> by by rewrite same_options.
  apply (follows_bind J is_error); [rewrite same_options; apply resolved| |].
  - intros [spec|e]; [|apply follows_ret]. assert (adjust opts1 spec = adjust opts2 spec) as -> by by rewrite same_options.
    case_match; [|apply follows_ret]. apply follows_then; [apply apply_ruleset_follows|]. intros a. apply follows_ret.
  - intros a [e ->] v r v' [-> _]. by eexists.
Qed.

Lemma sync_loop_follows byName desired : ∀ s, follows J is_error (sync_loop T1 opts1 byName s desired) (sync_loop T2 opts2 byName s desired).
Proof.
  induction desired as [|d desired IH]; intros s; simpl; [apply follows_ret|]. apply (follows_bind J is_error); [apply sync_one_follows| |].
  - intros [s'|e]; [apply IH|apply follows_ret].
  - intros a [e ->] v r v' [-> _]. by eexists.
Qed.

Lemma Sync_follows desired : follows J failed (Sync o T1 opts1 desired) (Sync o T2 opts2 desired).
Proof.
  unfold Sync. apply follows_then; [apply follows_own|]. intros [existing|e]; [|apply follows_ret].
  apply (follows_bind J is_error); [apply sync_loop_follows| |].
  - intros [[toDelete unresolved]|e]; [|apply follows_ret]. apply follows_check; [apply follows_pure, follows_for_each|apply follows_ret].
    intros x. unfold delete_one. solve_follows; unfold T1, T2; simpl; unfold deleteRuleset; solve_follows; apply follows_own.
  - intros a [e ->] v r v' [-> _]. done.
Qed.
End Synchronised.

Lemma reconcileRulesets_follows features login org :
  follows J failed (reconcileRulesets (A := Sh) o features login org) (reconcileRulesets (A := An) o features login org).
Proof.
  unfold reconcileRulesets. destruct (negb _); [apply follows_ret|]. apply follows_then; [apply Collect_follows|].
  intros [desired|e]; [|apply follows_ret]. by apply Sync_follows.
Qed.
End Rulesets.

(** ** Code security configurations *)
Section Configurations.
Context {V Res : Type} {RS : ResolverApi Res} {AC : CscApi V} {LA : ListApi V} (o : MapOrder) (orgName : string) (J : Res → Prop).
Context (org : Organization) (slack : nat) (answer : CodeSecurityConfiguration → res CodeSecurityConfiguration).
#[local] Instance Sh : CscApi (V * Res) := shared_cscs orgName.
Let An := answered_cscs (V := V) answer.
#[local] Instance ShL : ListApi (V * Res) := shared_lists.
Context (resolved : ∀ c, follows J is_error (Csc.ResolveCscBypassReviewers (CscApi := Sh) c) (Ret (answer c))).

Ltac solve_calls := solve_follows; solve [apply follows_own | eauto using follows_ret].

Lemma getAttachments_follows id b :
  follows J never (getAttachmentsIfAllAttached (A := Sh) id b) (getAttachmentsIfAllAttached (A := An) id b).
Proof. unfold getAttachmentsIfAllAttached. solve_calls. Qed.
Lemma poll_follows fuel id : follows J never (poll (A := Sh) fuel id) (poll (A := An) fuel id).
Proof.
  pose proof getAttachments_follows. induction fuel as [|fuel IH]; [apply follows_ret|]. cbn [poll]. solve_calls.
Qed.
Lemma getAndWait_follows id q t :
  follows J never (getAndWaitForFinishedAttachments (A := Sh) slack id q t) (getAndWaitForFinishedAttachments (A := An) slack id q t).
Proof.
  unfold getAndWaitForFinishedAttachments. pose proof getAttachments_follows. pose proof poll_follows. solve_calls.
Qed.
Lemma attachToRepos_follows scope id ids :
  follows J never (attachToRepos (A := Sh) slack scope id ids) (attachToRepos (A := An) slack scope id ids).
Proof. unfold attachToRepos. pose proof getAndWait_follows. solve_calls. Qed.
Lemma selected_ids_follows repos : ∀ m, follows J never (selected_ids (A := Sh) repos m) (selected_ids (A := An) repos m).
Proof.
  induction repos as [|r rs IH]; intros m; cbn [selected_ids]; [apply follows_ret|]. unfold selected_id. solve_calls.
Qed.
Lemma attachCSC_follows scope n id :
  follows J never (attachCSC (A := Sh) o org slack scope n id) (attachCSC (A := An) o org slack scope n id).
Proof.
  unfold attachCSC, getDesiredAttachmentsForScope, getSelectedAttachedRepoNamesToIDs.
  pose proof attachToRepos_follows. pose proof getAndWait_follows. pose proof selected_ids_follows. solve_calls.
Qed.
Lemma default_confs_follows l : ∀ acc, follows J never (default_confs (A := Sh) org l acc) (default_confs (A := An) org l acc).
Proof. induction l as [|r l IH]; intros acc; cbn [default_confs]; solve_calls. Qed.
Lemma unsetObsoleteDefaults_follows :
  follows J never (unsetObsoleteDefaults (A := Sh) o org) (unsetObsoleteDefaults (A := An) o org).
Proof. unfold unsetObsoleteDefaults. pose proof default_confs_follows. solve_calls. Qed.
Lemma set_default_follows id d : follows J never (set_default (A := Sh) id d) (set_default (A := An) id d).
Proof. unfold set_default. solve_calls. Qed.
Lemma updateCsc_follows d c : follows J never (updateCsc (A := Sh) d c) (updateCsc (A := An) d c).
Proof. unfold updateCsc. pose proof set_default_follows. solve_calls. Qed.
Lemma createCsc_follows d : follows J never (createCsc (A := Sh) d) (createCsc (A := An) d).
Proof. unfold createCsc. pose proof set_default_follows. solve_calls. Qed.

Lemma reconcile_csc_follows m ref : follows J is_error (reconcile_csc (A := Sh) org m ref) (reconcile_csc (A := An) org m ref).
Proof.
  unfold reconcile_csc. apply follows_try; [apply follows_own|]. intros c. apply follows_try; [apply resolved|]. intros c'.
  apply follows_try; [|intros; apply follows_ret]. apply follows_pure. case_match; [apply updateCsc_follows|apply createCsc_follows].
Qed.
Lemma reconcile_cscs_follows m l : ∀ seen, follows J is_error (reconcile_cscs (A := Sh) org m l seen) (reconcile_cscs (A := An) org m l seen).
Proof.
  induction l as [|ref l IH]; intros seen; cbn [reconcile_cscs]; [apply follows_ret|]. apply follows_try; [apply reconcile_csc_follows|]. done.
Qed.

Lemma reconcileCodeSecurityConfigurations_follows :
  follows J failed (reconcileCodeSecurityConfigurations (A := Sh) o org slack) (reconcileCodeSecurityConfigurations (A := An) o org slack).
Proof.
  unfold reconcileCodeSecurityConfigurations, getOrgLevelCodeSecurityConfigurationsByName.
  apply follows_check; [apply follows_pure, unsetObsoleteDefaults_follows|].
  apply follows_value; [apply follows_pure; solve_calls|]. intros m. destruct (negb _); [apply follows_ret|].
  apply follows_value; [apply reconcile_cscs_follows|]. intros seen. apply follows_check; apply follows_pure, follows_for_each; intros [n c].
  - unfold deleteCsc. solve_calls.
  - pose proof attachCSC_follows. solve_calls.
Qed.
End Configurations.

(** ** When everything agrees with one directory *)
Section Stable.
Context {Res : Type} {RS : ResolverApi Res} (orgName : string) (repos : string → res (option Z)) (D : LookUpMaps) (J : Res → Prop).

(** The maps know all apps, and of the teams and roles nothing that is not so. *)
Definition agrees (m : LookUpMaps) : Prop := older m D ∧ appsBySlug m = appsBySlug D.

(** GitHub's directory does not change meanwhile: the maps of the resolver agree with [D], and so do the lists that a
    call returns, from GitHub or from a cache; a repository is answered with [repos] by every call.  [J] is the invariant
    of the resolver and the caches of its client that says so. *)
Notation ensures Q p := (∀ s, J s → guards J (λ _ _, True) (λ a _, Q a) p s).
Class StableDirectory : Prop := {
  stable_maps : ensures agrees getMaps;
  stable_set m : agrees m → ensures (λ _, True) (setMaps m);
  stable_cleared : ensures (λ _, True) InvalidateCache;
  stable_apps : ensures (λ r, ∀ l, r = inl l → index_apps l = appsBySlug D) (GetGitHubAppsInstallations orgName);
  stable_teams : ensures (λ r, ∀ l, r = inl l → index_teams l ⊆ teamsBySlug D) (GetTeamsForOrg orgName);
  stable_roles : ensures (λ r, ∀ l, r = inl l → index_roles l ⊆ rolesByName D) (GetRolesForOrg orgName);
  stable_repository name : ensures (λ r, r = repos name) (GetRepositoryID orgName name)
}.
Context {L : StableDirectory}.

#[local] Instance anything_goes : PreOrder (λ _ _ : Res, True).
Proof. by split. Qed.

Lemma ensures_ret {R} (Q : R → Prop) a : Q a → ensures Q (Ret a).
Proof. by intros Ha s _ s' _ _. Qed.
Lemma ensures_bind {A R} (Q1 : A → Prop) (Q : R → Prop) p f : ensures Q1 p → (∀ a, Q1 a → ensures Q (f a)) → ensures Q (bind p f).
Proof.
  intros Hp Hf s Hs. apply guards_bind; [apply _|]. eapply guards_mono; [apply _| |by apply Hp]. intros a s' _ Hs' Ha. by apply Hf.
Qed.
Lemma ensures_mono {R} (Q Q' : R → Prop) p : (∀ r, Q r → Q' r) → ensures Q p → ensures Q' p.
Proof. intros HQ Hp s Hs. eapply guards_mono; [apply _| |by apply Hp]. auto. Qed.

Lemma refreshMaps_ensures : ensures (λ _, True) (refreshMaps orgName).
Proof.
  unfold refreshMaps, loadLookUpMaps. eapply ensures_bind; [apply stable_cleared|]. intros _ _.
  apply (ensures_bind (λ _, True)); [|intros; by apply ensures_ret].
  eapply ensures_bind; [apply stable_apps|]. intros [apps|e] Ha; [|by apply ensures_ret].
  eapply ensures_bind; [apply stable_teams|]. intros [teams|e] Ht; [|by apply ensures_ret].
  eapply ensures_bind; [apply stable_roles|]. intros [roles|e] Hr; [|by apply ensures_ret].
  eapply ensures_bind; [|intros; by apply ensures_ret]. apply stable_set. split; [split|]; simpl; auto. by rewrite (Ha apps).
Qed.

Lemma resolve_workflows_ensures l : ensures (λ r, r = pure_workflows repos l) (resolve_workflows orgName l).
Proof.
  induction l as [|wf l IH]; [by apply ensures_ret|]. simpl. destruct (wf_ResolvedRepositoryID wf).
  - eapply ensures_bind; [apply IH|]. intros [l' e] <-. by apply ensures_ret.
  - eapply ensures_bind; [apply stable_repository|]. intros [id|e] <-; [|by apply ensures_ret].
    eapply ensures_bind; [apply IH|]. intros [l' e] <-. by apply ensures_ret.
Qed.

Lemma doResolveRuleset_ensures rs :
  ensures (λ r, ∃ m, agrees m ∧ r = pure_resolve orgName repos m rs) (doResolveRuleset orgName rs).
Proof.
  unfold doResolveRuleset. eapply ensures_bind; [apply stable_maps|]. intros m Hm. eapply ensures_mono; [intros r Hr; by exists m|].
  unfold pure_resolve. destruct (resolveBypassActors _ _ _) as [actors|e]; [|by apply ensures_ret].
  apply (ensures_bind (λ r, r = pure_names repos (set_BypassActors rs actors))).
  - unfold resolveWorkflowRepositoryNames, pure_names. destruct (ru_Workflows _) as [ws|]; [|by apply ensures_ret].
    eapply ensures_bind; [apply resolve_workflows_ensures|]. intros [l e] <-. by apply ensures_ret.
  - intros [rs1 [e|]] <-; by apply ensures_ret.
Qed.

(** What the directory answers. *)
Definition directory_answer (rs : RulesetSpec) : res RulesetSpec := returned (pure_resolve orgName repos D rs).
Definition directory_reviewers (c : CodeSecurityConfiguration) : res CodeSecurityConfiguration :=
  match csc_SecretScanningDelegatedBypassOptions (csc_Spec c) with
  | None => inl c
  | Some reviewers =>
    match resolve_bypass_reviewers orgName D reviewers with inl l => inl (set_BypassReviewers c l) | inr err => inr err end
  end.

Lemma agreed_answer m rs rs' : agrees m → pure_resolve orgName repos m rs = (rs', None) → pure_resolve orgName repos D rs = (rs', None).
Proof. intros [Ho Ha]. apply pure_resolve_older; [done|]. intros c sc slug _ _ _. by rewrite Ha. Qed.

Lemma ResolveRuleset_ensures rs :
  ensures (λ r, directory_answer rs = r ∨ is_error r) (let! r := IdResolver.ResolveRuleset orgName rs in Ret (returned r)).
Proof.
  apply (ensures_bind (λ r, directory_answer rs = returned r ∨ is_error (returned r))); [|intros r Hr; by apply ensures_ret].
  unfold IdResolver.ResolveRuleset. eapply ensures_bind; [apply doResolveRuleset_ensures|].
  intros [rs1 [e|]] (m & Hm & Hr).
  - eapply ensures_bind; [apply refreshMaps_ensures|]. intros [] _; [|apply ensures_ret; right; by eexists].
    eapply ensures_mono; [|apply doResolveRuleset_ensures]. intros [rs2 [e2|]] (m2 & Hm2 & Hr2); [right; by eexists|left].
    symmetry in Hr, Hr2. apply (agreed_answer m2) in Hr2; [|done].
    destruct (pure_resolve_again orgName repos m D rs rs1 e Hr) as [Herr Hsame]. rewrite Hr2 in Herr, Hsame.
    unfold directory_answer. by rewrite <-Hsame.
  - apply ensures_ret. left. unfold directory_answer. symmetry in Hr. by rewrite (agreed_answer m rs rs1 Hm Hr).
Qed.

Lemma resolve_bypass_reviewer_older m r r' :
  older m D → resolve_bypass_reviewer orgName m r = inl r' → resolve_bypass_reviewer orgName D r = inl r'.
Proof.
  intros Ho. unfold resolve_bypass_reviewer. destruct (br_ReviewerName r) as [name|]; [|done]. repeat case_bool_decide; [..|done].
  - destruct (ResolveTeamSlug orgName m name) as [i|] eqn:E; [|done]. by rewrite (ResolveTeamSlug_older orgName m D _ _ Ho E).
  - destruct (ResolveRoleName orgName m name) as [i|] eqn:E; [|done]. by rewrite (ResolveRoleName_older orgName m D _ _ Ho E).
Qed.

Lemma doResolveCsc_ensures c :
  ensures (λ r, directory_reviewers c = r ∨ is_error r) (doResolveCscBypassReviewers orgName c).
Proof.
  unfold doResolveCscBypassReviewers, directory_reviewers. eapply ensures_bind; [apply stable_maps|]. intros m [Hm _]. apply ensures_ret.
  destruct (csc_SecretScanningDelegatedBypassOptions _) as [l|]; [|by left].
  destruct (resolve_bypass_reviewers orgName m l) as [l'|e] eqn:E; [left|right; by eexists].
  assert (resolve_bypass_reviewers orgName D l = inl l') as ->; [|done].
  revert E. apply try_map_weaken. intros x y. by apply resolve_bypass_reviewer_older.
Qed.

Lemma ResolveCscBypassReviewers_ensures c :
  ensures (λ r, directory_reviewers c = r ∨ is_error r) (IdResolver.ResolveCscBypassReviewers orgName c).
Proof.
  unfold IdResolver.ResolveCscBypassReviewers. eapply ensures_bind; [apply doResolveCsc_ensures|]. intros [r|e] Hr; [by apply ensures_ret|].
  eapply ensures_bind; [apply refreshMaps_ensures|]. intros [] _; [apply doResolveCsc_ensures|apply ensures_ret; right; by eexists].
Qed.

(** A reconciliation that succeeds amid the other one ends as it does alone with the answers of the directory. *)
Lemma rulesets_resolved {V} {AR : RulesetsApi V} (o : MapOrder) features login org s0 v v' :
  J s0 → amidst J (reconcileRulesets (A := shared_rulesets orgName) o features login org) v None v' →
  run (reconcileRulesets (A := answered_rulesets directory_answer) o features login org) v = (None, v').
Proof.
  intros Hs Ha. destruct (reconcileRulesets_follows o orgName J directory_answer) with (features := features) (login := login) (org := org) as [_ H].
  - intros rs. apply (follows_shared J is_error _ _ s0 Hs). apply ResolveRuleset_ensures.
  - destruct (H v None v' Ha); [done|]. by destruct H0.
Qed.
Lemma configurations_resolved {V} {AC : CscApi V} {LA : ListApi V} (o : MapOrder) org slack s0 v v' :
  J s0 → amidst J (reconcileCodeSecurityConfigurations (A := shared_cscs orgName) (LA := shared_lists) o org slack) v None v' →
  run (reconcileCodeSecurityConfigurations (A := answered_cscs directory_reviewers) o org slack) v = (None, v').
Proof.
  intros Hs Ha. destruct (reconcileCodeSecurityConfigurations_follows o orgName J org slack directory_reviewers) as [_ H].
  - intros c. apply (follows_shared J is_error _ _ s0 Hs). apply ResolveCscBypassReviewers_ensures.
  - destruct (H v None v' Ha); [done|]. by destruct H0.
Qed.

(** Every call of the two keeps the invariant. *)
Lemma rulesets_safe {V} {AR : RulesetsApi V} (o : MapOrder) features login org s0 :
  J s0 → safe J (reconcileRulesets (A := shared_rulesets (V := V) orgName) o features login org).
Proof.
  intros Hs. destruct (reconcileRulesets_follows (AR := AR) o orgName J directory_answer) with (features := features) (login := login) (org := org) as [H _]; [|done].
  intros rs. apply (follows_shared J is_error _ _ s0 Hs). apply ResolveRuleset_ensures.
Qed.
Lemma configurations_safe {V} {AC : CscApi V} {LA : ListApi V} (o : MapOrder) org slack s0 :
  J s0 → safe J (reconcileCodeSecurityConfigurations (A := shared_cscs (V := V) orgName) (LA := shared_lists) o org slack).
Proof.
  intros Hs. destruct (reconcileCodeSecurityConfigurations_follows (AC := AC) o orgName J org slack directory_reviewers) as [H _]; [|done].
  intros c. apply (follows_shared J is_error _ _ s0 Hs). apply ResolveCscBypassReviewers_ensures.
Qed.
End Stable.

(** ** A resolver whose maps do not know the teams yet *)
Module ToyShared.
Import ToyResolver.
#[export] Instance shared_api : ResolverApi world := {|
  GetGitHubAppsInstallations _ := Ret (inl apps);
  GetTeamsForOrg _ := listed teams [];
  GetRolesForOrg _ := listed roles roles;
  InvalidateCache := modify (λ w, {| tw_maps := tw_maps w; tw_current := true |});
  GetRepositoryID _ name := Ret (repos_now name);
  getMaps := gets tw_maps;
  setMaps m := modify (λ w, {| tw_maps := m; tw_current := tw_current w |}) |}.

Definition agreed (w : world) : Prop := agrees directory_now (tw_maps w).

#[export] Instance stable : StableDirectory (RS := shared_api) "acme" repos_now directory_now agreed.
Proof.
  split; [intros s _ s' _ Hs'|intros m Hm s _ s' _ Hs'|intros s _ s' _ Hs'..|intros name s _ s' _ Hs']; simpl; try (split_and!; done || (intros; done)); try done.
  - by intros l [= <-].
  - split_and!; [done..|]. intros s'' _ _ l. destruct (tw_current s'); intros [= <-]; [done|apply map_empty_subseteq].
  - split_and!; [done..|]. intros s'' _ _ l. by destruct (tw_current s'); intros [= <-].
Qed.

Definition no_teams : world :=
  {| tw_maps := {| appsBySlug := index_apps apps; teamsBySlug := ∅; rolesByName := index_roles roles |}; tw_current := false |}.
Lemma no_teams_agreed : agreed no_teams.
Proof. split; [split; [done|apply map_empty_subseteq|done]|done]. Qed.
End ToyShared.
