(* ===== verification/Groups.v ===== *)
(** * The reconciliations of a repository and of an organization together

    [RequiredReconciliations] of internal/reconciler/reporec/reconciler.go and orgrec/reconciler.go: which reconciliations
    a resource has, in which groups, under which conditions.  The world is a record of the parts the reconciliations
    work on: each has its own calls, and none writes what another one reads, but for the name of the repository, which
    the first group determines, and for the resolver of names that two reconciliations of an organization share (Shared).
    The executor may therefore run a group in any order (Parallel). *)
From S2P Require Import Prelude GoErrors Conditions Executor ApiTypes RepoRec CustomProps Webhooks RulesetRec RepoLists OrgRec OrgActions Csc IdResolver Parallel Rely Shared SharedResolver.

(** Worlds that agree on an observation. *)
Definition agree {W X} (f : W → X) : relation W := λ w1 w2, f w1 = f w2.
#[export] Instance agree_equivalence {W X} (f : W → X) : Equivalence (agree f).
Proof. split; unfold agree; [by intros ?|by intros ???|]. intros ??? H1 H2. by etrans. Qed.

(** ** Repositories *)
Record RepoWorld (Base Props Hooks Rules Actions Topics Links Keys E : Type) := {
  rw_base : Base; rw_props : Props; rw_hooks : Hooks; rw_rules : Rules; rw_actions : Actions; rw_topics : Topics;
  rw_links : Links; rw_keys : Keys; rw_env : E }.
Arguments rw_base {_ _ _ _ _ _ _ _ _}. Arguments rw_props {_ _ _ _ _ _ _ _ _}. Arguments rw_hooks {_ _ _ _ _ _ _ _ _}.
Arguments rw_rules {_ _ _ _ _ _ _ _ _}. Arguments rw_actions {_ _ _ _ _ _ _ _ _}. Arguments rw_topics {_ _ _ _ _ _ _ _ _}.
Arguments rw_links {_ _ _ _ _ _ _ _ _}. Arguments rw_keys {_ _ _ _ _ _ _ _ _}. Arguments rw_env {_ _ _ _ _ _ _ _ _}.

Section Repository.
Context {Base Props Hooks Rules Actions Topics Links Keys E : Type}.
Context {GP : GoPackages} {DV : DefaultValues} (ToKebab : string → string) (o : MapOrder).
Context {AB : RepoApi Base} {AP : RepoPropertiesApi Props} {AH : WebhookApi Hooks} {AR : RulesetsApi Rules}
  {AA : RepoActionsApi Actions} {AT : TopicApi Topics} {AL : AutolinkApi Links} {AK : DeployKeyApi Keys} {HE : Env E}.
(** [r.GitHub.Resource.Name], which [reconcileRepository] sets. *)
Context (name_of : Base → string).
Let W := RepoWorld Base Props Hooks Rules Actions Topics Links Keys E.

Definition base : Lens W Base := {| view := rw_base; put v w := {|
  rw_base := v; rw_props := rw_props w; rw_hooks := rw_hooks w; rw_rules := rw_rules w; rw_actions := rw_actions w;
  rw_topics := rw_topics w; rw_links := rw_links w; rw_keys := rw_keys w; rw_env := rw_env w |}; view_put v w := eq_refl |}.
Definition props : Lens W Props := {| view := rw_props; put v w := {|
  rw_base := rw_base w; rw_props := v; rw_hooks := rw_hooks w; rw_rules := rw_rules w; rw_actions := rw_actions w;
  rw_topics := rw_topics w; rw_links := rw_links w; rw_keys := rw_keys w; rw_env := rw_env w |}; view_put v w := eq_refl |}.
Definition hooks : Lens W Hooks := {| view := rw_hooks; put v w := {|
  rw_base := rw_base w; rw_props := rw_props w; rw_hooks := v; rw_rules := rw_rules w; rw_actions := rw_actions w;
  rw_topics := rw_topics w; rw_links := rw_links w; rw_keys := rw_keys w; rw_env := rw_env w |}; view_put v w := eq_refl |}.
Definition rules : Lens W Rules := {| view := rw_rules; put v w := {|
  rw_base := rw_base w; rw_props := rw_props w; rw_hooks := rw_hooks w; rw_rules := v; rw_actions := rw_actions w;
  rw_topics := rw_topics w; rw_links := rw_links w; rw_keys := rw_keys w; rw_env := rw_env w |}; view_put v w := eq_refl |}.
Definition actions : Lens W Actions := {| view := rw_actions; put v w := {|
  rw_base := rw_base w; rw_props := rw_props w; rw_hooks := rw_hooks w; rw_rules := rw_rules w; rw_actions := v;
  rw_topics := rw_topics w; rw_links := rw_links w; rw_keys := rw_keys w; rw_env := rw_env w |}; view_put v w := eq_refl |}.
Definition topics : Lens W Topics := {| view := rw_topics; put v w := {|
  rw_base := rw_base w; rw_props := rw_props w; rw_hooks := rw_hooks w; rw_rules := rw_rules w; rw_actions := rw_actions w;
  rw_topics := v; rw_links := rw_links w; rw_keys := rw_keys w; rw_env := rw_env w |}; view_put v w := eq_refl |}.
Definition links : Lens W Links := {| view := rw_links; put v w := {|
  rw_base := rw_base w; rw_props := rw_props w; rw_hooks := rw_hooks w; rw_rules := rw_rules w; rw_actions := rw_actions w;
  rw_topics := rw_topics w; rw_links := v; rw_keys := rw_keys w; rw_env := rw_env w |}; view_put v w := eq_refl |}.
Definition keys : Lens W Keys := {| view := rw_keys; put v w := {|
  rw_base := rw_base w; rw_props := rw_props w; rw_hooks := rw_hooks w; rw_rules := rw_rules w; rw_actions := rw_actions w;
  rw_topics := rw_topics w; rw_links := rw_links w; rw_keys := v; rw_env := rw_env w |}; view_put v w := eq_refl |}.
Definition env : Lens W E := {| view := rw_env; put v w := {|
  rw_base := rw_base w; rw_props := rw_props w; rw_hooks := rw_hooks w; rw_rules := rw_rules w; rw_actions := rw_actions w;
  rw_topics := rw_topics w; rw_links := rw_links w; rw_keys := rw_keys w; rw_env := v |}; view_put v w := eq_refl |}.

(** The surroundings of the executor are a part of their own. *)
#[export] Instance repo_env : Env W := {|
  resource w := resource (rw_env w);
  set_resource r w := put env (set_resource r (rw_env w)) w;
  now w := now (rw_env w);
  apply_status_config w := let '(e, v) := apply_status_config (rw_env w) in (e, put env v w);
  apply_metadata_config ls fs w := let '(e, v) := apply_metadata_config ls fs (rw_env w) in (e, put env v w) |}.

(** A reconciliation that uses the name of the repository. *)
Definition with_name {V A} (l : Lens W V) (p : string → prog V A) : prog W A :=
  let! name := gets (λ w, name_of (rw_base w)) in lift l (p name).

(** [generations] are those of the sub-resources, which the factory determines. *)
Context (features : bool) (generations : option (gmap string Z)) (r : GitHubRepoReconciler).
Let repo := RepoResource r.
Let spec := r_Spec repo.

Definition RepoFirstGroup : list (Reconciliation W) :=
  [{| Function := lift base (reconcileRepository r); rec_Condition := TypeBaseSettingsSynced |}].
Definition RepoSecondGroup : list (Reconciliation W) := [
  {| Function := lift props (reconcileRepoCustomProperties repo); rec_Condition := TypeCustomPropertiesValuesSynced |};
  {| Function := with_name hooks (λ name, reconcileWebhooks o (Owner r) name repo); rec_Condition := TypeWebhooksSynced |};
  {| Function := with_name rules (λ name, reconcileRuleSets o features (Owner r) name repo); rec_Condition := TypeRulesetsSynced |};
  {| Function := lift actions (reconcileRepoActionsSettings repo); rec_Condition := TypeActionsConfigurationSynced |};
  {| Function := lift topics (reconcileTopics ToKebab (ab_Topics (r_About spec))); rec_Condition := TypeTopicsSynced |};
  {| Function := lift links (reconcileAutolinks o (Namespace (r_Meta repo)) (r_AutolinksPresetList spec) (r_Autolinks spec));
     rec_Condition := TypeAutolinksSynced |};
  {| Function := lift keys (reconcileDeployKeys o (r_DeployKeyList spec)); rec_Condition := TypeDeployKeysSynced |} ].

Definition RepositoryReconciler : Reconciler W := {|
  RequiredReconciliations := [RepoFirstGroup; RepoSecondGroup];
  FinalizerName := "repository.github.interhyp.de/finalizer";
  ReconcileDeletion := lift base (ReconcileRepoDeletion r);
  GetAdditionalLabels := {[ "git-hubby.interhyp.de/organization" := r_OrganizationRef spec ]};
  CurrentSubResourceGenerations := generations |}.

(** *** The second group *)

(** The part of each reconciliation of the second group, together with the name, which none of them changes. *)
Definition repo_parts (i : nat) : relation W :=
  match i with
  | 0 => agree (λ w, (name_of (rw_base w), rw_props w)) | 1 => agree (λ w, (name_of (rw_base w), rw_hooks w))
  | 2 => agree (λ w, (name_of (rw_base w), rw_rules w)) | 3 => agree (λ w, (name_of (rw_base w), rw_actions w))
  | 4 => agree (λ w, (name_of (rw_base w), rw_topics w)) | 5 => agree (λ w, (name_of (rw_base w), rw_links w))
  | 6 => agree (λ w, (name_of (rw_base w), rw_keys w)) | _ => agree (λ _, tt)
  end%nat.
#[local] Instance repo_parts_equivalence i : Equivalence (repo_parts i).
Proof. unfold repo_parts. repeat case_match; apply _. Qed.

Ltac solve_parts :=
  unfold repo_parts, agree; intros;
  repeat match goal with |- context [match ?j with O => _ | S _ => _ end] => destruct j end; simpl in *; congruence.

Lemma alike_with_name {V A} i (l : Lens W V) (p : string → prog V A) :
  (∀ w1 w2, repo_parts i w1 w2 → name_of (rw_base w1) = name_of (rw_base w2)) →
  (∀ n, alike repo_parts eq i (lift l (p n)) (lift l (p n))) →
  alike repo_parts eq i (with_name l p) (with_name l p).
Proof.
  intros Hname Hp. simpl. split_and!; [reflexivity|done|]. intros w1 w2 Hw. by rewrite (Hname w1 w2 Hw).
Qed.

Lemma RepoSecondGroup_alike i rec :
  RepoSecondGroup !! i = Some rec → alike repo_parts eq i (Function rec) (Function rec).
Proof.
  intros Hi. unfold RepoSecondGroup in Hi.
  do 7 (destruct i as [|i]; [injection Hi as <-; cbn [Function];
    try (apply alike_with_name; [solve_parts|intros n]); apply alike_lift; solve_parts|]). done.
Qed.

Lemma run_with_name {V A} (l : Lens W V) (p : string → prog V A) w :
  run (with_name l p) w = run (lift l (p (name_of (rw_base w)))) w.
Proof. done. Qed.

(** A run that succeeds without being stopped has reconciled the whole repository, whatever the order in which
    the goroutines of its second group ran: first the repository itself, then with the name this gave it, each other
    part, as if its reconciliation had run alone and successfully on the part as it was before the run. *)
Theorem repository_reconciled scheds w rs w' :
  run (runReconciliations scheds RepositoryReconciler) w = ((rs, None), w') → Forall (λ res, Stop res = None) rs →
  ∃ b, run (reconcileRepository r) (rw_base w) = (None, b) ∧
    run (reconcileRepoCustomProperties repo) (rw_props w) = (None, rw_props w') ∧
    run (reconcileWebhooks o (Owner r) (name_of b) repo) (rw_hooks w) = (None, rw_hooks w') ∧
    run (reconcileRuleSets o features (Owner r) (name_of b) repo) (rw_rules w) = (None, rw_rules w') ∧
    run (reconcileRepoActionsSettings repo) (rw_actions w) = (None, rw_actions w') ∧
    run (reconcileTopics ToKebab (ab_Topics (r_About spec))) (rw_topics w) = (None, rw_topics w') ∧
    run (reconcileAutolinks o (Namespace (r_Meta repo)) (r_AutolinksPresetList spec) (r_Autolinks spec)) (rw_links w)
      = (None, rw_links w') ∧
    run (reconcileDeployKeys o (r_DeployKeyList spec)) (rw_keys w) = (None, rw_keys w').
Proof.
  intros Hrun Hstop. unfold runReconciliations in Hrun. cbn [RequiredReconciliations RepositoryReconciler] in Hrun.
  apply run_groups_clean in Hrun as (grs1 & w1 & Hg1 & Hclean1 & Hrun); [|done].
  apply run_groups_clean in Hrun as (grs2 & w2 & Hg2 & Hclean2 & Hrun); [|done]. injection Hrun as _ <-.
  unfold RepoFirstGroup in Hg1. destruct (single_reconciliation (scheds 0%nat)
    {| Function := lift base (reconcileRepository r); rec_Condition := TypeBaseSettingsSynced |} w) as (res & Hres & Herr).
  rewrite Hg1 in Hres. injection Hres as -> Hw1. cbn [Function] in Herr, Hw1.
  assert (rr_Error res = None) as Hnone by (by apply Forall_cons in Hclean1 as [? _]). rewrite Hnone in Herr.
  destruct (run_lift base (reconcileRepository r) w) as [H1 H2]. rewrite <-Hw1 in H2. rewrite H1 in Herr.
  assert (∀ V A (l : Lens W V) (p : prog Base A) x, (∀ v x, view l (put base v x) = view l x) → view l (run (lift base p) x).2 = view l x) as Hkeep.
  { intros V A l p x Hl. revert x. induction p as [a|B op k IH]; intros x; simpl; [done|].
    destruct (op (rw_base x)) as [b v]. rewrite IH. apply (Hl v). }
  exists (rw_base w1). split.
  { change (run (reconcileRepository r) (view base w) = (None, view base w1)). rewrite H2, Herr. by destruct (run _ (view base w)). }
  pose proof (λ V i rec (l : Lens W V) p, group_part repo_parts (scheds 1%nat) RepoSecondGroup w1 grs2 w2 i rec l p RepoSecondGroup_alike Hg2 Hclean2) as Hpart.
  assert (∀ V (l : Lens W V), (∀ v x, view l (put base v x) = view l x) → view l w1 = view l w) as Hsame.
  { intros V l Hl. rewrite Hw1. by apply Hkeep. }
  pose proof (Hsame _ props) as E0. pose proof (Hsame _ hooks) as E1. pose proof (Hsame _ rules) as E2.
  pose proof (Hsame _ actions) as E3. pose proof (Hsame _ topics) as E4. pose proof (Hsame _ links) as E5.
  pose proof (Hsame _ keys) as E6. cbn [view props hooks rules actions topics links keys] in *.
  rewrite <-E0, <-E1, <-E2, <-E3, <-E4, <-E5, <-E6 by done.
  split_and!; [eapply (Hpart _ 0%nat _ props)|eapply (Hpart _ 1%nat _ hooks)|eapply (Hpart _ 2%nat _ rules)
    |eapply (Hpart _ 3%nat _ actions)|eapply (Hpart _ 4%nat _ topics)|eapply (Hpart _ 5%nat _ links)|eapply (Hpart _ 6%nat _ keys)];
    first [reflexivity|solve_parts].
Qed.
End Repository.

(** ** Organizations *)
Record OrgWorld (Settings Props Rules Cscs Actions Res E : Type) := {
  ow_settings : Settings; ow_props : Props; ow_rules : Rules; ow_cscs : Cscs; ow_actions : Actions; ow_resolver : Res; ow_env : E }.
Arguments ow_settings {_ _ _ _ _ _ _}. Arguments ow_props {_ _ _ _ _ _ _}. Arguments ow_rules {_ _ _ _ _ _ _}.
Arguments ow_cscs {_ _ _ _ _ _ _}. Arguments ow_actions {_ _ _ _ _ _ _}. Arguments ow_resolver {_ _ _ _ _ _ _}.
Arguments ow_env {_ _ _ _ _ _ _}.

Section Organization.
Context {Settings Props Rules Cscs Actions Res E : Type} {DV : DefaultValues} (o : MapOrder) (ko : KeyOrder) (slack : nat).
Context {AS : OrgApi Settings} {AP : OrgPropertiesApi Props} {AR : RulesetsApi Rules} {AC : CscApi Cscs} {LC : ListApi Cscs}
  {AA : ActionsApi Actions} {LA : ListApi Actions} {RS : ResolverApi Res} {HE : Env E}.
Let W := OrgWorld Settings Props Rules Cscs Actions Res E.

Definition org_settings : Lens W Settings := {| view := ow_settings; put v w := {|
  ow_settings := v; ow_props := ow_props w; ow_rules := ow_rules w; ow_cscs := ow_cscs w; ow_actions := ow_actions w;
  ow_resolver := ow_resolver w; ow_env := ow_env w |}; view_put v w := eq_refl |}.
Definition org_props : Lens W Props := {| view := ow_props; put v w := {|
  ow_settings := ow_settings w; ow_props := v; ow_rules := ow_rules w; ow_cscs := ow_cscs w; ow_actions := ow_actions w;
  ow_resolver := ow_resolver w; ow_env := ow_env w |}; view_put v w := eq_refl |}.
(** Rulesets and code security configurations are reconciled with the one resolver of the organization. *)
Program Definition org_rules : Lens W (Rules * Res) := {| view w := (ow_rules w, ow_resolver w); put x w := {|
  ow_settings := ow_settings w; ow_props := ow_props w; ow_rules := x.1; ow_cscs := ow_cscs w; ow_actions := ow_actions w;
  ow_resolver := x.2; ow_env := ow_env w |} |}.
Next Obligation. by intros [v s] w. Qed.
Program Definition org_cscs : Lens W (Cscs * Res) := {| view w := (ow_cscs w, ow_resolver w); put x w := {|
  ow_settings := ow_settings w; ow_props := ow_props w; ow_rules := ow_rules w; ow_cscs := x.1; ow_actions := ow_actions w;
  ow_resolver := x.2; ow_env := ow_env w |} |}.
Next Obligation. by intros [v s] w. Qed.
Definition org_actions : Lens W Actions := {| view := ow_actions; put v w := {|
  ow_settings := ow_settings w; ow_props := ow_props w; ow_rules := ow_rules w; ow_cscs := ow_cscs w; ow_actions := v;
  ow_resolver := ow_resolver w; ow_env := ow_env w |}; view_put v w := eq_refl |}.
Definition org_surroundings : Lens W E := {| view := ow_env; put v w := {|
  ow_settings := ow_settings w; ow_props := ow_props w; ow_rules := ow_rules w; ow_cscs := ow_cscs w; ow_actions := ow_actions w;
  ow_resolver := ow_resolver w; ow_env := v |}; view_put v w := eq_refl |}.
#[export] Instance org_env : Env W := {|
  resource w := resource (ow_env w);
  set_resource r w := put org_surroundings (set_resource r (ow_env w)) w;
  now w := now (ow_env w);
  apply_status_config w := let '(e, v) := apply_status_config (ow_env w) in (e, put org_surroundings v w);
  apply_metadata_config ls fs w := let '(e, v) := apply_metadata_config ls fs (ow_env w) in (e, put org_surroundings v w) |}.

Context (features : bool) (generations : option (gmap string Z)) (org : Organization).

(** [r.NameResolver] is the resolver of the login. *)
Definition org_reconcileRulesets : prog (Rules * Res) (option gerror) :=
  reconcileRulesets (A := shared_rulesets (GetLogin org)) o features (GetLogin org) org.
Definition org_reconcileCscs : prog (Cscs * Res) (option gerror) :=
  reconcileCodeSecurityConfigurations (A := shared_cscs (GetLogin org)) (LA := shared_lists) o org slack.

Definition OrgGroup : list (Reconciliation W) := [
  {| Function := lift org_settings (reconcileOrganization org); rec_Condition := TypeBaseSettingsSynced |};
  {| Function := lift org_props (reconcileOrgCustomProperties org); rec_Condition := TypeCustomPropertyDefinitionsSynced |};
  {| Function := lift org_rules org_reconcileRulesets; rec_Condition := TypeRulesetsSynced |};
  {| Function := lift org_cscs org_reconcileCscs; rec_Condition := TypeCodeSecurityConfigurationsSynced |};
  {| Function := lift org_actions (reconcileOrgActionsSettings ko org); rec_Condition := TypeActionsConfigurationSynced |} ].

(** The deletion lists the cluster, as the reconciliation of the actions does. *)
Definition OrganizationReconciler : Reconciler W := {|
  RequiredReconciliations := [OrgGroup];
  FinalizerName := "organization.github.interhyp.de/finalizer";
  ReconcileDeletion := lift org_actions (ReconcileOrgDeletion org);
  GetAdditionalLabels := {[ "git-hubby.interhyp.de/organization" := GetLogin org ]};
  CurrentSubResourceGenerations := generations |}.

Definition org_parts (i : nat) : relation W :=
  match i with
  | 0 => agree ow_settings | 1 => agree ow_props | 2 => agree ow_rules | 3 => agree ow_cscs | 4 => agree ow_actions
  | _ => agree (λ _, tt)
  end%nat.
#[local] Instance org_parts_equivalence i : Equivalence (org_parts i).
Proof. unfold org_parts. repeat case_match; apply _. Qed.

Ltac solve_org_parts :=
  unfold org_parts, agree; intros;
  repeat match goal with |- context [match ?j with O => _ | S _ => _ end] => destruct j end; simpl in *; congruence.

(** What the two reconciliations may find the resolver in: whatever satisfies an invariant that their calls keep. *)
Section Invariant.
Context (J : Res → Prop) (safe_rules : safe J org_reconcileRulesets) (safe_cscs : safe J org_reconcileCscs).
Let I (w : W) : Prop := J (ow_resolver w).

Lemma OrgGroup_good i rec : OrgGroup !! i = Some rec → good org_parts I i (Function rec).
Proof.
  intros Hi. unfold OrgGroup in Hi.
  do 5 (destruct i as [|i]; [injection Hi as <-; cbn [Function];
    first [eapply good_lift_own; [done|solve_org_parts]
          |apply (good_lift_shared J); [done|done|solve_org_parts|assumption]]|]). done.
Qed.

Lemma OrgGroup_parts sched w rs w' :
  J (ow_resolver w) → run (runReconciliationGroup sched OrgGroup) w = (rs, w') → Forall (λ res, rr_Error res = None) rs →
  run (reconcileOrganization org) (ow_settings w) = (None, ow_settings w') ∧
  run (reconcileOrgCustomProperties org) (ow_props w) = (None, ow_props w') ∧
  amidst J org_reconcileRulesets (ow_rules w) None (ow_rules w') ∧
  amidst J org_reconcileCscs (ow_cscs w) None (ow_cscs w') ∧
  run (reconcileOrgActionsSettings ko org) (ow_actions w) = (None, ow_actions w').
Proof.
  intros HJ Hrun Hclean.
  assert (∀ i rec, OrgGroup !! i = Some rec → amid org_parts I i (Function rec) w None w') as Hamid.
  { intros i rec Hi. destruct (group_amid org_parts I sched OrgGroup w rs w' i rec OrgGroup_good HJ Hrun Hi) as (res & Hres & Ha).
    rewrite Forall_lookup in Hclean. by rewrite (Hclean i res Hres) in Ha. }
  split_and!.
  - eapply (amid_lift_own org_parts I 0 org_settings); [solve_org_parts|exact (Hamid 0%nat _ eq_refl)].
  - eapply (amid_lift_own org_parts I 1 org_props); [solve_org_parts|exact (Hamid 1%nat _ eq_refl)].
  - eapply (amid_lift_shared J org_parts I 2 org_rules); [solve_org_parts|done|exact (Hamid 2%nat _ eq_refl)].
  - eapply (amid_lift_shared J org_parts I 3 org_cscs); [solve_org_parts|done|exact (Hamid 3%nat _ eq_refl)].
  - eapply (amid_lift_own org_parts I 4 org_actions); [solve_org_parts|exact (Hamid 4%nat _ eq_refl)].
Qed.
End Invariant.

(** A run that succeeds without being stopped has reconciled the whole organization, whatever the order in which
    the goroutines of its group ran: every part ends as if its reconciliation had run alone and successfully, but for the
    resolver, which the reconciliations of the rulesets and of the code security configurations may change for each
    other at any time.  If all that the resolver may come to know agrees with one directory, these two also end as if
    they had run alone, with the answers of this directory. *)
Theorem organization_reconciled scheds w rs w' :
  run (runReconciliations scheds OrganizationReconciler) w = ((rs, None), w') → Forall (λ res, Stop res = None) rs →
  run (reconcileOrganization org) (ow_settings w) = (None, ow_settings w') ∧
  run (reconcileOrgCustomProperties org) (ow_props w) = (None, ow_props w') ∧
  run (reconcileOrgActionsSettings ko org) (ow_actions w) = (None, ow_actions w') ∧
  amidst (λ _, True) org_reconcileRulesets (ow_rules w) None (ow_rules w') ∧
  amidst (λ _, True) org_reconcileCscs (ow_cscs w) None (ow_cscs w') ∧
  ∀ repos D J, StableDirectory (GetLogin org) repos D J → J (ow_resolver w) →
    run (reconcileRulesets (A := answered_rulesets (directory_answer (GetLogin org) repos D)) o features (GetLogin org) org)
      (ow_rules w) = (None, ow_rules w') ∧
    run (reconcileCodeSecurityConfigurations (A := answered_cscs (directory_reviewers (GetLogin org) D)) o org slack)
      (ow_cscs w) = (None, ow_cscs w').
Proof.
  intros Hrun Hstop. unfold runReconciliations in Hrun. cbn [RequiredReconciliations OrganizationReconciler] in Hrun.
  apply run_groups_clean in Hrun as (grs & w1 & Hg & Hclean & Hrun); [|done]. injection Hrun as _ <-.
  destruct (OrgGroup_parts (λ _, True) (safe_trivial _) (safe_trivial _) (scheds 0%nat) w grs w1 I Hg Hclean) as (? & ? & ? & ? & ?).
  split_and!; [done..|]. intros repos D J L HJ.
  destruct (OrgGroup_parts J) with (sched := scheds 0%nat) (w := w) (rs := grs) (w' := w1) as (_ & _ & Hr & Hc & _); [..|done|done|done|].
  - by eapply (rulesets_safe (GetLogin org) repos D J).
  - by eapply (configurations_safe (GetLogin org) repos D J).
  - split; [by eapply rulesets_resolved|by eapply configurations_resolved].
Qed.
End Organization.

(** ** Concrete runs *)
Module ToyGroups.
Import ToyProperties ToyWebhooks ToyRulesets ToyActions ToyRepo ToyOrg ToyCsc ToyRepository ToyShared ToyWorld.

Definition repo_world := {|
  rw_base := fresh_org; rw_props := ToyProperties.repo_before; rw_hooks := ToyWebhooks.before; rw_rules := ToyRulesets.before;
  rw_actions := "user"; rw_topics := ["old"]; rw_links := links_before; rw_keys := keys_before; rw_env := start None |}.
Definition repo_reconciler := RepositoryReconciler (Base := ToyRepository.world) (Props := gmap string any) (Hooks := ToyWebhooks.world)
  (Rules := gmap Z RulesetMapper.RepositoryRuleset) (Actions := string) (Topics := list string) (Links := gmap Z gh_Autolink)
  (Keys := gmap Z gh_Key) (E := ToyWorld.world) (AR := ToyRulesets.api) (AA := repo_actions) id default_order tw_name true None
  (reconciler "main" "").
(** An order in which the goroutines of the second group take turns. *)
Definition turns (_ : nat) : list nat := concat (replicate 20 [6; 5; 4; 3; 2; 1; 0]%nat).
Definition repo_run := run (runReconciliations turns repo_reconciler) repo_world.

Definition org_world := {|
  ow_settings := ToyOrg.on_github None; ow_props := ToyProperties.org_before; ow_rules := (∅ : gmap Z RulesetMapper.RepositoryRuleset);
  ow_cscs := ToyCsc.before; ow_actions := ToyActions.before; ow_resolver := no_teams; ow_env := start None |}.
(** A ruleset that a team may bypass. *)
Definition devs_bypass : RulesetSpec := set_BypassActors (ToyRulesets.spec "main" "" "branch")
  [{| ba_ActorID := None; ba_ActorSlug := Some "devs"; ba_ActorType := "Team"; ba_BypassMode := "always" |}].
Definition org_declared : Organization :=
  Samples.org ToyActions.declared [tier] [{| ar_Name := "base"; ar_AttachmentScope := Some "public" |}] [devs_bypass].
Definition org_reconciler := OrganizationReconciler (Settings := gh_Organization) (Props := gmap string gh_CustomProperty)
  (Rules := gmap Z RulesetMapper.RepositoryRuleset) (Cscs := ToyCsc.world) (Actions := ActionsState) (Res := ToyResolver.world) (E := ToyWorld.world)
  (AR := ToyRulesets.api) (RS := shared_api) default_order toy_order 0 true None org_declared.
Definition org_run := run (runReconciliations turns org_reconciler) org_world.
End ToyGroups.

Lemma all_clean rs : forallb (λ res, bool_decide (Stop res = None)) rs = true → Forall (λ res, Stop res = None) rs.
Proof. rewrite forallb_forall, Forall_forall. setoid_rewrite list_elem_of_In. intros H x Hx. by apply H, bool_decide_eq_true in Hx. Qed.

Section Witnesses.
Import ToyGroups ToyProperties ToyWebhooks ToyRulesets ToyActions ToyRepo ToyOrg ToyCsc ToyRepository ToyResolver ToyShared ToyWorld.

Lemma repository_reconciled_witness :
  run (reconcileTopics id []) ["old"] = (None, rw_topics repo_run.2) ∧
  run (reconcileDeployKeys default_order []) keys_before = (None, rw_keys repo_run.2).
Proof.
  destruct (repository_reconciled (AR := ToyRulesets.api) (AA := repo_actions) id default_order tw_name true None (reconciler "main" "")
    turns repo_world repo_run.1.1 repo_run.2) as (b & _ & _ & _ & _ & _ & Ht & _ & Hk).
  - vm_compute. reflexivity.
  - apply all_clean. vm_compute. reflexivity.
  - split; [exact Ht|exact Hk].
Defined.

Lemma organization_reconciled_witness :
  run (reconcileOrgActionsSettings toy_order org_declared) ToyActions.before = (None, ow_actions org_run.2) ∧
  run (reconcileRulesets (A := answered_rulesets (AR := ToyRulesets.api) (directory_answer "acme" repos_now directory_now))
    default_order true "acme" org_declared) ∅ = (None, ow_rules org_run.2).
Proof.
  destruct (organization_reconciled (AR := ToyRulesets.api) (RS := shared_api) default_order toy_order 0 true None org_declared turns org_world
    org_run.1.1 org_run.2) as (_ & _ & Ha & _ & _ & Hr).
  - vm_compute. reflexivity.
  - apply all_clean. vm_compute. reflexivity.
  - split; [exact Ha|]. destruct (Hr repos_now directory_now agreed stable no_teams_agreed) as [Hrules _]. exact Hrules.
Defined.
End Witnesses.
