(* ===== verification/GoStrings.v ===== *)
(** * Parts of Go's strings and strconv packages

    Substring tests, decimal parsing with the range of int64 and decimal formatting, as the client and the
    validation use them. *)
From Stdlib Require Import Ascii.
From stdpp Require Import pretty.
From S2P Require Import Prelude GoErrors.

(** [strings.Contains]. *)
Fixpoint strings_Contains (s substr : string) : bool :=
  String.prefix substr s || match s with EmptyString => false | String _ s => strings_Contains s substr end.

(** [strings.HasSuffix]. *)
Definition strings_HasSuffix (s suffix : string) : bool :=
  let n := (String.length s - String.length suffix)%nat in
  (String.length suffix <=? String.length s)%nat && bool_decide (String.substring n (String.length suffix) s = suffix).

(** [strings.Split] and [strings.SplitSeq] with a separator of one byte. *)
Fixpoint strings_Split (s : string) (sep : ascii) : list string :=
  match s with
  | EmptyString => [""]
  | String c s =>
    let parts := strings_Split s sep in
    if bool_decide (c = sep) then "" :: parts else
    match parts with [] => [String c ""] | part :: parts => String c part :: parts end
  end.

(** [strings.TrimSpace]: the UTF-8 encodings of the runes for which [unicode.IsSpace] holds are cut off at both ends.
    A string has at most one of them as a prefix or a suffix, and then this is its first or last rune. *)
Definition space_runes : list string := (λ l, String.string_of_list_ascii (ascii_of_nat <$> l)) <$>
  [[9]; [10]; [11]; [12]; [13]; [32]; [194; 133]; [194; 160]; [225; 154; 128]; [226; 128; 128]; [226; 128; 129]; [226; 128; 130];
   [226; 128; 131]; [226; 128; 132]; [226; 128; 133]; [226; 128; 134]; [226; 128; 135]; [226; 128; 136]; [226; 128; 137];
   [226; 128; 138]; [226; 128; 168]; [226; 128; 169]; [226; 128; 175]; [226; 129; 159]; [227; 128; 128]]%nat.

Fixpoint strip_prefix (p s : string) : option string :=
  match p, s with
  | EmptyString, _ => Some s
  | String a p, String b s => if bool_decide (a = b) then strip_prefix p s else None
  | String _ _, EmptyString => None
  end.
Fixpoint strip_any (ps : list string) (s : string) : option string :=
  match ps with
  | [] => None
  | p :: ps => match strip_prefix p s with Some s => Some s | None => strip_any ps s end
  end.
(** No more runes can be cut off than the string has bytes. *)
Fixpoint trim_prefixes (ps : list string) (fuel : nat) (s : string) : string :=
  match fuel with
  | O => s
  | S fuel => match strip_any ps s with Some s => trim_prefixes ps fuel s | None => s end
  end.
Definition trim_left (ps : list string) (s : string) : string := trim_prefixes ps (String.length s) s.
Definition reverse_bytes (s : string) : string := String.rev s.
Definition strings_TrimSpace (s : string) : string :=
  reverse_bytes (trim_left (reverse_bytes <$> space_runes) (reverse_bytes (trim_left space_runes s))).

(** ** Decimal numbers *)
Definition digit_value (c : ascii) : option Z :=
  let n := Z.of_nat (nat_of_ascii c) - 48 in if (0 <=? n) && (n <=? 9) then Some n else None.

Fixpoint parse_digits (s : string) (acc : Z) : option Z :=
  match s with
  | EmptyString => Some acc
  | String c s => match digit_value c with Some d => parse_digits s (10 * acc + d) | None => None end
  end.

(** [strconv.ParseInt(s, 10, 64)] and, with 64-bit ints, [strconv.Atoi]. *)
Definition parse_unsigned (s : string) : option Z := if bool_decide (s = "") then None else parse_digits s 0.
Definition split_sign (s : string) : bool * string :=
  match s with
  | String c t => if decide (c = "-"%char) then (true, t) else if decide (c = "+"%char) then (false, t) else (false, s)
  | EmptyString => (false, s)
  end.
Definition ParseInt (s : string) : res Z :=
  let '(negative, digits) := split_sign s in
  match parse_unsigned digits with
  | None => inr (EPlain "invalid syntax")
  | Some n =>
    let z := if negative : bool then - n else n in
    if (min_int64 <=? z) && (z <=? max_int64) then inl z else inr (EPlain "value out of range")
  end.

(** [%d] of an integer. *)
Definition FormatInt (z : Z) : string := pretty z.

Lemma ParseInt_range s z : ParseInt s = inl z → in_int64 z.
Proof.
  unfold ParseInt, in_int64. destruct (split_sign s) as [negative digits]. destruct (parse_unsigned digits) as [n|]; [|done].
  case_match eqn:H; [|done]. intros [= <-]. apply andb_true_iff in H as [?%Z.leb_le ?%Z.leb_le]. lia.
Qed.

Lemma digit_value_pretty d : (d < 10)%N → digit_value (pretty_N_char d) = Some (Z.of_N d).
Proof.
  intros H. assert (d = 0 ∨ d = 1 ∨ d = 2 ∨ d = 3 ∨ d = 4 ∨ d = 5 ∨ d = 6 ∨ d = 7 ∨ d = 8 ∨ d = 9)%N as Hd by lia.
  by repeat destruct Hd as [->|Hd]; [..|subst].
Qed.

Lemma parse_pretty_go x s : (0 < x)%N → parse_digits (pretty_N_go x s) 0 = parse_digits s (Z.of_N x).
Proof.
  revert s. induction (N.lt_wf_0 x) as [x _ IH]. intros s Hx. rewrite pretty_N_go_step by done.
  pose proof (N.div_mod x 10 ltac:(done)) as Hdm. pose proof (N.mod_lt x 10 ltac:(done)) as Hm.
  destruct (decide (x `div` 10 = 0)%N) as [H0|H0].
  - rewrite H0, pretty_N_go_0. simpl. rewrite digit_value_pretty by done. f_equal. lia.
  - rewrite IH; [|apply N.div_lt; lia|lia]. simpl. rewrite digit_value_pretty by done. f_equal. lia.
Qed.

(** What does not start with a sign is parsed as it is. *)
Lemma pretty_N_digits (x : N) : ∃ c s, pretty x = String c s ∧ is_Some (digit_value c).
Proof.
  unfold pretty, pretty_N. case_decide as H; [by exists "0"%char, ""|].
  assert (∀ x s, (0 < x)%N → ∃ c t, pretty_N_go x s = String c t ∧ is_Some (digit_value c)) as Hgo.
  { clear. intros x. induction (N.lt_wf_0 x) as [x _ IH]. intros s Hx. rewrite pretty_N_go_step by done.
    destruct (decide (x `div` 10 = 0)%N) as [H0|H0].
    - rewrite H0, pretty_N_go_0. eexists _, _. split; [done|]. rewrite digit_value_pretty; [done|]. by apply N.mod_lt.
    - apply IH; [by apply N.div_lt|by apply N.neq_0_lt_0]. }
  apply Hgo. lia.
Qed.

Lemma parse_unsigned_pretty (x : N) : parse_unsigned (pretty x) = Some (Z.of_N x).
Proof.
  unfold parse_unsigned. destruct (pretty_N_digits x) as (c & s & Hp & _). rewrite bool_decide_eq_false_2 by (by rewrite Hp).
  unfold pretty, pretty_N. case_decide as H; [by subst|]. rewrite parse_pretty_go; [done|lia].
Qed.

(** Parsing undoes formatting. *)
Lemma ParseInt_FormatInt z : in_int64 z → ParseInt (FormatInt z) = inl z.
Proof.
  intros [H1 H2].
  assert ((min_int64 <=? z) && (z <=? max_int64) = true) as Hr.
  { apply andb_true_iff. by rewrite !Z.leb_le. }
  unfold FormatInt, ParseInt. destruct z as [|p|p]; [done| |].
  - change (pretty (Z.pos p)) with (pretty (N.pos p)). pose proof (parse_unsigned_pretty (N.pos p)) as Hp.
    destruct (pretty_N_digits (N.pos p)) as (c & s & Heq & [d Hd]). rewrite Heq in *. unfold split_sign.
    rewrite decide_False by (by intros ->). rewrite decide_False by (by intros ->). rewrite Hp. cbn [Z.of_N]. by rewrite Hr.
  - change (pretty (Z.neg p)) with (String "-" (pretty (N.pos p))). unfold split_sign. rewrite decide_True by done.
    rewrite parse_unsigned_pretty. change (- Z.of_N (N.pos p)) with (Z.neg p). cbv zeta. by rewrite Hr.
Qed.
