(* ===== verification/ErrorText.v ===== *)
(** * What users read: the texts of errors and conditions

    The [Error] methods of the error types (reporec/error.go, rec_webhooks.go, rec_autolinks.go, orgrec/reconciler.go,
    common/rulesets/resolve.go and collect.go, idresolver/resolver.go, spreading/error.go, stop.go,
    internal/ghclient/factory.go), [ErrorMessage] with the readable form of a 422 response (user_action.go), and the
    messages of the conditions (executor.go).  The texts of errors of other packages are an interface, as are the
    quoting verb and the formats of times and durations. *)
From Stdlib Require Import Ascii.
From S2P Require Import Prelude GoErrors GoStrings Conditions.

(** ** [strings.Join] and [strings.ReplaceAll] *)
Definition strings_Join (l : list string) (sep : string) : string := String.concat sep l.

(** The occurrences of [old], which is not empty, from left to right; a string has fewer than [fuel]. *)
Fixpoint replace_occurrences (fuel : nat) (s old new : string) : string :=
  match fuel with
  | O => s
  | S fuel =>
    match strip_prefix old s with
    | Some rest => new +:+ replace_occurrences fuel rest old new
    | None => match s with EmptyString => EmptyString | String c s => String c (replace_occurrences fuel s old new) end
    end
  end.
Definition strings_ReplaceAll (s old new : string) : string := replace_occurrences (S (String.length s)) s old new.

(** ** Texts *)
Class Texts := {
  quoted : string → string;                     (* %q *)
  time_text : Z → string;                       (* %v of a time.Time *)
  duration_text : Z → string;                   (* %v of a time.Duration *)
  rfc3339 : Z → string;                         (* Format(time.RFC3339) *)
  github_text : ErrorResponse → string;         (* github.ErrorResponse: method, URL, status and a dump *)
  status_text : string → string;                (* of an error of the Kubernetes API *)
  rate_limit_text : option Z → string;          (* github_primary_ratelimit.RateLimitReachedError *)
  accepted_text : string                        (* github.AcceptedError *)
}.

Section Texts.
Context {T : Texts}.

Definition DefaultBranchNotFoundError_Error (owner name branch : string) : string :=
  "default branch " +:+ quoted branch +:+ " does not exist in repository " +:+ owner +:+ "/" +:+ name +:+
  "; push the branch or change spec.defaultBranch".
Definition WebhookConflictError_Error (url : string) (sources : list string) : string :=
  "conflicting webhook definitions for payload URL " +:+ quoted url +:+ " in sources [" +:+ strings_Join sources ", " +:+ "]".
Definition AutolinkConflictError_Error (keyPrefix : string) (sources : list string) : string :=
  "conflicting autolink definitions for keyPrefix " +:+ quoted keyPrefix +:+ " in sources [" +:+ strings_Join sources ", " +:+ "]".
Definition ConflictError_Error (name : string) (sources : list string) : string :=
  "conflicting ruleset definitions for ruleset " +:+ quoted name +:+ " in sources [" +:+ strings_Join sources ", " +:+ "]".
Definition reason_text (r : UnresolvedReason) : string :=
  match r with
  | ReasonParentNotFound => "ParentPresetNotFound"
  | ReasonParentUnavailable => "ParentPresetUnavailable"
  | ReasonExtendsCycle => "ExtendsCycle"
  | ReasonExtendsTooDeep => "ExtendsTooDeep"
  | ReasonNoEnforcement => "EnforcementMissing"
  end.
Definition UnresolvedError_Error (ruleset : string) (chain : list string) (reason : UnresolvedReason) (cause : option string) : string :=
  let msg := "ruleset " +:+ quoted ruleset +:+ " could not be resolved (" +:+ reason_text reason +:+ "), extends chain [" +:+
    strings_Join chain " -> " +:+ "]" in
  match cause with Some text => msg +:+ ": " +:+ text | None => msg end.
Definition StopReconciliation_Error (message : string) : string := "reconciliation stopped: " +:+ message.
Definition RateLimitedError_Error (resetTime : Z) : string := "GitHub rate limit exceeded, reset time: " +:+ time_text resetTime.
Definition RequiresSpreadError_Error (requeueAfter : Z) : string :=
  "GitHub rate limit exceeded, reset time: " +:+ duration_text requeueAfter.

(** [Is] of the two errors that hold a request back: whether the other error has one of the same type in its tree. *)
Definition RateLimitedError_Is (err : gerror) : bool :=
  bool_decide (is_Some (as_type (λ e, match e with ERateLimited reset => Some reset | _ => None end) err)).
Definition RequiresSpreadError_Is (err : gerror) : bool :=
  bool_decide (is_Some (as_type (λ e, match e with ERequiresSpread after => Some after | _ => None end) err)).

(** ** 422 responses *)
Definition detail_of (e : GitHubFieldError) : string :=
  let detail := if bool_decide (fe_message e = "") then fe_code e else fe_message e in
  if bool_decide (fe_field e = "") then detail else fe_field e +:+ ": " +:+ detail.
Definition formatGitHubErrorResponse (ghErr : ErrorResponse) : string :=
  let details := filter (λ d, d ≠ "") (detail_of <$> er_errors ghErr) in
  let msg := if bool_decide (er_message ghErr = "") then "Unprocessable Entity" else er_message ghErr in
  if bool_decide (details = []) then msg else msg +:+ ": " +:+ strings_Join details "; ".

(** The loop of [ErrorMessage] over the 422 responses of a tree. *)
Definition readable_text (msg : string) (ghErrs : list ErrorResponse) : string :=
  foldl (λ msg ghErr, strings_ReplaceAll msg (github_text ghErr) (formatGitHubErrorResponse ghErr)) msg ghErrs.

(** [Error] of every error, and [ErrorMessage]. *)
Fixpoint Error_ (e : gerror) : string :=
  match e with
  | EPlain msg | EInvalidWebhookSecretRef msg | EUnresolvableReference msg _ | EFinalizationFailed msg => msg
  | EWrap ctx e => ctx +:+ ": " +:+ Error_ e
  | EJoin es => strings_Join (Error_ <$> es) (String "010"%char "")
  | EReadable e => readable_text (Error_ e) (unprocessableEntityErrors e)
  | EStop msg => StopReconciliation_Error msg
  | EGitHub r => github_text r
  | EStatus reason => status_text reason
  | ECanceled => "context canceled"
  | EDeadlineExceeded => "context deadline exceeded"
  | ERateLimitReached reset => rate_limit_text reset
  | ERateLimited reset => RateLimitedError_Error reset
  | ERequiresSpread after => RequiresSpreadError_Error after
  | EAccepted => accepted_text
  | EConflict name sources => ConflictError_Error name sources
  | EAutolinkConflict keyPrefix sources => AutolinkConflictError_Error keyPrefix sources
  | EWebhookConflict url _ sources => WebhookConflictError_Error url sources
  | EUnresolved ruleset chain reason err => UnresolvedError_Error ruleset chain reason (match err with Some e => Some (Error_ e) | None => None end)
  | EDefaultBranchNotFound owner name branch => DefaultBranchNotFoundError_Error owner name branch
  | ENewRepositoryUpdate e => Error_ e
  end.
Definition ErrorMessage (err : option gerror) : string :=
  match err with None => "" | Some e => readable_text (Error_ e) (unprocessableEntityErrors e) end.

(** The messages of the conditions. *)
Definition message_text (m : Message) : string :=
  match m with
  | MsgSyncCompleted t => "Sync completed successfully at " +:+ rfc3339 t
  | MsgSyncFailed err t => "Sync failed with " +:+ ErrorMessage (Some err) +:+ " at " +:+ rfc3339 t
  | MsgSyncStopped reason t => "Sync completed at " +:+ rfc3339 t +:+ ": " +:+ reason
  | MsgSkipped reason t => "Skipped at " +:+ rfc3339 t +:+ ": " +:+ reason
  | MsgStarted t => "Started reconciliation at " +:+ rfc3339 t
  | MsgCompletedSkipped reason t => "Reconciliation completed at " +:+ rfc3339 t +:+ ", remaining components skipped: " +:+ reason
  | MsgAllSynced t => "All components synced successfully at " +:+ rfc3339 t
  | MsgUserAction t => "Some components require user action to sync (see their conditions) at " +:+ rfc3339 t
  | MsgFailed t => "Some components failed to sync during reconciliation at " +:+ rfc3339 t
  end.
End Texts.

(** ** Replacing *)
Lemma append_empty (s : string) : s +:+ "" = s.
Proof. induction s as [|c s IH]; [done|]. change (String c (s +:+ "") = String c s). by rewrite IH. Qed.
Lemma strip_prefix_app p s : strip_prefix p (p +:+ s) = Some s.
Proof.
  induction p as [|c p IH]; [done|]. change (String c p +:+ s) with (String c (p +:+ s)). cbn [strip_prefix].
  by rewrite bool_decide_eq_true_2.
Qed.

Lemma append_assoc (s1 s2 s3 : string) : (s1 +:+ s2) +:+ s3 = s1 +:+ s2 +:+ s3.
Proof. induction s1 as [|c s IH]; [done|]. change (String c ((s +:+ s2) +:+ s3) = String c (s +:+ s2 +:+ s3)). by rewrite IH. Qed.

(** No occurrence of [d] in [s ++ rest] begins in [s]. *)
Fixpoint apart (d s rest : string) : bool :=
  match s with
  | EmptyString => true
  | String _ s' => bool_decide (strip_prefix d (s +:+ rest) = None) && apart d s' rest
  end.
Lemma replace_apart d new rest : ∀ s fuel,
  apart d s rest = true → (String.length (s +:+ rest) < fuel)%nat →
  ∃ fuel', (String.length rest < fuel')%nat ∧ replace_occurrences fuel (s +:+ rest) d new = s +:+ replace_occurrences fuel' rest d new.
Proof.
  induction s as [|c s IH]; intros fuel Ha Hlen; [by exists fuel|]. destruct fuel as [|fuel]; [lia|].
  apply andb_true_iff in Ha as [Hhere%bool_decide_eq_true Ha]. change (String c s +:+ rest) with (String c (s +:+ rest)) in *.
  simpl in Hlen. destruct (IH fuel Ha) as (fuel' & Hf & Heq); [lia|]. exists fuel'. split; [done|].
  cbn [replace_occurrences]. rewrite Hhere, Heq. done.
Qed.
Lemma replace_here d new rest fuel : d ≠ "" → (String.length (d +:+ rest) < fuel)%nat →
  ∃ fuel', (String.length rest < fuel')%nat ∧ replace_occurrences fuel (d +:+ rest) d new = new +:+ replace_occurrences fuel' rest d new.
Proof.
  intros Hne Hlen. destruct fuel as [|fuel]; [lia|]. exists fuel. split.
  - destruct d as [|c d]; [done|]. clear Hne. change (String c d +:+ rest) with (String c (d +:+ rest)) in Hlen. simpl in Hlen.
    assert (String.length rest ≤ String.length (d +:+ rest))%nat; [|lia].
    clear. induction d as [|c d IH]; [done|]. change (String c d +:+ rest) with (String c (d +:+ rest)). simpl. lia.
  - cbn [replace_occurrences]. by rewrite strip_prefix_app.
Qed.

(** ** The message a user reads *)
#[export] Instance GitHubFieldError_eq_dec : EqDecision GitHubFieldError.
Proof. solve_decision. Defined.
#[export] Instance ErrorResponse_eq_dec : EqDecision ErrorResponse.
Proof. solve_decision. Defined.

Section Readable.
Context {T : Texts}.

(** The text of an error as a list: what the operator says, and the 422 responses. *)
Definition token : Type := string + ErrorResponse.
Fixpoint join_tokens (sep : string) (l : list (list token)) : list token :=
  match l with
  | [] => []
  | [x] => x
  | x :: l => x ++ inl sep :: join_tokens sep l
  end.
Fixpoint tokens (e : gerror) : list token :=
  match e with
  | EWrap ctx e => inl (ctx +:+ ": ") :: tokens e
  | EJoin es => join_tokens (String "010"%char "") (tokens <$> es)
  | EGitHub r => if isUnprocessableEntity r then [inr r] else [inl (github_text r)]
  | ENewRepositoryUpdate e => tokens e
  | EUnresolved ruleset chain reason (Some e) => inl (UnresolvedError_Error ruleset chain reason (Some "")) :: tokens e
  | _ => [inl (Error_ e)]
  end.

(** The text, with the responses written by [f]. *)
Definition text_of (f : ErrorResponse → string) (l : list token) : string :=
  foldr (λ t text, match t with inl s => s | inr r => f r end +:+ text) "" l.

Lemma text_of_app f l1 l2 : text_of f (l1 ++ l2) = text_of f l1 +:+ text_of f l2.
Proof.
  unfold text_of. rewrite foldr_app. induction l1 as [|t l1 IH]; [done|]. cbn [foldr]. by rewrite IH, append_assoc.
Qed.

Lemma text_of_cons f t l : text_of f (t :: l) = text_of f [t] +:+ text_of f l.
Proof. apply (text_of_app f [t] l). Qed.
Lemma text_of_one f t : text_of f [t] = match t with inl s => s | inr r => f r end.
Proof. apply append_empty. Qed.

(** With the raw dumps it is the text of the error. *)
Lemma tokens_text e : text_of github_text (tokens e) = Error_ e.
Proof.
  induction e as [e IH] using gerror_tree_ind.
  destruct e as [| | es | | | | | | | | | | | | | | | n c r [e|] | | | |]; try (apply append_empty); cbn [unwrap] in IH.
  - rewrite Forall_singleton in IH. cbn [tokens text_of foldr Error_]. fold (text_of github_text (tokens e)).
    by rewrite IH, append_assoc.
  - cbn [tokens Error_]. unfold strings_Join. induction es as [|e es IHes]; [done|]. apply Forall_cons in IH as [He IH]. specialize (IHes IH).
    destruct es as [|e' es]; [exact He|]. cbn [fmap list_fmap join_tokens String.concat] in *. rewrite text_of_app, He. cbn [text_of foldr].
    f_equal. f_equal. exact IHes.
  - cbn [tokens Error_]. destruct (isUnprocessableEntity r); apply append_empty.
  - rewrite Forall_singleton in IH. cbn [tokens text_of foldr Error_]. fold (text_of github_text (tokens e)). rewrite IH.
    unfold UnresolvedError_Error. by rewrite !append_assoc.
  - rewrite Forall_singleton in IH. exact IH.
Qed.

Lemma tokens_responses e r : inr r ∈ tokens e → r ∈ unprocessableEntityErrors e.
Proof.
  induction e as [e IH] using gerror_tree_ind.
  destruct e as [| | es | | | | | | | | | | | | | | | n c rs [e|] | | | |]; cbn [unwrap tokens unprocessableEntityErrors] in *;
    try (intros [=]%list_elem_of_singleton; fail).
  - rewrite Forall_singleton in IH. rewrite elem_of_cons. intros [[=]|H]. by apply IH.
  - induction es as [|e es IHes]; [by intros ?%elem_of_nil|]. apply Forall_cons in IH as [He IH]. specialize (IHes IH).
    cbn [flat_map]. rewrite elem_of_app. destruct es as [|e' es]; [left; by apply He|]. cbn [fmap list_fmap join_tokens] in *.
    rewrite elem_of_app, elem_of_cons. intros [H|[[=]|H]]; [left; by apply He|right; by apply IHes].
  - destruct (isUnprocessableEntity _); [|by intros [=]%list_elem_of_singleton]. intros [= ->]%list_elem_of_singleton. left.
  - rewrite Forall_singleton in IH. rewrite elem_of_cons. intros [[=]|H]. by apply IH.
  - rewrite Forall_singleton in IH. exact IH.
Qed.

(** The dump of [r] occurs only where [r] is written. *)
Fixpoint isolated (r : ErrorResponse) (l : list token) : bool :=
  match l with
  | [] => true
  | t :: l => (bool_decide (t = inr r) || apart (github_text r) (text_of github_text [t]) (text_of github_text l)) && isolated r l
  end.
Definition write (r : ErrorResponse) (l : list token) : list token :=
  (λ t, if decide (t = inr r) then inl (formatGitHubErrorResponse r) else t) <$> l.
(** The same for a list of responses, each after the ones before it have been written readably. *)
Fixpoint dumps_apart (l : list token) (rs : list ErrorResponse) : bool :=
  match rs with
  | [] => true
  | r :: rs => negb (bool_decide (github_text r = "")) && isolated r l && dumps_apart (write r l) rs
  end.

Lemma replace_isolated r : github_text r ≠ "" → ∀ l fuel,
  isolated r l = true → (String.length (text_of github_text l) < fuel)%nat →
  replace_occurrences fuel (text_of github_text l) (github_text r) (formatGitHubErrorResponse r) = text_of github_text (write r l).
Proof.
  intros Hne. induction l as [|t l IH]; intros fuel Hl Hlen.
  { destruct fuel; [done|]. simpl. by destruct (github_text r). }
  apply andb_true_iff in Hl as [Ht Hl]. rewrite (text_of_cons _ t l) in Hlen. rewrite (text_of_cons _ t l).
  assert (write r (t :: l) = (if decide (t = inr r) then inl (formatGitHubErrorResponse r) else t) :: write r l) as -> by done.
  rewrite (text_of_cons _ _ (write r l)). destruct (decide (t = inr r)) as [->|Hneq].
  - rewrite !text_of_one in *.
    destruct (replace_here (github_text r) (formatGitHubErrorResponse r) (text_of github_text l) fuel Hne Hlen) as (fuel' & Hf & ->). by rewrite IH.
  - rewrite bool_decide_eq_false_2 in Ht by done.
    destruct (replace_apart _ (formatGitHubErrorResponse r) _ _ fuel Ht Hlen) as (fuel' & Hf & ->). by rewrite IH.
Qed.

Lemma readable_isolated rs : ∀ l, dumps_apart l rs = true →
  readable_text (text_of github_text l) rs =
    text_of github_text ((λ t, match t with inr r => if decide (r ∈ rs) then inl (formatGitHubErrorResponse r) else t | inl _ => t end) <$> l).
Proof.
  induction rs as [|r rs IH]; intros l Hl.
  { cbn [readable_text foldl]. f_equal. induction l as [|[text|r] l IH]; [done|..]; cbn [fmap list_fmap]; f_equal; by apply IH. }
  apply andb_true_iff in Hl as [[Hne%negb_true_iff%bool_decide_eq_false Hi]%andb_true_iff Hl]. cbn [readable_text foldl].
  unfold strings_ReplaceAll at 2. rewrite replace_isolated by (done || lia). fold (readable_text (text_of github_text (write r l)) rs).
  rewrite IH by done. unfold write. rewrite <-list_fmap_compose. f_equal. apply list_fmap_ext. intros _ [text|r'] _; [done|].
  cbn [compose]. destruct (decide (inr r' = inr r)) as [[= ->]|Hn]; [by rewrite decide_True by left|].
  destruct (decide (r' ∈ rs)); [by rewrite decide_True by by right|]. rewrite decide_False; [done|]. intros [->|?]%elem_of_cons; done.
Qed.

(** C39: what a user reads about an error, whatever tree of wrapped and joined errors it is.  Its text is made of what
    the operator says and of the dumps of the 422 responses in it; its message is the same text with GitHub's own
    words, the message and the validation errors of the response, in the place of every dump, also of those that occur
    more than once, provided that no dump is empty and none occurs by chance anywhere else in the text.  The error that a
    run returns reads as what its conditions say. *)
Theorem readable_messages e :
  Error_ e = text_of github_text (tokens e) ∧
  (dumps_apart (tokens e) (unprocessableEntityErrors e) = true →
    ErrorMessage (Some e) = text_of formatGitHubErrorResponse (tokens e)) ∧
  Error_ (withReadableMessage e) = ErrorMessage (Some e).
Proof.
  split_and!.
  - symmetry. apply tokens_text.
  - intros Hd. unfold ErrorMessage. rewrite <-tokens_text, readable_isolated by done.
    pose proof (tokens_responses e) as Hr. clear Hd. revert Hr. generalize (unprocessableEntityErrors e). intros rs.
    induction (tokens e) as [|[text|r] l IH]; intros Hr; [done|..]; cbn [fmap list_fmap text_of foldr].
    + f_equal. apply IH. intros r Hl. apply Hr. by right.
    + rewrite decide_True by (apply Hr; left). f_equal. apply IH. intros r' Hl. apply Hr. by right.
  - unfold withReadableMessage, ErrorMessage. by destruct (unprocessableEntityErrors e) eqn:E; cbn [Error_]; rewrite ?E.
Qed.
End Readable.

(** ** A concrete response: the example of the comment of [ErrorMessage] *)
Module ToyTexts.
#[export] Instance texts : Texts := {|
  quoted s := "'" +:+ s +:+ "'"; time_text _ := "noon"; duration_text _ := "5m0s"; rfc3339 _ := "12:00";
  github_text r := "PATCH https://api.github.com/repos/acme/app: 422 " +:+ er_message r +:+ " [{Resource:Repository}]";
  status_text reason := reason; rate_limit_text _ := "limit"; accepted_text := "scheduled" |}.
Definition rejected : ErrorResponse := {| er_status := Some 422; er_message := "Validation Failed";
  er_errors := [{| fe_field := "default_branch"; fe_code := "invalid"; fe_message := "Cannot update default branch for an empty repository" |}] |}.
End ToyTexts.

(** What a run returns: the wrapper joins the error of the package with that of the response, and the run joins the
    errors of its reconciliations. *)
Definition returned : gerror :=
  EJoin [EWrap "failed to update repository" (EJoin [EGitHub ToyTexts.rejected; EGitHub ToyTexts.rejected]); EPlain "boom"].

Lemma readable_messages_witness :
  ErrorMessage (T := ToyTexts.texts) (Some returned) =
    let line := "Validation Failed: default_branch: Cannot update default branch for an empty repository" in
    let newline := String "010"%char "" in
    "failed to update repository: " +:+ line +:+ newline +:+ line +:+ newline +:+ "boom".
Proof.
  destruct (readable_messages (T := ToyTexts.texts) returned) as (_ & H & _).
  rewrite H; [vm_compute; reflexivity|vm_compute; reflexivity].
Defined.
