(* ===== verification/Transport.v ===== *)
(** * The HTTP transport of the GitHub client

    internal/ghclient/ratelimit_tracker.go, retry.go and transport.go: recording the rate limit headers of every
    response, which failed attempts are tried again, and the authentication that discards a rejected installation
    token.  The retrying transport itself (rehttp) and the transport that fetches a token and adds it to a request
    (ghinstallation) are parameters. *)
From S2P Require Import Prelude GoErrors GoStrings Config RateLimit Conditions Executor Parallel Rely.

(** What the transport reads of [http.Request] and [http.Response].  [rq_Body] is [None] for no body ([nil] or
    [http.NoBody]); [rq_GetBody] is [None] for a nil function, else its result. *)
Record Request := {
  rq_Method : string; rq_Path : string; rq_Body : option string; rq_GetBody : option (res string);
  rq_RetryableCodes : list Z (* of the context, see [WithRetryableStatusCodes] *) }.
Record Response := { rs_StatusCode : Z; rs_Header : gmap string string }.
Definition Header_Get (r : Response) (key : string) : string := WithDefault (rs_Header r !! key) "".

(** ** ratelimit_tracker.go *)
Definition parseRateLimitIntHeader (s : string) : Z :=
  if bool_decide (s = "") then -1 else match ParseInt s with inl v => v | inr _ => -1 end.
Definition parseRateLimitInt64Header (s : string) : Z :=
  if bool_decide (s = "") then 0 else match ParseInt s with inl v => v | inr _ => 0 end.

(** What [RoundTrip] does with the registry for a response. *)
Definition record_headers (orgLogin : string) (appID : Z) (req : Request) (resp : Response) (now : Z) (r : Registry) : Registry :=
  let remaining := parseRateLimitIntHeader (Header_Get resp "X-RateLimit-Remaining") in
  let limit := parseRateLimitIntHeader (Header_Get resp "X-RateLimit-Limit") in
  let resetEpoch := parseRateLimitInt64Header (Header_Get resp "X-RateLimit-Reset") in
  if (0 <=? remaining) && (0 <? limit) && (0 <? resetEpoch) then
    Update r orgLogin (ClassifyRequest (rq_Path req) (Header_Get resp "X-RateLimit-Resource"))
      remaining limit (resetEpoch * Second) appID now
  else r.

Section Tracker.
Context {W : Type} (registry : Lens W Registry) (clock : W → Z) (orgLogin : string) (appID : Z).
Context (inner_RoundTrip : Request → prog W (res (option Response))).

Definition tracker_RoundTrip (req : Request) : prog W (res (option Response)) :=
  let! resp := inner_RoundTrip req in
  match resp with
  | inr err => Ret (inr err)
  | inl None => Ret (inl None)
  | inl (Some resp) =>
    let! _ := modify (λ w, put registry (record_headers orgLogin appID req resp (clock w) (view registry w)) w) in
    Ret (inl (Some resp))
  end.
End Tracker.

(** ** retry.go *)
Record Attempt := {
  at_Index : Z; at_Request : option Request; at_Response : option Response; at_Error : option gerror }.

(** [rehttp.RetryMaxRetries] and [rehttp.RetryStatusInterval], and what is asked of transport errors: whether
    [errors.Is] finds [io.EOF], [io.ErrUnexpectedEOF], [ECONNRESET] or [EPIPE], and their text. *)
Class TransportPackages := {
  RetryMaxRetries : Z → Attempt → bool;
  RetryStatusInterval : Z → Z → Attempt → bool;
  is_connection_error : gerror → bool;
  error_text : gerror → string
}.

Definition retryByContextCodes (att : Attempt) : bool :=
  match at_Response att, at_Request att with
  | Some resp, Some req => bool_decide (rs_StatusCode resp ∈ rq_RetryableCodes req)
  | _, _ => false
  end.

Definition transportRetryMaxRetries : Z := 3.

Definition isSafeToRetry (req : Request) : bool :=
  if bool_decide (rq_Method req = "POST") && strings_HasSuffix (rq_Path req) "/access_tokens" then true
  else if bool_decide (is_Some (rq_Body req)) then false
  else bool_decide (rq_Method req ∈ ["GET"; "HEAD"; "OPTIONS"]).

Section Retry.
Context {P : TransportPackages}.

Definition transient_texts : list string :=
  ["PROTOCOL_ERROR"; "GOAWAY"; "REFUSED_STREAM"; "connection reset by peer"; "http2: server sent"; "http2: client conn"].

Definition isTransientTransportError (err : option gerror) : bool :=
  match err with
  | None => false
  | Some err =>
    if errors_is (λ e, match e with ECanceled => true | _ => false end) err ||
       errors_is (λ e, match e with EDeadlineExceeded => true | _ => false end) err then false
    else if is_connection_error err then true
    else existsb (λ s, strings_Contains (error_text err) s) transient_texts
  end.

Definition retryOnTransportError (att : Attempt) : bool :=
  match at_Error att, at_Request att with
  | Some err, Some req =>
    if negb (RetryMaxRetries transportRetryMaxRetries att) then false
    else if negb (isTransientTransportError (Some err)) then false
    else isSafeToRetry req
  | _, _ => false
  end.

(** The retry function of the client (factory.go): any of two reasons, and at most five times. *)
Definition client_retryFn (att : Attempt) : bool :=
  (RetryStatusInterval 500 600 att || retryByContextCodes att) && RetryMaxRetries 5 att.
End Retry.

(** ** transport.go *)
Definition replayableRequest (req : Request) : option Request :=
  match rq_Body req with
  | None => Some req
  | Some _ =>
    match rq_GetBody req with
    | Some (inl body) => Some {| rq_Method := rq_Method req; rq_Path := rq_Path req; rq_Body := Some body;
                                 rq_GetBody := rq_GetBody req; rq_RetryableCodes := rq_RetryableCodes req |}
    | _ => None
    end
  end.

(** [AuthorizeGitHubAccessOptions].  An installation transport is a pointer, here the number of its allocation:
    a new one has no token yet and fetches its own. *)
Record Authorization := { resilient : bool; installation : option nat; allocated : nat }.

Definition set_installation (i : option nat) (a : Authorization) : Authorization :=
  {| resilient := resilient a; installation := i; allocated := allocated a |}.
Definition allocate (a : Authorization) : nat * Authorization :=
  (allocated a, {| resilient := resilient a; installation := installation a; allocated := S (allocated a) |}).

Section Auth.
Context {W : Type} (auth : Lens W Authorization).
(** The round trip of an installation transport; a call without an error has a response. *)
Context (installation_RoundTrip : nat → Request → prog W (res Response)).

Definition newInstallationTransport : prog W nat :=
  call (λ w, let '(i, a) := allocate (view auth w) in (i, put auth a w)).

(** Both under the mutex. *)
Definition currentInstallation : prog W nat :=
  call (λ w,
    match installation (view auth w) with
    | Some i => (i, w)
    | None => let '(i, a) := allocate (view auth w) in (i, put auth (set_installation (Some i) a) w)
    end).
Definition invalidate (rejected : nat) : prog W unit :=
  modify (λ w,
    if bool_decide (installation (view auth w) = Some rejected) then put auth (set_installation None (view auth w)) w
    else w).

Definition RoundTrip (req : Request) : prog W (res Response) :=
  let! is_resilient := gets (λ w, resilient (view auth w)) in
  if negb is_resilient then
    let! fresh := newInstallationTransport in
    installation_RoundTrip fresh req
  else
    let! inst := currentInstallation in
    let! resp := installation_RoundTrip inst req in
    match resp with
    | inr err => Ret (inr err)
    | inl resp =>
      if negb (rs_StatusCode resp =? 401) then Ret (inl resp)
      else
        let! _ := invalidate inst in
        match replayableRequest req with
        | None => Ret (inl resp)
        | Some replay =>
          let! current := currentInstallation in
          installation_RoundTrip current replay
        end
    end.
End Auth.

(** ** Recorded headers stall an organization *)
Section TrackerSpec.
Context {W : Type} (registry : Lens W Registry) (clock : W → Z) (orgLogin : string) (appID : Z).
Context (inner_RoundTrip : Request → prog W (res (option Response))).

(** A response whose rate limit headers hold the numbers [remaining], [limit] and [reset] (in seconds). *)
Definition has_headers (resp : Response) (remaining limit reset : Z) : Prop :=
  Header_Get resp "X-RateLimit-Remaining" = FormatInt remaining ∧
  Header_Get resp "X-RateLimit-Limit" = FormatInt limit ∧
  Header_Get resp "X-RateLimit-Reset" = FormatInt reset.

Lemma FormatInt_nonempty z : FormatInt z ≠ "".
Proof.
  unfold FormatInt. destruct z as [|p|p]; [done| |done]. change (pretty (Z.pos p)) with (pretty (N.pos p)).
  by destruct (pretty_N_digits (N.pos p)) as (c & s & -> & _).
Qed.

Lemma parse_headers resp remaining limit reset :
  in_int64 remaining → in_int64 limit → in_int64 reset → has_headers resp remaining limit reset →
  parseRateLimitIntHeader (Header_Get resp "X-RateLimit-Remaining") = remaining ∧
  parseRateLimitIntHeader (Header_Get resp "X-RateLimit-Limit") = limit ∧
  parseRateLimitInt64Header (Header_Get resp "X-RateLimit-Reset") = reset.
Proof.
  intros H1 H2 H3 (-> & -> & ->). unfold parseRateLimitIntHeader, parseRateLimitInt64Header.
  rewrite !bool_decide_eq_false_2 by apply FormatInt_nonempty. by rewrite !ParseInt_FormatInt.
Qed.

Lemma record_headers_update org app req resp now r remaining limit reset :
  in_int64 remaining → in_int64 limit → in_int64 reset → has_headers resp remaining limit reset →
  0 ≤ remaining → 0 < limit → 0 < reset →
  record_headers org app req resp now r =
    Update r org (ClassifyRequest (rq_Path req) (Header_Get resp "X-RateLimit-Resource")) remaining limit (reset * Second) app now.
Proof.
  intros Hr Hl He Hh H1 H2 H3. unfold record_headers. destruct (parse_headers _ _ _ _ Hr Hl He Hh) as (-> & -> & ->).
  by rewrite (proj2 (Z.leb_le 0 remaining)), (proj2 (Z.ltb_lt 0 limit)), (proj2 (Z.ltb_lt 0 reset)).
Qed.

(** The headers of a response close the organization for everyone: when a response says that fewer requests
    remain in a category than its threshold, then from then on, until its reset time and the grace period have
    passed, the registry stalls the organization, whatever else it recorded before; and the response is passed on. *)
Theorem exhausted_quota_stalls req w resp w' remaining limit reset threshold now :
  run (tracker_RoundTrip registry clock orgLogin appID inner_RoundTrip req) w = (inl (Some resp), w') →
  in_int64 remaining → in_int64 limit → in_int64 reset → has_headers resp remaining limit reset →
  0 ≤ remaining → 0 < limit → 0 < reset →
  let category := ClassifyRequest (rq_Path req) (Header_Get resp "X-RateLimit-Resource") in
  category ∈ MonitoredCategories →
  CategoryThresholds (reg_config (view registry w')) !! category = Some threshold → remaining < threshold →
  now < reset * Second + rc_ResetGracePeriod (reg_config (view registry w')) →
  (ShouldStall (view registry w') orgLogin [] now).1 = true ∧ (run (inner_RoundTrip req) w).1 = inl (Some resp).
Proof.
  intros Hrun Hr Hl He Hh H1 H2 H3 category Hm Hthr Hlt Hnow. unfold tracker_RoundTrip in Hrun. rewrite run_bind in Hrun.
  destruct (run (inner_RoundTrip req) w) as [[[resp'|]|err] w1]; try done. rewrite run_bind, run_modify in Hrun. cbn [run] in Hrun.
  injection Hrun as -> <-. split; [|done]. rewrite view_put in *.
  rewrite (record_headers_update orgLogin appID req resp (clock w1) _ remaining limit reset) in * by done.
  fold category in Hthr, Hnow |- *. set (r := Update _ _ _ _ _ _ _ _) in *.
  pose proof (Update_lookup (view registry w1) orgLogin category remaining limit (reset * Second) appID (clock w1) orgLogin category) as Hu.
  rewrite decide_True in Hu by done. fold r in Hu. unfold GetCategoryState in Hu.
  destruct (states r !! orgLogin) as [s|] eqn:Hs; [|done]. cbn in Hu.
  eapply blocking_stalls; [exact Hs|exact Hm|]. exists threshold. eexists. split_and!; [done|exact Hu|done|reflexivity|].
  simpl. apply sat64_pos. lia.
Qed.
End TrackerSpec.

(** ** Only safe requests are retried *)
Section RetrySpec.
Context {P : TransportPackages}.
(** What [rehttp.RetryMaxRetries] documents: the index of the attempt is below the limit. *)
Hypothesis RetryMaxRetries_index : ∀ n att, RetryMaxRetries n att = (at_Index att <? n).

(** Below the authentication a request is sent again only when that cannot do anything twice: it has no body
    and reads, or it asks for an installation token; the failure is one of the connection and not a cancellation,
    and at most three times.  The client itself tries again at most five times. *)
Theorem retries_are_safe att :
  (retryOnTransportError att = true ↔
    ∃ err req, at_Error att = Some err ∧ at_Request att = Some req ∧ at_Index att < 3 ∧
      isTransientTransportError (Some err) = true ∧
      ((rq_Method req = "POST" ∧ strings_HasSuffix (rq_Path req) "/access_tokens" = true) ∨
       (rq_Body req = None ∧ rq_Method req ∈ ["GET"; "HEAD"; "OPTIONS"]))) ∧
  (∀ err, at_Error att = Some err → retryOnTransportError att = true →
    ECanceled ∉ nodes err ∧ EDeadlineExceeded ∉ nodes err) ∧
  (client_retryFn att = true → at_Index att < 5).
Proof.
  split_and!.
  - unfold retryOnTransportError. rewrite RetryMaxRetries_index. split.
    + destruct (at_Error att) as [err|], (at_Request att) as [req|]; try done. intros H. exists err, req.
      destruct (Z.ltb_spec (at_Index att) transportRetryMaxRetries); [|done]. cbn [negb] in H.
      destruct (isTransientTransportError (Some err)); [|done]. cbn [negb] in H. split_and!; [done..|].
      unfold isSafeToRetry in H. destruct (_ && _) eqn:Ht.
      * left. by apply andb_true_iff in Ht as [?%bool_decide_eq_true ?].
      * right. destruct (bool_decide (is_Some _)) eqn:Hb; [done|]. apply bool_decide_eq_false in Hb.
        apply bool_decide_eq_true in H. by rewrite eq_None_not_Some.
    + intros (err & req & -> & -> & Hi & -> & Hs). destruct (Z.ltb_spec (at_Index att) transportRetryMaxRetries); [|unfold transportRetryMaxRetries in *; lia].
      cbn [negb]. unfold isSafeToRetry. destruct Hs as [[Hp ->]|[-> Hm]]; [by rewrite bool_decide_eq_true_2|].
      destruct (_ && _); [done|]. rewrite bool_decide_eq_false_2 by (by intros []). by rewrite bool_decide_eq_true_2.
  - intros err He Hr. unfold retryOnTransportError in Hr. rewrite He in Hr. destruct (at_Request att); [|done].
    destruct (RetryMaxRetries _ _); [|done]. cbn [negb] in Hr. unfold isTransientTransportError, errors_is in Hr.
    assert (∀ e (p : gerror → bool), p e = true → e ∈ nodes err →
      bool_decide (is_Some (as_type (λ e, if p e then Some tt else None) err)) = true) as Hfind.
    { clear Hr. intros e p Hp Hin. apply bool_decide_eq_true.
      destruct (as_type (λ e, if p e then Some tt else None) err) eqn:Ha; [eauto|].
      apply as_type_None in Ha. rewrite Forall_forall in Ha. specialize (Ha e Hin). simpl in Ha. by rewrite Hp in Ha. }
    split; intros Hin.
    + rewrite (Hfind ECanceled (λ e, match e with ECanceled => true | _ => false end) eq_refl Hin) in Hr. done.
    + rewrite (Hfind EDeadlineExceeded (λ e, match e with EDeadlineExceeded => true | _ => false end) eq_refl Hin), orb_true_r in Hr. done.
  - unfold client_retryFn. rewrite RetryMaxRetries_index. intros [_ H]%andb_true_iff. by apply Z.ltb_lt.
Qed.
End RetrySpec.

(** ** A rejected token is not used again *)
Section AuthSpec.
Context {W : Type} (auth : Lens W Authorization) (send : nat → Request → W → res Response * W).
(** Round trips do not touch the field; [sent] lists them, the last one first. *)
Context (sent : W → list (nat * Request * res Response)).
Class SendLaws : Prop := {
  send_auth i req w : view auth (send i req w).2 = view auth w;
  send_log i req w : sent (send i req w).2 = (i, req, (send i req w).1) :: sent w;
  put_log a w : sent (put auth a w) = sent w
}.
Context {L : SendLaws}.

Definition round_trip (req : Request) : prog W (res Response) := RoundTrip auth (λ i req, call (send i req)) req.

(** The current installation transport has been allocated. *)
Definition auth_inv (w : W) : Prop := ∀ i, installation (view auth w) = Some i → (i < allocated (view auth w))%nat.

(** What every thread may do: allocate and send, and never bring back a transport that is not the current one. *)
Definition auth_step (w w' : W) : Prop :=
  (allocated (view auth w) ≤ allocated (view auth w'))%nat ∧
  (∀ i, (i < allocated (view auth w))%nat → installation (view auth w) ≠ Some i → installation (view auth w') ≠ Some i) ∧
  resilient (view auth w') = resilient (view auth w) ∧ sent w `suffix_of` sent w'.
#[local] Instance auth_step_preorder : PreOrder auth_step.
Proof.
  split; [intros w; unfold auth_step; split_and!; done || lia|]. intros w1 w2 w3 (H1 & H1' & H1r & H1s) (H2 & H2' & H2r & H2s). unfold auth_step. split_and!; [lia| |congruence|by etrans].
  intros i Hi Hn. apply H2'; [lia|]. by apply H1'.
Qed.

Lemma same_auth_step w w' : view auth w' = view auth w → sent w `suffix_of` sent w' → auth_inv w → auth_inv w' ∧ auth_step w w'.
Proof. intros He Hs Hi. unfold auth_inv, auth_step. by rewrite He. Qed.
Lemma send_step i req w : auth_inv w → auth_inv (send i req w).2 ∧ auth_step w (send i req w).2.
Proof. apply same_auth_step; [apply send_auth|]. rewrite send_log. by apply suffix_cons_r. Qed.

(** The effect of [currentInstallation]: the current transport, or a new one that becomes it. *)
Lemma currentInstallation_run w :
  auth_inv w →
  let '(i, w') := run (currentInstallation auth) w in
  auth_inv w' ∧ auth_step w w' ∧ installation (view auth w') = Some i ∧ sent w' = sent w ∧
  resilient (view auth w') = resilient (view auth w) ∧
  (installation (view auth w) = Some i ∨ installation (view auth w) = None ∧ i = allocated (view auth w)).
Proof.
  intros HI. unfold currentInstallation. rewrite run_call. destruct (installation (view auth w)) as [i|] eqn:Hi.
  - split_and!; [done|reflexivity|done..|by left].
  - unfold allocate. cbn. unfold auth_inv, auth_step. rewrite view_put. cbn. rewrite put_log.
    split_and!; [intros i [= <-]; lia|lia|intros i ? _ [= <-]; lia|done..|by right].
Qed.

Lemma invalidate_run inst w :
  auth_inv w → (inst < allocated (view auth w))%nat →
  let w' := (run (invalidate auth inst) w).2 in
  auth_inv w' ∧ auth_step w w' ∧ installation (view auth w') ≠ Some inst ∧ sent w' = sent w ∧
  allocated (view auth w') = allocated (view auth w) ∧ resilient (view auth w') = resilient (view auth w) ∧
  (installation (view auth w) = Some inst → installation (view auth w') = None).
Proof.
  intros HI Hlt. unfold invalidate. rewrite run_modify. cbn [snd]. case_bool_decide as Hc.
  - unfold auth_inv, auth_step. rewrite view_put. cbn. rewrite put_log. by split_and!.
  - by split_and!.
Qed.

(** Sent after [w0]. *)
Definition sent_since (w0 : W) (x : nat * Request * res Response) (w : W) : Prop := ∃ new, sent w = new ++ sent w0 ∧ x ∈ new.
Lemma sent_since_step w0 x w w' : auth_step w w' → sent_since w0 x w → sent_since w0 x w'.
Proof. intros (_ & _ & _ & [l Hl]) (new & Hn & Hx). exists (l ++ new). rewrite Hl, Hn. split; [apply app_assoc|set_solver]. Qed.
Lemma sent_now w0 i req w : auth_step w0 w → sent_since w0 (i, req, (send i req w).1) (send i req w).2.
Proof. intros (_ & _ & _ & [l Hl]). exists ((i, req, (send i req w).1) :: l). rewrite send_log, Hl. split; [done|left]. Qed.

(** GitHub rejected the token. *)
Definition rejected (r : res Response) : Prop := match r with inl resp => rs_StatusCode resp = 401 | inr _ => False end.
#[local] Instance rejected_dec r : Decision (rejected r).
Proof. unfold rejected. destruct r; apply _. Defined.

(** What became of a request: its first attempt with the transport [inst]; if that was rejected, [inst] is not the cached
    one any more, and the answer is that of a replay with another transport, if the request can be replayed. *)
Definition request_handled (w0 : W) (req : Request) (r : res Response) (w : W) : Prop :=
  ∃ inst first, sent_since w0 (inst, req, first) w ∧
    if decide (rejected first) then
      (inst < allocated (view auth w))%nat ∧ installation (view auth w) ≠ Some inst ∧
      match replayableRequest req with
      | Some replay => ∃ j, j ≠ inst ∧ sent_since w0 (j, replay, r) w
      | None => r = first
      end
    else r = first.

Lemma request_handled_step w0 req r w w' : auth_step w w' → request_handled w0 req r w → request_handled w0 req r w'.
Proof.
  intros Hw (inst & first & Hs & H). exists inst, first. split; [by eapply sent_since_step|]. case_decide; [|done].
  destruct H as (Ha & Hi & H). split_and!; [destruct Hw; lia|by apply Hw|].
  destruct (replayableRequest req); [|done]. destruct H as (j & Hj & Hr). exists j. split; [done|by eapply sent_since_step].
Qed.

(** A thread that saw [inst] rejected drops it, and from then on it is not current. *)
Lemma invalidate_guards inst w :
  (inst < allocated (view auth w))%nat →
  guards auth_inv auth_step (λ _ w', (inst < allocated (view auth w'))%nat ∧ installation (view auth w') ≠ Some inst) (invalidate auth inst) w.
Proof.
  intros Hlt. apply (guards_call auth_inv auth_step). intros w1 [Ha1 _] HI1. pose proof (invalidate_run inst w1 HI1) as Hinv.
  unfold invalidate in Hinv. rewrite run_modify in Hinv. cbn [snd] in Hinv.
  destruct Hinv as (HI2 & HG2 & Hn & _ & Ha2 & _); [lia|]. cbn [fst snd]. split_and!; [done..|].
  intros w3 (Ha3 & Hd3 & _) _. split; [lia|]. apply Hd3; [lia|done].
Qed.
(** The current transport has been allocated; it is not one that was dropped before. *)
Lemma currentInstallation_guards (dropped : option nat) w :
  (∀ inst, dropped = Some inst → (inst < allocated (view auth w))%nat ∧ installation (view auth w) ≠ Some inst) →
  guards auth_inv auth_step (λ j w', (j < allocated (view auth w'))%nat ∧ dropped ≠ Some j) (currentInstallation auth) w.
Proof.
  intros Hdrop. apply (guards_call auth_inv auth_step). intros w1 (Ha1 & Hd1 & _) HI. pose proof (currentInstallation_run w1 HI) as Hc.
  unfold currentInstallation in Hc. rewrite run_call in Hc.
  destruct (match installation (view auth w1) with Some i => (i, w1) | None => _ end) as [j w2].
  destruct Hc as (HI2 & HG2 & Hj & _ & _ & Hor). cbn [fst snd]. split_and!; [done..|]. intros w3 [Ha3 _] _.
  split; [apply HI2 in Hj; lia|]. intros Heq. destruct (Hdrop j Heq) as [Hlt Hn].
  destruct Hor as [Hs|[_ ->]]; [|lia]. by apply (Hd1 j).
Qed.

(** The part of [RoundTrip] after a first attempt that was rejected. *)
Lemma replay_guards w0 inst req first w :
  auth_step w0 w → (inst < allocated (view auth w))%nat → sent_since w0 (inst, req, first) w → rejected first →
  guards auth_inv auth_step (request_handled w0 req)
    (let! _ := invalidate auth inst in
     match replayableRequest req with
     | None => Ret first
     | Some replay => let! current := currentInstallation auth in call (send current replay)
     end) w.
Proof.
  intros Hw0 Hlt Hs Hrej. apply (guards_bind auth_inv auth_step). eapply (guards_mono auth_inv auth_step); [|by apply invalidate_guards].
  intros [] w1 Hw1 _ Hn. destruct (replayableRequest req) as [replay|] eqn:Hrep.
  - apply (guards_bind auth_inv auth_step).
    eapply (guards_mono auth_inv auth_step); [|apply (currentInstallation_guards (Some inst)); by intros ? [= <-]].
    intros j w2 Hw2 _ [_ Hj]. apply (guards_call auth_inv auth_step). intros w3 Hw3 HI3.
    destruct (send_step j replay w3 HI3) as [HI4 HG4]. split_and!; [done..|]. intros w5 Hw5 _.
    assert (auth_step w1 w5) as H15 by (do 2 (etrans; [eassumption|]); by etrans).
    exists inst, first. split; [eapply sent_since_step; [|exact Hs]; by etrans|]. rewrite decide_True by done. rewrite Hrep.
    destruct Hn as [Hn1 Hn2]. destruct H15 as (Ha & Hd & _). split_and!; [lia|by apply Hd|]. exists j. split; [congruence|].
    eapply sent_since_step; [exact Hw5|]. apply sent_now. do 3 (etrans; [eassumption|]). done.
  - apply guards_ret. intros w2 Hw2 _. exists inst, first. split; [eapply sent_since_step; [|exact Hs]; by etrans|].
    rewrite decide_True by done. rewrite Hrep. destruct Hn as [Hn1 Hn2], Hw2 as (Ha & Hd & _). split_and!; [lia|by apply Hd|done].
Qed.

Lemma round_trip_guards w0 req w :
  resilient (view auth w0) = true → auth_step w0 w → guards auth_inv auth_step (request_handled w0 req) (round_trip req) w.
Proof.
  intros Hres Hw0. unfold round_trip, RoundTrip. apply (guards_bind auth_inv auth_step), (guards_gets auth_inv auth_step).
  intros w1 Hw1 _ w2 Hw2 _. assert (auth_step w0 w1) as H01 by (by etrans).
  replace (resilient (view auth w1)) with true by (symmetry; etrans; [apply H01|exact Hres]). cbn [negb].
  apply (guards_bind auth_inv auth_step). eapply (guards_mono auth_inv auth_step); [|by apply (currentInstallation_guards None)].
  intros inst w3 Hw3 _ [Hlt _]. apply (guards_bind auth_inv auth_step), (guards_call auth_inv auth_step). intros w4 Hw4 HI4.
  destruct (send_step inst req w4 HI4) as [HI5 HG5]. split_and!; [done..|]. intros w5 Hw5 _.
  assert (auth_step w0 w4) as H04 by (do 3 (etrans; [eassumption|]); done).
  assert (auth_step w0 w5) as H05 by (do 2 (etrans; [eassumption|]); done).
  assert (sent_since w0 (inst, req, (send inst req w4).1) w5) as Hs by (eapply sent_since_step; [exact Hw5|by apply sent_now]).
  assert (inst < allocated (view auth w5))%nat as Hlt5 by (destruct Hw4, Hw5, HG5; lia).
  destruct (send inst req w4).1 as [resp|err]; [destruct (Z.eqb_spec (rs_StatusCode resp) 401)|]; cbn [negb].
  - exact (replay_guards w0 inst req (inl resp) w5 H05 Hlt5 Hs ltac:(done)).
  - apply guards_ret. intros w6 Hw6 _. apply (request_handled_step _ _ _ w5); [done|]. exists inst, (inl resp). split; [done|].
    by rewrite decide_False.
  - apply guards_ret. intros w6 Hw6 _. apply (request_handled_step _ _ _ w5); [done|]. exists inst, (inr err). split; [done|].
    rewrite decide_False; [done|]. by intros [].
Qed.


(** A request is sent at most twice, with the cached token: an answer that is not a 401, and every failure, is
    passed on and the token stays cached; after a 401 the token is dropped, and the request is replayed with a new
    token, never used before, if its body can be replayed, and else the 401 is returned. *)
Theorem RoundTrip_spec req w :
  auth_inv w → resilient (view auth w) = true →
  let '(r, w') := run (round_trip req) w in
  auth_inv w' ∧ ∃ i first,
    (installation (view auth w) = Some i ∨ installation (view auth w) = None ∧ i = allocated (view auth w)) ∧
    match first with
    | inl resp =>
      if rs_StatusCode resp =? 401 then
        match replayableRequest req with
        | Some replay => ∃ j, j ≠ i ∧ (allocated (view auth w) ≤ j)%nat ∧
            sent w' = (j, replay, r) :: (i, req, first) :: sent w ∧ installation (view auth w') = Some j
        | None => r = first ∧ sent w' = (i, req, first) :: sent w ∧ installation (view auth w') = None
        end
      else r = first ∧ sent w' = (i, req, first) :: sent w ∧ installation (view auth w') = Some i
    | inr _ => r = first ∧ sent w' = (i, req, first) :: sent w ∧ installation (view auth w') = Some i
    end.
Proof.
  intros HI Hres. unfold round_trip, RoundTrip. rewrite run_bind, run_gets, Hres. cbn [negb]. rewrite run_bind.
  pose proof (currentInstallation_run w HI) as Hc. destruct (run (currentInstallation auth) w) as [i w1].
  destruct Hc as (HI1 & [Ha1 _] & Hi & Hs1 & _ & Hor). rewrite run_bind, run_call.
  pose proof (send_auth i req w1) as Ha. pose proof (send_log i req w1) as Hl.
  destruct (send i req w1) as [first w2]. cbn [fst snd] in *. destruct (same_auth_step w1 w2 Ha) as [HI2 _]; [by exists [(i, req, first)]|done|].
  destruct first as [resp|err].
  2:{ split; [done|]. exists i, (inr err). by rewrite Ha, Hl, Hs1. }
  destruct (rs_StatusCode resp =? 401) eqn:H401; cbn [negb].
  2:{ split; [done|]. exists i, (inl resp). by rewrite H401, Ha, Hl, Hs1. }
  rewrite run_bind. pose proof (invalidate_run i w2 HI2) as Hinv. destruct (run (invalidate auth i) w2) as [[] w3]. cbn [snd] in Hinv.
  assert (i < allocated (view auth w2))%nat as Hlt by (rewrite Ha; by apply HI1).
  destruct (Hinv Hlt) as (HI3 & _ & _ & Hs3 & Ha3 & _ & Hnone). specialize (Hnone ltac:(by rewrite Ha)).
  destruct (replayableRequest req) as [replay|] eqn:Hrep.
  2:{ split; [done|]. exists i, (inl resp). by rewrite H401, Hs3, Hl, Hs1. }
  rewrite run_bind. pose proof (currentInstallation_run w3 HI3) as Hc. destruct (run (currentInstallation auth) w3) as [j w4].
  destruct Hc as (HI4 & _ & Hj & Hs4 & _ & [Hor'|[_ ->]]); [congruence|]. rewrite run_call.
  pose proof (send_auth (allocated (view auth w3)) replay w4) as Hb. pose proof (send_log (allocated (view auth w3)) replay w4) as Hl'.
  destruct (send _ replay w4) as [r w5]. cbn [fst snd] in *. destruct (same_auth_step w4 w5 Hb) as [HI5 _]; [by eexists [_]|done|]. split; [done|].
  exists i, (inl resp). split; [done|]. rewrite H401. exists (allocated (view auth w3)).
  rewrite Hb, Hl', Hs4, Hs3, Hl, Hs1, Ha3. split_and!; [lia|rewrite Ha; lia|done|congruence].
Qed.
End AuthSpec.

(** ** Concrete transports *)
Module ToyTransport.
(** GitHub rejects the tokens of the listed transports. *)
Record world := { field : Authorization; rejected : list nat; log : list (nat * Request * res Response) }.
Definition field_lens : Lens world Authorization :=
  {| view := field; put a w := {| field := a; rejected := rejected w; log := log w |}; view_put _ _ := eq_refl |}.
Definition response (code : Z) : Response := {| rs_StatusCode := code; rs_Header := ∅ |}.
Definition send (i : nat) (req : Request) (w : world) : res Response * world :=
  let r := inl (response (if bool_decide (i ∈ rejected w) then 401 else 200)) in
  (r, {| field := field w; rejected := rejected w; log := (i, req, r) :: log w |}).
Lemma send_laws : SendLaws field_lens send log.
Proof. by split. Qed.
Definition list_repos : Request :=
  {| rq_Method := "GET"; rq_Path := "/orgs/acme/repos"; rq_Body := None; rq_GetBody := None; rq_RetryableCodes := [] |}.
(** Token 0 is cached and has been revoked; later, token 1 as well. *)
Definition revoked (l : list nat) : world :=
  {| field := {| resilient := true; installation := Some 0%nat; allocated := 1 |}; rejected := l; log := [] |}.
Lemma revoked_inv l : auth_inv field_lens (revoked l).
Proof. intros i [= <-]. simpl. lia. Qed.

(** A retry function as rehttp documents it. *)
#[export] Instance packages : TransportPackages := {
  RetryMaxRetries n att := at_Index att <? n;
  RetryStatusInterval low high att :=
    match at_Response att with Some r => (low <=? rs_StatusCode r) && (rs_StatusCode r <? high) | None => false end;
  is_connection_error e := match e with EPlain s => bool_decide (s = "EOF") | _ => false end;
  error_text e := match e with EPlain s => s | _ => "" end
}.
End ToyTransport.

(** The token of the replay is not dropped when GitHub rejects it, too: it stays cached and the next request is
    sent with it. *)
Lemma rejected_replay_token_kept :
  let w := (run (round_trip ToyTransport.field_lens ToyTransport.send ToyTransport.list_repos) (ToyTransport.revoked [0; 1]%nat)).2 in
  head (ToyTransport.log w) = Some (1%nat, ToyTransport.list_repos, inl (ToyTransport.response 401)) ∧
  installation (ToyTransport.field w) = Some 1%nat.
Proof. split; vm_compute; reflexivity. Qed.

Lemma RoundTrip_spec_witness :
  installation (ToyTransport.field (run (round_trip ToyTransport.field_lens ToyTransport.send ToyTransport.list_repos)
    (ToyTransport.revoked [0]%nat)).2) = Some 1%nat ∧
  auth_inv ToyTransport.field_lens (run (round_trip ToyTransport.field_lens ToyTransport.send ToyTransport.list_repos)
    (ToyTransport.revoked [0]%nat)).2.
Proof.
  pose proof (RoundTrip_spec ToyTransport.field_lens ToyTransport.send ToyTransport.log (L := ToyTransport.send_laws) ToyTransport.list_repos
    (ToyTransport.revoked [0]%nat) (ToyTransport.revoked_inv _) eq_refl) as H.
  split; [vm_compute; reflexivity|]. destruct (run _ _) as [r w]. exact (proj1 H).
Defined.


Lemma retries_are_safe_witness :
  let att := {| at_Index := 1; at_Request := Some ToyTransport.list_repos; at_Response := None; at_Error := Some (EPlain "http2: GOAWAY") |} in
  retryOnTransportError (P := ToyTransport.packages) att = true ∧ ECanceled ∉ nodes (EPlain "http2: GOAWAY").
Proof.
  destruct (retries_are_safe (P := ToyTransport.packages) (λ _ _, eq_refl) {| at_Index := 1; at_Request := Some ToyTransport.list_repos;
    at_Response := None; at_Error := Some (EPlain "http2: GOAWAY") |}) as (_ & H & _).
  split; [vm_compute; reflexivity|]. exact (proj1 (H _ eq_refl ltac:(vm_compute; reflexivity))).
Defined.

(** 5 of 5000 requests left, the reset in ten minutes. *)
Definition low_quota : Response := {| rs_StatusCode := 200; rs_Header := list_to_map [
  ("X-RateLimit-Remaining", "5"); ("X-RateLimit-Limit", "5000"); ("X-RateLimit-Reset", "600"); ("X-RateLimit-Resource", "core")] |}.
Definition registry_itself : Lens Registry Registry := {| view r := r; put r _ := r; view_put _ _ := eq_refl |}.
Definition some_low_quota : res (option Response) := inl (Some low_quota).
Definition tracked : Registry :=
  (run (tracker_RoundTrip registry_itself (λ _, 0) "acme" 42 (λ _, Ret some_low_quota) ToyTransport.list_repos)
    (NewOrgRateLimitRegistryFromConfig default_config)).2.

Lemma exhausted_quota_stalls_witness :
  (ShouldStall tracked "acme" [] (Minute)).1 = true.
Proof.
  apply (exhausted_quota_stalls registry_itself (λ _, 0) "acme" 42 (λ _, Ret some_low_quota) ToyTransport.list_repos
    (NewOrgRateLimitRegistryFromConfig default_config) low_quota tracked 5 5000 600 100 Minute).
  1: vm_compute; reflexivity.
  all: try (vm_compute; split; congruence).
  1: split_and!; vm_compute; reflexivity.
  all: try (vm_compute; congruence).
  apply list_elem_of_here.
Defined.
