(* ===== verification/Caching.v ===== *)
(** * The response cache of the GitHub client

    internal/ghclient/caching_client.go: [responseCache] keeps one answer for a limited time, [CachingClient] has one
    for the teams, the apps and the roles of an organization.  The mutex guards single reads and writes of the entry,
    so these are the atomic actions; the fetch is not under the lock. *)
From S2P Require Import Prelude GoErrors Conditions ApiTypes IdResolver Executor Parallel Rely.

(** [cachedValue], [responseCache] and the operations under its lock. *)
Record cachedValue T := { data : T; expiresAt : Z }.
Arguments data {T}. Arguments expiresAt {T}.
Record responseCache T := { entry : option (cachedValue T); ttl : Z }.
Arguments entry {T}. Arguments ttl {T}.

Definition newResponseCache {T} (t : Z) : responseCache T := {| entry := None; ttl := t |}.

(** The entry, if it is still valid at [now]. *)
Definition valid_entry {T} (c : responseCache T) (now : Z) : option T :=
  match entry c with
  | Some e => if now <? expiresAt e then Some (data e) else None
  | None => None
  end.
Definition set_entry {T} (d : T) (now : Z) (c : responseCache T) : responseCache T :=
  {| entry := Some {| data := d; expiresAt := now + ttl c |}; ttl := ttl c |}.
Definition drop_entry {T} (c : responseCache T) : responseCache T := {| entry := None; ttl := ttl c |}.

Section ResponseCache.
Context {W T : Type} (clock : W → Z) (cache : Lens W (responseCache T)).

Definition update_cache (f : responseCache T → responseCache T) (w : W) : W := put cache (f (view cache w)) w.

Definition GetOrFetch (fetch : prog W (res T)) : prog W (res T) :=
  let! hit := gets (λ w, valid_entry (view cache w) (clock w)) in
  match hit with
  | Some d => Ret (inl d)
  | None =>
    let! fetched := fetch in
    match fetched with
    | inr err => Ret (inr err)
    | inl d =>
      let! _ := modify (λ w, update_cache (set_entry d (clock w)) w) in
      Ret (inl d)
    end
  end.

Definition Invalidate : prog W unit := modify (update_cache drop_entry).
End ResponseCache.

(** [CachingClient]: the three caches; [NewCachingClient] creates them empty. *)
Record CachingClient := {
  teams : responseCache (list TeamEntry);
  apps : responseCache (list Installation);
  roles : responseCache (list RoleEntry)
}.
Definition NewCachingClient (t : Z) : CachingClient :=
  {| teams := newResponseCache t; apps := newResponseCache t; roles := newResponseCache t |}.

Definition teams_lens : Lens CachingClient (responseCache (list TeamEntry)) :=
  {| view := teams; put c s := {| teams := c; apps := apps s; roles := roles s |}; view_put _ _ := eq_refl |}.
Definition apps_lens : Lens CachingClient (responseCache (list Installation)) :=
  {| view := apps; put c s := {| teams := teams s; apps := c; roles := roles s |}; view_put _ _ := eq_refl |}.
Definition roles_lens : Lens CachingClient (responseCache (list RoleEntry)) :=
  {| view := roles; put c s := {| teams := teams s; apps := apps s; roles := c |}; view_put _ _ := eq_refl |}.

Lemma compose_view_put {W V U} (l : Lens W V) (m : Lens V U) u w :
  view m (view l (put l (put m u (view l w)) w)) = u.
Proof. by rewrite view_put, view_put. Qed.
Definition compose {W V U} (l : Lens W V) (m : Lens V U) : Lens W U :=
  {| view w := view m (view l w); put u w := put l (put m u (view l w)) w; view_put := compose_view_put l m |}.

(** The wrapped client and the place of the caches. *)
Class CachingEnv (W : Type) := {
  clock : W → Z;
  caching_client : Lens W CachingClient;
  inner_GetAllTeamsForOrg : string → prog W (res (list TeamEntry));
  inner_GetGitHubAppsInstallations : string → prog W (res (list Installation));
  inner_GetAllOrgRoles : string → prog W (res (list RoleEntry))
}.

Section Client.
Context {W : Type} {E : CachingEnv W}.

(** [cacheEnabled] is [isCacheEnabled(ctx)], which [WithCache] sets. *)
Definition GetAllTeamsForOrg (cacheEnabled : bool) (org : string) : prog W (res (list TeamEntry)) :=
  if negb cacheEnabled then inner_GetAllTeamsForOrg org
  else GetOrFetch clock (compose caching_client teams_lens) (inner_GetAllTeamsForOrg org).
Definition GetAppsInstallations (cacheEnabled : bool) (org : string) : prog W (res (list Installation)) :=
  if negb cacheEnabled then inner_GetGitHubAppsInstallations org
  else GetOrFetch clock (compose caching_client apps_lens) (inner_GetGitHubAppsInstallations org).
Definition GetAllOrgRoles (cacheEnabled : bool) (org : string) : prog W (res (list RoleEntry)) :=
  if negb cacheEnabled then inner_GetAllOrgRoles org
  else GetOrFetch clock (compose caching_client roles_lens) (inner_GetAllOrgRoles org).

Definition InvalidateAll : prog W unit :=
  let! _ := Invalidate (compose caching_client teams_lens) in
  let! _ := Invalidate (compose caching_client apps_lens) in
  Invalidate (compose caching_client roles_lens).
End Client.

(** ** One thread alone *)
Section Sequential.
Context {W T : Type} (clock : W → Z) (cache : Lens W (responseCache T)) (fetch : prog W (res T)).

(** A valid entry is returned without any call; otherwise the answer of the fetch is, and is kept for the time to
    live from then on, an error is not kept. *)
Lemma GetOrFetch_run w :
  run (GetOrFetch clock cache fetch) w =
    match valid_entry (view cache w) (clock w) with
    | Some d => (inl d, w)
    | None =>
      let '(r, w1) := run fetch w in
      match r with
      | inl d => (inl d, update_cache cache (set_entry d (clock w1)) w1)
      | inr err => (inr err, w1)
      end
    end.
Proof.
  unfold GetOrFetch. rewrite run_bind, run_gets. step_run. destruct (valid_entry _ _) as [d|]; [done|].
  rewrite run_bind. destruct (run fetch w) as [[d|err] w1]; [|done]. by rewrite run_bind, run_modify.
Qed.

(** A cache without a time to live never answers: the entry expires the moment it is stored. *)
Lemma no_ttl_no_hit (d : T) stored now (c : responseCache T) : ttl c ≤ 0 → stored ≤ now → valid_entry (set_entry d stored c) now = None.
Proof. unfold valid_entry. simpl. intros. case_match eqn:Hlt; [|done]. apply Z.ltb_lt in Hlt. lia. Qed.
End Sequential.

(** ** Many threads

    Any number of callers fetch, read and invalidate the same cache.  Two logs, the last entry first: what the API
    answered to whom asked at which time, and what was put into the cache at which time. *)
Section Concurrent.
Context {W T : Type} (clock : W → Z) (cache : Lens W (responseCache T)) (fetch_op : W → res T * W).
Context (answers stores : W → list (Z * T)) (time_to_live : Z).

Class FetchLaws : Prop := {
  fetch_answers w : answers (fetch_op w).2 = match (fetch_op w).1 with inl d => (clock w, d) :: answers w | inr _ => answers w end;
  fetch_stores w : stores (fetch_op w).2 = stores w;
  fetch_clock w : clock w ≤ clock (fetch_op w).2;
  fetch_cache w : view cache (fetch_op w).2 = view cache w;
  store_clock c w : clock (put cache c w) = clock w;
  store_answers c w : answers (put cache c w) = answers w;
  store_stores c w : stores (put cache c w) =
    match entry c with Some e => (expiresAt e - ttl c, data e) :: stores w | None => stores w end
}.
Context {L : FetchLaws}.

(** The answer [d] was put into the cache at the time [stored], after the API had given it. *)
Definition kept_at (stored : Z) (d : T) (w : W) : Prop :=
  ∃ asked, (asked, d) ∈ answers w ∧ (stored, d) ∈ stores w ∧ asked ≤ stored ≤ clock w.

(** The entry expires the time to live after it was put into the cache. *)
Definition cache_inv (w : W) : Prop :=
  ttl (view cache w) = time_to_live ∧
  match entry (view cache w) with Some e => kept_at (expiresAt e - time_to_live) (data e) w | None => True end.

(** Time passes and the logs grow. *)
Definition progress (w w' : W) : Prop :=
  clock w ≤ clock w' ∧ (∀ x, x ∈ answers w → x ∈ answers w') ∧ (∀ x, x ∈ stores w → x ∈ stores w').
#[local] Instance progress_preorder : PreOrder progress.
Proof. split; [by intros w; split_and!|]. intros w1 w2 w3 (? & ? & ?) (? & ? & ?). split_and!; [lia|auto..]. Qed.

(** A caller that began at [began] gets an answer that was asked for after it began, or that was put into the cache less
    than the time to live before it began, or later. *)
Definition recent (began : Z) (d : T) (w : W) : Prop :=
  (∃ asked, (asked, d) ∈ answers w ∧ began ≤ asked) ∨
  (∃ stored, kept_at stored d w ∧ began < stored + time_to_live).

Lemma kept_progress stored d w w' : progress w w' → kept_at stored d w → kept_at stored d w'.
Proof. intros (? & Ha & Hs) (t & ? & ? & ?). exists t. split_and!; [auto..|lia|lia]. Qed.
Lemma recent_progress began d w w' : progress w w' → recent began d w → recent began d w'.
Proof.
  intros Hp [(t & Ha & Hr)|(s & Hk & Hr)]; [left|right].
  - exists t. split; [by apply Hp|done].
  - exists s. split; [by eapply kept_progress|done].
Qed.

Lemma valid_entry_recent began w d :
  cache_inv w → began ≤ clock w → valid_entry (view cache w) (clock w) = Some d → recent began d w.
Proof.
  intros [_ He] Hb. unfold valid_entry. destruct (entry _) as [e|]; [|done]. case_match eqn:Hlt; [|done]. apply Z.ltb_lt in Hlt.
  intros [= <-]. right. eexists. split; [exact He|lia].
Qed.

Lemma cache_inv_store d asked w :
  cache_inv w → (asked, d) ∈ answers w → asked ≤ clock w →
  cache_inv (update_cache cache (set_entry d (clock w)) w) ∧ progress w (update_cache cache (set_entry d (clock w)) w).
Proof.
  intros [Httl _] Ha Ht. unfold cache_inv, progress, kept_at, update_cache. rewrite view_put, store_clock, store_answers, store_stores.
  cbn [entry set_entry expiresAt ttl data]. rewrite Httl. split; [split; [done|]|split_and!; [lia|done|set_solver]].
  exists asked. split_and!; [done|left; f_equal; lia|lia|lia].
Qed.

Lemma cache_inv_drop w : cache_inv w → cache_inv (update_cache cache drop_entry w) ∧ progress w (update_cache cache drop_entry w).
Proof.
  intros [Httl _]. unfold cache_inv, progress, update_cache. rewrite view_put, store_clock, store_answers, store_stores. simpl.
  by split_and!.
Qed.

Lemma fetch_progress w : progress w (fetch_op w).2.
Proof.
  split_and!; [apply fetch_clock| |by rewrite fetch_stores]. rewrite fetch_answers. destruct (fetch_op w).1; set_solver.
Qed.
Lemma fetch_step w : cache_inv w → cache_inv (fetch_op w).2 ∧ progress w (fetch_op w).2.
Proof.
  intros [Httl He]. pose proof (fetch_progress w). unfold cache_inv. rewrite fetch_cache. split; [split; [done|]|done].
  destruct (entry _) as [e|]; [|done]. by eapply kept_progress.
Qed.

(** The callers: each does one operation; one that fetches also says when it began. *)
Inductive caller := Fetching | Invalidating.
Definition caller_prog (c : caller) : prog W (option (Z * res T)) :=
  match c with
  | Fetching => let! began := gets clock in let! r := GetOrFetch clock cache (call fetch_op) in Ret (Some (began, r))
  | Invalidating => let! _ := Invalidate cache in Ret None
  end.

Definition caller_post (r : option (Z * res T)) (w : W) : Prop := ∀ began d, r = Some (began, inl d) → recent began d w.

Lemma caller_guards c w : guards cache_inv progress caller_post (caller_prog c) w.
Proof.
  destruct c; simpl.
  - intros w0 _ HI0. split_and!; [done|reflexivity|]. intros w1 [Ht1 _] HI1. split_and!; [done|reflexivity|].
    destruct (valid_entry (view cache w1) (clock w1)) as [d|] eqn:Hv; simpl.
    + intros w2 Hw2 _ began d' [= <- <-]. apply (recent_progress _ _ w1); [done|]. by apply valid_entry_recent.
    + intros w2 [Ht2 _] HI2. destruct (fetch_step w2 HI2) as [HI3 HG3]. split_and!; [done..|].
      pose proof (fetch_answers w2) as Ha. destruct (fetch_op w2) as [[d|err] w3]; simpl in *; [|by intros w4 _ _ ? d [=]].
      intros w4 [Ht4 [Hh4 _]] HI4. destruct HG3 as [Ht3 _].
      assert ((clock w2, d) ∈ answers w4) as Had by (apply Hh4; rewrite Ha; left).
      destruct (cache_inv_store d (clock w2) w4 HI4 Had) as [HI5 HG5]; [lia|]. split_and!; [done..|].
      intros w5 (_ & Hw5 & _) _ began d' [= <- <-]. left. exists (clock w2). split; [by apply Hw5, HG5|lia].
  - intros w1 Hw1 HI1. destruct (cache_inv_drop w1 HI1) as [HI2 HG2]. split_and!; [done..|].
    by intros w2 _ _ ? d [=].
Qed.

(** C21: a shared response cache never answers with anything but what the API said, and never with something that
    expired: whatever the callers do and however they are interleaved, each fetch that succeeds returns an answer the API
    was asked for after this fetch began, or one that was put into the cache less than the time to live before this
    fetch began (or later); and the cache is left in a state in which that stays true.  The time to live counts from the
    moment the answer is put into the cache, which is after the API was asked. *)
Theorem cached_answers_recent sched callers w :
  cache_inv w →
  let '(rs, w') := run_threads sched (caller_prog <$> callers) w in
  cache_inv w' ∧ length rs = length callers ∧
  ∀ began d, Some (began, inl d) ∈ rs → recent began d w'.
Proof.
  intros HI.
  assert (Forall2 (λ Q t, guards cache_inv progress Q t w) ((λ _, caller_post) <$> callers) (caller_prog <$> callers)) as Hg.
  { induction callers as [|c callers IH]; constructor; [apply caller_guards|apply IH]. }
  pose proof (run_threads_guards cache_inv progress sched _ _ w HI Hg) as H.
  destruct (run_threads sched (caller_prog <$> callers) w) as [rs w']. destruct H as (HI' & _ & Hrs). split; [done|].
  pose proof (Forall2_length _ _ _ Hrs) as Hlen. rewrite length_fmap in Hlen. split; [lia|].
  intros began d [i Hi]%list_elem_of_lookup_1. destruct (Forall2_lookup_r _ _ _ _ _ Hrs Hi) as (Q & HQ & Hq).
  apply list_lookup_fmap_Some in HQ as (c & -> & _). by apply Hq.
Qed.
End Concurrent.

(** ** The caching client is the client the resolver expects

    [IdResolver.ResolverLaws] is what resolving names relies on; the caching client over a GitHub that does not
    change meanwhile provides it. *)
Section ForResolver.
Context {W : Type} {E : CachingEnv W} (maps : Lens W LookUpMaps) (getRepositoryID : string → string → prog W (res (option Z))).

(** The resolver calls the client with [WithCache]. *)
#[local] Instance cached_resolver : ResolverApi W := {
  GetGitHubAppsInstallations org := GetAppsInstallations true org;
  GetTeamsForOrg org := GetAllTeamsForOrg true org;
  GetRolesForOrg org := GetAllOrgRoles true org;
  InvalidateCache := InvalidateAll;
  GetRepositoryID := getRepositoryID;
  getMaps := gets (view maps);
  setMaps m := modify (put maps m)
}.

Context (orgName : string) (repos : string → res (option Z)) (D : LookUpMaps).

(** A call of the wrapped client leaves maps and caches alone and answers with the directory. *)
Definition lists_directory {T} (index : T → Prop) (p : prog W (res T)) : Prop :=
  ∀ w, view maps (run p w).2 = view maps w ∧ view caching_client (run p w).2 = view caching_client w ∧
    ∀ d, (run p w).1 = inl d → index d.

Class CachedLaws : Prop := {
  put_client_maps c w : view maps (put caching_client c w) = view maps w;
  teams_answer : lists_directory (λ l, index_teams l = teamsBySlug D) (inner_GetAllTeamsForOrg orgName);
  apps_answer : lists_directory (λ l, index_apps l = appsBySlug D) (inner_GetGitHubAppsInstallations orgName);
  roles_answer : lists_directory (λ l, index_roles l = rolesByName D) (inner_GetAllOrgRoles orgName);
  repository_answer name w : (run (getRepositoryID orgName name) w).1 = repos name ∧
    view maps (run (getRepositoryID orgName name) w).2 = view maps w
}.
Context {L : CachedLaws}.

Definition entry_agrees {T} (index : T → Prop) (c : responseCache T) : Prop :=
  match entry c with Some e => index (data e) | None => True end.
Definition client_agrees (c : CachingClient) : Prop :=
  entry_agrees (λ l, index_teams l = teamsBySlug D) (teams c) ∧
  entry_agrees (λ l, index_apps l = appsBySlug D) (apps c) ∧
  entry_agrees (λ l, index_roles l = rolesByName D) (roles c).

(** One list, through its cache. *)
Lemma GetOrFetch_agrees {T} (f : Lens CachingClient (responseCache T)) (index : T → Prop) (fetch : prog W (res T)) w :
  (∀ c, client_agrees c → entry_agrees index (view f c)) →
  (∀ c x, client_agrees c → entry_agrees index x → client_agrees (put f x c)) →
  lists_directory index fetch → client_agrees (view caching_client w) →
  let '(r, w') := run (GetOrFetch clock (compose caching_client f) fetch) w in
  client_agrees (view caching_client w') ∧ ∀ l, r = inl l → index l.
Proof.
  intros Hget Hput Hfetch Hc. rewrite GetOrFetch_run. unfold valid_entry. simpl.
  pose proof (Hget _ Hc) as He. unfold entry_agrees in He. destruct (Hfetch w) as (_ & Hkeep & Hans).
  assert (let '(r, w1) := run fetch w in
    let '(r', w') := match r with
      | inl d => (inl d, update_cache (compose caching_client f) (set_entry d (clock w1)) w1)
      | inr err => (inr err, w1) end in
    client_agrees (view caching_client w') ∧ ∀ l, r' = inl l → index l) as Hmiss.
  { destruct (run fetch w) as [[d|err] w1]; cbn [fst snd] in *; [|by rewrite Hkeep].
    unfold update_cache. simpl. rewrite view_put, Hkeep. split; [|by intros ? [= <-]; apply Hans].
    apply Hput; [done|]. unfold entry_agrees. simpl. by apply Hans. }
  destruct (entry _) as [e|]; [destruct (clock w <? expiresAt e)|].
  { split; [done|]. by intros l [= <-]. }
  all: destruct (run fetch w) as [[d|err] w1]; exact Hmiss.
Qed.

(** The caches do not hold the maps. *)
Lemma update_cache_maps {T} (f : Lens CachingClient (responseCache T)) g w :
  view maps (update_cache (compose caching_client f) g w) = view maps w.
Proof. unfold update_cache. simpl. apply put_client_maps. Qed.

Lemma InvalidateAll_run w :
  client_agrees (view caching_client (run InvalidateAll w).2) ∧ view maps (run InvalidateAll w).2 = view maps w.
Proof.
  unfold InvalidateAll, Invalidate, modify, call. cbn [bind run snd]. rewrite !update_cache_maps. split; [|done].
  unfold update_cache. simpl. by rewrite !view_put.
Qed.

(** C22: the caching client satisfies the contract the name resolver is proved against: while the directory of the
    organization does not change, clearing the caches makes every list that is answered afterwards, by GitHub or
    from a cache, the current one. *)
Theorem cached_client_resolves :
  ResolverLaws (A := cached_resolver) orgName repos D (view maps) (λ w, client_agrees (view caching_client w)).
Proof.
  split.
  - intros w. apply run_gets.
  - intros m w. apply view_put.
  - intros name w. destruct (repository_answer name w) as [H1 H2]. unfold GetRepositoryID. simpl.
    by destruct (run (getRepositoryID orgName name) w).
  - apply InvalidateAll_run.
  - intros w Hc. apply (GetOrFetch_agrees apps_lens (λ l, index_apps l = appsBySlug D)); [by intros c (_ & Hx & _)| |apply apps_answer|done].
    by intros c x (? & _ & ?) Hx.
  - intros w Hc. apply (GetOrFetch_agrees teams_lens (λ l, index_teams l = teamsBySlug D)); [by intros c (? & _ & _)| |apply teams_answer|done].
    by intros c x (_ & ? & ?) Hx.
  - intros w Hc. apply (GetOrFetch_agrees roles_lens (λ l, index_roles l = rolesByName D)); [by intros c (_ & _ & ?)| |apply roles_answer|done].
    by intros c x (? & ? & _) Hx.
Qed.
End ForResolver.

(** ** A concrete client *)
Module ToyCaching.
Record world := {
  time : Z; on_github : list TeamEntry; client : CachingClient; resolver_maps : LookUpMaps;
  history : list (Z * list TeamEntry); kept : list (Z * list TeamEntry) }.
(** Putting the client logs the list of teams that is put into its cache. *)
Definition with_client (c : CachingClient) (w : world) : world :=
  {| time := time w; on_github := on_github w; client := c; resolver_maps := resolver_maps w; history := history w;
     kept := match entry (teams c) with Some e => (expiresAt e - ttl (teams c), data e) :: kept w | None => kept w end |}.
Definition with_maps (m : LookUpMaps) (w : world) : world :=
  {| time := time w; on_github := on_github w; client := client w; resolver_maps := m; history := history w; kept := kept w |}.
Definition with_team (t : TeamEntry) (w : world) : world :=
  {| time := time w; on_github := t :: on_github w; client := client w; resolver_maps := resolver_maps w; history := history w; kept := kept w |}.

(** A request takes a second. *)
Definition list_teams (w : world) : res (list TeamEntry) * world :=
  (inl (on_github w),
   {| time := time w + Second; on_github := on_github w; client := client w; resolver_maps := resolver_maps w;
      history := (time w, on_github w) :: history w; kept := kept w |}).

Definition client_lens : Lens world CachingClient := {| view := client; put := with_client; view_put _ _ := eq_refl |}.
Definition maps_lens : Lens world LookUpMaps := {| view := resolver_maps; put := with_maps; view_put _ _ := eq_refl |}.

Definition no_apps : res (list Installation) := inl [].
Definition no_roles : res (list RoleEntry) := inl [].
#[export] Instance env : CachingEnv world := {
  clock := time;
  caching_client := client_lens;
  inner_GetAllTeamsForOrg _ := call list_teams;
  inner_GetGitHubAppsInstallations _ := Ret no_apps;
  inner_GetAllOrgRoles _ := Ret no_roles
}.
Definition team_cache : Lens world (responseCache (list TeamEntry)) := compose client_lens teams_lens.
Definition ops : TeamEntry := {| te_Slug := Some "ops"; te_ID := Some 7 |}.
Definition devs : TeamEntry := {| te_Slug := Some "devs"; te_ID := Some 8 |}.
Definition start : world := {|
  time := 0; on_github := [ops]; client := NewCachingClient (5 * Minute);
  resolver_maps := {| appsBySlug := ∅; teamsBySlug := ∅; rolesByName := ∅ |}; history := []; kept := [] |}.

Lemma toy_fetch_laws : FetchLaws time team_cache list_teams history kept.
Proof. split; try done; simpl. intros w. unfold Second. lia. Qed.

Definition directory : LookUpMaps := {| appsBySlug := ∅; teamsBySlug := {[ "ops" := 7 ]}; rolesByName := ∅ |}.
Definition no_repositories (_ : string) : res (option Z) := inr notFoundStatus.
Definition ask_repository (_ _ : string) : prog world (res (option Z)) := Ret (inr notFoundStatus).

(** A GitHub that does not change. *)
Definition fixed_teams : res (list TeamEntry) := inl [ops].
Definition fixed_env : CachingEnv world := {|
  clock := time;
  caching_client := client_lens;
  inner_GetAllTeamsForOrg _ := Ret fixed_teams;
  inner_GetGitHubAppsInstallations _ := Ret no_apps;
  inner_GetAllOrgRoles _ := Ret no_roles
|}.
Lemma fixed_laws : CachedLaws (E := fixed_env) maps_lens ask_repository "acme" no_repositories directory.
Proof. split; try done; intros w; split_and!; try done; by intros l [= <-]. Qed.
(** A cache that still holds another list. *)
Definition outdated : world :=
  with_client {| teams := {| entry := Some {| data := [devs]; expiresAt := Minute |}; ttl := 5 * Minute |};
                 apps := newResponseCache (5 * Minute); roles := newResponseCache (5 * Minute) |} start.
Definition refreshed : world :=
  (run (refreshMaps (A := cached_resolver (E := fixed_env) maps_lens ask_repository) "acme") outdated).2.

(** The schedule of the lost invalidation: a caller has asked GitHub, a team is created and the cache invalidated,
    then the caller stores what it got. *)
Definition create_and_invalidate : prog world (option (Z * res (list TeamEntry))) :=
  let! _ := modify (with_team devs) in
  let! _ := Invalidate team_cache in Ret None.
Definition racing : world :=
  (run_threads [0; 0; 0; 1; 1; 0]%nat [caller_prog time team_cache list_teams Fetching; create_and_invalidate] start).2.
End ToyCaching.

(** Invalidating does not force the next call to ask GitHub: an answer that was on its way when the cache was
    invalidated is stored afterwards, and the new team stays unknown until that entry expires. *)
Lemma invalidation_lost :
  ToyCaching.on_github ToyCaching.racing = [ToyCaching.devs; ToyCaching.ops] ∧
  (run (GetOrFetch ToyCaching.time ToyCaching.team_cache (call ToyCaching.list_teams)) ToyCaching.racing).1 = inl [ToyCaching.ops].
Proof. split; vm_compute; reflexivity. Qed.

(** Three callers; the one that begins last finds what the first one has put into the cache. *)
Lemma cached_answers_recent_witness :
  let '(rs, w') := run_threads [0; 0; 1; 0; 0; 2; 2]%nat
    (caller_prog ToyCaching.time ToyCaching.team_cache ToyCaching.list_teams <$> [Fetching; Invalidating; Fetching]) ToyCaching.start in
  rs !! 2%nat = Some (Some (Second, inl [ToyCaching.ops])) ∧
  recent ToyCaching.time ToyCaching.history ToyCaching.kept (5 * Minute) Second [ToyCaching.ops] w'.
Proof.
  pose proof (cached_answers_recent (L := ToyCaching.toy_fetch_laws) ToyCaching.time ToyCaching.team_cache ToyCaching.list_teams
    ToyCaching.history ToyCaching.kept (5 * Minute) [0; 0; 1; 0; 0; 2; 2]%nat [Fetching; Invalidating; Fetching] ToyCaching.start) as H.
  destruct (run_threads _ _ _) as [rs w'] eqn:E. destruct H as (_ & _ & H); [by split|].
  assert (rs !! 2%nat = Some (Some (Second, inl [ToyCaching.ops]))) as Hr by (vm_compute in E; by injection E as <- _).
  split; [done|]. by apply H, (list_elem_of_lookup_2 _ 2).
Defined.

(** A resolver whose team cache is outdated: refreshing its maps makes them the directory. *)
Lemma cached_client_resolves_witness :
  ToyCaching.resolver_maps ToyCaching.refreshed = ToyCaching.directory.
Proof.
  pose proof (refreshMaps_spec (L := cached_client_resolves (E := ToyCaching.fixed_env) (L := ToyCaching.fixed_laws) ToyCaching.maps_lens
    ToyCaching.ask_repository "acme" ToyCaching.no_repositories ToyCaching.directory) "acme" ToyCaching.no_repositories ToyCaching.directory
    ToyCaching.resolver_maps (λ w, client_agrees ToyCaching.directory (ToyCaching.client w)) ToyCaching.outdated) as H.
  unfold ToyCaching.refreshed.
  assert ((run (refreshMaps (A := cached_resolver (E := ToyCaching.fixed_env) ToyCaching.maps_lens ToyCaching.ask_repository) "acme")
    ToyCaching.outdated).1 = true) as Hok by (vm_compute; reflexivity).
  destruct (run _ ToyCaching.outdated) as [ok w]. destruct H as [H _]. by apply H.
Defined.
