(* ===== verification/ClientFactory.v ===== *)
(** * The factory of GitHub clients

    internal/ghclient/factory.go: credentials from Kubernetes secrets, the transport stack of a client, one cached
    client per organization and the rate limit gate in front of it.  The slow path of [GetClient] runs under the
    factory's lock; as nothing else touches the fields it guards, the part of it that uses them is one action. *)
From S2P Require Import Prelude GoErrors GoStrings Config RateLimit Conditions ApiTypes Executor Parallel Rely Requeue.

(** ** Configuration *)
Record ClientConfig := {
  cc_Timeout : Z; cc_EnableRetry : bool; cc_EnableMetrics : bool; cc_EnableLogging : bool; cc_MaxRetries : Z;
  cc_RetryBaseDelay : Z; cc_RetryMaxDelay : Z; cc_ResponseCacheTTL : Z; cc_ResilientAuth : bool }.
Definition DefaultClientConfig : ClientConfig := {|
  cc_Timeout := 2 * Minute; cc_EnableRetry := true; cc_EnableMetrics := true; cc_EnableLogging := false; cc_MaxRetries := 3;
  cc_RetryBaseDelay := Second; cc_RetryMaxDelay := 10 * Second; cc_ResponseCacheTTL := 5 * Minute; cc_ResilientAuth := false |}.

Record AppConfig := { ac_InstallationID : Z; ac_CredentialsSecretName : string }.

(** The data of a Kubernetes secret. *)
Abbreviation Secret := (gmap string string).

(** [encoding/pem] (type and content of the first block), [crypto/x509] and [crypto/rsa]. *)
Class CryptoPackages := {
  PrivateKey : Type;
  pem_Decode : string → option (string * string);
  ParsePKCS1PrivateKey : string → res PrivateKey;
  key_Size : PrivateKey → Z
}.

(** ** Credentials *)
Record AppCredentials {P : CryptoPackages} := { cr_AppID : Z; cr_PrivateKey : PrivateKey }.

Definition parseAppID (value : string) : res Z :=
  if bool_decide (value = "") then inr (EPlain "app ID cannot be empty")
  else match ParseInt value with
  | inr err => inr (EPlain "invalid app ID format - must be a number")
  | inl id => if id <=? 0 then inr (EPlain "app ID must be positive") else inl id
  end.

Section Credentials.
Context {P : CryptoPackages}.

Definition parseGithubPrivateKey (value : string) : res PrivateKey :=
  if bool_decide (value = "") then inr (EPlain "private key cannot be empty")
  else match pem_Decode value with
  | None => inr (EPlain "failed to decode PEM block - invalid format")
  | Some (block_type, block_bytes) =>
    if negb (bool_decide (block_type = "RSA PRIVATE KEY")) then inr (EPlain ("expected RSA PRIVATE KEY, got " +:+ block_type))
    else match ParsePKCS1PrivateKey block_bytes with
    | inr err => inr (EWrap "failed to parse RSA private key" err)
    | inl privateKey =>
      if key_Size privateKey <? 256 then inr (EPlain "RSA private key too small, minimum 2048 bits required")
      else inl privateKey
    end
  end.

Definition parseCredentials (secret : Secret) : res AppCredentials :=
  let appIDStr := WithDefault (secret !! "app-id") "" in
  let privateKeyData := WithDefault (secret !! "private-key") "" in
  if bool_decide (appIDStr = "") || bool_decide (privateKeyData = "") then
    inr (EPlain "GitHub App secret is missing required fields (app-id, app-installation-id, private-key)")
  else match parseAppID appIDStr with
  | inr err => inr (EWrap "invalid app-id in secret" err)
  | inl appID =>
    match parseGithubPrivateKey privateKeyData with
    | inr err => inr (EWrap "invalid private-key in secret" err)
    | inl privateKey => inl {| cr_AppID := appID; cr_PrivateKey := privateKey |}
    end
  end.

(** ** Transports

    The stack as the term of the constructor calls that build it; a rate limit state is a pointer, here the number
    of its allocation. *)
Inductive RoundTripper :=
  | DefaultTransport
  | NewPrimaryLimiter (state : nat) (rt : RoundTripper)       (* with a state of its own *)
  | NewSecondaryLimiter (rt : RoundTripper)
  | NewRateLimiter (shared_state : nat) (rt : RoundTripper)   (* github_ratelimit.New *)
  | AuthorizeGitHubAccess (appID installationID : Z) (key : PrivateKey) (resilient_auth : bool) (rt : RoundTripper)
  | RateLimitTracker (orgLogin : string) (appID : Z) (rt : RoundTripper)
  | RetryTransport (maxRetries : Z) (rt : RoundTripper)
  | Pagination (perPage : Z) (rt : RoundTripper)
  | Instrumented (serverName : string) (rt : RoundTripper).
End Credentials.

(** [github.NewClient] with the transport and the timeout; it never inspects either. *)
Class GitHubPackage {P : CryptoPackages} := {
  github_Client : Type;
  github_NewClient : RoundTripper → Z → res github_Client;
  Transport_of : github_Client → RoundTripper;
  NewClient_transport rt timeout c : github_NewClient rt timeout = inl c → Transport_of c = rt
}.

Section Factory.
Context {P : CryptoPackages} {G : GitHubPackage}.

(** A client, with or without the caching wrapper. *)
Inductive GitHubClient := GitHubClientWrapper (client : github_Client) | NewCachingGitHubClient (inner : GitHubClient) (ttl : Z).
Fixpoint transport (c : GitHubClient) : RoundTripper :=
  match c with GitHubClientWrapper c => Transport_of c | NewCachingGitHubClient c _ => transport c end.

Record ClientInfo := {
  ci_Client : GitHubClient; ci_InstallationID : Z; ci_CacheKey : string; ci_SecretName : string; ci_OrgLogin : string }.

Record CachingGitHubClientFactory := {
  clients : gmap string ClientInfo;
  factory_config : ClientConfig;
  credentials : gmap string AppCredentials;
  rateLimitStates : gmap Z nat;
  allocated_states : nat;
  legacySecretName : string
}.

Definition NewGitHubCachingClientFactory (config : option ClientConfig) (legacy : string) : CachingGitHubClientFactory := {|
  clients := ∅; factory_config := WithDefault config DefaultClientConfig; credentials := ∅; rateLimitStates := ∅;
  allocated_states := 0; legacySecretName := legacy |}.

Definition set_clients (l : gmap string ClientInfo) (f : CachingGitHubClientFactory) : CachingGitHubClientFactory := {|
  clients := l; factory_config := factory_config f; credentials := credentials f; rateLimitStates := rateLimitStates f;
  allocated_states := allocated_states f; legacySecretName := legacySecretName f |}.
Definition set_credentials (l : gmap string AppCredentials) (f : CachingGitHubClientFactory) : CachingGitHubClientFactory := {|
  clients := clients f; factory_config := factory_config f; credentials := l; rateLimitStates := rateLimitStates f;
  allocated_states := allocated_states f; legacySecretName := legacySecretName f |}.
Definition new_state (appID : Z) (f : CachingGitHubClientFactory) : CachingGitHubClientFactory := {|
  clients := clients f; factory_config := factory_config f; credentials := credentials f;
  rateLimitStates := <[appID := allocated_states f]> (rateLimitStates f);
  allocated_states := S (allocated_states f); legacySecretName := legacySecretName f |}.

(** [buildMiddlewareStack], with the factory it leaves; [tracked] says whether there is a registry. *)
Definition buildMiddlewareStack (tracked : bool) (f : CachingGitHubClientFactory) (clientName : string) (creds : AppCredentials)
    (appInstallationID : Z) (orgLogin : string) : RoundTripper * CachingGitHubClientFactory :=
  let '(rt, f) := match rateLimitStates f !! cr_AppID creds with
    | None => (NewSecondaryLimiter (NewPrimaryLimiter (allocated_states f) DefaultTransport), new_state (cr_AppID creds) f)
    | Some state => (NewRateLimiter state DefaultTransport, f)
    end in
  let rt := AuthorizeGitHubAccess (cr_AppID creds) appInstallationID (cr_PrivateKey creds) (cc_ResilientAuth (factory_config f)) rt in
  let rt := if tracked then RateLimitTracker orgLogin (cr_AppID creds) rt else rt in
  let rt := RetryTransport 5 rt in
  let rt := Pagination 30 rt in
  (Instrumented clientName rt, f).

Definition buildClientWithMiddleware (tracked : bool) (f : CachingGitHubClientFactory) (appInstallationID : Z) (creds : AppCredentials)
    (orgLogin : string) : res github_Client * CachingGitHubClientFactory :=
  let clientName := "github-" +:+ FormatInt appInstallationID in
  let '(rt, f) := buildMiddlewareStack tracked f clientName creds appInstallationID orgLogin in
  (github_NewClient rt (cc_Timeout (factory_config f)), f).
End Factory.

(** ** The factory in its world *)
Class FactoryEnv (W : Type) {P : CryptoPackages} {G : GitHubPackage} := {
  factory : Lens W CachingGitHubClientFactory;
  orgRegistry : Lens W (option Registry);
  factory_clock : W → Z;
  secretProvider : string → prog W (res (option Secret));
  rate_limit_request : GitHubClient → W → res (option RateLimits) * W
}.
(** [GET /rate_limit], one request. *)
Definition GetRateLimit {W} {P : CryptoPackages} {G : GitHubPackage} {E : FactoryEnv W} (c : GitHubClient)
  : prog W (res (option RateLimits)) := call (rate_limit_request c).

Section GetClient.
Context {W : Type} {P : CryptoPackages} {G : GitHubPackage} {E : FactoryEnv W} (o : MapOrder).

Definition change_factory (f : CachingGitHubClientFactory → CachingGitHubClientFactory) : prog W unit :=
  modify (λ w, put factory (f (view factory w)) w).

Definition SetOrgRateLimitRegistry (registry : option Registry) : prog W unit := modify (put orgRegistry registry).

(** [createClient]. *)
Definition cached_credentials (secretName : string) : prog W (res AppCredentials) :=
  let! f := gets (view factory) in
  match credentials f !! secretName with
  | Some creds => Ret (inl creds)
  | None =>
    let! secret := secretProvider secretName in
    match secret with
    | inr err => Ret (inr err)
    | inl None => Ret (inr (EPlain "GitHub app credentials secret cannot be nil"))
    | inl (Some secret) =>
      match parseCredentials secret with
      | inr err => Ret (inr err)
      | inl parsedCreds =>
        let! _ := change_factory (λ f, set_credentials (<[secretName := parsedCreds]> (credentials f)) f) in
        Ret (inl parsedCreds)
      end
    end
  end.

Definition createClient (installationID : Z) (secretName orgLogin : string) : prog W (res github_Client) :=
  let! creds := cached_credentials secretName in
  match creds with
  | inr err => Ret (inr err)
  | inl creds =>
    call (λ w,
      let tracked := bool_decide (is_Some (view orgRegistry w)) in
      let '(c, f) := buildClientWithMiddleware tracked (view factory w) installationID creds orgLogin in
      (c, put factory f w))
  end.

Definition ShouldStall_now (orgLogin : string) (r : Registry) (w : W) : bool * Z := ShouldStall r orgLogin [] (factory_clock w).

(** [checkRateLimit]. *)
Definition rate_limited (delay : Z) : prog W (res GitHubClient) :=
  let! now := gets factory_clock in Ret (inr (ERateLimited (now + delay))).
Definition stall_check (orgLogin : string) : prog W (bool * Z) :=
  gets (λ w, match view orgRegistry w with Some r => ShouldStall_now orgLogin r w | None => (false, 0) end).

Definition checkRateLimit (orgLogin : string) (installationID : Z) (ghClient : GitHubClient) : prog W (res GitHubClient) :=
  let! registry := gets (view orgRegistry) in
  match registry with
  | None => Ret (inl ghClient)
  | Some _ =>
    let! stall := stall_check orgLogin in
    let '(stalled, delay) := stall in
    if stalled : bool then rate_limited delay
    else
      let! stale := gets (λ w, match view orgRegistry w with Some r => IsStale o r orgLogin (factory_clock w) | None => false end) in
      if negb stale then Ret (inl ghClient)
      else
        let! rl := GetRateLimit ghClient in
        match rl with
        | inr _ => Ret (inl ghClient)
        | inl rl =>
          let! _ := modify (λ w, put orgRegistry
            ((λ r, UpdateFromRateLimitResponse r orgLogin rl installationID (factory_clock w)) <$> view orgRegistry w) w) in
          let! stall := stall_check orgLogin in
          let '(stalled, delay) := stall in
          if stalled : bool then rate_limited delay else Ret (inl ghClient)
        end
  end.

Definition getCachedClient (cacheKey secretName : string) (f : CachingGitHubClientFactory) : option GitHubClient :=
  match clients f !! cacheKey with
  | Some info => if bool_decide (ci_SecretName info = secretName) then Some (ci_Client info) else None
  | None => None
  end.

(** The part of [GetClient] under the write lock, up to the rate limit check; a client with another secret is
    evicted. *)
Definition client_under_lock (cacheKey secretName : string) (app : AppConfig) : prog W (res GitHubClient) :=
  let! f := gets (view factory) in
  match getCachedClient cacheKey secretName f with
  | Some c => Ret (inl c)
  | None =>
    let! _ := change_factory (λ f, set_clients (delete cacheKey (clients f)) f) in
    let! created := createClient (ac_InstallationID app) secretName cacheKey in
    match created with
    | inr err => Ret (inr (EWrap ("failed to create GitHub client for key " +:+ cacheKey) err))
    | inl ghClient =>
      let ttl := cc_ResponseCacheTTL (factory_config f) in
      let clientToCache :=
        if 0 <? ttl then NewCachingGitHubClient (GitHubClientWrapper ghClient) ttl else GitHubClientWrapper ghClient in
      let! _ := change_factory (λ f, set_clients (<[cacheKey := {|
        ci_Client := clientToCache; ci_InstallationID := ac_InstallationID app; ci_CacheKey := cacheKey;
        ci_SecretName := secretName; ci_OrgLogin := cacheKey |}]> (clients f)) f) in
      Ret (inl clientToCache)
    end
  end.

Definition effective_secret (f : CachingGitHubClientFactory) (app : AppConfig) : string :=
  if bool_decide (ac_CredentialsSecretName app = "") then legacySecretName f else ac_CredentialsSecretName app.

Definition GetClient (cacheKey : string) (app : AppConfig) : prog W (res GitHubClient) :=
  let! secretName := gets (λ w, effective_secret (view factory w) app) in
  let! cached := gets (λ w, getCachedClient cacheKey secretName (view factory w)) in
  match cached with
  | Some c => checkRateLimit cacheKey (ac_InstallationID app) c
  | None =>
    let! created := call (run (client_under_lock cacheKey secretName app)) in
    match created with
    | inr err => Ret (inr err)
    | inl c => checkRateLimit cacheKey (ac_InstallationID app) c
    end
  end.
End GetClient.

(** What the reconcilers and the admission webhook see of the factory. *)
Class GitHubClientManager (W Client : Type) := { manager_GetClient : string → AppConfig → prog W (res Client) }.
Definition factory_manager {W} {P : CryptoPackages} {G : GitHubPackage} {E : FactoryEnv W} (o : MapOrder) :
  GitHubClientManager W GitHubClient := {| manager_GetClient := GetClient o |}.


(** What the manager promises to who asks for a client: a client that serves the organization with the configuration
    asked for, and goes on doing so whatever the manager does later. *)
Class ManagerLaws {W Client} (M : GitHubClientManager W Client) := {
  manager_inv : W → Prop;
  manager_step : relation W;
  manager_step_preorder :: PreOrder manager_step;
  serves : Client → string → AppConfig → W → Prop;
  serves_step c login app w w' : manager_step w w' → serves c login app w → serves c login app w';
  manager_GetClient_spec login app w : manager_inv w →
    let '(r, w') := run (manager_GetClient login app) w in
    manager_inv w' ∧ manager_step w w' ∧ ∀ c, r = inl c → serves c login app w'
}.

(** ** Which client a caller gets *)
Section Invariant.
Context {P : CryptoPackages} {G : GitHubPackage}.

(** The credentials and the rate limit state a transport works with, and the organization it tracks. *)
Fixpoint rt_auth (rt : RoundTripper) : option (Z * Z * PrivateKey) :=
  match rt with
  | AuthorizeGitHubAccess app inst key _ _ => Some (app, inst, key)
  | NewSecondaryLimiter rt | RateLimitTracker _ _ rt | RetryTransport _ rt | Pagination _ rt | Instrumented _ rt => rt_auth rt
  | _ => None
  end.
Fixpoint rt_state (rt : RoundTripper) : option nat :=
  match rt with
  | DefaultTransport => None
  | NewPrimaryLimiter state _ | NewRateLimiter state _ => Some state
  | NewSecondaryLimiter rt | AuthorizeGitHubAccess _ _ _ _ rt | RateLimitTracker _ _ rt | RetryTransport _ rt
  | Pagination _ rt | Instrumented _ rt => rt_state rt
  end.
Fixpoint rt_tracked (rt : RoundTripper) : option string :=
  match rt with
  | RateLimitTracker org _ _ => Some org
  | RetryTransport _ rt | Pagination _ rt | Instrumented _ rt => rt_tracked rt
  | _ => None
  end.

Implicit Types (f : CachingGitHubClientFactory) (c : GitHubClient).

(** The client is one for the organization and the secret: it authenticates with the credentials of the secret,
    counts its requests in the state of their GitHub App, and its headers are recorded for the organization. *)
Definition right_client f (cacheKey secretName : string) c : Prop :=
  ∃ creds inst state,
    credentials f !! secretName = Some creds ∧ rateLimitStates f !! cr_AppID creds = Some state ∧
    rt_auth (transport c) = Some (cr_AppID creds, inst, cr_PrivateKey creds) ∧ rt_state (transport c) = Some state ∧
    ∀ org, rt_tracked (transport c) = Some org → org = cacheKey.

Record factory_ok f : Prop := {
  ok_clients : map_Forall (λ key info, ci_CacheKey info = key ∧ right_client f key (ci_SecretName info) (ci_Client info)) (clients f);
  ok_allocated : map_Forall (λ _ state, (state < allocated_states f)%nat) (rateLimitStates f);
  ok_distinct a b state : rateLimitStates f !! a = Some state → rateLimitStates f !! b = Some state → a = b
}.

(** Credentials and rate limit states are never replaced. *)
Record grows f f' : Prop := {
  grows_credentials : credentials f ⊆ credentials f';
  grows_states : rateLimitStates f ⊆ rateLimitStates f';
  grows_legacy : legacySecretName f' = legacySecretName f
}.
#[export] Instance grows_preorder : PreOrder grows.
Proof. split; [by split|]. intros f1 f2 f3 [? ? ?] [? ? ?]. split; [by etrans..|congruence]. Qed.

Lemma right_client_grows f f' key secret c : grows f f' → right_client f key secret c → right_client f' key secret c.
Proof.
  intros [Hc Hs _] (creds & inst & state & ? & ? & ?). exists creds, inst, state.
  split_and!; [by eapply lookup_weaken|by eapply lookup_weaken|naive_solver..].
Qed.

Lemma clients_grow f f' : grows f f' →
  map_Forall (λ key info, ci_CacheKey info = key ∧ right_client f key (ci_SecretName info) (ci_Client info)) (clients f) →
  map_Forall (λ key info, ci_CacheKey info = key ∧ right_client f' key (ci_SecretName info) (ci_Client info)) (clients f).
Proof. intros Hg H key info Hi. destruct (H key info Hi). split; [done|]. by eapply right_client_grows. Qed.

Lemma factory_ok_delete f key : factory_ok f → factory_ok (set_clients (delete key (clients f)) f) ∧ grows f (set_clients (delete key (clients f)) f).
Proof. intros [Hc Ha Hd]. split; split; try done. by apply map_Forall_delete. Qed.

Lemma factory_ok_credentials f secret creds :
  credentials f !! secret = None → factory_ok f →
  factory_ok (set_credentials (<[secret := creds]> (credentials f)) f) ∧ grows f (set_credentials (<[secret := creds]> (credentials f)) f).
Proof.
  intros Hn [Hc Ha Hd]. assert (grows f (set_credentials (<[secret := creds]> (credentials f)) f)) as Hg.
  { split; [by apply insert_subseteq|done..]. }
  split; [|done]. split; [|done..]. simpl. by apply (clients_grow f).
Qed.

Lemma factory_ok_new_state f app :
  rateLimitStates f !! app = None → factory_ok f → factory_ok (new_state app f) ∧ grows f (new_state app f).
Proof.
  intros Hn [Hc Ha Hd]. assert (grows f (new_state app f)) as Hg by (split; [done|by apply insert_subseteq|done]).
  split; [|done]. split; [by apply (clients_grow f)| |].
  - simpl. apply map_Forall_insert_2; [lia|]. eapply map_Forall_impl; [exact Ha|]. simpl. lia.
  - intros a b state. simpl. rewrite !lookup_insert. repeat case_decide; subst; try done.
    + intros [= <-] Hb. apply Ha in Hb. lia.
    + intros Hb [= <-]. apply Ha in Hb. lia.
    + apply Hd.
Qed.

(** What [buildMiddlewareStack] builds, and what it does to the factory. *)
Lemma buildMiddlewareStack_ok tracked f name creds inst org :
  factory_ok f →
  let '(rt, f') := buildMiddlewareStack tracked f name creds inst org in
  factory_ok f' ∧ grows f f' ∧ credentials f' = credentials f ∧ clients f' = clients f ∧
  rt_auth rt = Some (cr_AppID creds, inst, cr_PrivateKey creds) ∧
  (∃ state, rateLimitStates f' !! cr_AppID creds = Some state ∧ rt_state rt = Some state) ∧
  ∀ org', rt_tracked rt = Some org' → org' = org.
Proof.
  intros Hok. unfold buildMiddlewareStack. destruct (rateLimitStates f !! cr_AppID creds) as [state|] eqn:Hs.
  - split_and!; [done|reflexivity|done..|by destruct tracked|exists state; by destruct tracked|].
    destruct tracked; [by intros ? [= <-]|done].
  - destruct (factory_ok_new_state f (cr_AppID creds) Hs Hok). split_and!; [done..|by destruct tracked| |].
    + exists (allocated_states f). split; [by apply lookup_insert_eq|by destruct tracked].
    + destruct tracked; [by intros ? [= <-]|done].
Qed.
End Invariant.

(** ** GetClient *)
Section GetClientSpec.
Context {W : Type} {P : CryptoPackages} {G : GitHubPackage} {E : FactoryEnv W} (o : MapOrder).

(** The registry is not part of the factory, and neither Kubernetes nor GitHub see it. *)
Class FactoryLaws : Prop := {
  put_registry_factory r w : view factory (put orgRegistry r w) = view factory w;
  secret_factory name w : view factory (run (secretProvider name) w).2 = view factory w;
  rate_limit_factory c w : view factory (rate_limit_request c w).2 = view factory w
}.
Context {L : FactoryLaws}.

Definition factory_inv (w : W) : Prop := factory_ok (view factory w).
Definition factory_step (w w' : W) : Prop := grows (view factory w) (view factory w').
#[local] Instance factory_step_preorder : PreOrder factory_step.
Proof. split; [intros w; unfold factory_step; reflexivity|]. intros w1 w2 w3. unfold factory_step. apply transitivity. Qed.

Lemma same_factory w w' : view factory w' = view factory w → factory_inv w → factory_inv w' ∧ factory_step w w'.
Proof. unfold factory_inv, factory_step. by intros ->. Qed.

Lemma cached_credentials_run secret w :
  factory_inv w →
  let '(r, w') := run (cached_credentials secret) w in
  factory_inv w' ∧ factory_step w w' ∧ clients (view factory w') = clients (view factory w) ∧
  ∀ creds, r = inl creds → credentials (view factory w') !! secret = Some creds.
Proof.
  intros Hok. unfold cached_credentials. rewrite run_bind, run_gets.
  destruct (credentials (view factory w) !! secret) as [creds|] eqn:Hc.
  { split_and!; [done|reflexivity|done|]. by intros ? [= <-]. }
  rewrite run_bind. pose proof (secret_factory secret w) as Hs.
  destruct (run (secretProvider secret) w) as [[[data|]|err] w1]; cbn [snd] in Hs; cbn [run].
  2,3: destruct (same_factory w w1 Hs Hok); split_and!; [done..|by rewrite Hs|done].
  destruct (parseCredentials data) as [creds|err].
  2: destruct (same_factory w w1 Hs Hok); split_and!; [done..|by rewrite Hs|done].
  unfold change_factory. rewrite run_bind, run_modify. cbn [run]. unfold factory_inv, factory_step. rewrite view_put, Hs.
  destruct (factory_ok_credentials (view factory w) secret creds Hc Hok). split_and!; [done..|].
  intros ? [= <-]. apply lookup_insert_eq.
Qed.

Lemma createClient_run inst secret org w :
  factory_inv w →
  let '(r, w') := run (createClient inst secret org) w in
  factory_inv w' ∧ factory_step w w' ∧ clients (view factory w') = clients (view factory w) ∧
  ∀ c, r = inl c → right_client (view factory w') org secret (GitHubClientWrapper c).
Proof.
  intros Hok. unfold createClient. rewrite run_bind. pose proof (cached_credentials_run secret w Hok) as Hcr.
  destruct (run (cached_credentials secret) w) as [[creds|err] w1]; destruct Hcr as (Hok1 & Hg1 & Hc1 & Hcr); [|done].
  rewrite run_call. unfold buildClientWithMiddleware.
  pose proof (buildMiddlewareStack_ok (bool_decide (is_Some (view orgRegistry w1))) (view factory w1) ("github-" +:+ FormatInt inst)
    creds inst org Hok1) as Hb.
  destruct (buildMiddlewareStack _ _ _ _ _ _) as [rt f]. destruct Hb as (Hokf & Hgf & Hcf & Hclf & Hauth & (state & Hst & Hrt) & Htr).
  unfold factory_inv, factory_step in *. rewrite view_put. split_and!; [done|by etrans|congruence|].
  intros c Hc. apply NewClient_transport in Hc. exists creds, inst, state. simpl. rewrite Hc. split_and!; [|done..].
  rewrite Hcf. by apply Hcr.
Qed.

Lemma client_under_lock_run key secret app w :
  factory_inv w →
  let '(r, w') := run (client_under_lock key secret app) w in
  factory_inv w' ∧ factory_step w w' ∧
  ∀ c, r = inl c → right_client (view factory w') key secret c ∧ getCachedClient key secret (view factory w') = Some c.
Proof.
  intros Hok. unfold client_under_lock. rewrite run_bind, run_gets. destruct (getCachedClient key secret _) as [c|] eqn:Hc.
  { split_and!; [done|reflexivity|]. intros c' [= <-]. split; [|done]. unfold getCachedClient in Hc.
    destruct (clients (view factory w) !! key) as [info|] eqn:Hi; [|done]. case_bool_decide as Hsec; [|done]. simplify_eq.
    by destruct (ok_clients _ Hok key info Hi). }
  unfold change_factory. rewrite run_bind, run_modify. destruct (factory_ok_delete (view factory w) key Hok) as [Hok0 Hg0].
  set (w0 := put factory _ w). assert (factory_inv w0) as Hinv0 by (unfold factory_inv, w0; by rewrite view_put).
  assert (factory_step w w0) as Hstep0 by (unfold factory_step, w0; by rewrite view_put).
  cbv zeta. rewrite run_bind. pose proof (createClient_run (ac_InstallationID app) secret key w0 Hinv0) as Hcr.
  destruct (run (createClient _ _ _) w0) as [[ghc|err] w1]; destruct Hcr as (Hok1 & Hg1 & Hcl1 & Hright).
  2:{ cbn [run]. split_and!; [done|by etrans|done]. }
  specialize (Hright ghc eq_refl). set (c := if _ <? _ then _ else _).
  assert (right_client (view factory w1) key secret c) as Hrc by (unfold c; by case_match).
  rewrite run_bind, run_modify. cbn [run]. unfold factory_inv, factory_step. rewrite view_put.
  assert (grows (view factory w1) (set_clients (<[key := {| ci_Client := c; ci_InstallationID := ac_InstallationID app;
    ci_CacheKey := key; ci_SecretName := secret; ci_OrgLogin := key |}]> (clients (view factory w1))) (view factory w1))) as Hgl by by split.
  split_and!.
  - destruct Hok1 as [Hc1 Ha1 Hd1]. split; [|done..]. simpl. by apply map_Forall_insert_2.
  - etrans; [exact Hstep0|]. by etrans.
  - intros c' [= <-]. split; [by eapply right_client_grows|]. unfold getCachedClient. simpl.
    rewrite lookup_insert_eq. simpl. by rewrite bool_decide_eq_true_2.
Qed.

(** The gate hands on the client it was given, or nothing. *)
Lemma checkRateLimit_guards org inst c w :
  guards factory_inv factory_step (λ r _, ∀ c', r = inl c' → c' = c) (checkRateLimit o org inst c) w.
Proof.
  assert (∀ d w, guards factory_inv factory_step (λ (r : res GitHubClient) _, ∀ c', r = inl c' → c' = c) (rate_limited d) w) as Hlim.
  { intros d w0. apply (guards_bind factory_inv factory_step), (guards_gets factory_inv factory_step). by intros w1 _ _ w2 _ _ w3 _ _ c' [=]. }
  assert (∀ r w, r = c → guards factory_inv factory_step (λ (r : res GitHubClient) _, ∀ c', r = inl c' → c' = c) (Ret (inl r)) w) as Hret.
  { intros r w0 -> w1 _ _. by intros c' [= <-]. }
  unfold checkRateLimit. apply (guards_bind factory_inv factory_step), (guards_gets factory_inv factory_step).
  intros w1 _ _ w2 _ _. destruct (view orgRegistry w1) as [r|]; [|by apply Hret].
  apply (guards_bind factory_inv factory_step), (guards_gets factory_inv factory_step). intros w3 _ _ w4 _ _.
  destruct (match view orgRegistry w3 with Some r => _ | None => _ end) as [[|] d]; [apply Hlim|].
  apply (guards_bind factory_inv factory_step), (guards_gets factory_inv factory_step). intros w5 _ _ w6 _ _.
  destruct (match view orgRegistry w5 with Some r => _ | None => _ end); [|by apply Hret]. cbn [negb].
  apply (guards_bind factory_inv factory_step), (guards_call factory_inv factory_step). intros w7 _ HI7.
  destruct (same_factory w7 (rate_limit_request c w7).2) as [HI8 HG8]; [apply rate_limit_factory|done|]. split_and!; [done..|].
  intros w9 _ _. destruct (rate_limit_request c w7).1 as [rl|err]; [|by apply Hret].
  apply (guards_bind factory_inv factory_step), (guards_call factory_inv factory_step). intros w10 _ HI10. cbn [fst snd].
  set (w11 := put orgRegistry _ w10). destruct (same_factory w10 w11) as [HI11 HG11]; [apply put_registry_factory|done|].
  split_and!; [done..|]. intros w12 _ _. apply (guards_bind factory_inv factory_step), (guards_gets factory_inv factory_step).
  intros w13 _ _ w14 _ _. destruct (match view orgRegistry w13 with Some r => _ | None => _ end) as [[|] d']; [apply Hlim|by apply Hret].
Qed.

Definition right_result (key : string) (app : AppConfig) (r : res GitHubClient) (w : W) : Prop :=
  ∀ c, r = inl c → right_client (view factory w) key (effective_secret (view factory w) app) c.

Lemma GetClient_guards key app w : guards factory_inv factory_step (right_result key app) (GetClient o key app) w.
Proof.
  assert (∀ c secret w, (∀ w', factory_step w w' → effective_secret (view factory w') app = secret) →
    right_client (view factory w) key secret c →
    guards factory_inv factory_step (right_result key app) (checkRateLimit o key (ac_InstallationID app) c) w) as Hgate.
  { intros c secret w0 Hs Hr. eapply (guards_mono factory_inv factory_step); [|apply checkRateLimit_guards].
    intros r w1 Hg _ Hc c' ->. rewrite (Hc c' eq_refl), (Hs w1 Hg). by eapply right_client_grows. }
  unfold GetClient. apply (guards_bind factory_inv factory_step), (guards_gets factory_inv factory_step). intros w1 _ _ w2 Hg2 _.
  set (secret := effective_secret (view factory w1) app).
  assert (∀ w', factory_step w2 w' → effective_secret (view factory w') app = secret) as Hsec.
  { intros w' Hg. unfold secret, effective_secret. by rewrite (grows_legacy _ _ Hg), (grows_legacy _ _ Hg2). }
  apply (guards_bind factory_inv factory_step), (guards_gets factory_inv factory_step). intros w3 Hg3 HI3 w4 Hg4 HI4.
  destruct (getCachedClient key secret (view factory w3)) as [c|] eqn:Hc.
  - apply (Hgate c secret); [intros w' Hg; apply Hsec; etrans; [exact Hg3|by etrans]|].
    unfold getCachedClient in Hc. destruct (clients (view factory w3) !! key) as [info|] eqn:Hi; [|done].
    case_bool_decide as Hs; [|done]. simplify_eq. destruct (ok_clients _ HI3 key info Hi) as [_ Hr]. rewrite Hs in Hr.
    by eapply right_client_grows.
  - apply (guards_bind factory_inv factory_step), (guards_call factory_inv factory_step). intros w5 Hg5 HI5.
    pose proof (client_under_lock_run key secret app w5 HI5) as Hl. destruct (run (client_under_lock key secret app) w5) as [r w6].
    destruct Hl as (HI6 & Hg6 & Hr). cbn [fst snd]. split_and!; [done..|]. intros w7 Hg7 _. destruct r as [c|err].
    + destruct (Hr c eq_refl) as [Hr' _]. apply (Hgate c secret); [|by eapply right_client_grows].
      intros w' Hg. apply Hsec. etrans; [exact Hg3|]. etrans; [exact Hg4|]. etrans; [exact Hg5|]. etrans; [exact Hg6|]. by etrans.
    + intros w8 _ _ c. done.
Qed.

(** C5: whoever asks the factory for a client gets one for its own organization and credentials, however many
    callers ask at the same time and in whatever order their steps run: the client authenticates as the GitHub App
    of the secret asked for (the legacy one if none is named), its responses are recorded for that organization
    only, and all clients of one App count their requests in one rate limit state that no other App uses. *)
Theorem GetClient_right_client sched (requests : list (string * AppConfig)) w :
  factory_inv w →
  let '(rs, w') := run_threads sched ((λ '(key, app), GetClient o key app) <$> requests) w in
  factory_inv w' ∧ Forall2 (λ '(key, app) r, right_result key app r w') requests rs.
Proof.
  intros HI.
  assert (Forall2 (λ Q t, guards factory_inv factory_step Q t w) ((λ '(key, app), right_result key app) <$> requests)
    ((λ '(key, app), GetClient o key app) <$> requests)) as Hg.
  { clear HI. induction requests as [|[key app] requests IH]; constructor; [apply GetClient_guards|done]. }
  pose proof (run_threads_guards factory_inv factory_step sched _ _ w HI Hg) as H.
  destruct (run_threads _ _ w) as [rs w']. destruct H as (HI' & _ & Hrs). split; [done|].
  rewrite Forall2_fmap_l in Hrs. eapply Forall2_impl; [exact Hrs|]. by intros [key app] r.
Qed.

(** The factory keeps the promise of a manager. *)
#[export] Instance factory_manager_laws : ManagerLaws (factory_manager o).
Proof.
  refine {| manager_inv := factory_inv; manager_step := factory_step; manager_step_preorder := factory_step_preorder;
    serves c login app w := right_client (view factory w) login (effective_secret (view factory w) app) c |}.
  - intros c login app w w' Hg Hr. unfold effective_secret. rewrite (grows_legacy _ _ Hg). by eapply right_client_grows.
  - intros login app w HI. pose proof (guards_run_result factory_inv factory_step _ _ w HI (GetClient_guards login app w)) as H.
    change (manager_GetClient login app) with (GetClient o login app). unfold right_result in H. destruct (run (GetClient o login app) w) as [r w']. simpl in H. exact H.
Defined.
End GetClientSpec.

(** ** The gate *)
Section Gate.
Context {W : Type} {P : CryptoPackages} {G : GitHubPackage} {E : FactoryEnv W} (o : MapOrder).

(** While the registry says that an organization has to wait, asking for its cached client makes no call at all
    and changes nothing; the error says when the wait ends, and the controllers requeue the resource for that
    time, but not within less than half a minute. *)
Theorem GetClient_stalled key app r d c w policy_now :
  view orgRegistry w = Some r → ShouldStall r key [] (factory_clock w) = (true, d) →
  getCachedClient key (effective_secret (view factory w) app) (view factory w) = Some c →
  ∃ err, run (GetClient o key app) w = (inr err, w) ∧
    OnFactoryError false policy_now err =
      (requeue_after (Z.max (sat64 (factory_clock w + d - policy_now)) minRateLimitRequeueDelay), None).
Proof.
  intros Hr Hs Hc. exists (ERateLimited (factory_clock w + d)). split; [|done].
  unfold GetClient. rewrite !run_bind, run_gets. step_run. rewrite run_bind, run_gets, Hc. unfold checkRateLimit.
  rewrite run_bind, run_gets, Hr. unfold stall_check. rewrite run_bind, run_gets, Hr. unfold ShouldStall_now. rewrite Hs.
  unfold rate_limited. by rewrite run_bind, run_gets.
Qed.
End Gate.

(** ** Credentials *)
Section CredentialsSpec.
Context {P : CryptoPackages}.

(** A number of a GitHub App. *)
Definition valid_app_id (id : Z) : Prop := 0 < id ≤ max_int64.

Lemma parseAppID_range s id : parseAppID s = inl id → valid_app_id id.
Proof.
  unfold parseAppID. case_bool_decide; [done|]. destruct (ParseInt s) as [z|] eqn:Hz; [|done].
  apply ParseInt_range in Hz. destruct Hz as [_ Hz]. case_match eqn:Hle; [done|]. intros [= <-]. apply Z.leb_gt in Hle. by split.
Qed.

Lemma parseAppID_FormatInt id : valid_app_id id → parseAppID (FormatInt id) = inl id.
Proof.
  intros [H1 H2]. unfold parseAppID. rewrite bool_decide_eq_false_2.
  - rewrite ParseInt_FormatInt by (split; unfold min_int64; lia). by rewrite (proj2 (Z.leb_gt _ _)).
  - intros He. pose proof (ParseInt_FormatInt id) as Hp. rewrite He in Hp. specialize (Hp ltac:(split; unfold min_int64; lia)). done.
Qed.

(** C37: exactly the secrets with usable credentials are accepted: what parses has a positive app id of 64 bits and
    an RSA key of at least 2048 bits, and a secret that holds the decimal number of an app and such a key in PEM
    form parses to them. *)
Theorem parseCredentials_spec (secret : Secret) :
  (∀ creds, parseCredentials secret = inl creds →
    valid_app_id (cr_AppID creds) ∧ 2048 ≤ 8 * key_Size (cr_PrivateKey creds) ∧
    ∃ text block, secret !! "private-key" = Some text ∧ pem_Decode text = Some ("RSA PRIVATE KEY", block) ∧
      ParsePKCS1PrivateKey block = inl (cr_PrivateKey creds)) ∧
  (∀ id text block key, valid_app_id id → secret !! "app-id" = Some (FormatInt id) → secret !! "private-key" = Some text →
    text ≠ "" → pem_Decode text = Some ("RSA PRIVATE KEY", block) → ParsePKCS1PrivateKey block = inl key → 256 ≤ key_Size key →
    parseCredentials secret = inl {| cr_AppID := id; cr_PrivateKey := key |}).
Proof.
  split.
  - intros creds. unfold parseCredentials. destruct (_ || _) eqn:Hempty; [done|]. apply orb_false_iff in Hempty as [_ Hk].
    destruct (parseAppID _) as [id|] eqn:Hid; [|done]. apply parseAppID_range in Hid.
    destruct (secret !! "private-key") as [text|] eqn:Ht; [|done]. simpl in *.
    unfold parseGithubPrivateKey. rewrite Hk. destruct (pem_Decode text) as [[ty block]|] eqn:Hpem; [|done].
    destruct (bool_decide (ty = "RSA PRIVATE KEY")) eqn:Hty; [|done]. apply bool_decide_eq_true in Hty. subst ty. cbn [negb].
    destruct (ParsePKCS1PrivateKey block) as [key|] eqn:Hkey; [|done].
    destruct (Z.ltb_spec (key_Size key) 256); [done|]. intros [= <-]. simpl. split_and!; [done..|lia|]. by exists text, block.
  - intros id text block key Hid Ha Ht Hne Hpem Hkey Hsize. unfold parseCredentials. rewrite Ha, Ht. simpl.
    pose proof (parseAppID_FormatInt id Hid) as Hp. rewrite (bool_decide_eq_false_2 (FormatInt id = "")).
    2:{ intros He. rewrite He in Hp. done. }
    rewrite (bool_decide_eq_false_2 (text = "")) by done. simpl. rewrite Hp. unfold parseGithubPrivateKey.
    rewrite (bool_decide_eq_false_2 (text = "")) by done. rewrite Hpem, bool_decide_eq_true_2 by done. cbn [negb].
    rewrite Hkey. by rewrite (proj2 (Z.ltb_ge _ _)).
Qed.
End CredentialsSpec.

(** ** A concrete factory *)
Module ToyFactory.
(** Keys are numbers of bits. *)
#[export] Instance crypto : CryptoPackages := {
  PrivateKey := Z;
  pem_Decode s := match s with "PEM" => Some ("RSA PRIVATE KEY", "2048") | _ => None end;
  ParsePKCS1PrivateKey s := match ParseInt s with inl z => inl z | inr e => inr e end;
  key_Size k := k / 8
}.
Lemma new_client_transport (rt : RoundTripper) (timeout : Z) (c : RoundTripper) : (inl rt : res RoundTripper) = inl c → c = rt.
Proof. by intros [= ->]. Qed.
#[export] Instance package : GitHubPackage := {|
  github_Client := RoundTripper;
  github_NewClient rt timeout := inl rt;
  Transport_of c := c;
  NewClient_transport := new_client_transport
|}.

Record world := { fac : CachingGitHubClientFactory; reg : option Registry; time : Z }.
Definition fac_lens : Lens world CachingGitHubClientFactory :=
  {| view := fac; put f w := {| fac := f; reg := reg w; time := time w |}; view_put _ _ := eq_refl |}.
Definition reg_lens : Lens world (option Registry) :=
  {| view := reg; put r w := {| fac := fac w; reg := r; time := time w |}; view_put _ _ := eq_refl |}.

(** One secret per name, all of the same App. *)
Definition app_secret : res (option Secret) := inl (Some (list_to_map [("app-id", "42"); ("private-key", "PEM")])).
Definition quota : res (option RateLimits) :=
  inl (Some {| rl_Core := Some {| rate_Remaining := 4000; rate_Limit := 5000; rate_Reset := 3600 * Second |};
               rl_GraphQL := None; rl_Search := None; rl_CodeSearch := None |}).
#[export] Instance env : FactoryEnv world := {
  factory := fac_lens;
  orgRegistry := reg_lens;
  factory_clock := time;
  secretProvider name := Ret app_secret;
  rate_limit_request c w := (quota, w)
}.
Lemma env_laws : FactoryLaws.
Proof. by split. Qed.

Definition start : world := {|
  fac := NewGitHubCachingClientFactory None "legacy"; reg := Some (NewOrgRateLimitRegistryFromConfig default_config); time := 0 |}.
Lemma start_ok : factory_inv start.
Proof. split; [apply map_Forall_empty|apply map_Forall_empty|done]. Qed.

Definition app (inst : Z) (secret : string) : AppConfig := {| ac_InstallationID := inst; ac_CredentialsSecretName := secret |}.
Definition one_client : world := (run (GetClient default_order "acme" (app 7 "creds")) start).2.
(** Later, the registry knows of an exhausted quota. *)
Definition exhausted : world := {| fac := fac one_client; reg := Some demo_registry; time := 0 |}.
End ToyFactory.
Import ToyFactory.

Lemma GetClient_right_client_witness :
  factory_inv (run_threads [0; 1; 1; 0; 2; 0; 2; 1]%nat
    ((λ '(key, app), GetClient default_order key app) <$> [("acme", app 7 ""); ("acme", app 7 "creds"); ("beta", app 8 "creds")]) start).2.
Proof.
  pose proof (GetClient_right_client (W := world) (P := crypto) (G := package) (E := env) (L := env_laws) default_order [0; 1; 1; 0; 2; 0; 2; 1]%nat
    [("acme", app 7 ""); ("acme", app 7 "creds"); ("beta", app 8 "creds")] start start_ok) as H.
  destruct (run_threads _ _ _) as [rs w]. exact (proj1 H).
Defined.

Definition acme_cached : bool :=
  match getCachedClient "acme" (effective_secret (fac exhausted) (app 7 "creds")) (fac exhausted) with Some _ => true | None => false end.

Lemma GetClient_stalled_witness :
  (run (GetClient default_order "acme" (app 7 "creds")) exhausted).2 = exhausted.
Proof.
  assert (acme_cached = true) as Hcached by (vm_compute; reflexivity). unfold acme_cached in Hcached.
  destruct (getCachedClient _ _ _) as [c|] eqn:Hc; [|discriminate Hcached].
  destruct (GetClient_stalled (E := env) default_order "acme" (app 7 "creds") demo_registry (610 * Second) c exhausted 0 eq_refl
    ltac:(vm_compute; reflexivity) Hc) as (err & Hrun & _).
  by rewrite Hrun.
Defined.

Lemma parseCredentials_spec_witness :
  parseCredentials (P := crypto) (list_to_map [("app-id", "42"); ("private-key", "PEM")]) =
    inl (Build_AppCredentials crypto 42 2048).
Proof.
  apply (proj2 (parseCredentials_spec (P := crypto) _) 42 "PEM" "2048" 2048); try reflexivity; try discriminate. split; [lia|]. unfold max_int64. lia.
Defined.

(** A changed installation id has no effect while the client is cached: its requests go on with the old one. *)
Lemma installation_change_ignored :
  let '(r, _) := run (GetClient default_order "acme" (app 8 "creds")) one_client in
  match r with inl c => rt_auth (transport c) = Some (42, 7, 2048) | inr _ => False end.
Proof. vm_compute. reflexivity. Qed.

(** The gate records the installation id where the registry expects the id of the App. *)
Lemma installation_recorded_as_app :
  (states <$> reg one_client) ≫= (λ l, AppID <$> l !! "acme") = Some 7.
Proof. vm_compute. reflexivity. Qed.
