(* ===== verification/Validation.v ===== *)
(** * Admission validation

    internal/webhook/v1alpha1: which organizations and repositories the API server accepts.  A field error keeps the
    path of the field and the values it reports; [errors.NewInvalid] is the list of them. *)
From S2P Require Import Prelude GoErrors GoStrings Conditions ApiTypes Merge Webhooks CustomProps ClientFactory.

(** ** Field errors (k8s.io/apimachinery/pkg/util/validation/field) *)
Inductive PathElement := Child (name : string) | Index (i : nat).
Abbreviation Path := (list PathElement).

Inductive FieldError :=
  | ErrorRequired (p : Path) (detail : string)
  | ErrorInvalid (p : Path) (value : list string) (detail : string)
  | ErrorForbidden (p : Path) (detail : string)
  | ErrorDuplicate (p : Path) (value : string)
  | ErrorNotSupported (p : Path) (value : string) (supported : list string)
  | ErrorInternal (p : Path) (detail : string).

(** The outcome of a validation: invalid fields, or an error on the way. *)
Inductive Rejection := Invalid (errs : list FieldError) | Failure (err : gerror).

Definition spec_path : Path := [Child "spec"].

(** ** shared.go *)
Definition actualValueValidation : string := "value".
Definition defaultValueValidation : string := "default value".

(** [CustomPropertyValueProvider]; both methods may be called on nil. *)
Record CustomPropertyValueProvider := { GetValue : option string; GetValues : list string }.
Definition provider_of_default (d : option OrgCustomPropertyDefaultValue) : CustomPropertyValueProvider :=
  match d with
  | None => {| GetValue := None; GetValues := [] |}
  | Some d => {| GetValue := dv_Value d; GetValues := dv_Values d |}
  end.
Definition provider_of_value (v : CustomPropertyValue) : CustomPropertyValueProvider :=
  {| GetValue := cpv_Value v; GetValues := cpv_Values v |}.

Definition not_in (allowed : list string) (v : string) : bool := negb (bool_decide (v ∈ allowed)).

Definition validateValueAgainstValueTypeAndAllowedValues (validationType : string) (rawCp : CustomPropertyValueProvider)
    (valueType : string) (allowedValues : option (list string)) (validatedField : Path) : list FieldError :=
  let allowed := WithDefault allowedValues [] in
  if bool_decide (valueType ∈ ["string"; "url"]) then []
  else if bool_decide (valueType = "true_false") then
    match GetValue rawCp with
    | Some v => if not_in ["true"; "false"] v then [ErrorNotSupported validatedField v ["true"; "false"]] else []
    | None => []
    end
  else if bool_decide (valueType = "single_select") then
    match GetValue rawCp with
    | Some v => if not_in allowed v then [ErrorNotSupported validatedField v allowed] else []
    | None => []
    end
  else if bool_decide (valueType = "multi_select") then
    match GetValue rawCp with
    | Some v => [ErrorInvalid validatedField (v :: GetValues rawCp)
                  (validationType +:+ " for custom property of type multi_select must be an array given as 'values'")]
    | None => (λ v, ErrorNotSupported validatedField v allowed) <$> filter (λ v, not_in allowed v = true) (GetValues rawCp)
    end
  else [ErrorInternal validatedField ("failed to validate " +:+ validationType +:+
         " against value_type because organization custom property has invalid value type: " +:+ valueType)].

(** ** organization_webhook.go *)
Definition validateCustomPropertyAllowedValues (property : OrgCustomProperty) (allowedValuesField : Path) : option FieldError :=
  if bool_decide (cp_ValueType property ∈ ["single_select"; "multi_select"]) then
    if bool_decide (WithDefault (cp_AllowedValues property) [] = []) then
      Some (ErrorRequired allowedValuesField "allowed_values must be set for custom properties with value_type 'single_select' or 'multi_select'")
    else None
  else match cp_AllowedValues property with
  | Some l => Some (ErrorInvalid allowedValuesField l "allowed_values must not be set for custom properties with value_type 'string' or 'true_false'")
  | None => None
  end.

Definition validateDefaultValue (propDefinition : OrgCustomProperty) (validatedField : Path) : list FieldError :=
  validateValueAgainstValueTypeAndAllowedValues defaultValueValidation (provider_of_default (cp_DefaultValue propDefinition))
    (cp_ValueType propDefinition) (cp_AllowedValues propDefinition) validatedField.

Definition default_text (d : OrgCustomPropertyDefaultValue) : list string :=
  match dv_Value d with Some v => v :: dv_Values d | None => dv_Values d end.
Definition validateCustomPropertyDefaultValues (property : OrgCustomProperty) (defaultValueField : Path) : list FieldError :=
  let required := WithDefault (cp_Required property) false in
  match required, cp_DefaultValue property with
  | true, None => [ErrorRequired defaultValueField "default_value must be set for required custom properties"]
  | false, Some d => [ErrorInvalid defaultValueField (default_text d) "default_value must not be set for non-required custom properties"]
  | _, _ => validateDefaultValue property defaultValueField
  end.

(** One iteration of the loop of [validateCustomProperties]: the errors, and the index of the last repetition of
    each name. *)
Definition property_errors (customPropertiesField : Path) (index : nat) (property : OrgCustomProperty) : list FieldError :=
  let currentField := customPropertiesField ++ [Index index] in
  option_list (validateCustomPropertyAllowedValues property (currentField ++ [Child "allowed_values"])) ++
  validateCustomPropertyDefaultValues property (currentField ++ [Child "default_value"]).

Fixpoint duplicate_names (index : nat) (seen : gset string) (duplicates : gmap string nat) (l : list OrgCustomProperty)
    : gmap string nat :=
  match l with
  | [] => duplicates
  | property :: l =>
    duplicate_names (S index) ({[ cp_PropertyName property ]} ∪ seen)
      (if bool_decide (cp_PropertyName property ∈ seen) then <[cp_PropertyName property := index]> duplicates else duplicates) l
  end.

Section Organization.
Context (o : MapOrder).

Definition validateCustomProperties (customProperties : list OrgCustomProperty) (customPropertiesField : Path) : list FieldError :=
  concat (imap (property_errors customPropertiesField) customProperties) ++
  ((λ '(duplicate, index), ErrorDuplicate (customPropertiesField ++ [Index index; Child "property_name"]) duplicate) <$>
    range o (duplicate_names 0 ∅ ∅ customProperties)).

Definition PlanTeam : string := "team".

Definition validatePlanFeatureCombinations (organization : Organization) : list FieldError :=
  let plan := o_Plan (o_Spec organization) in
  if bool_decide (plan = "") || bool_decide (plan = PlanEnterprise) then []
  else
    (if negb (bool_decide (plan = PlanTeam)) && negb (bool_decide (o_RulesetPresetList (o_Spec organization) = [])) then
      [ErrorForbidden (spec_path ++ [Child "rulesetPresets"])
        ("organization rulesets require the 'enterprise' or 'team' plan, but plan is '" +:+ plan +:+ "'")] else []) ++
    (if negb (bool_decide (plan = PlanTeam)) && negb (bool_decide (o_Rulesets (o_Spec organization) = [])) then
      [ErrorForbidden (spec_path ++ [Child "rulesets"])
        ("organization rulesets require the 'enterprise' or 'team' plan, but plan is '" +:+ plan +:+ "'")] else []) ++
    (if negb (bool_decide (0 = length (o_CodeSecurityConfigurations (o_Spec organization)))%nat) then
      [ErrorForbidden (spec_path ++ [Child "codeSecurityConfigurations"])
        ("code security configurations require the 'enterprise' plan, but plan is '" +:+ plan +:+ "'")] else []).

Definition validateGitHubAppConfig (organization : Organization) : list FieldError :=
  match o_GitHubAppConfig (o_Spec organization), o_GitHubAppInstallationId (o_Spec organization) with
  | None, None => [ErrorRequired spec_path "at least one of githubAppConfig or githubAppInstallationId must be set"]
  | _, _ => []
  end.

Definition validateOrganization (organization : Organization) : option Rejection :=
  let allErrs :=
    (if bool_decide (o_Login (o_Spec organization) = "") && bool_decide (o_Name (o_Spec organization) = "") then
      [ErrorRequired spec_path "either 'login' or 'name' must be specified"] else []) ++
    validateCustomProperties (o_CustomProperties (o_Spec organization)) (spec_path ++ [Child "customProperties"]) ++
    validatePlanFeatureCombinations organization ++
    validateGitHubAppConfig organization in
  match allErrs with [] => None | _ => Some (Invalid allErrs) end.

(** [ValidateCreate], [ValidateUpdate] and [ValidateDelete]; a nil object is [None]. *)
Definition Organization_ValidateCreate (organization : option Organization) : option Rejection :=
  match organization with
  | None => Some (Failure (EPlain "expected an Organization object but got nil"))
  | Some organization => validateOrganization organization
  end.
Definition Organization_ValidateUpdate (old organization : option Organization) : option Rejection :=
  match organization with
  | None => Some (Failure (EPlain "expected an Organization object for the new object but got nil"))
  | Some organization => validateOrganization organization
  end.
Definition Organization_ValidateDelete (organization : option Organization) : option Rejection :=
  match organization with
  | None => Some (Failure (EPlain "expected an Organization object but got nil"))
  | Some _ => None
  end.
End Organization.

(** ** repository_webhook.go *)
Section Repository.
Context {GP : GoPackages}.

Definition ignore_errors (i : nat) (ignore : WebhookIgnoreSpec) : list FieldError :=
  let fldPath := spec_path ++ [Child "webhookIgnores"; Index i; Child "ignoreURLRegex"] in
  match wi_IgnoreURLRegex ignore with
  | None | Some "" => [ErrorRequired fldPath "ignoreURLRegex must be set for inline webhook ignores"]
  | Some expr =>
    match regexp_Compile expr with
    | inr _ => [ErrorInvalid fldPath [expr] "invalid regular expression"]
    | inl _ => []
    end
  end.

Definition foreign_namespace (namespace : string) (webhook : WebhookSpec) : bool :=
  match wh_Secret webhook with
  | Some secret =>
    match wss_Namespace secret with
    | Some ns => negb (bool_decide (ns = "")) && negb (bool_decide (ns = namespace))
    | None => false
    end
  | None => false
  end.

Definition webhook_errors (namespace : string) (i : nat) (webhook : WebhookSpec) : list FieldError :=
  let webhookPath := spec_path ++ [Child "webhooks"; Index i] in
  (if foreign_namespace namespace webhook then
    [ErrorForbidden (webhookPath ++ [Child "secret"; Child "namespace"])
      ("inline webhooks may only reference secrets in the repository namespace " +:+ namespace)] else []) ++
  (if strings_Contains (wh_PayloadURL webhook) "{{" then
    match template_Parse (wh_PayloadURL webhook) with
    | inr _ => [ErrorInvalid (webhookPath ++ [Child "payloadUrl"]) [wh_PayloadURL webhook] "invalid template"]
    | inl _ => []
    end
  else []).

Definition validateInlinePresets (repo : Repository) : list FieldError :=
  concat (imap ignore_errors (r_WebhookIgnores (r_Spec repo))) ++
  concat (imap (webhook_errors (Namespace (r_Meta repo))) (r_Webhooks (r_Spec repo))).

Definition validateValueAgainstCustomPropertyDefinition (value : CustomPropertyValue) (propDefinition : gh_CustomProperty)
    (validatedField : Path) : list FieldError :=
  validateValueAgainstValueTypeAndAllowedValues actualValueValidation (provider_of_value value)
    (gp_ValueType propDefinition) (gp_AllowedValues propDefinition) validatedField.

(** The iteration for one definition; GitHub's client returns pointers, [None] is a nil one. *)
Definition definition_errors (rawValuesMap : gmap string CustomPropertyValue) (fldPath : Path) (propDefinition : option gh_CustomProperty)
    : list FieldError :=
  match propDefinition with
  | None => [ErrorInternal fldPath "received nil custom property definition from GitHub"]
  | Some propDefinition =>
    let propertyName := GetPropertyName propDefinition in
    match rawValuesMap !! propertyName with
    | Some rawValue => validateValueAgainstCustomPropertyDefinition rawValue propDefinition (fldPath ++ [Child propertyName])
    | None => []
    end
  end.
Definition validateCustomPropertyValuesHaveCorrectTypes (customPropertyDefinitions : list (option gh_CustomProperty))
    (rawValues : list CustomPropertyValue) (fldPath : Path) : list FieldError :=
  concat (definition_errors (index_by cpv_PropertyName rawValues) fldPath <$> customPropertyDefinitions).

(** The Kubernetes client and the calls of a GitHub client the validator makes. *)
Class ValidatorApi (W Client : Type) := {
  validator_GetOrganization : string → string → prog W (res Organization);
  validator_manager :: GitHubClientManager W Client;
  GetCustomPropertyDefinitions : Client → string → prog W (res (list (option gh_CustomProperty)))
}.
Context {W Client : Type} {A : ValidatorApi W Client}.

Definition during_validation (what : string) (org : string) (repo : Repository) (err : gerror) : option Rejection :=
  Some (Failure (EWrap ("failed to " +:+ what +:+ " organization " +:+ org +:+ " during validation of repository " +:+ Name (r_Meta repo)) err)).

Definition validateRepository (repo : Repository) : prog W (option Rejection) :=
  match validateInlinePresets repo with
  | (_ :: _) as staticErrs => Ret (Some (Invalid staticErrs))
  | [] =>
    let! org := validator_GetOrganization (Namespace (r_Meta repo)) (r_OrganizationRef (r_Spec repo)) in
    match org with
    | inr err => Ret (Some (Failure (EWrap ("failed to fetch organization during validation of repository " +:+ Name (r_Meta repo)) err)))
    | inl org =>
      match GetGitHubAppInstallationID org with
      | inr err => Ret (during_validation "resolve GitHub App installation ID for" (GetLogin org) repo err)
      | inl installationID =>
        let! githubClient := manager_GetClient (GetLogin org)
          {| ac_InstallationID := installationID; ac_CredentialsSecretName := GetGitHubAppCredentialsSecretName org |} in
        match githubClient with
        | inr err => Ret (during_validation "create GitHub client for" (GetLogin org) repo err)
        | inl githubClient =>
          let! definitions := GetCustomPropertyDefinitions githubClient (GetLogin org) in
          match definitions with
          | inr err => Ret (during_validation "fetch custom properties for GitHub" (GetLogin org) repo err)
          | inl definitions =>
            Ret (match validateCustomPropertyValuesHaveCorrectTypes definitions (r_CustomProperties (r_Spec repo))
                         (spec_path ++ [Child "customProperties"]) with
              | [] => None
              | allErrs => Some (Invalid allErrs)
              end)
          end
        end
      end
    end
  end.

Definition Repository_ValidateCreate (repository : option Repository) : prog W (option Rejection) :=
  match repository with
  | None => Ret (Some (Failure (EPlain "expected a Repository object but got nil")))
  | Some repository => validateRepository repository
  end.
Definition Repository_ValidateUpdate (old repository : option Repository) : prog W (option Rejection) :=
  match repository with
  | None => Ret (Some (Failure (EPlain "expected a Repository object for the new object but got nil")))
  | Some repository => validateRepository repository
  end.
Definition Repository_ValidateDelete (repository : option Repository) : option Rejection :=
  match repository with
  | None => Some (Failure (EPlain "expected a Repository object but got nil"))
  | Some _ => None
  end.
End Repository.

(** ** What the webhook accepts as a value *)
(** Only the values that are present are compared: a value that is missing, i.e. a provider with neither a string nor
    a list, is accepted for every type ([null_default_admitted]), although the documentation of the field demands one
    (api/v1alpha1/organization_types.go:73-77). *)
Definition value_conforms (valueType : string) (allowedValues : option (list string)) (v : CustomPropertyValueProvider) : Prop :=
  let allowed := WithDefault allowedValues [] in
  (valueType ∈ ["string"; "url"]) ∨
  (valueType = "true_false" ∧ ∀ x, GetValue v = Some x → x ∈ ["true"; "false"]) ∨
  (valueType = "single_select" ∧ ∀ x, GetValue v = Some x → x ∈ allowed) ∨
  (valueType = "multi_select" ∧ GetValue v = None ∧ ∀ x, x ∈ GetValues v → x ∈ allowed).

Lemma fmap_nil_iff {A B} (f : A → B) l : f <$> l = [] ↔ l = [].
Proof. split; [apply fmap_nil_inv|by intros ->]. Qed.
Lemma app_nil_iff {A} (l1 l2 : list A) : l1 ++ l2 = [] ↔ l1 = [] ∧ l2 = [].
Proof. split; [apply app_eq_nil|by intros [-> ->]]. Qed.

Lemma not_in_false allowed v : not_in allowed v = false ↔ v ∈ allowed.
Proof. unfold not_in. by rewrite negb_false_iff, bool_decide_eq_true. Qed.

(** A value that may be missing but must be in a list. *)
Lemma optional_value_errors (value : option string) (allowed : list string) (e : string → FieldError) :
  match value with Some v => if not_in allowed v then [e v] else [] | None => [] end = [] ↔
  ∀ x, value = Some x → x ∈ allowed.
Proof.
  destruct value as [v|]; [|done]. destruct (not_in allowed v) eqn:Hn.
  - split; [done|]. intros H. specialize (H v eq_refl). apply not_in_false in H. congruence.
  - apply not_in_false in Hn. split; [by intros _ ? [= <-]|done].
Qed.

Lemma validate_value_spec ty v vt allowed p :
  validateValueAgainstValueTypeAndAllowedValues ty v vt allowed p = [] ↔ value_conforms vt allowed v.
Proof.
  unfold validateValueAgainstValueTypeAndAllowedValues, value_conforms. case_bool_decide as Hs; [by split; [left|]|].
  assert (vt ≠ "string" ∧ vt ≠ "url") as [Hs1 Hs2] by set_solver.
  case_bool_decide as Ht; [|case_bool_decide as Hsi; [|case_bool_decide as Hm]].
  - rewrite optional_value_errors. split; [by right; left|]. by intros [?|[[_ H]|[[? _]|[? _]]]]; [..|congruence|congruence].
  - rewrite optional_value_errors. split; [by right; right; left|]. by intros [?|[[? _]|[[_ H]|[? _]]]]; [|congruence|..|congruence].
  - destruct (GetValue v) as [x|].
    + split; [done|]. intros [?|[[? _]|[[? _]|(_ & ? & _)]]]; congruence || done.
    + rewrite fmap_nil_iff. split.
      * intros H. right. right. right. split_and!; [done..|]. intros x Hx. apply not_in_false, not_true_iff_false. intros Hn.
        assert (x ∈ filter (λ v0, not_in (WithDefault allowed []) v0 = true) (GetValues v)) as Hin by by apply list_elem_of_filter.
        rewrite H in Hin. by apply not_elem_of_nil in Hin.
      * intros [?|[[? _]|[[? _]|(_ & _ & H)]]]; [done|congruence..|]. apply elem_of_nil_inv. intros x [Hn Hx]%list_elem_of_filter.
        apply H, not_in_false in Hx. congruence.
  - split; [done|]. intros [?|[[? _]|[[? _]|[? _]]]]; congruence || done.
Qed.

(** ** Organizations *)
Record valid_property (p : OrgCustomProperty) : Prop := {
  vp_allowed : if bool_decide (cp_ValueType p ∈ ["single_select"; "multi_select"]) then WithDefault (cp_AllowedValues p) [] ≠ []
               else cp_AllowedValues p = None;
  vp_default : WithDefault (cp_Required p) false = true ↔ is_Some (cp_DefaultValue p);
  vp_conforms : value_conforms (cp_ValueType p) (cp_AllowedValues p) (provider_of_default (cp_DefaultValue p))
}.

Lemma property_errors_spec f i p : property_errors f i p = [] ↔ valid_property p.
Proof.
  unfold property_errors, validateCustomPropertyAllowedValues, validateCustomPropertyDefaultValues, validateDefaultValue.
  rewrite app_nil_iff. split.
  - intros [Ha Hd]. split.
    + case_bool_decide; [by case_bool_decide|]. by destruct (cp_AllowedValues p).
    + destruct (WithDefault (cp_Required p) false), (cp_DefaultValue p); try done; split; (done || by intros [? [=]]).
    + destruct (WithDefault (cp_Required p) false), (cp_DefaultValue p); try done; by eapply validate_value_spec.
  - intros [Ha Hr Hc]. split.
    + case_bool_decide; [by rewrite bool_decide_eq_false_2|]. by rewrite Ha.
    + eapply validate_value_spec in Hc.
      destruct (WithDefault (cp_Required p) false), (cp_DefaultValue p) as [d|]; try exact Hc.
      * destruct (proj1 Hr eq_refl) as [? [=]].
      * assert (false = true) by (apply Hr; eauto). done.
Qed.

Lemma concat_imap_nil {A B} (f : nat → A → list B) l : concat (imap f l) = [] ↔ ∀ i x, l !! i = Some x → f i x = [].
Proof.
  revert f. induction l as [|x l IH]; intros f; simpl; [done|]. rewrite app_nil_iff, IH. split.
  - intros [H1 H2] [|i] y; simpl; [by intros [= <-]|apply H2].
  - intros H. split; [by apply (H 0%nat)|]. intros i y. apply (H (S i)).
Qed.

Lemma duplicate_names_empty l : ∀ i seen dups,
  duplicate_names i seen dups l = ∅ ↔
    dups = ∅ ∧ NoDup (cp_PropertyName <$> l) ∧ ∀ p, p ∈ l → cp_PropertyName p ∉ seen.
Proof.
  induction l as [|p l IH]; intros i seen dups; simpl.
  { split; [|naive_solver]. intros ->. split_and!; [done|constructor|]. by intros ? ?%not_elem_of_nil. }
  rewrite IH, NoDup_cons. case_bool_decide as Hp.
  - split.
    + intros [H _]. by apply insert_non_empty in H.
    + intros (_ & _ & H). destruct (H p); [apply list_elem_of_here|done].
  - split.
    + intros (-> & Hnd & Hs). split_and!; [done| |done|].
      * intros (q & Hq & Hin)%list_elem_of_fmap. apply Hs in Hin. set_solver.
      * intros q [->|Hq]%elem_of_cons; [done|]. apply Hs in Hq. set_solver.
    + intros (-> & [Hn Hnd] & Hs). split_and!; [done..|]. intros q Hq Hin.
      apply elem_of_union in Hin as [Heq%elem_of_singleton|Hin]; [|by apply (Hs q); [apply list_elem_of_further|]].
      apply Hn. rewrite <-Heq. by apply list_elem_of_fmap_2.
Qed.

Record valid_organization (org : Organization) : Prop := {
  vo_name : o_Login (o_Spec org) ≠ "" ∨ o_Name (o_Spec org) ≠ "";
  vo_distinct : NoDup (cp_PropertyName <$> o_CustomProperties (o_Spec org));
  vo_properties : Forall valid_property (o_CustomProperties (o_Spec org));
  vo_rulesets : o_Plan (o_Spec org) ∈ [""; PlanEnterprise; PlanTeam] ∨
    o_RulesetPresetList (o_Spec org) = [] ∧ o_Rulesets (o_Spec org) = [];
  vo_security : o_Plan (o_Spec org) ∈ [""; PlanEnterprise] ∨ o_CodeSecurityConfigurations (o_Spec org) = [];
  vo_app : is_Some (o_GitHubAppConfig (o_Spec org)) ∨ is_Some (o_GitHubAppInstallationId (o_Spec org))
}.

Lemma validateCustomProperties_spec o l p :
  validateCustomProperties o l p = [] ↔ NoDup (cp_PropertyName <$> l) ∧ Forall valid_property l.
Proof.
  unfold validateCustomProperties. rewrite app_nil_iff, concat_imap_nil, fmap_nil_iff.
  assert (range o (duplicate_names 0 ∅ ∅ l) = [] ↔ duplicate_names 0 ∅ ∅ l = ∅) as ->.
  { split; [|intros ->; apply Permutation_nil_r; by rewrite range_perm, map_to_list_empty].
    intros H. apply map_to_list_empty_iff. apply Permutation_nil_r. by rewrite <-(range_perm o), H. }
  rewrite duplicate_names_empty, Forall_lookup. setoid_rewrite property_errors_spec. naive_solver set_solver.
Qed.

Lemma validatePlan_spec org :
  validatePlanFeatureCombinations org = [] ↔
  (o_Plan (o_Spec org) ∈ [""; PlanEnterprise; PlanTeam] ∨
    o_RulesetPresetList (o_Spec org) = [] ∧ o_Rulesets (o_Spec org) = []) ∧
  (o_Plan (o_Spec org) ∈ [""; PlanEnterprise] ∨ o_CodeSecurityConfigurations (o_Spec org) = []).
Proof.
  unfold validatePlanFeatureCombinations. set (plan := o_Plan (o_Spec org)). destruct (_ || _) eqn:He.
  - apply orb_true_iff in He as [->%bool_decide_eq_true| ->%bool_decide_eq_true]; (split; [|done]); intros _; set_solver.
  - apply orb_false_iff in He as [H1%bool_decide_eq_false H2%bool_decide_eq_false]. rewrite !app_nil_iff.
    assert (plan ∈ [""; PlanEnterprise; PlanTeam] ↔ plan = PlanTeam) as -> by set_solver.
    assert (¬ plan ∈ [""; PlanEnterprise]) as Hne by set_solver.
    destruct (o_CodeSecurityConfigurations (o_Spec org)) as [|? ?]; simpl; [|naive_solver].
    case_bool_decide as Ht; simpl; [naive_solver|]. repeat case_bool_decide; naive_solver.
Qed.

(** C11: the webhook accepts exactly the valid organizations: one with a login or a name and an installation of the
    GitHub App, whose custom properties have distinct names, allowed values exactly where a selection needs them and
    a default exactly if they are required, and which uses rulesets and code security configurations only if its plan
    has them.  The value that a default has for its type is an allowed one; but a default that is present without a
    value for the type of its property, such as null for a selection, is accepted too, and the default of a text is not
    looked at. *)
Theorem validateOrganization_spec o org : validateOrganization o org = None ↔ valid_organization org.
Proof.
  unfold validateOrganization.
  set (errs := (if bool_decide (o_Login (o_Spec org) = "") && _ then _ else _) ++ _).
  assert (match errs with [] => None | _ => Some (Invalid errs) end = None ↔ errs = []) as -> by by destruct errs.
  unfold errs. rewrite !app_nil_iff, validateCustomProperties_spec, validatePlan_spec. split.
  - intros (Hn & [Hd Hp] & [Hr Hs] & Ha). split; [| done..|].
    + destruct (_ && _) eqn:He; [done|]. apply andb_false_iff in He as [?%bool_decide_eq_false|?%bool_decide_eq_false]; auto.
    + unfold validateGitHubAppConfig in Ha. destruct (o_GitHubAppConfig (o_Spec org)), (o_GitHubAppInstallationId (o_Spec org)); eauto; done.
  - intros [Hn Hd Hp Hr Hs Ha]. split_and!; [|done..|].
    + destruct Hn; [by rewrite bool_decide_eq_false_2|]. by rewrite (bool_decide_eq_false_2 (o_Name _ = "")), andb_false_r.
    + unfold validateGitHubAppConfig. destruct Ha as [[? ->]|[? ->]]; [done|]. by case_match.
Qed.

(** An admitted organization can be reconciled as far as its own spec goes: it has a login, the id of an
    installation, no two properties overwrite each other, and the property that is sent to GitHub has a default
    exactly if it is required. *)
Theorem admitted_organization_usable o org :
  validateOrganization o org = None →
  GetLogin org ≠ "" ∧ (∃ id, GetGitHubAppInstallationID org = inl id) ∧
  (∀ p, p ∈ o_CustomProperties (o_Spec org) →
    index_by cp_PropertyName (o_CustomProperties (o_Spec org)) !! cp_PropertyName p = Some p ∧
    (WithDefault (gp_Required (ToGitHubCustomProperty p)) false = true ↔ is_Some (gp_DefaultValue (ToGitHubCustomProperty p)))).
Proof.
  unfold validateOrganization.
  set (errs := (if bool_decide (o_Login (o_Spec org) = "") && _ then _ else _) ++ _). intros Hv.
  assert (errs = []) as He by by destruct errs. unfold errs in He.
  rewrite !app_nil_iff, validateCustomProperties_spec in He. destruct He as (Hn & [Hd Hp] & _ & Ha). split_and!.
  - unfold GetLogin. repeat case_bool_decide; simpl in *; try done; congruence.
  - unfold validateGitHubAppConfig in Ha. unfold GetGitHubAppInstallationID.
    destruct (o_GitHubAppConfig (o_Spec org)), (o_GitHubAppInstallationId (o_Spec org)); eauto; done.
  - intros p Hin. split; [by apply index_by_NoDup|]. rewrite Forall_forall in Hp. destruct (Hp p Hin) as [_ Hr _].
    simpl. rewrite Hr. unfold getGitHubDefaultValue. destruct (cp_DefaultValue p) as [d|]; [|done].
    split; [|by eexists]. intros _.
    destruct (bool_decide (cp_ValueType p = _)); [by eexists|]. destruct (dv_Value d); by eexists.
Qed.

(** ** Repositories *)
Lemma contains_prefix s t : String.prefix t s = true → strings_Contains s t = true.
Proof. intros H. destruct s; simpl in *; by rewrite H. Qed.

(** What the reconciler takes for a template, the webhook parses. *)
Lemma placeholder_contains s : has_placeholder s = true → strings_Contains s "{{" = true.
Proof.
  induction s as [|c s IH]; [done|]. intros H.
  assert (has_placeholder (String c s) = true → String.prefix "{{" (String c s) = true ∨ has_placeholder s = true) as Hor.
  { clear. cbn [has_placeholder]. intros [H|H]%orb_true_iff; [left|by right].
    destruct c as [[] [] [] [] [] [] [] []]; try done; destruct s as [|[[] [] [] [] [] [] [] []] s]; try done.
    by destruct s. }
  destruct (Hor H) as [Hp|Hr]; [by apply contains_prefix|]. cbn [strings_Contains]. rewrite (IH Hr). apply orb_true_r.
Qed.

Section RepositorySpec.
Context {GP : GoPackages}.

Definition valid_ignore (ignore : WebhookIgnoreSpec) : Prop :=
  ∃ expr re, wi_IgnoreURLRegex ignore = Some expr ∧ expr ≠ "" ∧ regexp_Compile expr = inl re.
Definition valid_webhook (namespace : string) (webhook : WebhookSpec) : Prop :=
  (∀ secret ns, wh_Secret webhook = Some secret → wss_Namespace secret = Some ns → ns = "" ∨ ns = namespace) ∧
  (strings_Contains (wh_PayloadURL webhook) "{{" = true → ∃ tmpl, template_Parse (wh_PayloadURL webhook) = inl tmpl).

Lemma ignore_errors_spec i ignore : ignore_errors i ignore = [] ↔ valid_ignore ignore.
Proof.
  unfold ignore_errors, valid_ignore. destruct (wi_IgnoreURLRegex ignore) as [[|c expr]|]; [split; [done|naive_solver]| |split; [done|naive_solver]].
  destruct (regexp_Compile (String c expr)) as [re|err] eqn:Hre; split; try done.
  - intros _. by exists (String c expr), re.
  - intros (? & re & [= <-] & _ & Hc). congruence.
Qed.

Lemma foreign_namespace_false ns webhook :
  foreign_namespace ns webhook = false ↔
  ∀ secret n, wh_Secret webhook = Some secret → wss_Namespace secret = Some n → n = "" ∨ n = ns.
Proof.
  unfold foreign_namespace. destruct (wh_Secret webhook) as [secret|]; [|done].
  destruct (wss_Namespace secret) as [n|] eqn:Hn; [|split; [by intros _ ? ? [= <-] ?; congruence|done]].
  rewrite andb_false_iff, !negb_false_iff, !bool_decide_eq_true. split; [|naive_solver].
  intros H ? ? [= <-] ?. simplify_eq. done.
Qed.

Lemma webhook_errors_spec ns i webhook : webhook_errors ns i webhook = [] ↔ valid_webhook ns webhook.
Proof.
  unfold webhook_errors, valid_webhook. rewrite app_nil_iff, <-foreign_namespace_false.
  apply Morphisms_Prop.and_iff_morphism; [by destruct (foreign_namespace ns webhook)|].
  destruct (strings_Contains _ _); [|done]. destruct (template_Parse _) as [tmpl|err]; split; try done; [by eauto|].
  intros H. by destruct (H eq_refl) as [? ?].
Qed.

Lemma validateInlinePresets_spec repo :
  validateInlinePresets repo = [] ↔
  Forall valid_ignore (r_WebhookIgnores (r_Spec repo)) ∧
  Forall (valid_webhook (Namespace (r_Meta repo))) (r_Webhooks (r_Spec repo)).
Proof.
  unfold validateInlinePresets. rewrite app_nil_iff, !concat_imap_nil, !Forall_lookup.
  setoid_rewrite ignore_errors_spec. by setoid_rewrite webhook_errors_spec.
Qed.

(** The reconciler compiles valid expressions, and uses all of them. *)
Lemma compile_ignores_valid entries : ∀ seen,
  Forall (λ entry, valid_ignore entry.2) entries →
  ∃ result, compile_ignores seen entries = inl result ∧
    ∀ source ignore, (source, ignore) ∈ entries → ∃ expr re, wi_IgnoreURLRegex ignore = Some expr ∧
      regexp_Compile expr = inl re ∧ (expr ∈ seen ∨ re ∈ result).
Proof.
  induction entries as [|[source ignore] entries IH]; intros seen H.
  { exists []. split; [done|]. by intros ? ? ?%not_elem_of_nil. }
  apply Forall_cons in H as [(expr & re & He & Hne & Hre) H]. cbn [snd] in He. cbn [compile_ignores]. rewrite He.
  destruct expr as [|c expr]; [done|]. set (e := String c expr) in *. case_bool_decide as Hin.
  - destruct (IH seen H) as (result & -> & Hall). exists result. split; [done|].
    intros s i [[= -> ->]|Hi]%elem_of_cons; [exists e, re; auto|by apply (Hall s)].
  - rewrite Hre. destruct (IH ({[ e ]} ∪ seen) H) as (result & -> & Hall). exists (re :: result). split; [done|].
    intros s i [[= -> ->]|Hi]%elem_of_cons; [exists e, re; set_solver|].
    destruct (Hall s i Hi) as (e' & re' & Hw & Hc & Hor). exists e', re'. split_and!; [done..|].
    destruct Hor as [[->%elem_of_singleton|?]%elem_of_union|?]; [|by left|set_solver].
    rewrite Hre in Hc. injection Hc as <-. set_solver.
Qed.

(** C33: the webhook and the reconciler agree on inline definitions: of an admitted repository the reconciler
    compiles every ignore rule, and none is lost; every payload URL it takes for a template can be parsed; and an
    inline webhook only ever names a secret of the repository's own namespace. *)
Theorem admitted_inline_presets repo :
  validateInlinePresets repo = [] →
  (∃ result, compile_ignores ∅ (imap (λ i spec, (InlineSource i, spec)) (r_WebhookIgnores (r_Spec repo))) = inl result ∧
    ∀ ignore, ignore ∈ r_WebhookIgnores (r_Spec repo) → ∃ expr re, wi_IgnoreURLRegex ignore = Some expr ∧
      regexp_Compile expr = inl re ∧ re ∈ result) ∧
  (∀ webhook, webhook ∈ r_Webhooks (r_Spec repo) →
    (has_placeholder (wh_PayloadURL webhook) = true → ∃ tmpl, template_Parse (wh_PayloadURL webhook) = inl tmpl) ∧
    ∀ secret ns, wh_Secret webhook = Some secret → wss_Namespace secret = Some ns → ns = "" ∨ ns = Namespace (r_Meta repo)).
Proof.
  rewrite validateInlinePresets_spec. intros [Hi Hw]. split.
  - set (entries := imap _ _). assert (∀ ignore, ignore ∈ r_WebhookIgnores (r_Spec repo) → ∃ source, (source, ignore) ∈ entries) as Hent.
    { intros ignore [i Hl]%list_elem_of_lookup_1. exists (InlineSource i). apply (list_elem_of_lookup_2 _ i).
      unfold entries. by rewrite list_lookup_imap, Hl. }
    destruct (compile_ignores_valid entries ∅) as (result & Hc & Hall).
    { apply Forall_lookup. intros i [source ignore]. unfold entries. rewrite list_lookup_imap.
      intros (ignore' & Hl & [= -> ->])%fmap_Some. rewrite Forall_lookup in Hi. by apply (Hi i). }
    exists result. split; [done|]. intros ignore Hin. destruct (Hent ignore Hin) as [source Hs].
    destruct (Hall source ignore Hs) as (expr & re & ? & ? & [?%not_elem_of_empty|?]); [done|by exists expr, re].
  - intros webhook Hin. rewrite Forall_forall in Hw. destruct (Hw webhook Hin) as [Hns Ht]. split; [|done].
    intros Hp. by apply Ht, placeholder_contains.
Qed.

(** ** The whole validation of a repository *)
Context {W Client : Type} {A : ValidatorApi W Client}.

Lemma value_types_spec definitions values p :
  validateCustomPropertyValuesHaveCorrectTypes definitions values p = [] ↔
  ∀ d, d ∈ definitions → ∃ definition, d = Some definition ∧
    ∀ v, index_by cpv_PropertyName values !! GetPropertyName definition = Some v →
      value_conforms (gp_ValueType definition) (gp_AllowedValues definition) (provider_of_value v).
Proof.
  unfold validateCustomPropertyValuesHaveCorrectTypes. induction definitions as [|d definitions IH]; cbn [fmap list_fmap concat].
  { split; [by intros _ d ?%not_elem_of_nil|done]. }
  rewrite app_nil_iff, IH. setoid_rewrite elem_of_cons.
  assert (definition_errors (index_by cpv_PropertyName values) p d = [] ↔ ∃ definition, d = Some definition ∧
    ∀ v, index_by cpv_PropertyName values !! GetPropertyName definition = Some v →
      value_conforms (gp_ValueType definition) (gp_AllowedValues definition) (provider_of_value v)) as ->; [|naive_solver].
  unfold definition_errors, validateValueAgainstCustomPropertyDefinition.
  destruct d as [definition|]; [|split; [done|by intros (? & ? & _)]].
  destruct (index_by _ values !! _) as [v|] eqn:Hv.
  - rewrite validate_value_spec. split; [intros H; exists definition; split; [done|congruence]|]. intros (? & [= <-] & H). by apply H.
  - split; [|done]. intros _. exists definition. split; [done|congruence].
Qed.

(** A repository with invalid inline definitions is rejected with all of them before any call is made; an
    admitted one has valid inline definitions, its organization and a client for it were found, and every value
    of a custom property that the organization defines on GitHub has the type and one of the values it allows. *)
Theorem validateRepository_spec repo w :
  let '(r, w') := run (validateRepository repo) w in
  (validateInlinePresets repo ≠ [] → r = Some (Invalid (validateInlinePresets repo)) ∧ w' = w) ∧
  (r = None →
    Forall valid_ignore (r_WebhookIgnores (r_Spec repo)) ∧
    Forall (valid_webhook (Namespace (r_Meta repo))) (r_Webhooks (r_Spec repo)) ∧
    ∃ org client definitions w1 w2 inst,
      run (validator_GetOrganization (Namespace (r_Meta repo)) (r_OrganizationRef (r_Spec repo))) w = (inl org, w1) ∧
      GetGitHubAppInstallationID org = inl inst ∧
      run (manager_GetClient (GetLogin org) {| ac_InstallationID := inst;
        ac_CredentialsSecretName := GetGitHubAppCredentialsSecretName org |}) w1 = (inl client, w2) ∧
      run (GetCustomPropertyDefinitions client (GetLogin org)) w2 = (inl definitions, w') ∧
      ∀ d, d ∈ definitions → ∃ definition, d = Some definition ∧
        ∀ v, index_by cpv_PropertyName (r_CustomProperties (r_Spec repo)) !! GetPropertyName definition = Some v →
          value_conforms (gp_ValueType definition) (gp_AllowedValues definition) (provider_of_value v)).
Proof.
  pose proof (validateInlinePresets_spec repo) as Hspec. unfold validateRepository.
  destruct (validateInlinePresets repo) as [|e errs]; [|by cbn].
  rewrite run_bind. destruct (run (validator_GetOrganization _ _) w) as [[org|err] w1] eqn:Horg; [|by cbn].
  destruct (GetGitHubAppInstallationID org) as [inst|err] eqn:Hinst; [|by cbn].
  rewrite run_bind. destruct (run (manager_GetClient _ _) w1) as [[client|err] w2] eqn:Hcl; [|by cbn].
  rewrite run_bind. destruct (run (GetCustomPropertyDefinitions _ _) w2) as [[defs|err] w3] eqn:Hdefs; [|by cbn].
  cbn [run]. split; [done|].
  destruct (validateCustomPropertyValuesHaveCorrectTypes _ _ _) eqn:Hv; [|done]. intros _.
  destruct (proj1 Hspec eq_refl) as [Hi Hw]. split_and!; [done..|]. exists org, client, defs, w1, w2, inst.
  split_and!; [done..|]. by eapply value_types_spec.
Qed.
End RepositorySpec.

(** ** Concrete resources *)
Module ToyValidation.
Definition tier (default : option OrgCustomPropertyDefaultValue) : OrgCustomProperty := {|
  cp_PropertyName := "tier"; cp_ValueType := "single_select"; cp_Required := Some true; cp_DefaultValue := default;
  cp_Description := None; cp_AllowedValues := Some ["gold"; "silver"]; cp_ValuesEditableBy := "org_actors" |}.
Definition gold : OrgCustomPropertyDefaultValue := {| dv_Value := Some "gold"; dv_Values := [] |}.
Definition organization (properties : list OrgCustomProperty) : Organization := {|
  o_Meta := Samples.meta "org";
  o_Spec := {|
    o_Login := "acme"; o_Name := ""; o_GitHubAppInstallationId := None;
    o_GitHubAppConfig := Some {| ga_InstallationId := 7; ga_CredentialsSecretName := "creds" |}; o_CustomProperties := properties;
    o_ActionsSettings := Samples.no_actions; o_CodeSecurityConfigurations := []; o_RulesetPresetList := []; o_Rulesets := [];
    o_Description := ""; o_Location := ""; o_MemberSuffix := ""; o_Website := ""; o_Plan := "team"; o_MemberPrivileges := None |};
  o_Status := {| ost_Conditions := []; ost_ObservedSubResourceGenerations := None |} |}.

#[export] Instance packages : GoPackages := {
  Template := string; Regexp := string; gh_Repo := unit;
  template_Parse s := inl s; template_Execute t _ := inl t;
  regexp_Compile s := inl s; MatchString re s := bool_decide (re = s)
}.
Definition hook : WebhookSpec := {|
  wh_PayloadURL := "https://ci/{{.Name}}"; wh_Secret := None; wh_SecretValue := None; wh_ContentType := ""; wh_Active := None;
  wh_Events := []; wh_SSLVerify := None |}.
Definition repository : Repository :=
  let r := Samples.repo "r" [] [] in
  let s := r_Spec r in {| r_Meta := r_Meta r; r_Status := r_Status r; r_Spec := {|
    r_Name := r_Name s; r_CustomProperties := []; r_DefaultBranch := "main"; r_Visibility := "private"; r_HasIssues := None;
    r_HasProjects := None; r_HasWiki := None; r_HasDownloads := None; r_IsTemplate := None; r_MergeCommitTitle := "";
    r_MergeCommitMessage := ""; r_AllowedMergeStrategies := []; r_DeleteBranchOnMerge := None; r_About := r_About s;
    r_Archived := None; r_ActionsEnabled := None; r_AccessLevelForExternalWorkflows := None; r_AvailableActionsRunnerGroups := [];
    r_OrganizationRef := "org"; r_RulesetPresetList := []; r_Rulesets := []; r_WebhookPresetList := []; r_Webhooks := [hook];
    r_WebhookIgnorePresetsList := []; r_WebhookIgnores := [{| wi_IgnoreURLRegex := Some "https://old" |}];
    r_AutolinksPresetList := []; r_Autolinks := []; r_DeployKeyList := []; r_AttachedCodeSecurityConfiguration := None |} |}.

(** A value or default for a single value, given as a list. *)
Definition listed : OrgCustomPropertyDefaultValue := {| dv_Value := None; dv_Values := ["gold"] |}.
Definition listed_value : CustomPropertyValue := {| cpv_Value := None; cpv_Values := ["gold"]; cpv_PropertyName := "tier" |}.
Definition homepage : gh_CustomProperty := {|
  gp_PropertyName := Some "homepage"; gp_SourceType := Some "organization"; gp_ValueType := "url"; gp_Required := None;
  gp_DefaultValue := None; gp_Description := None; gp_AllowedValues := None; gp_ValuesEditableBy := None |}.
Definition homepage_value : CustomPropertyValue :=
  {| cpv_Value := Some "https://acme"; cpv_Values := []; cpv_PropertyName := "homepage" |}.
End ToyValidation.

Lemma admitted_organization_usable_witness :
  GetLogin (ToyValidation.organization [ToyValidation.tier (Some ToyValidation.gold)]) ≠ "".
Proof.
  exact (proj1 (admitted_organization_usable default_order (ToyValidation.organization [ToyValidation.tier (Some ToyValidation.gold)])
    ltac:(vm_compute; reflexivity))).
Defined.

Lemma admitted_inline_presets_witness :
  ∃ tmpl, template_Parse (GoPackages := ToyValidation.packages) (wh_PayloadURL ToyValidation.hook) = inl tmpl.
Proof.
  destruct (admitted_inline_presets (GP := ToyValidation.packages) ToyValidation.repository ltac:(vm_compute; reflexivity)) as [_ H].
  destruct (H ToyValidation.hook (list_elem_of_here _ _)) as [Ht _]. apply Ht. vm_compute. reflexivity.
Defined.

(** The default of a property that takes one value may be given as a list: the webhook admits it, and what is sent
    to GitHub as the default of the required property is null. *)
Lemma null_default_admitted :
  let p := ToyValidation.tier (Some ToyValidation.listed) in
  validateOrganization default_order (ToyValidation.organization [p]) = None ∧
  gp_DefaultValue (ToGitHubCustomProperty p) = Some ANilString.
Proof. split; vm_compute; reflexivity. Qed.

(** The same holds for values, and the value of a property of type url is admitted but never set. *)
Lemma url_value_dropped :
  validateCustomPropertyValuesHaveCorrectTypes [Some ToyValidation.homepage] [ToyValidation.homepage_value] spec_path = [] ∧
  gv_Value (ToGitHubCustomPropertyValue ToyValidation.homepage_value ToyValidation.homepage) = None.
Proof. split; vm_compute; reflexivity. Qed.
