(* ===== verification/Factory.v ===== *)
(** * The factory of reconcilers

    internal/reconciler/reconcilerfactory/factory.go: what a controller gets for the name of a resource.  The factory
    reads the resource and the generations of everything it refers to, lets the spreading manager decide whether it is
    the time to reconcile, and only then asks for a GitHub client and the names of the organization. *)
From Stdlib Require Import Ascii.
From S2P Require Import Prelude GoErrors Config Spreading Conditions Executor Requeue ApiTypes RulesetMerge RulesetResolve IdResolver ClientFactory.

(** ** The resources as the spreading manager sees them *)
Section Views.
Context {KH : K8sHelpers}.
Definition spreadable_org (org : Organization) : SpreadableResource := {|
  Spreading.GetGeneration := Generation (o_Meta org); GetObservedGeneration := org_GetObservedGeneration org;
  GetObservedSubResourceGenerations := org_GetObservedSubResourceGenerations org;
  IsHealthy := org_IsHealthy org; Deleted := bool_decide (is_Some (DeletionTimestamp (o_Meta org))) |}.
Definition spreadable_repo (repo : Repository) : SpreadableResource := {|
  Spreading.GetGeneration := Generation (r_Meta repo); GetObservedGeneration := repo_GetObservedGeneration repo;
  GetObservedSubResourceGenerations := repo_GetObservedSubResourceGenerations repo;
  IsHealthy := repo_IsHealthy repo; Deleted := bool_decide (is_Some (DeletionTimestamp (r_Meta repo))) |}.
Definition spreadable_team (team : Team) : SpreadableResource := {|
  Spreading.GetGeneration := Generation (t_Meta team); GetObservedGeneration := team_GetObservedGeneration team;
  GetObservedSubResourceGenerations := team_GetObservedSubResourceGenerations team;
  IsHealthy := team_IsHealthy team; Deleted := bool_decide (is_Some (DeletionTimestamp (t_Meta team))) |}.
End Views.

(** [orgAppConfig]. *)
Definition orgAppConfig (org : Organization) : res AppConfig :=
  match GetGitHubAppInstallationID org with
  | inr err => inr err
  | inl installationID => inl {| ac_InstallationID := installationID;
      ac_CredentialsSecretName := GetGitHubAppCredentialsSecretName org |}
  end.

(** [getSubResourceKey]; the client fills in the kind of the objects it reads. *)
Definition getSubResourceKey (kind : string) (meta : ObjectMeta) : string :=
  kind +:+ "/" +:+ Namespace meta +:+ "/" +:+ Name meta.

(** What the factory calls: the Kubernetes client, the manager of the GitHub clients, the client's part in resolving
    names, and what the spreading manager reads of its surroundings. *)
Class FactoryApi (W Client : Type) := {
  fa_GetOrganization : string → string → prog W (res Organization);
  fa_GetRepository : string → string → prog W (res Repository);
  fa_GetTeam : string → string → prog W (res Team);
  fa_GetRulesetPreset : string → string → W → res RulesetPreset * W;
  (* the other sub-resources by kind; only their metadata is read *)
  fa_GetSubResource : string → string → string → prog W (res ObjectMeta);
  fa_manager :: GitHubClientManager W Client;
  fa_resolver : Client → ResolverApi W;
  fa_now : W → Z;
  fa_spreading : W → option Manager
}.

(** The reconcilers, as far as the factory fills them. *)
Record GitHubOrgReconciler Client := {
  gor_Resource : Organization; gor_Generations : option (gmap string Z); gor_Client : Client; gor_Login : string; gor_Features : Features }.
Record GitHubRepoReconciler Client := {
  grr_Resource : Repository; grr_Generations : option (gmap string Z); grr_Client : Client; grr_Owner : string; grr_Name : string;
  grr_FinalizeMode : string; grr_Features : Features }.
Record GitHubTeamReconciler Client := {
  gtr_Resource : Team; gtr_Name : string; gtr_Slug : option string; gtr_Current : list (Client * string);
  gtr_Previous : list (Client * string); gtr_MemberSuffix : string }.
Arguments gor_Resource {Client}. Arguments gor_Generations {Client}. Arguments gor_Client {Client}. Arguments gor_Login {Client}.
Arguments gor_Features {Client}. Arguments grr_Resource {Client}. Arguments grr_Generations {Client}. Arguments grr_Client {Client}.
Arguments grr_Owner {Client}. Arguments grr_Name {Client}. Arguments grr_FinalizeMode {Client}. Arguments grr_Features {Client}.
Arguments gtr_Resource {Client}. Arguments gtr_Name {Client}. Arguments gtr_Slug {Client}. Arguments gtr_Current {Client}.
Arguments gtr_Previous {Client}. Arguments gtr_MemberSuffix {Client}.

Section Factory.
Context {W Client : Type} {KH : K8sHelpers} {A : FactoryApi W Client}.
Context (IsNotFound : gerror → bool) (rand_IntN : Z → Z) (cfg : Config).
Abbreviation generations := (gmap string Z).

(** ** Generations of sub-resources *)
Definition record_generation (kind : string) (meta : ObjectMeta) (result : generations) : generations :=
  <[getSubResourceKey kind meta := Generation meta]> result.

Definition collectSubResourceGeneration (result : generations) (kind name namespace : string) : prog W (res generations) :=
  let! got := fa_GetSubResource kind namespace name in
  Ret (match got with
  | inr err => if IsNotFound err then inl result else inr err
  | inl meta => inl (record_generation kind meta result)
  end).

(** The same for a ruleset preset, with the [extends] of the object afterwards. *)
Definition collect_preset (result : generations) (name namespace : string) : prog W (res (generations * string)) :=
  let! got := call (fa_GetRulesetPreset namespace name) in
  Ret (match got with
  | inr err => if IsNotFound err then inl (result, "") else inr err
  | inl preset => inl (record_generation "RulesetPreset" (rp_Meta preset) result, rs_Extends (rp_Spec preset))
  end).

Definition collectAncestors (resolver : ChainResolver) (result : generations) (extends self : string)
    : prog W (res generations * ChainResolver) :=
  let! walked := Ancestors fa_GetRulesetPreset IsNotFound resolver extends self in
  let '(ancestors, resolver) := walked in
  Ret (match ancestors with
  | inr err => inr err
  | inl ancestors => inl (foldl (λ result preset, record_generation "RulesetPreset" (rp_Meta preset) result) result ancestors)
  end, resolver).

Fixpoint collect_refs (namespace : string) (refs : list string) (resolver : ChainResolver) (result : generations)
    : prog W (res (generations * ChainResolver)) :=
  match refs with
  | [] => Ret (inl (result, resolver))
  | ref :: refs =>
    let? got := collect_preset result ref namespace in
    let '(result, extends) := got in
    let! walked := collectAncestors resolver result extends ref in
    let '(walked, resolver) := walked in
    match walked with
    | inr err => Ret (inr err)
    | inl result => collect_refs namespace refs resolver result
    end
  end.

Fixpoint collect_inline (inline : list RulesetSpec) (resolver : ChainResolver) (result : generations) : prog W (res generations) :=
  match inline with
  | [] => Ret (inl result)
  | spec :: inline =>
    let! walked := collectAncestors resolver result (rs_Extends spec) "" in
    let '(walked, resolver) := walked in
    match walked with
    | inr err => Ret (inr err)
    | inl result => collect_inline inline resolver result
    end
  end.

Definition collectRulesetPresetGenerations (result : generations) (namespace : string) (refs : list string) (inline : list RulesetSpec)
    : prog W (res generations) :=
  let? collected := collect_refs namespace refs (NewChainResolver namespace) result in
  let '(result, resolver) := collected in
  collect_inline inline resolver result.

(** A loop over references of one kind. *)
Fixpoint collect_kind (kind namespace : string) (names : list string) (result : generations) : prog W (res generations) :=
  match names with
  | [] => Ret (inl result)
  | name :: names =>
    let? result := collectSubResourceGeneration result kind name namespace in
    collect_kind kind namespace names result
  end.

(** An empty map becomes nil. *)
Definition nonempty_generations (result : generations) : option generations :=
  if bool_decide (result = ∅) then None else Some result.

Definition fetchSubResourceGenerationsForOrg (org : Organization) : prog W (res (option generations)) :=
  let namespace := Namespace (o_Meta org) in
  let? result := collectRulesetPresetGenerations ∅ namespace (o_RulesetPresetList (o_Spec org)) (o_Rulesets (o_Spec org)) in
  let? result := collect_kind "CodeSecurityConfiguration" namespace (ar_Name <$> o_CodeSecurityConfigurations (o_Spec org)) result in
  Ret (inl (nonempty_generations result)).

Definition fetchSubResourceGenerationsForRepo (repo : Repository) : prog W (res (option generations)) :=
  let namespace := Namespace (r_Meta repo) in
  let spec := r_Spec repo in
  let? result := collectRulesetPresetGenerations ∅ namespace (r_RulesetPresetList spec) (r_Rulesets spec) in
  let? result := collect_kind "WebhookPreset" namespace (r_WebhookPresetList spec) result in
  let? result := collect_kind "WebhookIgnorePreset" namespace (r_WebhookIgnorePresetsList spec) result in
  let? result := collect_kind "CodeSecurityConfiguration" namespace (option_list (r_AttachedCodeSecurityConfiguration spec)) result in
  let? result := collect_kind "AutolinksPreset" namespace (r_AutolinksPresetList spec) result in
  Ret (inl (nonempty_generations result)).

(** ** Creating reconcilers *)
Definition spread (r : SpreadableResource) (current : option generations) : prog W (option gerror) :=
  gets (λ w, Spread rand_IntN (fa_spreading w) (fa_now w) r current).

(** [client.IgnoreNotFound]: no error and no reconciler for a resource that is gone. *)
Definition ignore_not_found {R} (err : gerror) : res (option R) := if IsNotFound err then inl None else inr err.

Definition getOrgByRef (orgRef namespace : string) : prog W (res Organization) := fa_GetOrganization namespace orgRef.

Definition warm_resolver (ghClient : Client) (org : Organization) : prog W (option gerror) :=
  IdResolver.New (A := fa_resolver ghClient) (GetLogin org).

(** The three functions in two parts: the second one runs once the spreading manager lets it. *)
Definition org_reconciler (org : Organization) (subResourceGenerations : option generations) : prog W (res (option (GitHubOrgReconciler Client))) :=
  match orgAppConfig org with
  | inr err => Ret (inr err)
  | inl appConfig =>
    let? ghClient := manager_GetClient (GetLogin org) appConfig in
    let! err := warm_resolver ghClient org in
    match err with
    | Some err => Ret (inr err)
    | None => Ret (inl (Some {|
        gor_Resource := org; gor_Generations := subResourceGenerations; gor_Client := ghClient; gor_Login := GetLogin org;
        gor_Features := cfg_Features cfg |}))
    end
  end.

Definition CreateForOrg (namespace name : string) : prog W (res (option (GitHubOrgReconciler Client))) :=
  let! org := fa_GetOrganization namespace name in
  match org with
  | inr err => Ret (ignore_not_found err)
  | inl org =>
    let? subResourceGenerations := fetchSubResourceGenerationsForOrg org in
    let! requiresSpreadErr := spread (spreadable_org org) subResourceGenerations in
    match requiresSpreadErr with
    | Some err => Ret (inr err)
    | None => org_reconciler org subResourceGenerations
    end
  end.

Definition repo_reconciler (repo : Repository) (subResourceGenerations : option generations) : prog W (res (option (GitHubRepoReconciler Client))) :=
  let? org := getOrgByRef (r_OrganizationRef (r_Spec repo)) (Namespace (r_Meta repo)) in
  match orgAppConfig org with
  | inr err => Ret (inr err)
  | inl appConfig =>
    let? ghClient := manager_GetClient (GetLogin org) appConfig in
    let! err := warm_resolver ghClient org in
    match err with
    | Some err => Ret (inr err)
    | None => Ret (inl (Some {|
        grr_Resource := repo; grr_Generations := subResourceGenerations; grr_Client := ghClient; grr_Owner := GetLogin org;
        grr_Name := r_Name (r_Spec repo); grr_FinalizeMode := RepositoryFinalizerMode cfg; grr_Features := cfg_Features cfg |}))
    end
  end.

Definition CreateForRepo (namespace name : string) : prog W (res (option (GitHubRepoReconciler Client))) :=
  let! repo := fa_GetRepository namespace name in
  match repo with
  | inr err => Ret (ignore_not_found err)
  | inl repo =>
    let? subResourceGenerations := fetchSubResourceGenerationsForRepo repo in
    let! requiresSpreadErr := spread (spreadable_repo repo) subResourceGenerations in
    match requiresSpreadErr with
    | Some err => Ret (inr err)
    | None => repo_reconciler repo subResourceGenerations
    end
  end.

(** [buildGitHubOrgsSlice]: first all organizations, then all clients. *)
Fixpoint get_orgs (namespace : string) (refs : list string) : prog W (res (list Organization)) :=
  match refs with
  | [] => Ret (inl [])
  | ref :: refs =>
    let? org := getOrgByRef ref namespace in
    let? orgs := get_orgs namespace refs in
    Ret (inl (org :: orgs))
  end.
Fixpoint get_clients (orgs : list Organization) : prog W (res (list (Client * string))) :=
  match orgs with
  | [] => Ret (inl [])
  | org :: orgs =>
    match orgAppConfig org with
    | inr err => Ret (inr err)
    | inl appConfig =>
      let? ghClient := manager_GetClient (GetLogin org) appConfig in
      let? githubOrgs := get_clients orgs in
      Ret (inl ((ghClient, GetLogin org) :: githubOrgs))
    end
  end.
Definition buildGitHubOrgsSlice (team : Team) (refs : list string) : prog W (res (list (Client * string))) :=
  let? orgs := get_orgs (Namespace (t_Meta team)) refs in
  get_clients orgs.

Definition team_reconciler (team : Team) : prog W (res (option (GitHubTeamReconciler Client))) :=
  let? currentOrgs := buildGitHubOrgsSlice team (t_OrganizationRefs (t_Spec team)) in
  match currentOrgs with
  | [] => Ret (inr (EPlain ("no organizations found for Team " +:+ Namespace (t_Meta team) +:+ "/" +:+ Name (t_Meta team))))
  | _ =>
    let? previousOrgs := buildGitHubOrgsSlice team (tst_PreviousOrganizationRefs (t_Status team)) in
    Ret (inl (Some {|
      gtr_Resource := team; gtr_Name := t_Name (t_Spec team); gtr_Slug := tst_Slug (t_Status team); gtr_Current := currentOrgs;
      gtr_Previous := previousOrgs; gtr_MemberSuffix := GitHubMemberSuffix cfg |}))
  end.

Definition CreateForTeam (namespace name : string) : prog W (res (option (GitHubTeamReconciler Client))) :=
  let! team := fa_GetTeam namespace name in
  match team with
  | inr err => Ret (ignore_not_found err)
  | inl team =>
    let! requiresSpreadErr := spread (spreadable_team team) None in
    match requiresSpreadErr with
    | Some err => Ret (inr err)
    | None => team_reconciler team
    end
  end.
End Factory.

(** ** Paths of extends references *)
Section Paths.
Context (lookup : string → string → res RulesetPreset).

Lemma path_snoc_inv ns start l x next :
  path lookup ns start (l ++ [x]) next →
  x.1 ≠ "" ∧ path lookup ns start l x.1 ∧ lookup ns x.1 = inl x.2 ∧ next = rs_Extends (rp_Spec x.2).
Proof.
  intros H. inversion H as [Hnil|l' n p Hp Hn Hl Heq]; [by destruct l|].
  apply app_inj_tail in Heq as [-> <-]. done.
Qed.

Lemma path_inv_nil ns start next : path lookup ns start [] next → next = start.
Proof. intros H. inversion H as [|l' n p Hp Hn Hl Heq]; [done|]. by destruct l'. Qed.

(** The presets of a path are determined by its start. *)
Lemma path_app ns start rest : ∀ l x next,
  path lookup ns start (l ++ x :: rest) next → x.1 ≠ "" ∧ path lookup ns start l x.1 ∧ lookup ns x.1 = inl x.2.
Proof.
  induction rest as [|y rest IH] using rev_ind; intros l x next H.
  - by apply path_snoc_inv in H as (? & ? & ? & _).
  - rewrite app_comm_cons, app_assoc in H. apply path_snoc_inv in H as (_ & H & _). by apply IH in H.
Qed.

Lemma path_next ns start l n n' : path lookup ns start l n → path lookup ns start l n' → n = n'.
Proof.
  destruct l as [|x l _] using rev_ind; intros H H'.
  - apply path_inv_nil in H, H'. congruence.
  - apply path_snoc_inv in H as (_ & _ & _ & ->), H' as (_ & _ & _ & ->). done.
Qed.

(** Of two paths from the same start, one continues the other. *)
Lemma path_compare ns start l n : path lookup ns start l n → ∀ l0 n0, path lookup ns start l0 n0 →
  l `prefix_of` l0 ∨ ∃ p rest, n0 ≠ "" ∧ lookup ns n0 = inl p ∧ l = l0 ++ (n0, p) :: rest.
Proof.
  induction 1 as [|l n p Hl IH Hn Hp]; intros l0 n0 H0; [left; apply prefix_nil|].
  destruct (IH l0 n0 H0) as [[[|x rest] ->]|(q & rest & ? & ? & ->)].
  - right. rewrite app_nil_r in H0. pose proof (path_next _ _ _ _ _ Hl H0) as <-. exists p, []. by rewrite app_nil_r.
  - left. apply path_app in H0 as (_ & Hx & Hxl). pose proof (path_next _ _ _ _ _ Hl Hx) as ->.
    assert (x = (x.1, p)) as Heq by (destruct x; simpl in *; congruence). exists rest. rewrite Heq at 1. by rewrite <-app_assoc.
  - right. exists q, (rest ++ [(n, p)]). split_and!; [done..|]. by rewrite <-app_assoc, app_comm_cons.
Qed.
End Paths.

(** A chain a resolution may follow: no preset twice, not the ruleset itself, not too long. *)
Definition chain (lookup : string → string → res RulesetPreset) (ns extends self : string) (l : list (string * RulesetPreset)) : Prop :=
  (∃ next, path lookup ns extends l next) ∧ NoDup l.*1 ∧ (self ≠ "" → self ∉ l.*1) ∧ (length l ≤ MaxExtendsDepth)%nat.

Section AncestorsSpec.
Context {W : Type} (Get : string → string → W → res RulesetPreset * W) (IsNotFound : gerror → bool).
Context (lookup : string → string → res RulesetPreset) (reads : ∀ ns name w, Get ns name w = (lookup ns name, w)).

(** What the walk returns: presets of the namespace, among them those of every chain. *)
Definition ancestors_ok (ns extends self : string) (out : res (list RulesetPreset)) : Prop :=
  match out with
  | inl result => (∀ p, p ∈ result → ∃ name, lookup ns name = inl p) ∧ ∀ l, chain lookup ns extends self l → ∀ p, p ∈ l.*2 → p ∈ result
  | inr err => IsNotFound err = false
  end.

(** The walk has nowhere to go on: every chain is within what it has. *)
Lemma ancestors_end ns extends self l next :
  path lookup ns extends l next → (∀ name p, (name, p) ∈ l → lookup ns name = inl p) →
  (next = "" ∨ next ∈ seen_of self l.*1 ∨ (∃ e, lookup ns next = inr e) ∨ length l = MaxExtendsDepth) →
  ancestors_ok ns extends self (inl l.*2).
Proof.
  intros Hp Hl Hstop. split.
  - intros p ([n q] & -> & Hin)%list_elem_of_fmap. exists n. by apply Hl.
  - intros l' ([n' Hp'] & Hnd & Hself & Hlen) p Hin.
    destruct (path_compare lookup ns extends l' n' Hp' l next Hp) as [[rest ->]|(q & rest & Hne & Hq & ->)].
    + rewrite fmap_app. set_solver.
    + exfalso. rewrite length_app in Hlen. simpl in Hlen. rewrite fmap_app in Hnd, Hself. cbn [fmap list_fmap fst] in Hnd, Hself.
      destruct Hstop as [?|[Hs|[[e ?]|?]]]; [done| |congruence|lia].
      apply (elem_of_seen Get lookup reads) in Hs as [Hs|[? ->]].
      * apply NoDup_app in Hnd as (_ & Hd & _). apply (Hd _ Hs). apply list_elem_of_here.
      * apply Hself; [done|]. set_solver.
Qed.

Lemma ancestors_walk_spec ns extends self : ∀ levels l next r w,
  memo_ok lookup r → cr_namespace r = ns → path lookup ns extends l next → (∀ name p, (name, p) ∈ l → lookup ns name = inl p) →
  (levels + length l = MaxExtendsDepth)%nat →
  let '((out, r'), w') := run (ancestors_walk Get IsNotFound levels next l.*2 (seen_of self l.*1) r) w in
  w' = w ∧ memo_ok lookup r' ∧ cr_namespace r' = ns ∧ ancestors_ok ns extends self out.
Proof.
  induction levels as [|levels IH]; intros l next r w Hr Hns Hp Hl Hlen; cbn [ancestors_walk].
  { cbn [run]. split_and!; [done..|]. apply (ancestors_end _ _ _ _ next); auto. }
  destruct (_ || _) eqn:Hstop.
  { cbn [run]. split_and!; [done..|]. apply (ancestors_end _ _ _ _ next); [done..|].
    apply orb_true_iff in Hstop as [?%bool_decide_eq_true|?%bool_decide_eq_true]; auto. }
  apply orb_false_iff in Hstop as [Hne%bool_decide_eq_false _].
  rewrite run_bind. destruct (GetPreset_spec Get lookup reads r next w Hr) as (r1 & -> & Hr1 & Hns1). step_run. rewrite Hns.
  destruct (lookup ns next) as [p|e] eqn:Hlook.
  - specialize (IH (l ++ [(next, p)]) (rs_Extends (rp_Spec p)) r1 w Hr1). rewrite !fmap_app in IH. cbn [fmap list_fmap fst snd] in IH.
    assert ({[ next ]} ∪ seen_of self l.*1 = seen_of self (l.*1 ++ [next])) as ->.
    { unfold seen_of. rewrite list_to_set_app_L. set_solver. }
    apply IH; [congruence|by apply path_snoc| |rewrite length_app; simpl; lia].
    intros n q [Hin|[= -> ->]%list_elem_of_singleton]%elem_of_app; [by apply Hl|done].
  - cbn [run]. split_and!; [done..|congruence|]. destruct (IsNotFound e) eqn:Hnf; [|done].
    apply (ancestors_end _ _ _ _ next); eauto.
Qed.

Lemma Ancestors_spec r extends self w :
  memo_ok lookup r →
  let '((out, r'), w') := run (Ancestors Get IsNotFound r extends self) w in
  w' = w ∧ memo_ok lookup r' ∧ cr_namespace r' = cr_namespace r ∧ ancestors_ok (cr_namespace r) extends self out.
Proof.
  intros Hr. unfold Ancestors.
  assert ((if bool_decide (self = "") then ∅ else {[ self ]}) = seen_of self ([] : list (string * RulesetPreset)).*1) as ->.
  { unfold seen_of. simpl. by rewrite (left_id_L ∅ (∪)). }
  apply (ancestors_walk_spec (cr_namespace r) extends self MaxExtendsDepth [] extends r w Hr eq_refl); [constructor| |done].
  by intros ? ? ?%not_elem_of_nil.
Qed.
End AncestorsSpec.

(** ** Keys *)
Fixpoint no_slash (s : string) : bool :=
  match s with String c s => negb (Ascii.eqb c "/") && no_slash s | EmptyString => true end.

Lemma slash_split k1 : ∀ k2 r1 r2,
  no_slash k1 = true → no_slash k2 = true → k1 +:+ String "/" r1 = k2 +:+ String "/" r2 → k1 = k2 ∧ r1 = r2.
Proof.
  induction k1 as [|c1 k1 IH]; intros [|c2 k2] r1 r2; cbn [no_slash String.append].
  - by intros _ _ [= ->].
  - intros _ [Hc _]%andb_true_iff [= <- _]. done.
  - intros [Hc _]%andb_true_iff _ [= -> _]. done.
  - intros [_ H1]%andb_true_iff [_ H2]%andb_true_iff [= -> He]. destruct (IH k2 r1 r2 H1 H2 He) as [-> ->]. done.
Qed.

Definition kinds : list string :=
  ["RulesetPreset"; "WebhookPreset"; "WebhookIgnorePreset"; "CodeSecurityConfiguration"; "AutolinksPreset"].

Lemma kinds_no_slash kind : kind ∈ kinds → no_slash kind = true.
Proof. unfold kinds. rewrite !elem_of_cons. intros [->|[->|[->|[->|[->|H%not_elem_of_nil]]]]]; done. Qed.

(** Within a namespace the keys tell kinds and names apart. *)
Lemma getSubResourceKey_inj kind1 kind2 m1 m2 :
  kind1 ∈ kinds → kind2 ∈ kinds → Namespace m1 = Namespace m2 → getSubResourceKey kind1 m1 = getSubResourceKey kind2 m2 →
  kind1 = kind2 ∧ Name m1 = Name m2.
Proof.
  intros H1%kinds_no_slash H2%kinds_no_slash Hns He. unfold getSubResourceKey in He.
  apply slash_split in He as [-> He]; [|done..]. split; [done|]. rewrite Hns in He.
  apply (inj (String.append _)) in He. by apply (inj (String.append "/")) in He.
Qed.

(** ** What is collected *)
Section Collected.
Context {W Client : Type} {KH : K8sHelpers} {A : FactoryApi W Client}.
Context (IsNotFound : gerror → bool) (rand_IntN : Z → Z) (cfg : Config).
(** The cluster does not change meanwhile: what the client answers. *)
Context (orgs : string → string → res Organization) (repos : string → string → res Repository) (teams : string → string → res Team).
Context (presets : string → string → res RulesetPreset) (subs : string → string → string → res ObjectMeta).
Class StoreLaws : Prop := {
  read_org ns n w : run (fa_GetOrganization ns n) w = (orgs ns n, w);
  read_repo ns n w : run (fa_GetRepository ns n) w = (repos ns n, w);
  read_team ns n w : run (fa_GetTeam ns n) w = (teams ns n, w);
  read_preset ns n w : fa_GetRulesetPreset ns n w = (presets ns n, w);
  read_sub kind ns n w : run (fa_GetSubResource kind ns n) w = (subs kind ns n, w);
  preset_named ns n p : presets ns n = inl p → Namespace (rp_Meta p) = ns ∧ Name (rp_Meta p) = n;
  sub_named kind ns n m : subs kind ns n = inl m → Namespace m = ns ∧ Name m = n
}.
Context {L : StoreLaws}.

(** The metadata of a sub-resource. *)
Definition object (kind ns name : string) : res ObjectMeta :=
  if bool_decide (kind = "RulesetPreset") then match presets ns name with inl p => inl (rp_Meta p) | inr err => inr err end
  else subs kind ns name.

Lemma object_named kind ns name meta : object kind ns name = inl meta → Namespace meta = ns ∧ Name meta = name.
Proof.
  unfold object. case_bool_decide; [|apply sub_named]. destruct (presets ns name) as [p|] eqn:Hp; [|done].
  intros [= <-]. by apply preset_named.
Qed.

(** Every recorded generation is that of an object; an object is covered if its generation is recorded. *)
Definition sound (ns : string) (g : gmap string Z) : Prop :=
  map_Forall (λ k gen, ∃ kind name meta, kind ∈ kinds ∧ object kind ns name = inl meta ∧
    k = getSubResourceKey kind meta ∧ gen = Generation meta) g.
Definition covered (ns : string) (g : gmap string Z) (kind name : string) : Prop :=
  ∀ meta, object kind ns name = inl meta → g !! getSubResourceKey kind meta = Some (Generation meta).
Definition chains_covered (ns : string) (g : gmap string Z) (extends self : string) : Prop :=
  ∀ l, chain presets ns extends self l → ∀ name, name ∈ l.*1 → covered ns g "RulesetPreset" name.

Lemma covered_mono ns g g' kind name : g ⊆ g' → covered ns g kind name → covered ns g' kind name.
Proof. intros Hg H meta Hm. eapply lookup_weaken; [by apply H|done]. Qed.
Lemma chains_covered_mono ns g g' extends self : g ⊆ g' → chains_covered ns g extends self → chains_covered ns g' extends self.
Proof. intros Hg H l Hl name Hn. eapply covered_mono; [done|]. by apply (H l). Qed.

Lemma record_ok ns g kind name meta :
  kind ∈ kinds → object kind ns name = inl meta → sound ns g →
  sound ns (record_generation kind meta g) ∧ g ⊆ record_generation kind meta g ∧ covered ns (record_generation kind meta g) kind name.
Proof.
  intros Hk Hm Hs. unfold record_generation. split_and!.
  - apply map_Forall_insert_2; [|done]. by exists kind, name, meta.
  - apply map_subseteq_spec. intros k gen Hg. rewrite lookup_insert. case_decide as He; [|done]. subst k.
    destruct (Hs _ _ Hg) as (kind' & name' & meta' & Hk' & Hm' & He & ->).
    destruct (object_named _ _ _ _ Hm) as [Hns <-], (object_named _ _ _ _ Hm') as [Hns' <-].
    apply getSubResourceKey_inj in He as [-> Hn]; [|done|done|congruence]. rewrite Hn in Hm. congruence.
  - intros meta' Hm'. rewrite Hm in Hm'. injection Hm' as <-. apply lookup_insert_eq.
Qed.

(** The outcome of collecting: the world is as before; on success the map has grown to cover [need], on failure
    something that exists could not be read. *)
Definition collected (ns : string) (g : gmap string Z) (need : gmap string Z → Prop) (out : res (gmap string Z)) : Prop :=
  match out with
  | inl g' => sound ns g' ∧ g ⊆ g' ∧ need g'
  | inr err => IsNotFound err = false
  end.

Lemma collect_one ns g kind name w :
  kind ∈ kinds → kind ≠ "RulesetPreset" → sound ns g →
  let '(out, w') := run (collectSubResourceGeneration IsNotFound g kind name ns) w in
  w' = w ∧ collected ns g (λ g', covered ns g' kind name) out.
Proof.
  intros Hk Hne Hs. unfold collectSubResourceGeneration. rewrite run_bind, read_sub. cbn [run]. split; [done|].
  destruct (subs kind ns name) as [meta|err] eqn:Hm.
  - assert (object kind ns name = inl meta) as Ho by (unfold object; by rewrite bool_decide_eq_false_2).
    destruct (record_ok ns g kind name meta Hk Ho Hs) as (? & ? & ?). done.
  - destruct (IsNotFound err) eqn:Hnf; [|done]. split_and!; [done..|]. intros meta'. unfold object.
    rewrite bool_decide_eq_false_2 by done. by rewrite Hm.
Qed.

Lemma collect_kind_spec ns kind names : ∀ g w,
  kind ∈ kinds → kind ≠ "RulesetPreset" → sound ns g →
  let '(out, w') := run (collect_kind IsNotFound kind ns names g) w in
  w' = w ∧ collected ns g (λ g', ∀ name, name ∈ names → covered ns g' kind name) out.
Proof.
  induction names as [|name names IH]; intros g w Hk Hne Hs; cbn [collect_kind].
  { cbn [run]. split; [done|]. split_and!; [done..|]. by intros ? ?%not_elem_of_nil. }
  rewrite run_bind. pose proof (collect_one ns g kind name w Hk Hne Hs) as H1.
  destruct (run (collectSubResourceGeneration _ _ _ _ _) w) as [[g1|err] w1]; destruct H1 as [-> H1]; [|by cbn].
  destruct H1 as (Hs1 & Hg1 & Hc1). specialize (IH g1 w Hk Hne Hs1). destruct (run (collect_kind _ _ _ _ _) w) as [[g2|err] w2];
    destruct IH as [-> IH]; (split; [done|]); [|done]. destruct IH as (Hs2 & Hg2 & Hc2). split_and!; [done|by etrans|].
  intros n [->|Hn]%elem_of_cons; [by eapply covered_mono|by apply Hc2].
Qed.

(** All presets of a list. *)
Lemma record_all ns (l : list RulesetPreset) : ∀ g,
  (∀ p, p ∈ l → ∃ name, presets ns name = inl p) → sound ns g →
  let g' := foldl (λ result preset, record_generation "RulesetPreset" (rp_Meta preset) result) g l in
  sound ns g' ∧ g ⊆ g' ∧ ∀ p, p ∈ l → covered ns g' "RulesetPreset" (Name (rp_Meta p)).
Proof.
  induction l as [|p l IH]; intros g Hl Hs; [split_and!; [done..|]; by intros ? ?%not_elem_of_nil|].
  cbn [foldl]. destruct (Hl p (list_elem_of_here _ _)) as [name Hp].
  assert (object "RulesetPreset" ns name = inl (rp_Meta p)) as Ho by (unfold object; simpl; by rewrite Hp).
  destruct (record_ok ns g "RulesetPreset" name (rp_Meta p) (list_elem_of_here _ _) Ho Hs) as (Hs1 & Hg1 & Hc1).
  destruct (IH (record_generation "RulesetPreset" (rp_Meta p) g)) as (Hs2 & Hg2 & Hc2); [|done|].
  { intros q Hq. apply Hl. by apply list_elem_of_further. }
  split_and!; [done|by etrans|]. intros q [->|Hq]%elem_of_cons; [|by apply Hc2].
  destruct (preset_named ns name p Hp) as [_ ->]. by eapply covered_mono.
Qed.

Lemma collectAncestors_spec ns g r extends self w :
  memo_ok presets r → cr_namespace r = ns → sound ns g →
  let '((out, r'), w') := run (collectAncestors IsNotFound r g extends self) w in
  w' = w ∧ memo_ok presets r' ∧ cr_namespace r' = ns ∧ collected ns g (λ g', chains_covered ns g' extends self) out.
Proof.
  intros Hr Hns Hs. unfold collectAncestors. rewrite run_bind.
  pose proof (Ancestors_spec fa_GetRulesetPreset IsNotFound presets read_preset r extends self w Hr) as Ha. rewrite Hns in Ha.
  destruct (run (Ancestors _ _ _ _ _) w) as [[[result|err] r'] w']; destruct Ha as (-> & Hr' & Hns' & Ha); cbn [run]; [|done].
  destruct Ha as [Hsound Hall]. split_and!; [done..|]. destruct (record_all ns result g Hsound Hs) as (? & ? & Hc).
  split_and!; [done..|]. intros l Hl name (( n & p) & -> & Hin)%list_elem_of_fmap. simpl.
  assert (presets ns n = inl p) as Hp.
  { destruct Hl as ([next Hp] & _). apply list_elem_of_split in Hin as (l1 & l2 & ->). by apply path_app in Hp as (_ & _ & ?). }
  destruct (preset_named ns n p Hp) as [_ <-]. apply Hc, (Hall l Hl). by apply (list_elem_of_fmap_2 snd l (Name (rp_Meta p), p)).
Qed.

(** The preset of a reference and its chain. *)
Definition ref_covered (ns : string) (g : gmap string Z) (ref : string) : Prop :=
  covered ns g "RulesetPreset" ref ∧
  ∀ p, presets ns ref = inl p → chains_covered ns g (rs_Extends (rp_Spec p)) ref.

Lemma ref_covered_mono ns g g' ref : g ⊆ g' → ref_covered ns g ref → ref_covered ns g' ref.
Proof. intros Hg [H1 H2]. split; [by eapply covered_mono|]. intros p Hp. eapply chains_covered_mono; [done|]. by apply H2. Qed.

Lemma collect_refs_spec ns refs : ∀ g r w,
  memo_ok presets r → cr_namespace r = ns → sound ns g →
  let '(out, w') := run (collect_refs IsNotFound ns refs r g) w in
  w' = w ∧ match out with
    | inl (g', r') => memo_ok presets r' ∧ cr_namespace r' = ns ∧ sound ns g' ∧ g ⊆ g' ∧ ∀ ref, ref ∈ refs → ref_covered ns g' ref
    | inr err => IsNotFound err = false
    end.
Proof.
  induction refs as [|ref refs IH]; intros g r w Hr Hns Hs; cbn [collect_refs].
  { cbn [run]. split_and!; [done..|]. by intros ? ?%not_elem_of_nil. }
  unfold collect_preset. rewrite !run_bind, run_call, read_preset. cbn [run].
  assert (∃ g1 extends, sound ns g1 ∧ g ⊆ g1 ∧ covered ns g1 "RulesetPreset" ref ∧
    (∀ p, presets ns ref = inl p → extends = rs_Extends (rp_Spec p)) ∧
    match presets ns ref with
    | inl p => record_generation "RulesetPreset" (rp_Meta p) g = g1 ∧ rs_Extends (rp_Spec p) = extends
    | inr err => g = g1 ∧ "" = extends
    end) as (g1 & extends & Hs1 & Hg1 & Hc1 & Hext & Heq).
  { destruct (presets ns ref) as [p|err] eqn:Hp.
    - assert (object "RulesetPreset" ns ref = inl (rp_Meta p)) as Ho by (unfold object; simpl; by rewrite Hp).
      destruct (record_ok ns g _ ref (rp_Meta p) (list_elem_of_here _ _) Ho Hs) as (? & ? & ?).
      eexists _, _. split_and!; try done. by intros q [= <-].
    - exists g, "". split_and!; try done. intros meta. unfold object. simpl. by rewrite Hp. }
  destruct (presets ns ref) as [p|err] eqn:Hp; [|destruct (IsNotFound err) eqn:Hnf; [|by cbn]].
  all: destruct Heq as [<- <-]; rewrite run_bind;
    match goal with |- context [collectAncestors _ _ _ ?x ?n] => pose proof (collectAncestors_spec ns _ r x n w Hr Hns Hs1) as Ha end;
    destruct (run (collectAncestors _ _ _ _ _) w) as [[[g2|e] r2] w2]; destruct Ha as (-> & Hr2 & Hns2 & Ha); [|by cbn];
    destruct Ha as (Hs2 & Hg2 & Hc2); specialize (IH g2 r2 w Hr2 Hns2 Hs2);
    destruct (run (collect_refs _ _ _ _ _) w) as [[[g3 r3]|e] w3]; destruct IH as [-> IH]; (split; [done|]); [|done];
    destruct IH as (Hr3 & Hns3 & Hs3 & Hg3 & Hc3); split_and!; [done..|etrans; [exact Hg1|by etrans]|];
    intros n [->|Hn]%elem_of_cons; [|by apply Hc3]; apply (ref_covered_mono ns g2); [done|];
    split; [by eapply covered_mono|]; intros q Hq.
  - rewrite Hp in Hq. by rewrite <-(Hext q Hq).
  - congruence.
Qed.

Lemma collect_inline_spec ns inline : ∀ g r w,
  memo_ok presets r → cr_namespace r = ns → sound ns g →
  let '(out, w') := run (collect_inline IsNotFound inline r g) w in
  w' = w ∧ collected ns g (λ g', ∀ rs, rs ∈ inline → chains_covered ns g' (rs_Extends rs) "") out.
Proof.
  induction inline as [|rs inline IH]; intros g r w Hr Hns Hs; cbn [collect_inline].
  { cbn [run]. split; [done|]. split_and!; [done..|]. by intros ? ?%not_elem_of_nil. }
  rewrite run_bind. pose proof (collectAncestors_spec ns g r (rs_Extends rs) "" w Hr Hns Hs) as Ha.
  destruct (run (collectAncestors _ _ _ _ _) w) as [[[g1|e] r1] w1]; destruct Ha as (-> & Hr1 & Hns1 & Ha); [|by cbn].
  destruct Ha as (Hs1 & Hg1 & Hc1). specialize (IH g1 r1 w Hr1 Hns1 Hs1).
  destruct (run (collect_inline _ _ _ _) w) as [[g2|e] w2]; destruct IH as [-> IH]; (split; [done|]); [|done].
  destruct IH as (Hs2 & Hg2 & Hc2). split_and!; [done|by etrans|].
  intros q [->|Hq]%elem_of_cons; [by eapply chains_covered_mono|by apply Hc2].
Qed.

Lemma collectRulesets_spec ns g refs inline w :
  sound ns g →
  let '(out, w') := run (collectRulesetPresetGenerations IsNotFound g ns refs inline) w in
  w' = w ∧ collected ns g (λ g', (∀ ref, ref ∈ refs → ref_covered ns g' ref) ∧
    ∀ rs, rs ∈ inline → chains_covered ns g' (rs_Extends rs) "") out.
Proof.
  intros Hs. unfold collectRulesetPresetGenerations. rewrite run_bind.
  pose proof (collect_refs_spec ns refs g (NewChainResolver ns) w) as Hrefs.
  destruct (run (collect_refs _ _ _ _ _) w) as [[[g1 r1]|e] w1];
    destruct Hrefs as [-> Hrefs]; [by intros ? ?|done|done| |by intros ? ?|done|done|by cbn].
  destruct Hrefs as (Hr1 & Hns1 & Hs1 & Hg1 & Hc1).
  pose proof (collect_inline_spec ns inline g1 r1 w Hr1 Hns1 Hs1) as Hin.
  destruct (run (collect_inline _ _ _ _) w) as [[g2|e] w2]; destruct Hin as [-> Hin]; (split; [done|]); [|done].
  destruct Hin as (Hs2 & Hg2 & Hc2). split_and!; [done|by etrans| |done].
  intros ref Hin. eapply ref_covered_mono; [done|]. by apply Hc1.
Qed.

(** What a repository and an organization refer to: names by kind, and the starts of chains. *)
Definition repo_refs (repo : Repository) : list (string * string) :=
  let spec := r_Spec repo in
  (((([] ++ (pair "WebhookPreset" <$> r_WebhookPresetList spec)) ++ (pair "WebhookIgnorePreset" <$> r_WebhookIgnorePresetsList spec)) ++
  (pair "CodeSecurityConfiguration" <$> option_list (r_AttachedCodeSecurityConfiguration spec))) ++
  (pair "AutolinksPreset" <$> r_AutolinksPresetList spec)).
Definition org_refs (org : Organization) : list (string * string) :=
  [] ++ (pair "CodeSecurityConfiguration" <$> (ar_Name <$> o_CodeSecurityConfigurations (o_Spec org))).

(** Everything the reconciliation of a resource reads of its sub-resources has its generation recorded. *)
Definition tracked (ns : string) (refs : list string) (inline : list RulesetSpec) (others : list (string * string))
    (g : gmap string Z) : Prop :=
  (∀ ref, ref ∈ refs → ref_covered ns g ref) ∧ (∀ rs, rs ∈ inline → chains_covered ns g (rs_Extends rs) "") ∧
  (∀ kind name, (kind, name) ∈ others → covered ns g kind name).

Definition generations_ok (ns : string) (refs : list string) (inline : list RulesetSpec) (others : list (string * string))
    (out : res (option (gmap string Z))) : Prop :=
  match out with
  | inl g => sound ns (WithDefault g ∅) ∧ tracked ns refs inline others (WithDefault g ∅) ∧ g ≠ Some ∅
  | inr err => IsNotFound err = false
  end.

Lemma nonempty_generations_ok ns refs inline others g :
  sound ns g → tracked ns refs inline others g → generations_ok ns refs inline others (inl (nonempty_generations g)).
Proof. intros Hs Ht. unfold nonempty_generations. case_bool_decide as Hg; [by subst|]. split_and!; [done..|congruence]. Qed.

(** One more kind. *)
Lemma collect_kind_tracked ns refs inline others kind names g w :
  kind ∈ kinds → kind ≠ "RulesetPreset" → sound ns g → tracked ns refs inline others g →
  let '(out, w') := run (collect_kind IsNotFound kind ns names g) w in
  w' = w ∧ collected ns g (tracked ns refs inline (others ++ (pair kind <$> names))) out.
Proof.
  intros Hk Hne Hs (Hr & Hi & Ho). pose proof (collect_kind_spec ns kind names g w Hk Hne Hs) as H.
  destruct (run (collect_kind _ _ _ _ _) w) as [[g'|err] w']; destruct H as [-> H]; (split; [done|]); [|done].
  destruct H as (Hs' & Hg' & Hc). split_and!; [done..|]. split_and!.
  - intros ref Hin. eapply ref_covered_mono; [done|by apply Hr].
  - intros rs Hin. eapply chains_covered_mono; [done|by apply Hi].
  - intros k n [Hin|(n' & [= -> ->] & Hin)%list_elem_of_fmap]%elem_of_app; [eapply covered_mono; [done|by apply Ho]|by apply Hc].
Qed.

(** Collecting in sequence. *)
Lemma collect_step {R} ns g (m : prog W (res (gmap string Z))) (k : gmap string Z → prog W (res R)) P (Q : res R → Prop) w :
  (let '(out, w') := run m w in w' = w ∧ collected ns g P out) →
  (∀ err, IsNotFound err = false → Q (inr err)) →
  (∀ g', sound ns g' → P g' → let '(out, w') := run (k g') w in w' = w ∧ Q out) →
  let '(out, w') := run (let? g' := m in k g') w in w' = w ∧ Q out.
Proof.
  intros Hm Herr Hk. rewrite run_bind. destruct (run m w) as [[g'|err] w']; destruct Hm as [-> Hm]; [|by split; [|apply Herr]].
  destruct Hm as (Hs & _ & Hp). by apply Hk.
Qed.

Lemma sound_empty ns : sound ns ∅.
Proof. apply map_Forall_empty. Qed.

Lemma collectRulesets_tracked ns refs inline w :
  let '(out, w') := run (collectRulesetPresetGenerations IsNotFound ∅ ns refs inline) w in
  w' = w ∧ collected ns ∅ (tracked ns refs inline []) out.
Proof.
  pose proof (collectRulesets_spec ns ∅ refs inline w (sound_empty ns)) as H.
  destruct (run (collectRulesetPresetGenerations _ _ _ _ _) w) as [[g|e] w']; destruct H as [-> H]; (split; [done|]); [|done].
  destruct H as (Hs & Hg & Hr & Hi). split_and!; [done..|]. split_and!; [done..|]. by intros ? ? ?%not_elem_of_nil.
Qed.

Local Ltac next_kind ns w :=
  match goal with Hs : sound ns ?g, Ht : tracked ns _ _ _ ?g |- context [collect_kind _ ?k ns ?names ?g] =>
    apply (collect_step ns _ _ _ _ _ w (collect_kind_tracked ns _ _ _ k names g w ltac:(unfold kinds; set_solver) ltac:(done) Hs Ht));
      [done|clear Hs Ht; intros ? ? ?]
  end.

Lemma fetch_org_spec org w :
  let '(out, w') := run (fetchSubResourceGenerationsForOrg IsNotFound org) w in
  w' = w ∧ generations_ok (Namespace (o_Meta org)) (o_RulesetPresetList (o_Spec org)) (o_Rulesets (o_Spec org)) (org_refs org) out.
Proof.
  unfold fetchSubResourceGenerationsForOrg. set (ns := Namespace (o_Meta org)).
  apply (collect_step ns _ _ _ _ _ w (collectRulesets_tracked ns _ _ w)); [done|]. intros g1 Hs1 Ht1.
  next_kind ns w. cbn [run]. split; [done|]. by apply nonempty_generations_ok.
Qed.

Lemma fetch_repo_spec repo w :
  let '(out, w') := run (fetchSubResourceGenerationsForRepo IsNotFound repo) w in
  w' = w ∧ generations_ok (Namespace (r_Meta repo)) (r_RulesetPresetList (r_Spec repo)) (r_Rulesets (r_Spec repo)) (repo_refs repo) out.
Proof.
  unfold fetchSubResourceGenerationsForRepo. set (ns := Namespace (r_Meta repo)).
  apply (collect_step ns _ _ _ _ _ w (collectRulesets_tracked ns _ _ w)); [done|]. intros g1 Hs1 Ht1.
  do 4 next_kind ns w. cbn [run]. split; [done|]. by apply nonempty_generations_ok.
Qed.
End Collected.
