(* ===== verification/Startup.v ===== *)
(** * Creating reconcilers: when a reconciliation starts, and with what

    Theorems about the factory of reconcilers (Factory.v) and the controllers on top of it: which changes startup
    spreading does not hold back, that a restart of the operator reconciles unchanged resources later and without a
    request to GitHub, and which clients a reconciler gets. *)
From S2P Require Import Prelude GoErrors Config Spreading Conditions Executor Requeue ApiTypes RulesetMerge RulesetResolve IdResolver ClientFactory Factory.

(** ** Programs that only read a cluster that does not change *)
Section Steady.
Context {W : Type}.

Definition steady {R} (m : prog W R) : Prop := ∃ out, ∀ w, run m w = (out, w).

Lemma steady_ret {R} (r : R) : steady (Ret r : prog W R).
Proof. by exists r. Qed.
Lemma steady_bind {X R} (m : prog W X) (k : X → prog W R) : steady m → (∀ x, steady (k x)) → steady (bind m k).
Proof. intros [x Hm] Hk. destruct (Hk x) as [r Hr]. exists r. intros w. by rewrite run_bind, Hm. Qed.
Lemma steady_result {R} (m : prog W R) w w' : steady m → (run m w).1 = (run m w').1.
Proof. intros [r Hr]. by rewrite !Hr. Qed.
End Steady.
#[local] Hint Resolve steady_ret : core.

Section Reading.
Context {W Client : Type} {KH : K8sHelpers} {A : FactoryApi W Client}.
Context (IsNotFound : gerror → bool) (rand_IntN : Z → Z) (cfg : Config).
Context (orgs : string → string → res Organization) (repos : string → string → res Repository) (teams : string → string → res Team).
Context (presets : string → string → res RulesetPreset) (subs : string → string → string → res ObjectMeta).
Context {L : StoreLaws orgs repos teams presets subs}.

Lemma steady_call_preset ns n : steady (call (fa_GetRulesetPreset ns n)).
Proof. exists (presets ns n). intros w. by rewrite run_call, (read_preset orgs repos teams presets subs). Qed.
Lemma steady_sub kind ns n : steady (fa_GetSubResource kind ns n).
Proof. exists (subs kind ns n). intros w. apply (read_sub orgs repos teams presets subs). Qed.

Lemma steady_GetPreset r name : steady (GetPreset fa_GetRulesetPreset r name).
Proof.
  unfold GetPreset. case_match; [auto|]. apply steady_bind; [apply steady_call_preset|]. intros [p|e]; auto.
Qed.

Lemma steady_walk levels : ∀ next result seen r, steady (ancestors_walk fa_GetRulesetPreset IsNotFound levels next result seen r).
Proof.
  induction levels as [|levels IH]; intros next result seen r; cbn [ancestors_walk]; [auto|].
  case_match; [auto|]. apply steady_bind; [apply steady_GetPreset|]. intros [[p|e] r']; [apply IH|]. destruct (IsNotFound e); auto.
Qed.

Lemma steady_collectAncestors r g extends self : steady (collectAncestors IsNotFound r g extends self).
Proof. unfold collectAncestors, Ancestors. apply steady_bind; [apply steady_walk|]. intros [[l|e] r']; auto. Qed.

Lemma steady_collect_refs ns refs : ∀ r g, steady (collect_refs IsNotFound ns refs r g).
Proof.
  induction refs as [|ref refs IH]; intros r g; cbn [collect_refs]; [auto|]. apply steady_bind.
  { unfold collect_preset. apply steady_bind; [apply steady_call_preset|]. auto. }
  intros [[g' extends]|e]; [|auto]. apply steady_bind; [apply steady_collectAncestors|]. intros [[g2|e] r']; auto.
Qed.

Lemma steady_collect_inline inline : ∀ r g, steady (collect_inline IsNotFound inline r g).
Proof.
  induction inline as [|rs inline IH]; intros r g; cbn [collect_inline]; [auto|].
  apply steady_bind; [apply steady_collectAncestors|]. intros [[g2|e] r']; auto.
Qed.

Lemma steady_collect_kind kind ns names : ∀ g, steady (collect_kind IsNotFound kind ns names g).
Proof.
  induction names as [|name names IH]; intros g; cbn [collect_kind]; [auto|]. apply steady_bind; [|intros [g'|e]; auto].
  unfold collectSubResourceGeneration. apply steady_bind; [apply steady_sub|]. auto.
Qed.

Lemma steady_rulesets ns g refs inline : steady (collectRulesetPresetGenerations IsNotFound g ns refs inline).
Proof.
  unfold collectRulesetPresetGenerations. apply steady_bind; [apply steady_collect_refs|].
  intros [[g' r]|e]; [apply steady_collect_inline|auto].
Qed.

Lemma steady_fetch_repo repo : steady (fetchSubResourceGenerationsForRepo IsNotFound repo).
Proof.
  unfold fetchSubResourceGenerationsForRepo. apply steady_bind; [apply steady_rulesets|].
  intros [g|e]; [|auto]. do 4 (apply steady_bind; [apply steady_collect_kind|intros [?|?]; [|auto]]). auto.
Qed.

Lemma steady_fetch_org org : steady (fetchSubResourceGenerationsForOrg IsNotFound org).
Proof.
  unfold fetchSubResourceGenerationsForOrg. apply steady_bind; [apply steady_rulesets|].
  intros [g|e]; [|auto]. apply steady_bind; [apply steady_collect_kind|intros [?|?]; auto].
Qed.

(** ** Changes are not held back *)

(** The sub-resources a resource depends on: those it names, and the presets of its chains. *)
Definition depends (ns : string) (refs : list string) (inline : list RulesetSpec) (others : list (string * string)) (kind name : string) : Prop :=
  (kind, name) ∈ others ∨
  kind = "RulesetPreset" ∧ (name ∈ refs ∨
    (∃ ref p l, ref ∈ refs ∧ presets ns ref = inl p ∧ chain presets ns (rs_Extends (rp_Spec p)) ref l ∧ name ∈ l.*1) ∨
    ∃ rs l, rs ∈ inline ∧ chain presets ns (rs_Extends rs) "" l ∧ name ∈ l.*1).

Lemma tracked_depends ns refs inline others g kind name :
  tracked presets subs ns refs inline others g → depends ns refs inline others kind name → covered presets subs ns g kind name.
Proof.
  intros (Hr & Hi & Ho) [H|[-> [H|[(ref & p & l & Href & Hp & Hl & Hn)|(rs & l & Hrs & Hl & Hn)]]]].
  - by apply Ho.
  - by apply Hr.
  - destruct (Hr ref Href) as [_ Hc]. by apply (Hc p Hp l Hl).
  - by apply (Hi rs Hrs l Hl).
Qed.

(** What the spreading manager holds back has observed just what is recorded. *)
Lemma Spread_observed m now r current err :
  Spread rand_IntN m now r current = Some err → current = GetObservedSubResourceGenerations r.
Proof.
  unfold Spread. destruct m as [m|]; [|done]. split_cases. intros _. by apply subResourcesChanged_spec.
Qed.

Lemma CreateForRepo_run ns n repo w :
  repos ns n = inl repo →
  ∃ fetched, (∀ w, run (fetchSubResourceGenerationsForRepo IsNotFound repo) w = (fetched, w)) ∧
    generations_ok IsNotFound presets subs (Namespace (r_Meta repo)) (r_RulesetPresetList (r_Spec repo)) (r_Rulesets (r_Spec repo)) (repo_refs repo) fetched ∧
    run (CreateForRepo IsNotFound rand_IntN cfg ns n) w =
      match fetched with
      | inr err => (inr err, w)
      | inl g => match Spread rand_IntN (fa_spreading w) (fa_now w) (spreadable_repo repo) g with
        | Some err => (inr err, w)
        | None => run (repo_reconciler cfg repo g) w
        end
      end.
Proof.
  intros Hrepo. destruct (steady_fetch_repo repo) as [fetched Hf]. exists fetched. split; [done|].
  pose proof (fetch_repo_spec IsNotFound orgs repos teams presets subs repo w) as Hok. rewrite Hf in Hok. destruct Hok as [_ Hok]. split; [done|].
  unfold CreateForRepo. rewrite run_bind, (read_repo orgs repos teams presets subs), Hrepo. step_run. rewrite run_bind, Hf. destruct fetched as [g|err]; [|done].
  rewrite run_bind. unfold spread. rewrite run_gets. by destruct (Spread _ _ _ _ _).
Qed.

Lemma CreateForOrg_run ns n org w :
  orgs ns n = inl org →
  ∃ fetched, (∀ w, run (fetchSubResourceGenerationsForOrg IsNotFound org) w = (fetched, w)) ∧
    generations_ok IsNotFound presets subs (Namespace (o_Meta org)) (o_RulesetPresetList (o_Spec org)) (o_Rulesets (o_Spec org)) (org_refs org) fetched ∧
    run (CreateForOrg IsNotFound rand_IntN cfg ns n) w =
      match fetched with
      | inr err => (inr err, w)
      | inl g => match Spread rand_IntN (fa_spreading w) (fa_now w) (spreadable_org org) g with
        | Some err => (inr err, w)
        | None => run (org_reconciler cfg org g) w
        end
      end.
Proof.
  intros Horg. destruct (steady_fetch_org org) as [fetched Hf]. exists fetched. split; [done|].
  pose proof (fetch_org_spec IsNotFound orgs repos teams presets subs org w) as Hok. rewrite Hf in Hok. destruct Hok as [_ Hok]. split; [done|].
  unfold CreateForOrg. rewrite run_bind, (read_org orgs repos teams presets subs), Horg. step_run. rewrite run_bind, Hf.
  destruct fetched as [g|err]; [|done]. rewrite run_bind. unfold spread. rewrite run_gets. by destruct (Spread _ _ _ _ _).
Qed.

(** A sub-resource whose generation was not observed is recorded, and the resource is not held back. *)
Lemma unobserved_not_spread ns refs inline others g r m now kind name meta :
  generations_ok IsNotFound presets subs ns refs inline others (inl g) → depends ns refs inline others kind name →
  object presets subs kind ns name = inl meta →
  WithDefault (GetObservedSubResourceGenerations r) ∅ !! getSubResourceKey kind meta ≠ Some (Generation meta) →
  WithDefault g ∅ !! getSubResourceKey kind meta = Some (Generation meta) ∧ Spread rand_IntN m now r g = None.
Proof.
  intros (_ & Ht & _) Hd Hm Hobs. pose proof (tracked_depends _ _ _ _ _ _ _ Ht Hd meta Hm) as Hg. split; [done|].
  destruct (Spread rand_IntN m now r g) as [err|] eqn:Hs; [|done]. apply Spread_observed in Hs. congruence.
Qed.

(** C10: a change of anything a resource depends on is not held back by startup spreading: if a preset, a preset
    anywhere in the extends chain of a referenced preset or of an inline ruleset, or another referenced sub-resource
    has a generation that was not observed, then the repository or organization is reconciled at once, with this
    generation among those it will record; only an error of the cluster other than "not found" prevents it. *)
Theorem changed_subresource_not_delayed ns n kind name meta w :
  (∀ repo, repos ns n = inl repo →
    depends (Namespace (r_Meta repo)) (r_RulesetPresetList (r_Spec repo)) (r_Rulesets (r_Spec repo)) (repo_refs repo) kind name →
    object presets subs kind (Namespace (r_Meta repo)) name = inl meta →
    WithDefault (rst_ObservedSubResourceGenerations (r_Status repo)) ∅ !! getSubResourceKey kind meta ≠ Some (Generation meta) →
    (∃ err, IsNotFound err = false ∧ run (CreateForRepo IsNotFound rand_IntN cfg ns n) w = (inr err, w)) ∨
    ∃ g, WithDefault g ∅ !! getSubResourceKey kind meta = Some (Generation meta) ∧
      run (CreateForRepo IsNotFound rand_IntN cfg ns n) w = run (repo_reconciler cfg repo g) w) ∧
  (∀ org, orgs ns n = inl org →
    depends (Namespace (o_Meta org)) (o_RulesetPresetList (o_Spec org)) (o_Rulesets (o_Spec org)) (org_refs org) kind name →
    object presets subs kind (Namespace (o_Meta org)) name = inl meta →
    WithDefault (ost_ObservedSubResourceGenerations (o_Status org)) ∅ !! getSubResourceKey kind meta ≠ Some (Generation meta) →
    (∃ err, IsNotFound err = false ∧ run (CreateForOrg IsNotFound rand_IntN cfg ns n) w = (inr err, w)) ∨
    ∃ g, WithDefault g ∅ !! getSubResourceKey kind meta = Some (Generation meta) ∧
      run (CreateForOrg IsNotFound rand_IntN cfg ns n) w = run (org_reconciler cfg org g) w).
Proof.
  split.
  - intros repo Hr Hd Hm Hobs. destruct (CreateForRepo_run ns n repo w Hr) as ([g|err] & _ & Hok & ->); [right; exists g|left; by exists err].
    by destruct (unobserved_not_spread _ _ _ _ g (spreadable_repo repo) (fa_spreading w) (fa_now w) kind name meta Hok Hd Hm Hobs) as [Hg ->].
  - intros org Ho Hd Hm Hobs. destruct (CreateForOrg_run ns n org w Ho) as ([g|err] & _ & Hok & ->); [right; exists g|left; by exists err].
    by destruct (unobserved_not_spread _ _ _ _ g (spreadable_org org) (fa_spreading w) (fa_now w) kind name meta Hok Hd Hm Hobs) as [Hg ->].
Qed.

End Reading.

(** ** A restart of the operator *)
Section Restart.
Context {W Client : Type} {KH : K8sHelpers} {A : FactoryApi W Client} {HE : Env W}.
Context (IsNotFound : gerror → bool) (rand_IntN rand_N : Z → Z) (cfg : Config).
Context (orgs : string → string → res Organization) (repos : string → string → res Repository) (teams : string → string → res Team).
Context (presets : string → string → res RulesetPreset) (subs : string → string → string → res ObjectMeta).
Context {L : StoreLaws orgs repos teams presets subs}.
Context (ctx_canceled : W → bool) (scheds : nat → list nat) (policy : RequeuePolicy).
(** The executor around what the factory created. *)
Context (executor : GitHubRepoReconciler Client → Reconciler W).

Definition created {R} (executor : R → Reconciler W) (m : prog W (res (option R))) : prog W (res (option (Reconciler W))) :=
  let! r := m in Ret (match r with inl r => inl (executor <$> r) | inr err => inr err end).

Lemma fetch_repo_same (repo repo' : Repository) :
  r_Spec repo' = r_Spec repo → Namespace (r_Meta repo') = Namespace (r_Meta repo) →
  fetchSubResourceGenerationsForRepo IsNotFound repo' = fetchSubResourceGenerationsForRepo IsNotFound repo.
Proof. intros Hs Hn. unfold fetchSubResourceGenerationsForRepo. by rewrite Hs, Hn. Qed.

Lemma fetch_org_same (org org' : Organization) :
  o_Spec org' = o_Spec org → Namespace (o_Meta org') = Namespace (o_Meta org) →
  fetchSubResourceGenerationsForOrg IsNotFound org' = fetchSubResourceGenerationsForOrg IsNotFound org.
Proof. intros Hs Hn. unfold fetchSubResourceGenerationsForOrg. by rewrite Hs, Hn. Qed.

(** The spreading manager holds back what is healthy and unchanged while its period runs. *)
Lemma Spread_delays m now r :
  Enabled m = true → sat64 (now - StartTime m) ≤ sc_SpreadPeriod m → Spreading.GetGeneration r = GetObservedGeneration r →
  IsHealthy r = true → Deleted r = false → 0 < calculateSpreadDelay rand_IntN m now →
  Spread rand_IntN (Some m) now r (GetObservedSubResourceGenerations r) = Some (ERequiresSpread (calculateSpreadDelay rand_IntN m now)).
Proof.
  intros He Hp Hg Hh Hd Hpos. unfold Spread. rewrite He, (proj2 (Z.ltb_ge _ _)), Hg, Z.eqb_refl, Hh, Hd by done. simpl.
  rewrite (proj2 (subResourcesChanged_spec _ _) eq_refl). by rewrite (proj2 (Z.leb_gt _ _)).
Qed.

(** After a restart of the operator a repository that was reconciled before and did not change since, nor
    anything it depends on, is not reconciled at once with all others: its controller makes no request and changes
    nothing, but requeues it for a moment inside the spread window, before period and interval have passed since
    the start. *)
Theorem restart_spreads_unchanged_repository ns n (repo repo0 : Repository) m w0 w1 w :
  repos ns n = inl repo →
  r_Spec repo0 = r_Spec repo → Namespace (r_Meta repo0) = Namespace (r_Meta repo) →
  run (fetchSubResourceGenerationsForRepo IsNotFound repo0) w0 = (inl (rst_ObservedSubResourceGenerations (r_Status repo)), w1) →
  Generation (r_Meta repo) = repo_GetObservedGeneration repo → repo_IsHealthy repo = true → DeletionTimestamp (r_Meta repo) = None →
  fa_spreading w = Some m → Enabled m = true → rand_ok rand_IntN → interval_ok m →
  sat64 (fa_now w - StartTime m) ≤ sc_SpreadPeriod m →
  let d := calculateSpreadDelay rand_IntN m (fa_now w) in
  0 < d → ctx_canceled w = false →
  run (RepositoryCtl_Reconcile rand_N IsNotFound ctx_canceled (created executor (CreateForRepo IsNotFound rand_IntN cfg ns n)) scheds policy) w =
    ((requeue_after d, None), w) ∧
  fa_now w + d < StartTime m + sc_SpreadPeriod m + sc_SpreadInterval m.
Proof.
  intros Hr Hspec Hns Hf0 Hgen Hh Hdel Hm He Hrand Hint Hp d Hd Hc. split.
  2: by apply (calculateSpreadDelay_target rand_IntN m (fa_now w) d Hrand Hint eq_refl Hd).
  destruct (CreateForRepo_run IsNotFound rand_IntN cfg orgs repos teams presets subs ns n repo w Hr) as (fetched & Hf & _ & Hrun).
  rewrite (fetch_repo_same repo repo0 Hspec Hns), Hf in Hf0. simplify_eq. rewrite Hm in Hrun.
  pose proof (Spread_delays m (fa_now w) (spreadable_repo repo) He Hp Hgen Hh) as Hs.
  change (GetObservedSubResourceGenerations (spreadable_repo repo)) with (rst_ObservedSubResourceGenerations (r_Status repo)) in Hs.
  rewrite Hs in Hrun by (try apply bool_decide_eq_false; simpl; rewrite ?Hdel; by try intros [? ?]).
  unfold RepositoryCtl_Reconcile, created. rewrite !run_bind, Hrun. cbn [run].
  unfold onFactoryError. by rewrite run_gets, Hc.
Qed.
End Restart.

(** ** The organizations of a team *)
Section Teams.
Context {W Client : Type} {KH : K8sHelpers} {A : FactoryApi W Client} {ML : ManagerLaws fa_manager}.
Context (IsNotFound : gerror → bool) (rand_IntN : Z → Z) (cfg : Config).
Context (orgs : string → string → res Organization) (repos : string → string → res Repository) (teams : string → string → res Team).
Context (presets : string → string → res RulesetPreset) (subs : string → string → string → res ObjectMeta).
Context {L : StoreLaws orgs repos teams presets subs}.

(** A client for an organization, and its login. *)
Definition client_for (w : W) (org : Organization) (x : Client * string) : Prop :=
  x.2 = GetLogin org ∧ ∃ app, orgAppConfig org = inl app ∧ serves x.1 x.2 app w.
(** Clients for the organizations of a list of references, in their order. *)
Definition clients_for (ns : string) (refs : list string) (w : W) (l : list (Client * string)) : Prop :=
  Forall2 (λ ref x, ∃ org, orgs ns ref = inl org ∧ client_for w org x) refs l.

Lemma client_for_step w w' org x : manager_step w w' → client_for w org x → client_for w' org x.
Proof. intros Hw (? & app & ? & ?). split; [done|]. exists app. split; [done|]. by eapply serves_step. Qed.
Lemma clients_for_step ns refs w w' l : manager_step w w' → clients_for ns refs w l → clients_for ns refs w' l.
Proof.
  intros Hw H. eapply Forall2_impl; [exact H|]. intros ref x (org & ? & ?). exists org. split; [done|]. by eapply client_for_step.
Qed.

Lemma get_orgs_spec ns refs w :
  let '(out, w') := run (get_orgs ns refs) w in
  w' = w ∧ match out with
    | inl l => Forall2 (λ ref org, orgs ns ref = inl org) refs l
    | inr err => ∃ ref, ref ∈ refs ∧ orgs ns ref = inr err
    end.
Proof.
  induction refs as [|ref refs IH]; cbn [get_orgs]; [by cbn; auto|].
  unfold getOrgByRef. rewrite run_bind, (read_org orgs repos teams presets subs). step_run.
  destruct (orgs ns ref) as [org|err] eqn:Ho; [|cbn; split; [done|]; exists ref; split; [apply list_elem_of_here|done]].
  rewrite run_bind. destruct (run (get_orgs ns refs) w) as [[l|err] w']; destruct IH as [-> IH]; cbn [run]; (split; [done|]).
  - by constructor.
  - destruct IH as (r & Hr & He). exists r. split; [by apply list_elem_of_further|done].
Qed.

Lemma get_clients_spec l : ∀ w, manager_inv w →
  let '(out, w') := run (get_clients l) w in
  manager_inv w' ∧ manager_step w w' ∧ ∀ cs, out = inl cs → Forall2 (client_for w') l cs.
Proof.
  induction l as [|org l IH]; intros w HI; cbn [get_clients].
  { cbn [run]. split_and!; [done|reflexivity|]. intros cs [= <-]. constructor. }
  destruct (orgAppConfig org) as [app|err] eqn:Happ; [|by cbn; split_and!].
  rewrite run_bind. pose proof (manager_GetClient_spec (GetLogin org) app w HI) as Hc.
  destruct (run (manager_GetClient _ _) w) as [[c|err] w1]; destruct Hc as (HI1 & Hw1 & Hc); [|by cbn].
  rewrite run_bind. specialize (IH w1 HI1). destruct (run (get_clients l) w1) as [[cs|err] w2]; destruct IH as (HI2 & Hw2 & IH);
    cbn [run]; (split_and!; [done|by etrans|]); [|done].
  intros cs' [= <-]. constructor; [|by apply IH]. split; [done|]. exists app. split; [done|]. by eapply serves_step, Hc.
Qed.

Lemma buildGitHubOrgsSlice_spec team refs w :
  manager_inv w →
  let ns := Namespace (t_Meta team) in
  let '(out, w') := run (buildGitHubOrgsSlice team refs) w in
  manager_inv w' ∧ manager_step w w' ∧ (∀ l, out = inl l → clients_for ns refs w' l) ∧
  ((∃ ref err, ref ∈ refs ∧ orgs ns ref = inr err) → w' = w ∧ ∃ err, out = inr err).
Proof.
  intros HI ns. unfold buildGitHubOrgsSlice. rewrite run_bind. pose proof (get_orgs_spec ns refs w) as Hl. fold ns.
  destruct (run (get_orgs ns refs) w) as [[l|err] w1]; destruct Hl as [-> Hl].
  - pose proof (get_clients_spec l w HI) as Hc. destruct (run (get_clients l) w) as [out w2]. destruct Hc as (? & ? & Hc).
    split_and!; [done..| |].
    + intros cs Hout. specialize (Hc cs Hout). clear -Hl Hc. revert cs Hc.
      induction Hl as [|ref org refs l Ho Hl IH]; intros cs Hc; [by apply Forall2_nil_inv_l in Hc as ->; constructor|].
      apply Forall2_cons_inv_l in Hc as (x & cs' & Hx & Hc & ->). constructor; [by exists org|by apply IH].
    + intros (ref & err & Hin & He). apply list_elem_of_lookup in Hin as [i Hi].
      destruct (Forall2_lookup_l _ _ _ _ _ Hl Hi) as (org & _ & ?). congruence.
  - cbn [run]. split_and!; [done|reflexivity|done|by eauto].
Qed.

(** C30: a reconciler of a team has a client for each of its organizations, in the order of the references, and one for
    each organization it left, and each client serves the organization with the GitHub App configured there.  There
    is no reconciler without an organization; and when one of the organizations cannot be read, no client is asked
    for at all, so that a team is never reconciled for a part of its organizations. *)
Theorem CreateForTeam_clients ns n team w :
  teams ns n = inl team → manager_inv w →
  let '(out, w') := run (CreateForTeam IsNotFound rand_IntN cfg ns n) w in
  let ns := Namespace (t_Meta team) in
  (∀ rec, out = inl rec → ∃ rec', rec = Some rec' ∧ gtr_Resource rec' = team ∧ gtr_Current rec' ≠ [] ∧
    clients_for ns (t_OrganizationRefs (t_Spec team)) w' (gtr_Current rec') ∧
    clients_for ns (tst_PreviousOrganizationRefs (t_Status team)) w' (gtr_Previous rec')) ∧
  ((∃ ref err, ref ∈ t_OrganizationRefs (t_Spec team) ∧ orgs ns ref = inr err) → w' = w ∧ ∃ err, out = inr err).
Proof.
  intros Ht HI. unfold CreateForTeam. rewrite run_bind, (read_team orgs repos teams presets subs), Ht. step_run.
  rewrite run_bind. unfold spread. rewrite run_gets. destruct (Spread _ _ _ _ _) as [err|]; [cbn [run]; split; [done|by eauto]|].
  unfold team_reconciler. rewrite run_bind. pose proof (buildGitHubOrgsSlice_spec team (t_OrganizationRefs (t_Spec team)) w HI) as Hc.
  destruct (run (buildGitHubOrgsSlice _ _) w) as [[[|x current]|err] w1]; destruct Hc as (HI1 & Hw1 & Hc & He).
  1, 3: cbn; split; [done|]; intros H; destruct (He H) as [-> _]; by eauto.
  rewrite run_bind. pose proof (buildGitHubOrgsSlice_spec team (tst_PreviousOrganizationRefs (t_Status team)) w1 HI1) as Hp.
  destruct (run (buildGitHubOrgsSlice _ _) w1) as [[previous|err] w2]; destruct Hp as (HI2 & Hw2 & Hp & _); cbn [run].
  - split; [|intros H; by destruct (He H) as [_ [? ?]]]. intros rec [= <-]. eexists. split_and!; [done..| |by apply Hp].
    eapply clients_for_step; [done|]. by apply Hc.
  - split; [done|]. intros H. by destruct (He H) as [_ [? ?]].
Qed.
End Teams.

(** ** A concrete cluster: the inline ruleset of a repository extends "mid", which extends "base" *)
Module ToyStartup.
Import SimpleHelpers ToyWorld.
Definition not_found : gerror := notFoundStatus.
Definition is_not_found (err : gerror) : bool := match err with EStatus _ => true | _ => false end.

Definition meta (name : string) (generation : Z) : ObjectMeta :=
  {| Name := name; Namespace := "ns"; Generation := generation; DeletionTimestamp := None |}.
Definition rules (name extends : string) : RulesetSpec := {| rs_Name := name; rs_Extends := extends; rs_Target := "";
  rs_Conditions := None; rs_Enforcement := ""; rs_BypassActors := []; rs_Rules := no_rules |}.
Definition preset (name extends : string) (generation : Z) : RulesetPreset :=
  {| rp_Meta := meta name generation; rp_Spec := rules name extends |}.
Definition repository (observed : option (gmap string Z)) : Repository :=
  let r := Samples.repo "r" [] [rules "main" "mid"] in
  {| r_Meta := meta "r" 4; r_Spec := r_Spec r;
     r_Status := {| rst_Webhooks := ∅; rst_ID := None; rst_ObservedSubResourceGenerations := observed; rst_Conditions :=
       [{| c_Type := TypeReady; c_Status := ConditionTrue; c_Reason := "Reconciled"; c_Message := MsgSyncCompleted 0; c_LastTransitionTime := 0; c_ObservedGeneration := 4 |}] |} |}.
Definition organization (name : string) : Organization :=
  let o := Samples.org Samples.no_actions [] [] [] in
  {| o_Meta := meta name 1; o_Status := o_Status o;
     o_Spec := {| o_Login := name +:+ "-inc"; o_Name := ""; o_GitHubAppInstallationId := Some 7; o_GitHubAppConfig := None; o_CustomProperties := [];
       o_ActionsSettings := Samples.no_actions; o_CodeSecurityConfigurations := []; o_RulesetPresetList := []; o_Rulesets := [];
       o_Description := ""; o_Location := ""; o_MemberSuffix := ""; o_Website := ""; o_Plan := ""; o_MemberPrivileges := None |} |}.
Definition team : Team := {|
  t_Meta := meta "platform" 1;
  t_Spec := {| t_Name := "platform"; t_Members := []; t_IDPGroup := None; t_Description := ""; t_Privacy := ""; t_Permission := "";
    t_NotificationSetting := ""; t_OrganizationRoles := []; t_OrganizationRefs := ["acme"; "beta"] |};
  t_Status := {| tst_Conditions := []; tst_PreviousOrganizationRefs := ["gone"]; tst_Slug := None |} |}.

(** A store: the objects of the namespace "ns". *)
Definition stored_in {X} (objects : gmap string X) (ns name : string) : res X :=
  if bool_decide (ns = "ns") then match objects !! name with Some x => inl x | None => inr not_found end else inr not_found.
Section Cluster.
Context (observed : option (gmap string Z)).
Definition orgs : string → string → res Organization := stored_in (list_to_map ((λ n, (n, organization n)) <$> ["acme"; "beta"; "gone"; "org"])).
Definition repos : string → string → res Repository := stored_in {[ "r" := repository observed ]}.
Definition teams : string → string → res Team := stored_in {[ "platform" := team ]}.
Definition presets : string → string → res RulesetPreset :=
  stored_in (list_to_map [("mid", preset "mid" "base" 2); ("base", preset "base" "" 7)]).
Definition subs : string → string → string → res ObjectMeta := λ _, stored_in ∅.

Definition resolver : ResolverApi ToyWorld.world := {|
  GetGitHubAppsInstallations _ := Ret (inl []); GetTeamsForOrg _ := Ret (inl []); GetRolesForOrg _ := Ret (inl []);
  InvalidateCache := Ret tt; GetRepositoryID _ _ := Ret (inl None);
  getMaps := Ret {| appsBySlug := ∅; teamsBySlug := ∅; rolesByName := ∅ |}; setMaps _ := Ret tt |}.

(** The client of an organization is its login. *)
Definition manager : GitHubClientManager ToyWorld.world string := {| manager_GetClient login _ := Ret (inl login) |}.
Definition factory : FactoryApi ToyWorld.world string := {|
  fa_GetOrganization ns n := Ret (orgs ns n);
  fa_GetRepository ns n := Ret (repos ns n);
  fa_GetTeam ns n := Ret (teams ns n);
  fa_GetRulesetPreset ns n w := (presets ns n, w);
  fa_GetSubResource kind ns n := Ret (subs kind ns n);
  fa_manager := manager;
  fa_resolver _ := resolver;
  fa_now := tw_now;
  fa_spreading _ := Some fresh_manager |}.

Lemma stored_in_ns {X} (objects : gmap string X) ns name x : stored_in objects ns name = inl x → ns = "ns" ∧ objects !! name = Some x.
Proof. unfold stored_in. case_bool_decide; [|done]. by destruct (objects !! name); intros [= ->]. Qed.

Lemma store_laws : StoreLaws (A := factory) orgs repos teams presets subs.
Proof.
  split; try done.
  - intros ns n p [-> Hp]%stored_in_ns. apply elem_of_list_to_map_2 in Hp.
    by apply elem_of_cons in Hp as [[= -> ->]|[= -> ->]%list_elem_of_singleton].
  - intros kind ns n m [_ Hm]%stored_in_ns. by rewrite lookup_empty in Hm.
Qed.

Definition manager_laws : ManagerLaws manager.
Proof.
  refine {| manager_inv _ := True; manager_step _ _ := True; serves c login _ _ := c = login |}.
  - by split.
  - done.
  - intros login app w _. simpl. split_and!; [done..|]. by intros c [= <-].
Defined.
End Cluster.

Definition current : gmap string Z := {[ "RulesetPreset/ns/mid" := 2; "RulesetPreset/ns/base" := 7 ]}.
(** [base] has changed since. *)
Definition before : gmap string Z := {[ "RulesetPreset/ns/mid" := 2; "RulesetPreset/ns/base" := 6 ]}.
Definition started : ToyWorld.world := {|
  tw_resource := tw_resource (ToyWorld.start None); tw_now := 10 * Second; tw_finalizers := [] |}.
Definition rnd (n : Z) : Z := n - 1.
End ToyStartup.
Import SimpleHelpers ToyWorld ToyStartup.

Definition base_meta : ObjectMeta := ToyStartup.meta "base" 7.
Lemma base_chain : chain presets "ns" "mid" "" [("mid", preset "mid" "base" 2); ("base", preset "base" "" 7)].
Proof.
  split_and!.
  - exists "". apply (path_snoc _ _ _ [("mid", preset "mid" "base" 2)] "base"); [|done|reflexivity].
    by apply (path_snoc _ _ _ [] "mid"); [constructor| |].
  - repeat constructor; set_solver.
  - done.
  - unfold MaxExtendsDepth. simpl. lia.
Qed.

(** The inline ruleset depends on the changed "base" two levels up. *)
Lemma changed_subresource_not_delayed_witness :
  (∃ err, is_not_found err = false ∧
    run (CreateForRepo (A := factory (Some before)) is_not_found rnd default_config "ns" "r") started = (inr err, started)) ∨
  ∃ g, WithDefault g ∅ !! "RulesetPreset/ns/base" = Some 7 ∧
    run (CreateForRepo (A := factory (Some before)) is_not_found rnd default_config "ns" "r") started =
    run (repo_reconciler (A := factory (Some before)) default_config (repository (Some before)) g) started.
Proof.
  apply (proj1 (changed_subresource_not_delayed (L := store_laws (Some before)) is_not_found rnd default_config
    orgs (repos (Some before)) teams presets subs "ns" "r" "RulesetPreset" "base" base_meta started) (repository (Some before))).
  - reflexivity.
  - right. split; [done|]. right. right. exists (rules "main" "mid"), [("mid", preset "mid" "base" 2); ("base", preset "base" "" 7)].
    split_and!; [apply list_elem_of_here|apply base_chain|apply list_elem_of_further, list_elem_of_here].
  - reflexivity.
  - vm_compute. discriminate.
Defined.

Lemma restart_spreads_unchanged_repository_witness :
  run (RepositoryCtl_Reconcile (λ n, n - 1) is_not_found (λ _, false)
    (created (λ _, ToyWorld.example) (CreateForRepo (A := factory (Some current)) is_not_found rnd default_config "ns" "r"))
    (λ _, []) (NewRequeuePolicy default_config)) started = ((requeue_after 11030000000000, None), started).
Proof.
  refine (proj1 (restart_spreads_unchanged_repository (L := store_laws (Some current)) is_not_found rnd (λ n, n - 1) default_config
    orgs (repos (Some current)) teams presets subs (λ _, false) (λ _, []) (NewRequeuePolicy default_config) (λ _, ToyWorld.example)
    "ns" "r" (repository (Some current)) (repository None) fresh_manager started started started
    eq_refl eq_refl eq_refl _ eq_refl eq_refl eq_refl eq_refl eq_refl _ _ _ eq_refl eq_refl)).
  - vm_compute. reflexivity.
  - intros n Hn. unfold rnd. lia.
  - vm_compute. split; discriminate.
  - vm_compute. discriminate.
Defined.

Lemma CreateForTeam_clients_witness :
  clients_for (A := factory None) (ML := manager_laws) orgs "ns" ["acme"; "beta"] (ToyWorld.start None) [("acme-inc", "acme-inc"); ("beta-inc", "beta-inc")].
Proof.
  pose proof (CreateForTeam_clients (A := factory None) (ML := manager_laws) (L := store_laws None) is_not_found rnd default_config
    orgs (repos None) teams presets subs "ns" "platform" team (ToyWorld.start None) eq_refl I) as H.
  destruct (run (CreateForTeam (A := factory None) is_not_found rnd default_config "ns" "platform") (ToyWorld.start None)) as [out w'] eqn:E.
  vm_compute in E. injection E as <- <-. destruct (proj1 H _ eq_refl) as (rec' & Hr & _ & _ & Hc & _). by injection Hr as <-.
Defined.
