(* ===== verification/Liveness.v ===== *)
(** * Startup spreading ends

    A restart of the operator may hold a resource back.  This file follows one resource through the runs of its
    controller (internal/controller) and shows that the delay that is returned leads to a run with which startup
    spreading (internal/reconciler/spreading) has nothing to do, whatever happens to the cluster in between. *)
From S2P Require Import Prelude GoErrors Config Spreading Conditions Executor Requeue ApiTypes RulesetMerge RulesetResolve IdResolver ClientFactory Factory Startup.

(** ** Programs that preserve a predicate of the world *)
Section Stays.
Context {W : Type} (P : W → Prop).
Definition stays {R} (m : prog W R) : Prop := ∀ w, P w → P (run m w).2.

Lemma stays_ret {R} (r : R) : stays (Ret r).
Proof. by intros w. Qed.
Lemma stays_bind {X R} (m : prog W X) (k : X → prog W R) : stays m → (∀ x, stays (k x)) → stays (bind m k).
Proof. intros Hm Hk w Hw. rewrite run_bind. specialize (Hm w Hw). destruct (run m w) as [x w']. by apply Hk. Qed.
End Stays.
#[local] Hint Resolve stays_ret : core.
Ltac solve_stays := repeat first
  [ apply stays_ret
  | match goal with |- stays _ (bind _ _) => apply stays_bind; [|intros ?] end
  | case_match
  | solve [auto] ].

Section Spreading.
Context {W Client : Type} {KH : K8sHelpers} {A : FactoryApi W Client}.
Context (IsNotFound : gerror → bool) (rand_IntN : Z → Z) (cfg : Config).

(** The same operator without a spreading manager. *)
Definition without_spreading : FactoryApi W Client := {|
  fa_GetOrganization := fa_GetOrganization; fa_GetRepository := fa_GetRepository; fa_GetTeam := fa_GetTeam;
  fa_GetRulesetPreset := fa_GetRulesetPreset; fa_GetSubResource := fa_GetSubResource; fa_manager := fa_manager;
  fa_resolver := fa_resolver; fa_now := fa_now; fa_spreading := λ _, None |}.

(** The manager [m] is in place and the clock shows at least [t]. *)
Definition since (m : Manager) (t : Z) (w : W) : Prop := fa_spreading w = Some m ∧ t ≤ fa_now w.

(** Reading from the cluster replaces no manager and does not turn the clock back. *)
Class ReadLaws (m : Manager) : Prop := {
  reads_org t ns n : stays (since m t) (fa_GetOrganization ns n);
  reads_repo t ns n : stays (since m t) (fa_GetRepository ns n);
  reads_team t ns n : stays (since m t) (fa_GetTeam ns n);
  reads_preset t ns n w : since m t w → since m t (fa_GetRulesetPreset ns n w).2;
  reads_sub t kind ns n : stays (since m t) (fa_GetSubResource kind ns n)
}.
Context (m : Manager) {L : ReadLaws m}.

Lemma stays_call_preset t ns n : stays (since m t) (call (fa_GetRulesetPreset ns n)).
Proof. intros w Hw. rewrite run_call. by apply reads_preset. Qed.
#[local] Hint Resolve reads_org reads_repo reads_team reads_sub stays_call_preset : core.

Lemma stays_walk t levels : ∀ next result seen r, stays (since m t) (ancestors_walk fa_GetRulesetPreset IsNotFound levels next result seen r).
Proof. induction levels as [|levels IH]; intros; cbn [ancestors_walk]; unfold GetPreset; solve_stays. Qed.
Lemma stays_collectAncestors t r g extends self : stays (since m t) (collectAncestors IsNotFound r g extends self).
Proof. unfold collectAncestors, Ancestors. apply stays_bind; [apply stays_walk|]. intros []; solve_stays. Qed.
#[local] Hint Resolve stays_collectAncestors : core.

Lemma stays_collect_refs t ns refs : ∀ r g, stays (since m t) (collect_refs IsNotFound ns refs r g).
Proof. induction refs as [|ref refs IH]; intros; cbn [collect_refs]; unfold collect_preset; solve_stays. Qed.
Lemma stays_collect_inline t inline : ∀ r g, stays (since m t) (collect_inline IsNotFound inline r g).
Proof. induction inline as [|rs inline IH]; intros; cbn [collect_inline]; solve_stays. Qed.
Lemma stays_collect_kind t kind ns names : ∀ g, stays (since m t) (collect_kind IsNotFound kind ns names g).
Proof. induction names as [|name names IH]; intros; cbn [collect_kind]; unfold collectSubResourceGeneration; solve_stays. Qed.
#[local] Hint Resolve stays_collect_refs stays_collect_inline stays_collect_kind : core.

Lemma stays_fetch_repo t repo : stays (since m t) (fetchSubResourceGenerationsForRepo IsNotFound repo).
Proof. unfold fetchSubResourceGenerationsForRepo, collectRulesetPresetGenerations. solve_stays. Qed.
Lemma stays_fetch_org t org : stays (since m t) (fetchSubResourceGenerationsForOrg IsNotFound org).
Proof. unfold fetchSubResourceGenerationsForOrg, collectRulesetPresetGenerations. solve_stays. Qed.

(** What startup spreading changes about a program that creates a reconciler: nothing, or it is held back. *)
Definition only_held_back {R} (create create' : prog W (res R)) : Prop := ∀ t w, since m t w →
  run create w = run create' w ∨
  ∃ w1 r g err, since m t w1 ∧ Spread rand_IntN (Some m) (fa_now w1) r g = Some err ∧ run create w = (inr err, w1).

Lemma spread_held_back {R} r g (k k' : prog W (res R)) :
  (∀ w, run k w = run k' w) →
  only_held_back (let! e := spread rand_IntN r g in match e with Some err => Ret (inr err) | None => k end)
    (let! e := spread (A := without_spreading) rand_IntN r g in match e with Some err => Ret (inr err) | None => k' end).
Proof.
  intros Hk t w Hw. rewrite !run_bind. unfold spread. rewrite !run_gets. cbn [fa_spreading without_spreading Spread].
  destruct Hw as [Hm Ht]. rewrite Hm. destruct (Spread _ _ _ _ _) as [err|] eqn:Hs; [|by left]. right. exists w, r, g, err. done.
Qed.

Lemma bind_held_back {X R} (read : prog W X) (k k' : X → prog W (res R)) :
  (∀ t, stays (since m t) read) → (∀ x, only_held_back (k x) (k' x)) → only_held_back (bind read k) (bind read k').
Proof.
  intros Hr Hk t w Hw. rewrite !run_bind. specialize (Hr t w Hw). destruct (run read w) as [x w1]. by apply Hk.
Qed.
Lemma ret_held_back {R} (r : res R) : only_held_back (Ret r) (Ret r).
Proof. intros t w _. by left. Qed.

Lemma CreateForOrg_held_back ns n :
  only_held_back (CreateForOrg IsNotFound rand_IntN cfg ns n) (CreateForOrg (A := without_spreading) IsNotFound rand_IntN cfg ns n).
Proof.
  refine (bind_held_back (fa_GetOrganization ns n) _ _ _ _); [auto|]. intros [org|err]; [|apply ret_held_back].
  refine (bind_held_back (fetchSubResourceGenerationsForOrg IsNotFound org) _ _ _ _); [intros t; apply stays_fetch_org|].
  intros [g|err]; [by apply spread_held_back|apply ret_held_back].
Qed.
Lemma CreateForRepo_held_back ns n :
  only_held_back (CreateForRepo IsNotFound rand_IntN cfg ns n) (CreateForRepo (A := without_spreading) IsNotFound rand_IntN cfg ns n).
Proof.
  refine (bind_held_back (fa_GetRepository ns n) _ _ _ _); [auto|]. intros [repo|err]; [|apply ret_held_back].
  refine (bind_held_back (fetchSubResourceGenerationsForRepo IsNotFound repo) _ _ _ _); [intros t; apply stays_fetch_repo|].
  intros [g|err]; [by apply spread_held_back|apply ret_held_back].
Qed.
Lemma CreateForTeam_held_back ns n :
  only_held_back (CreateForTeam IsNotFound rand_IntN cfg ns n) (CreateForTeam (A := without_spreading) IsNotFound rand_IntN cfg ns n).
Proof.
  refine (bind_held_back (fa_GetTeam ns n) _ _ _ _); [auto|]. intros [team|err]; [|apply ret_held_back]. by apply spread_held_back.
Qed.
End Spreading.

(** ** The runs of a controller *)
Inductive Kind := KOrganization | KRepository | KTeam.

Section Runs.
Context {W Client : Type} {KH : K8sHelpers} {A : FactoryApi W Client} {HE : Env W}.
Context (IsNotFound : gerror → bool) (rand_IntN rand_N : Z → Z) (cfg : Config) (ctx_canceled : W → bool).
Context (scheds : nat → list nat) (policy : RequeuePolicy).
Context (org_executor : GitHubOrgReconciler Client → Reconciler W) (repo_executor : GitHubRepoReconciler Client → Reconciler W)
  (team_executor : GitHubTeamReconciler Client → Reconciler W).

(** [Reconcile] of the controller of a kind, with the factory [F]. *)
Definition controller (F : FactoryApi W Client) (kind : Kind) (ns n : string) : prog W (Result * option gerror) :=
  match kind with
  | KOrganization => OrganizationCtl_Reconcile rand_N IsNotFound ctx_canceled
      (created org_executor (CreateForOrg (A := F) IsNotFound rand_IntN cfg ns n)) scheds policy
  | KRepository => RepositoryCtl_Reconcile rand_N IsNotFound ctx_canceled
      (created repo_executor (CreateForRepo (A := F) IsNotFound rand_IntN cfg ns n)) scheds policy
  | KTeam => TeamCtl_Reconcile rand_N IsNotFound ctx_canceled
      (created team_executor (CreateForTeam (A := F) IsNotFound rand_IntN cfg ns n)) scheds policy
  end.

Context (m : Manager) {L : ReadLaws m}.

(** A run that is held back does nothing but read, and asks to be repeated. *)
Lemma run_held_back kind ns n t w :
  (∀ w, ctx_canceled w = false) → since m t w →
  run (controller A kind ns n) w = run (controller without_spreading kind ns n) w ∨
  ∃ w1 r g d, since m t w1 ∧ Spread rand_IntN (Some m) (fa_now w1) r g = Some (ERequiresSpread d) ∧
    run (controller A kind ns n) w = ((requeue_after d, None), w1).
Proof.
  intros Hc Hw.
  assert (∀ R (executor : R → Reconciler W) create create' (k : _ → prog W (Result * option gerror)),
    (∀ err, k (inr err) = onFactoryError ctx_canceled err) → only_held_back rand_IntN m create create' →
    run (bind (created executor create) k) w = run (bind (created executor create') k) w ∨
    ∃ w1 r g d, since m t w1 ∧ Spread rand_IntN (Some m) (fa_now w1) r g = Some (ERequiresSpread d) ∧
      run (bind (created executor create) k) w = ((requeue_after d, None), w1)) as Hgen.
  { intros R executor create create' k Hk Hcr. unfold created. rewrite !run_bind.
    destruct (Hcr t w Hw) as [->|(w1 & r & g & err & Hw1 & Hs & ->)]; [by left|right].
    pose proof Hs as (_ & _ & _ & _ & _ & _ & d & _ & ->)%Spread_only_warm_start. exists w1, r, g, d. split_and!; [done..|].
    cbn [run]. rewrite Hk. unfold onFactoryError. by rewrite run_gets, Hc. }
  destruct kind; (apply Hgen; [done|]).
  - by apply CreateForOrg_held_back.
  - by apply CreateForRepo_held_back.
  - by apply CreateForTeam_held_back.
Qed.

(** What a delay of the manager promises, when no time overflows. *)
Lemma delay_in_window now r g d :
  rand_ok rand_IntN → 0 ≤ sc_SpreadPeriod m → 0 ≤ sc_SpreadInterval m → sc_SpreadInterval m ≤ max_interval_minutes * Minute →
  sc_SpreadPeriod m + sc_SpreadInterval m ≤ max_int64 → StartTime m ≤ now →
  Spread rand_IntN (Some m) now r g = Some (ERequiresSpread d) →
  0 < d ∧ now ≤ StartTime m + sc_SpreadPeriod m ≤ now + d ∧ now + d ≤ StartTime m + sc_SpreadPeriod m + sc_SpreadInterval m.
Proof.
  intros Hr Hp Hi0 Hi Hmax Hnow Hs.
  pose proof Hs as (_ & Hper & _ & _ & _ & _ & d' & Hd & [= <-])%Spread_only_warm_start.
  assert (calculateSpreadDelay rand_IntN m now = d) as Hc by (revert Hs; unfold Spread; split_cases; by intros [= <-]).
  destruct (calculateSpreadDelay_target rand_IntN m now d Hr (conj Hi0 Hi) Hc Hd) as [Hup Hlow].
  split_and!; [done| |apply Hlow; lia|lia].
  destruct (Z.le_gt_cases (now - StartTime m) (sc_SpreadPeriod m)) as [|Hgt]; [lia|]. exfalso.
  destruct (decide (sc_SpreadPeriod m = max_int64)) as [He|Hne]; [lia|].
  apply sat64_gt in Hgt; unfold min_int64 in *; lia.
Qed.

(** The work queue runs a controller again when the delay it asked for has passed, and at most [lag] later; in between the
    resource and the cluster may change, and events may cause other runs. *)
Definition requeues_served (lag : Z) (kind : Kind) (ns n : string) (trace : nat → W) : Prop := ∀ i d w',
  run (controller A kind ns n) (trace i) = ((requeue_after d, None), w') → 0 < d →
  ∃ j, (i < j)%nat ∧ fa_now w' + d ≤ fa_now (trace j) ≤ fa_now w' + d + lag.

(** C34: startup spreading holds no resource back for longer than its window: whatever changes in the cluster between the
    runs of a controller, each run of a resource either is that of an operator without startup spreading, or it is
    followed by one that is, and that begins when the spread period and the spread interval after the start of the window
    are over at the latest, as far as the work queue serves delays in time (at most [lag] late). *)
Theorem held_back_resource_reconciled lag kind ns n trace start k :
  m = NewManager cfg start → rand_ok rand_IntN →
  0 ≤ SpreadPeriodMinutes cfg → 0 ≤ SpreadIntervalMinutes cfg →
  SpreadPeriodMinutes cfg + SpreadIntervalMinutes cfg ≤ max_interval_minutes →
  (∀ i, since m start (trace i)) → (∀ w, ctx_canceled w = false) → requeues_served lag kind ns n trace →
  ∃ i, (k ≤ i)%nat ∧ run (controller A kind ns n) (trace i) = run (controller without_spreading kind ns n) (trace i) ∧
    (i = k ∨ fa_now (trace i) ≤ start + SpreadPeriodMinutes cfg * Minute + SpreadIntervalMinutes cfg * Minute + lag).
Proof.
  intros Hm Hr Hp Hi Hmax Hw Hc Hq.
  assert (sc_SpreadPeriod m = SpreadPeriodMinutes cfg * Minute) as Hper by (subst m; apply wrap64_minutes; lia).
  assert (sc_SpreadInterval m = SpreadIntervalMinutes cfg * Minute) as Hint by (subst m; apply wrap64_minutes; lia).
  assert (StartTime m = start) as Hst by by subst m. assert (0 < Minute) by done.
  assert (max_interval_minutes * Minute ≤ max_int64) by (by vm_compute). rewrite <-Hper, <-Hint.
  assert (∀ w t, since m t w → start ≤ t →
    run (controller A kind ns n) w = run (controller without_spreading kind ns n) w ∨
    t ≤ start + sc_SpreadPeriod m ∧ ∃ w1 d, t ≤ fa_now w1 ∧ 0 < d ∧ start + sc_SpreadPeriod m ≤ fa_now w1 + d ∧
      fa_now w1 + d ≤ start + sc_SpreadPeriod m + sc_SpreadInterval m ∧
      run (controller A kind ns n) w = ((requeue_after d, None), w1)) as Hrun.
  { intros w t Hsince Ht. destruct (run_held_back kind ns n t w Hc Hsince) as [|(w1 & r & g & d & [_ Hw1] & Hs & ?)]; [by left|right].
    apply delay_in_window in Hs as (? & ? & ?); [|done|nia..]. split; [lia|]. exists w1, d. split_and!; [lia..|done]. }
  assert (∀ i t, t ≤ fa_now (trace i) → since m t (trace i)) as Hsince by (intros i t Ht; split; [apply Hw|done]).
  destruct (Hrun (trace k) start (Hw k)) as [?|(_ & w1 & d & ? & Hd & ? & ? & Hi1)]; [done|exists k; split_and!; [done|done|by left]|].
  destruct (Hq k d w1 Hi1 Hd) as (j & Hj & Hnow).
  destruct (Hrun (trace j) (start + sc_SpreadPeriod m)) as [?|(_ & w2 & d2 & ? & Hd2 & ? & ? & Hi2)];
    [apply Hsince; lia|nia|exists j; split_and!; [lia|done|right; lia]|].
  destruct (Hq j d2 w2 Hi2 Hd2) as (j2 & Hj2 & Hnow2).
  destruct (Hrun (trace j2) (start + sc_SpreadPeriod m + 1)) as [?|[? _]];
    [apply Hsince; lia|nia|exists j2; split_and!; [lia|done|right; lia]|lia].
Qed.
End Runs.

(** ** A repository that is held back at first *)
Module ToyRuns.
Import SimpleHelpers ToyWorld ToyStartup.
(** A run when the process starts, and the others 200 minutes later. *)
Definition trace (i : nat) : ToyWorld.world := {|
  tw_resource := tw_resource started; tw_now := 10 * Second + match i with O => 0 | S _ => 200 * Minute end; tw_finalizers := [] |}.
#[local] Instance factory : FactoryApi ToyWorld.world string := ToyStartup.factory (Some current).

#[export] Instance read_laws m : ReadLaws (A := factory) m.
Proof. split; intros *; by intros ?. Qed.
Definition run_controller (F : FactoryApi ToyWorld.world string) : prog ToyWorld.world (Result * option gerror) :=
  controller is_not_found rnd (λ n, n - 1) default_config (λ _, false) (λ _, []) (NewRequeuePolicy default_config)
    (λ _, example) (λ _, example) (λ _, example) F KRepository "ns" "r".
End ToyRuns.
Import SimpleHelpers ToyWorld ToyStartup ToyRuns.
#[local] Existing Instance ToyRuns.factory.

(** The first run is held back. *)
Lemma first_run_held_back : run (run_controller ToyRuns.factory) (trace 0) = ((requeue_after 11030000000000, None), trace 0).
Proof. vm_compute. reflexivity. Qed.

(** The delay is served less than 20 minutes late. *)
Lemma held_back_resource_reconciled_witness :
  ∃ i, (0 ≤ i)%nat ∧ run (run_controller ToyRuns.factory) (trace i) = run (run_controller without_spreading) (trace i) ∧
    (i = 0%nat ∨ tw_now (trace i) ≤ 0 + SpreadPeriodMinutes default_config * Minute + SpreadIntervalMinutes default_config * Minute + 20 * Minute).
Proof.
  apply (held_back_resource_reconciled (A := ToyRuns.factory) (L := read_laws _) is_not_found rnd (λ n, n - 1) default_config (λ _, false) (λ _, [])
    (NewRequeuePolicy default_config) (λ _, example) (λ _, example) (λ _, example) fresh_manager (20 * Minute) KRepository "ns" "r" trace 0 0);
    [reflexivity|intros n Hn; unfold rnd; lia|vm_compute; discriminate..| |reflexivity|].
  - intros i. split; [reflexivity|]. destruct i; vm_compute; discriminate.
  - intros [|i] d w' Hrun Hd; [|vm_compute in Hrun; discriminate Hrun].
    pose proof first_run_held_back as H. unfold run_controller in H. rewrite Hrun in H. injection H as -> ->.
    exists 1%nat. split; [lia|]. vm_compute. split; discriminate.
Defined.
