(* ===== verification/Apply.v ===== *)
(** * What is written back to Kubernetes

    The operator writes the status and the metadata of a resource by server-side apply: [BuildStatusApplyConfig] and
    [BuildMetadataApplyConfig] of the three reconcilers (orgrec, reporec, teamrec: reconciler.go) build an apply
    configuration from the in-memory resource with the generated builders of api/v1alpha1/applyconfiguration.  The three
    generated types of a resource differ in their kind and status only and are one type here; its [Spec] is never set.
    The values given to the builders are never nil pointers, for which they panic. *)
From S2P Require Import Prelude GoErrors Config Spreading Conditions ApiTypes RulesetMerge RulesetResolve IdResolver ClientFactory Factory Startup.

(** ** Apply configurations: a field that is not set is [None] or empty, and not sent *)
Record ConditionApplyConfiguration := {
  cac_Type : option string; cac_Status : option ConditionStatus; cac_ObservedGeneration : option Z;
  cac_LastTransitionTime : option Z; cac_Reason : option string; cac_Message : option Message }.

Definition ToApplyConfig (c : Condition) : ConditionApplyConfiguration := {|
  cac_Type := Some (c_Type c); cac_Status := Some (c_Status c); cac_ObservedGeneration := Some (c_ObservedGeneration c);
  cac_LastTransitionTime := Some (c_LastTransitionTime c); cac_Reason := Some (c_Reason c); cac_Message := Some (c_Message c) |}.
Definition ToApplyConfigs (conditions : list Condition) : list ConditionApplyConfiguration := ToApplyConfig <$> conditions.

(** The builders of a map put the entries into it, and leave a nil map nil if there are none. *)
Definition put_entries {V} (entries : gmap string V) (field : option (gmap string V)) : option (gmap string V) :=
  match field with
  | None => if bool_decide (entries = ∅) then None else Some entries
  | Some m => Some (entries ∪ m)
  end.

Record WebhookStatusApplyConfiguration := { wsa_SecretHash : option string }.
Definition WebhookStatus_WithSecretHash (value : string) (b : WebhookStatusApplyConfiguration) : WebhookStatusApplyConfiguration :=
  {| wsa_SecretHash := Some value |}.
Definition WebhookStatus : WebhookStatusApplyConfiguration := {| wsa_SecretHash := None |}.

Record RepositoryStatusApplyConfiguration := {
  rsa_Webhooks : option (gmap string WebhookStatusApplyConfiguration);
  rsa_Conditions : list ConditionApplyConfiguration;
  rsa_ID : option Z;
  rsa_ObservedSubResourceGenerations : option (gmap string Z) }.
Definition RepositoryStatus_ : RepositoryStatusApplyConfiguration :=
  {| rsa_Webhooks := None; rsa_Conditions := []; rsa_ID := None; rsa_ObservedSubResourceGenerations := None |}.
Definition RepositoryStatus_WithWebhooks (entries : gmap string WebhookStatusApplyConfiguration) (b : RepositoryStatusApplyConfiguration) :=
  {| rsa_Webhooks := put_entries entries (rsa_Webhooks b); rsa_Conditions := rsa_Conditions b; rsa_ID := rsa_ID b;
     rsa_ObservedSubResourceGenerations := rsa_ObservedSubResourceGenerations b |}.
Definition RepositoryStatus_WithConditions (values : list ConditionApplyConfiguration) (b : RepositoryStatusApplyConfiguration) :=
  {| rsa_Webhooks := rsa_Webhooks b; rsa_Conditions := rsa_Conditions b ++ values; rsa_ID := rsa_ID b;
     rsa_ObservedSubResourceGenerations := rsa_ObservedSubResourceGenerations b |}.
Definition RepositoryStatus_WithID (value : Z) (b : RepositoryStatusApplyConfiguration) :=
  {| rsa_Webhooks := rsa_Webhooks b; rsa_Conditions := rsa_Conditions b; rsa_ID := Some value;
     rsa_ObservedSubResourceGenerations := rsa_ObservedSubResourceGenerations b |}.
Definition RepositoryStatus_WithObservedSubResourceGenerations (entries : gmap string Z) (b : RepositoryStatusApplyConfiguration) :=
  {| rsa_Webhooks := rsa_Webhooks b; rsa_Conditions := rsa_Conditions b; rsa_ID := rsa_ID b;
     rsa_ObservedSubResourceGenerations := put_entries entries (rsa_ObservedSubResourceGenerations b) |}.

Record OrganizationStatusApplyConfiguration := {
  osa_Conditions : list ConditionApplyConfiguration; osa_ObservedSubResourceGenerations : option (gmap string Z) }.
Definition OrganizationStatus_ : OrganizationStatusApplyConfiguration :=
  {| osa_Conditions := []; osa_ObservedSubResourceGenerations := None |}.
Definition OrganizationStatus_WithConditions (values : list ConditionApplyConfiguration) (b : OrganizationStatusApplyConfiguration) :=
  {| osa_Conditions := osa_Conditions b ++ values; osa_ObservedSubResourceGenerations := osa_ObservedSubResourceGenerations b |}.
Definition OrganizationStatus_WithObservedSubResourceGenerations (entries : gmap string Z) (b : OrganizationStatusApplyConfiguration) :=
  {| osa_Conditions := osa_Conditions b; osa_ObservedSubResourceGenerations := put_entries entries (osa_ObservedSubResourceGenerations b) |}.

Record OrganizationRefApplyConfiguration := { ora_Name : option string }.
Definition OrganizationRef : OrganizationRefApplyConfiguration := {| ora_Name := None |}.
Definition OrganizationRef_WithName (value : string) (b : OrganizationRefApplyConfiguration) : OrganizationRefApplyConfiguration :=
  {| ora_Name := Some value |}.

Record TeamStatusApplyConfiguration := {
  tsa_Conditions : list ConditionApplyConfiguration; tsa_PreviousOrganizationRefs : list OrganizationRefApplyConfiguration;
  tsa_Slug : option string }.
Definition TeamStatus_ : TeamStatusApplyConfiguration :=
  {| tsa_Conditions := []; tsa_PreviousOrganizationRefs := []; tsa_Slug := None |}.
Definition TeamStatus_WithConditions (values : list ConditionApplyConfiguration) (b : TeamStatusApplyConfiguration) :=
  {| tsa_Conditions := tsa_Conditions b ++ values; tsa_PreviousOrganizationRefs := tsa_PreviousOrganizationRefs b; tsa_Slug := tsa_Slug b |}.
Definition TeamStatus_WithPreviousOrganizationRefs (values : list OrganizationRefApplyConfiguration) (b : TeamStatusApplyConfiguration) :=
  {| tsa_Conditions := tsa_Conditions b; tsa_PreviousOrganizationRefs := tsa_PreviousOrganizationRefs b ++ values; tsa_Slug := tsa_Slug b |}.
Definition TeamStatus_WithSlug (value : string) (b : TeamStatusApplyConfiguration) :=
  {| tsa_Conditions := tsa_Conditions b; tsa_PreviousOrganizationRefs := tsa_PreviousOrganizationRefs b; tsa_Slug := Some value |}.

(** *** The resources *)
Record ObjectMetaApplyConfiguration := {
  oma_Name : option string; oma_Namespace : option string; oma_Labels : option (gmap string string);
  oma_Annotations : option (gmap string string); oma_Finalizers : list string }.
Definition no_object_meta : ObjectMetaApplyConfiguration :=
  {| oma_Name := None; oma_Namespace := None; oma_Labels := None; oma_Annotations := None; oma_Finalizers := [] |}.

Section Resource.
Context {Status : Type}.
Record ResourceApplyConfiguration := {
  rac_Kind : option string; rac_APIVersion : option string; rac_ObjectMeta : option ObjectMetaApplyConfiguration;
  rac_Status : option Status }.

(** [ensureObjectMetaApplyConfigurationExists], and then a change of it. *)
Definition change_meta (f : ObjectMetaApplyConfiguration → ObjectMetaApplyConfiguration) (b : ResourceApplyConfiguration) : ResourceApplyConfiguration :=
  {| rac_Kind := rac_Kind b; rac_APIVersion := rac_APIVersion b; rac_ObjectMeta := Some (f (WithDefault (rac_ObjectMeta b) no_object_meta));
     rac_Status := rac_Status b |}.
Definition WithKind (value : string) (b : ResourceApplyConfiguration) : ResourceApplyConfiguration :=
  {| rac_Kind := Some value; rac_APIVersion := rac_APIVersion b; rac_ObjectMeta := rac_ObjectMeta b; rac_Status := rac_Status b |}.
Definition WithAPIVersion (value : string) (b : ResourceApplyConfiguration) : ResourceApplyConfiguration :=
  {| rac_Kind := rac_Kind b; rac_APIVersion := Some value; rac_ObjectMeta := rac_ObjectMeta b; rac_Status := rac_Status b |}.
Definition WithName (value : string) : ResourceApplyConfiguration → ResourceApplyConfiguration := change_meta (λ m,
  {| oma_Name := Some value; oma_Namespace := oma_Namespace m; oma_Labels := oma_Labels m; oma_Annotations := oma_Annotations m;
     oma_Finalizers := oma_Finalizers m |}).
Definition WithNamespace (value : string) : ResourceApplyConfiguration → ResourceApplyConfiguration := change_meta (λ m,
  {| oma_Name := oma_Name m; oma_Namespace := Some value; oma_Labels := oma_Labels m; oma_Annotations := oma_Annotations m;
     oma_Finalizers := oma_Finalizers m |}).
Definition WithLabels (entries : gmap string string) : ResourceApplyConfiguration → ResourceApplyConfiguration := change_meta (λ m,
  {| oma_Name := oma_Name m; oma_Namespace := oma_Namespace m; oma_Labels := put_entries entries (oma_Labels m);
     oma_Annotations := oma_Annotations m; oma_Finalizers := oma_Finalizers m |}).
Definition WithAnnotations (entries : gmap string string) : ResourceApplyConfiguration → ResourceApplyConfiguration := change_meta (λ m,
  {| oma_Name := oma_Name m; oma_Namespace := oma_Namespace m; oma_Labels := oma_Labels m;
     oma_Annotations := put_entries entries (oma_Annotations m); oma_Finalizers := oma_Finalizers m |}).
Definition WithFinalizers (values : list string) : ResourceApplyConfiguration → ResourceApplyConfiguration := change_meta (λ m,
  {| oma_Name := oma_Name m; oma_Namespace := oma_Namespace m; oma_Labels := oma_Labels m; oma_Annotations := oma_Annotations m;
     oma_Finalizers := oma_Finalizers m ++ values |}).
Definition WithStatus (value : Status) (b : ResourceApplyConfiguration) : ResourceApplyConfiguration :=
  {| rac_Kind := rac_Kind b; rac_APIVersion := rac_APIVersion b; rac_ObjectMeta := rac_ObjectMeta b; rac_Status := Some value |}.

(** The constructors [ac.Repository], [ac.Organization] and [ac.Team]. *)
Definition apply_configuration (kind name namespace : string) : ResourceApplyConfiguration :=
  WithAPIVersion "github.interhyp.de/v1alpha1" (WithKind kind (WithNamespace namespace (WithName name
    {| rac_Kind := None; rac_APIVersion := None; rac_ObjectMeta := None; rac_Status := None |}))).

(** [BuildMetadataApplyConfig], the same for the three kinds; [None] is a nil map or slice. *)
Definition BuildMetadataApplyConfig (kind : string) (meta : ObjectMeta) (lbls annotations : option (gmap string string))
    (finalizers : option (list string)) : ResourceApplyConfiguration :=
  let cfg := apply_configuration kind (Name meta) (Namespace meta) in
  let cfg := match lbls with Some lbls => WithLabels lbls cfg | None => cfg end in
  let cfg := match annotations with Some annotations => WithAnnotations annotations cfg | None => cfg end in
  match finalizers with Some finalizers => WithFinalizers finalizers cfg | None => cfg end.
End Resource.
Arguments ResourceApplyConfiguration : clear implicits.

(** *** [BuildStatusApplyConfig]; a nil map of webhooks or slice of references is the empty one, for which the
    builders do nothing. *)
Definition repo_BuildStatusApplyConfig (repo : Repository) : ResourceApplyConfiguration RepositoryStatusApplyConfiguration :=
  let st := r_Status repo in
  let status := RepositoryStatus_WithConditions (ToApplyConfigs (rst_Conditions st)) RepositoryStatus_ in
  let status := match rst_ID st with Some id => RepositoryStatus_WithID id status | None => status end in
  let whAC := (λ v, WebhookStatus_WithSecretHash v WebhookStatus) <$> rst_Webhooks st in
  let status := RepositoryStatus_WithWebhooks whAC status in
  let status := match rst_ObservedSubResourceGenerations st with
    | Some gens => RepositoryStatus_WithObservedSubResourceGenerations gens status
    | None => status
    end in
  WithStatus status (apply_configuration "Repository" (Name (r_Meta repo)) (Namespace (r_Meta repo))).

Definition org_BuildStatusApplyConfig (org : Organization) : ResourceApplyConfiguration OrganizationStatusApplyConfiguration :=
  let st := o_Status org in
  let status := OrganizationStatus_WithConditions (ToApplyConfigs (ost_Conditions st)) OrganizationStatus_ in
  let status := match ost_ObservedSubResourceGenerations st with
    | Some gens => OrganizationStatus_WithObservedSubResourceGenerations gens status
    | None => status
    end in
  WithStatus status (apply_configuration "Organization" (Name (o_Meta org)) (Namespace (o_Meta org))).

Definition team_BuildStatusApplyConfig (team : Team) : ResourceApplyConfiguration TeamStatusApplyConfiguration :=
  let st := t_Status team in
  let status := TeamStatus_WithConditions (ToApplyConfigs (tst_Conditions st)) TeamStatus_ in
  let status := match tst_Slug st with Some slug => TeamStatus_WithSlug slug status | None => status end in
  let refACs := (λ ref, OrganizationRef_WithName ref OrganizationRef) <$> tst_PreviousOrganizationRefs st in
  let status := TeamStatus_WithPreviousOrganizationRefs refACs status in
  WithStatus status (apply_configuration "Team" (Name (t_Meta team)) (Namespace (t_Meta team))).

(** ** Reading back

    The operator is the only manager of the status and forces its ownership: after an apply the stored status is
    the applied one, a field that was not sent is gone.  The client decodes it into the types of the resources,
    where a missing value is the zero value. *)
Definition read_condition (c : ConditionApplyConfiguration) : option Condition :=
  match cac_Type c, cac_Status c, cac_Message c with
  | Some type, Some status, Some message => Some {|
      c_Type := type; c_Status := status; c_ObservedGeneration := WithDefault (cac_ObservedGeneration c) 0;
      c_LastTransitionTime := WithDefault (cac_LastTransitionTime c) 0; c_Reason := WithDefault (cac_Reason c) ""; c_Message := message |}
  | _, _, _ => None
  end.
Definition read_conditions (l : list ConditionApplyConfiguration) : list Condition := omap read_condition l.

Definition read_RepositoryStatus (s : RepositoryStatusApplyConfiguration) : RepositoryStatus := {|
  rst_Webhooks := (λ w, WithDefault (wsa_SecretHash w) "") <$> WithDefault (rsa_Webhooks s) ∅;
  rst_Conditions := read_conditions (rsa_Conditions s); rst_ID := rsa_ID s;
  rst_ObservedSubResourceGenerations := rsa_ObservedSubResourceGenerations s |}.
Definition read_OrganizationStatus (s : OrganizationStatusApplyConfiguration) : OrganizationStatus := {|
  ost_Conditions := read_conditions (osa_Conditions s); ost_ObservedSubResourceGenerations := osa_ObservedSubResourceGenerations s |}.
Definition read_TeamStatus (s : TeamStatusApplyConfiguration) : TeamStatus := {|
  tst_Conditions := read_conditions (tsa_Conditions s);
  tst_PreviousOrganizationRefs := (λ r, WithDefault (ora_Name r) "") <$> tsa_PreviousOrganizationRefs s; tst_Slug := tsa_Slug s |}.

Lemma read_conditions_ToApplyConfigs l : read_conditions (ToApplyConfigs l) = l.
Proof. induction l as [|[] l IH]; [done|]. simpl. f_equal. exact IH. Qed.

(** An empty map of generations is stored like a nil one. *)
Definition stored_generations (g : option (gmap string Z)) : option (gmap string Z) :=
  match g with Some m => if bool_decide (m = ∅) then None else Some m | None => None end.

Lemma repo_status_read (repo : Repository) :
  (read_RepositoryStatus <$> rac_Status (repo_BuildStatusApplyConfig repo)) = Some {|
    rst_Webhooks := rst_Webhooks (r_Status repo); rst_Conditions := rst_Conditions (r_Status repo); rst_ID := rst_ID (r_Status repo);
    rst_ObservedSubResourceGenerations := stored_generations (rst_ObservedSubResourceGenerations (r_Status repo)) |}.
Proof.
  destruct repo as [meta spec [wh cs id obs]]. unfold repo_BuildStatusApplyConfig, read_RepositoryStatus. simpl.
  assert ((λ w, WithDefault (wsa_SecretHash w) "") <$> WithDefault (put_entries ((λ v, WebhookStatus_WithSecretHash v WebhookStatus) <$> wh) None) ∅ = wh) as Hw.
  { unfold put_entries. case_bool_decide as He; simpl.
    - apply fmap_empty_inv in He as ->. apply fmap_empty.
    - rewrite <-map_fmap_compose. rewrite <-(map_fmap_id wh) at 2. by apply map_fmap_ext. }
  destruct id, obs; simpl; f_equal; f_equal; first [done|apply read_conditions_ToApplyConfigs|by repeat case_bool_decide].
Qed.

Lemma org_status_read (org : Organization) :
  (read_OrganizationStatus <$> rac_Status (org_BuildStatusApplyConfig org)) = Some {|
    ost_Conditions := ost_Conditions (o_Status org);
    ost_ObservedSubResourceGenerations := stored_generations (ost_ObservedSubResourceGenerations (o_Status org)) |}.
Proof.
  destruct org as [meta spec [cs obs]]. unfold org_BuildStatusApplyConfig, read_OrganizationStatus.
  destruct obs; simpl; f_equal; f_equal; first [done|apply read_conditions_ToApplyConfigs|by repeat case_bool_decide].
Qed.

Lemma team_status_read (team : Team) :
  (read_TeamStatus <$> rac_Status (team_BuildStatusApplyConfig team)) = Some (t_Status team).
Proof.
  destruct team as [meta spec [cs refs slug]]. unfold team_BuildStatusApplyConfig, read_TeamStatus.
  assert ((λ r, WithDefault (ora_Name r) "") <$> ((λ ref, OrganizationRef_WithName ref OrganizationRef) <$> refs) = refs) as Hr.
  { rewrite <-list_fmap_compose. rewrite <-(list_fmap_id refs) at 2. by apply list_fmap_ext. }
  destruct slug; simpl; f_equal; f_equal; first [done|apply read_conditions_ToApplyConfigs].
Qed.

(** What is written of a status is all that the operator knows of it, whatever was stored before: reading it
    back gives the in-memory status of the repository, the organization or the team (conditions, id, webhooks with
    the hashes of their secrets, the slug, the references, the observed generations); only an empty map of observed
    generations comes back as none. *)
Theorem status_roundtrip (repo : Repository) (org : Organization) (team : Team) :
  (read_RepositoryStatus <$> rac_Status (repo_BuildStatusApplyConfig repo)) = Some {|
    rst_Webhooks := rst_Webhooks (r_Status repo); rst_Conditions := rst_Conditions (r_Status repo); rst_ID := rst_ID (r_Status repo);
    rst_ObservedSubResourceGenerations := stored_generations (rst_ObservedSubResourceGenerations (r_Status repo)) |} ∧
  (read_OrganizationStatus <$> rac_Status (org_BuildStatusApplyConfig org)) = Some {|
    ost_Conditions := ost_Conditions (o_Status org);
    ost_ObservedSubResourceGenerations := stored_generations (ost_ObservedSubResourceGenerations (o_Status org)) |} ∧
  (read_TeamStatus <$> rac_Status (team_BuildStatusApplyConfig team)) = Some (t_Status team).
Proof. split_and!; [apply repo_status_read|apply org_status_read|apply team_status_read]. Qed.

(** *** The finalizer *)

(** An empty slice of finalizers is not sent, just as a nil one. *)
Lemma no_finalizers_not_sent {Status} kind meta lbls annotations :
  BuildMetadataApplyConfig (Status := Status) kind meta lbls annotations (Some []) = BuildMetadataApplyConfig kind meta lbls annotations None.
Proof. by destruct lbls, annotations. Qed.

(** The metadata that is sent: the labels, and no more than the finalizers given. *)
Lemma metadata_sent {Status} kind meta lbls finalizers :
  rac_ObjectMeta (BuildMetadataApplyConfig (Status := Status) kind meta (Some lbls) None (Some finalizers)) = Some {|
    oma_Name := Some (Name meta); oma_Namespace := Some (Namespace meta); oma_Labels := put_entries lbls None;
    oma_Annotations := None; oma_Finalizers := finalizers |}.
Proof. done. Qed.

(** ** The observed generations on their way through the cluster *)
Section Generations.
Context {W Client : Type} {KH : K8sHelpers} {A : FactoryApi W Client}.
Context (IsNotFound : gerror → bool) (rand_IntN : Z → Z) (cfg : Config).
Context (orgs : string → string → res Organization) (repos : string → string → res Repository) (teams : string → string → res Team).
Context (presets : string → string → res RulesetPreset) (subs : string → string → string → res ObjectMeta).
Context {L : StoreLaws orgs repos teams presets subs}.

Lemma stored_generations_id g : g ≠ Some ∅ → stored_generations g = g.
Proof. destruct g as [m|]; [|done]. intros Hm. simpl. case_bool_decide; [|done]. by subst. Qed.

Definition with_observed (g : option (gmap string Z)) (repo : Repository) : Repository := {|
  r_Meta := r_Meta repo; r_Spec := r_Spec repo;
  r_Status := {| rst_Webhooks := rst_Webhooks (r_Status repo); rst_Conditions := rst_Conditions (r_Status repo);
    rst_ID := rst_ID (r_Status repo); rst_ObservedSubResourceGenerations := g |} |}.

Lemma repo_reconciler_generations repo g w rec w' :
  run (repo_reconciler cfg repo g) w = (inl (Some rec), w') → grr_Generations rec = g ∧ grr_Resource rec = repo.
Proof.
  unfold repo_reconciler. rewrite run_bind. destruct (run (getOrgByRef _ _) w) as [[org|err] w1]; [|done].
  destruct (orgAppConfig org) as [app|err]; [|done]. rewrite run_bind. destruct (run (manager_GetClient _ _) w1) as [[c|err] w2]; [|done].
  rewrite run_bind. destruct (run (warm_resolver c org) w2) as [[err|] w3]; [done|]. by intros [= <- _].
Qed.

(** C16: the generations a reconciliation records survive the cluster: what the factory collected for a repository is
    written with the status, read back after a restart of the operator, and then equal to what the factory collects
    again in the unchanged cluster, so that the repository counts as unchanged (a nil and an empty map count as
    different, and an empty one does not come back). *)
Theorem recorded_generations_survive ns n repo repo' rec w w' status m wr :
  repos ns n = inl repo →
  run (CreateForRepo IsNotFound rand_IntN cfg ns n) w = (inl (Some rec), w') →
  rac_Status (repo_BuildStatusApplyConfig (with_observed (grr_Generations rec) repo')) = Some status →
  run (fetchSubResourceGenerationsForRepo IsNotFound repo) wr = (inl m, wr) →
  subResourcesChanged m (rst_ObservedSubResourceGenerations (read_RepositoryStatus status)) = false.
Proof.
  intros Hr Hrun Hst Hm. destruct (CreateForRepo_run IsNotFound rand_IntN cfg orgs repos teams presets subs ns n repo w Hr) as (fetched & Hf & Hok & Heq).
  rewrite Hf in Hm. injection Hm as ->. rewrite Hrun in Heq. destruct (Spread _ _ _ _ _) as [err|]; [done|].
  symmetry in Heq. apply repo_reconciler_generations in Heq as [Hg _].
  pose proof (repo_status_read (with_observed (grr_Generations rec) repo')) as Hrt. rewrite Hst in Hrt. injection Hrt as _ _ _ Hrt.
  change (rst_ObservedSubResourceGenerations (read_RepositoryStatus status)) with (rsa_ObservedSubResourceGenerations status).
  apply subResourcesChanged_spec. rewrite Hrt, Hg. symmetry. apply stored_generations_id. by destruct Hok as (_ & _ & ?).
Qed.
End Generations.

(** The preset "mid" was read with generation 2: this is what is stored and what a restart finds. *)
Import SimpleHelpers ToyStartup.

(** Right after the start an unobserved repository is not held back. *)
Definition created_repo : res (option (GitHubRepoReconciler string)) :=
  (run (CreateForRepo (A := factory None) is_not_found rnd default_config "ns" "r") started).1.

Lemma recorded_generations_survive_witness :
  match created_repo with
  | inl (Some rec) =>
    match rac_Status (repo_BuildStatusApplyConfig (with_observed (grr_Generations rec) (repository None))) with
    | Some status => subResourcesChanged (Some current) (rst_ObservedSubResourceGenerations (read_RepositoryStatus status)) = false
    | None => False
    end
  | _ => False
  end.
Proof.
  pose proof (λ rec w', recorded_generations_survive (L := store_laws None) is_not_found rnd default_config orgs (repos None) teams presets subs "ns" "r"
    (repository None) (repository None) rec started w') as H.
  unfold created_repo.
  destruct (run (CreateForRepo (A := factory None) is_not_found rnd default_config "ns" "r") started) as [[[rec|]|err] w'] eqn:Hrun;
    [|vm_compute in Hrun; discriminate Hrun..].
  cbn [fst]. destruct (rac_Status _) as [status|] eqn:Hst; [|by inversion Hst].
  apply (H rec w' status (Some current) started); [reflexivity|reflexivity|exact Hst|vm_compute; reflexivity].
Defined.
