(* ===== verification/Watches.v ===== *)
(** * What makes a controller reconcile a resource (internal/controller: SetupWithManager and the listing functions)

    The controllers index the resources in the cache by fields and watch the sub-resources: an event of a
    sub-resource requests the resources that name it.  The indexes are functions of an object; the cache that answers
    list calls by them is an interface.  The RulesetPreset index is in PresetIndex.v. *)
From S2P Require Import Prelude GoErrors Conditions ApiTypes RulesetMerge RulesetResolve PresetIndex OrgRec IdResolver ClientFactory Factory.

(** ** The registered indexes: [IndexField] of the three controllers and of [SetupRulesetPresetIndex] *)
Definition rulesetPresetsNameIndex : string := "spec.rulesetPresets.name".

Definition repository_fields (field : string) : option (Repository → list string) :=
  if bool_decide (field = "spec.organizationRef.name") then Some (λ repo, [r_OrganizationRef (r_Spec repo)])
  else if bool_decide (field = "spec.attachedCodeSecurityConfiguration.name") then
    Some (λ repo, option_list (r_AttachedCodeSecurityConfiguration (r_Spec repo)))
  else if bool_decide (field = "spec.webhookPresets.name") then Some (λ repo, r_WebhookPresetList (r_Spec repo))
  else if bool_decide (field = "spec.webhookIgnorePresets.name") then Some (λ repo, r_WebhookIgnorePresetsList (r_Spec repo))
  else if bool_decide (field = "spec.autolinksPresets.name") then Some (λ repo, r_AutolinksPresetList (r_Spec repo))
  else if bool_decide (field = rulesetPresetsNameIndex) then Some indexRepositoryRulesetPresets
  else None.
Definition organization_fields (field : string) : option (Organization → list string) :=
  if bool_decide (field = "spec.codeSecurityConfigurationAttachments.name") then
    Some (λ org, ar_Name <$> o_CodeSecurityConfigurations (o_Spec org))
  else if bool_decide (field = rulesetPresetsNameIndex) then Some indexOrganizationRulesetPresets
  else None.
Definition team_fields (field : string) : option (Team → list string) :=
  if bool_decide (field = "spec.organizationRefs") then Some (λ team, t_OrganizationRefs (t_Spec team)) else None.

(** [client.List] of the cached client: in a namespace ([None]: in all) by the value of a field. *)
Class CachedClient (W : Type) := {
  cached_repositories : option string → string → string → prog W (res (list Repository));
  cached_organizations : option string → string → string → prog W (res (list Organization));
  cached_teams : option string → string → string → prog W (res (list Team))
}.

Section Watches.
Context {W : Type} {A : CachedClient W}.

(** A failed list call is logged, and requests nothing. *)
Definition requests_of {O} (meta : O → ObjectMeta) (listed : prog W (res (list O))) : prog W (list (string * string)) :=
  let! l := listed in
  Ret (match l with inr _ => [] | inl l => key_of meta <$> l end).

Definition findRepositoriesForWebhookPreset (webhookPreset : ObjectMeta) : prog W (list (string * string)) :=
  requests_of r_Meta (cached_repositories None "spec.webhookPresets.name" (Name webhookPreset)).
Definition findRepositoriesForWebhookIgnorePreset (webhookIgnorePreset : ObjectMeta) : prog W (list (string * string)) :=
  requests_of r_Meta (cached_repositories None "spec.webhookIgnorePresets.name" (Name webhookIgnorePreset)).
Definition findRepositoriesForAutolinksPreset (autolinksPreset : ObjectMeta) : prog W (list (string * string)) :=
  requests_of r_Meta (cached_repositories None "spec.autolinksPresets.name" (Name autolinksPreset)).
Definition findOrganizationsForCodeSecurityConfiguration (csc : ObjectMeta) : prog W (list (string * string)) :=
  requests_of o_Meta (cached_organizations None "spec.codeSecurityConfigurationAttachments.name" (Name csc)).

(** The [Watches] of the repository controller and of the organization controller, by the kind of the object. *)
Definition repository_watch (kind : string) : option (ObjectMeta → prog W (list (string * string))) :=
  if bool_decide (kind = "WebhookPreset") then Some findRepositoriesForWebhookPreset
  else if bool_decide (kind = "WebhookIgnorePreset") then Some findRepositoriesForWebhookIgnorePreset
  else if bool_decide (kind = "AutolinksPreset") then Some findRepositoriesForAutolinksPreset
  else None.
Definition organization_watch (kind : string) : option (ObjectMeta → prog W (list (string * string))) :=
  if bool_decide (kind = "CodeSecurityConfiguration") then Some findOrganizationsForCodeSecurityConfiguration else None.

(** The organization reconciler lists with the same client. *)
#[export] Instance cached_lists : ListApi W := {|
  ListRepositories namespace := cached_repositories (Some namespace);
  ListTeams namespace := cached_teams (Some namespace) |}.

(** ** What the cache answers *)
Section Laws.
Context {O : Type} (list_by : option string → string → string → prog W (res (list O))) (meta : O → ObjectMeta).
Context (fields : string → option (O → list string)) (stored : W → list O).

Definition in_namespace (namespace : option string) (x : O) : Prop := ∀ ns, namespace = Some ns → Namespace (meta x) = ns.

(** By a registered field: the objects with the value, or a failure; by another field: an error. *)
Definition lists_fields : Prop := ∀ namespace field value w,
  let '(out, w') := run (list_by namespace field value) w in
  w' = w ∧ match fields field with
    | Some index => ∀ l, out = inl l → ∀ x, x ∈ l ↔ x ∈ stored w ∧ in_namespace namespace x ∧ value ∈ index x
    | None => ∃ err, out = inr err
    end.

Lemma requests_of_spec field index value w :
  lists_fields → fields field = Some index →
  let '(keys, w') := run (requests_of meta (list_by None field value)) w in
  w' = w ∧
  ((∃ err, (run (list_by None field value) w).1 = inr err) ∧ keys = [] ∨
   ∀ key, key ∈ keys ↔ ∃ x, x ∈ stored w ∧ key = key_of meta x ∧ value ∈ index x).
Proof.
  intros Hl Hf. unfold requests_of. rewrite run_bind. specialize (Hl None field value w). rewrite Hf in Hl.
  destruct (run (list_by None field value) w) as [[l|err] w']; destruct Hl as [-> Hl]; cbn [run fst]; (split; [done|]);
    [right|left; eauto].
  intros key. specialize (Hl l eq_refl). rewrite list_elem_of_fmap. split.
  - intros (x & -> & (Hx & _ & Hv)%Hl). by exists x.
  - intros (x & Hx & -> & Hv). exists x. split; [done|]. by apply Hl.
Qed.
End Laws.
End Watches.

Section Theorems.
Context {W : Type} {A : CachedClient W} (repos : W → list Repository) (orgs : W → list Organization) (teams : W → list Team).
Class CachedClientLaws : Prop := {
  repositories_by_field : lists_fields cached_repositories r_Meta repository_fields repos;
  organizations_by_field : lists_fields cached_organizations o_Meta organization_fields orgs;
  teams_by_field : lists_fields cached_teams t_Meta team_fields teams
}.
Context {L : CachedClientLaws}.

Lemma elem_of_pair_fmap (kind kind' name : string) (l : list string) : (kind, name) ∈ (pair kind' <$> l) ↔ kind = kind' ∧ name ∈ l.
Proof. rewrite list_elem_of_fmap. naive_solver. Qed.

(** An event of a sub-resource requests exactly the resources that name it, so that a change of a watched preset
    is acted upon at once and not only at the next drift detection: for a webhook preset, webhook ignore preset or
    autolinks preset these are the repositories with a reference of this kind and name, for a code security
    configuration the organizations that attach it; only a failure to list them loses the event. *)
Theorem watched_change_requested kind object w :
  (∀ find, repository_watch kind = Some find →
    let '(keys, w') := run (find object) w in
    w' = w ∧ ((∃ field err, is_Some (repository_fields field) ∧ (run (cached_repositories None field (Name object)) w).1 = inr err) ∧ keys = [] ∨
      ∀ key, key ∈ keys ↔ ∃ repo, repo ∈ repos w ∧ key = key_of r_Meta repo ∧ (kind, Name object) ∈ repo_refs repo)) ∧
  (∀ find, organization_watch kind = Some find →
    let '(keys, w') := run (find object) w in
    w' = w ∧ ((∃ field err, is_Some (organization_fields field) ∧ (run (cached_organizations None field (Name object)) w).1 = inr err) ∧ keys = [] ∨
      ∀ key, key ∈ keys ↔ ∃ org, org ∈ orgs w ∧ key = key_of o_Meta org ∧ (kind, Name object) ∈ org_refs org)).
Proof.
  assert (∀ field index find, repository_fields field = Some index →
    find = requests_of r_Meta (cached_repositories None field (Name object)) →
    (∀ repo, Name object ∈ index repo ↔ (kind, Name object) ∈ repo_refs repo) →
    let '(keys, w') := run find w in
    w' = w ∧ ((∃ field err, is_Some (repository_fields field) ∧ (run (cached_repositories None field (Name object)) w).1 = inr err) ∧ keys = [] ∨
      ∀ key, key ∈ keys ↔ ∃ repo, repo ∈ repos w ∧ key = key_of r_Meta repo ∧ (kind, Name object) ∈ repo_refs repo)) as Hrepo.
  { intros field index find Hf -> Hiff.
    pose proof (requests_of_spec cached_repositories r_Meta repository_fields repos field index (Name object) w repositories_by_field Hf) as H.
    destruct (run (requests_of _ _) w) as [keys w']. destruct H as [-> H]. split; [done|].
    destruct H as [[[err He] ->]|H]; [left; split; [by exists field, err; rewrite Hf|done]|right]. intros key. rewrite H. by setoid_rewrite Hiff. }
  split.
  - intros find. unfold repository_watch. repeat case_bool_decide; intros [= <-]; subst kind;
      [apply (Hrepo "spec.webhookPresets.name" _ _ eq_refl eq_refl)|apply (Hrepo "spec.webhookIgnorePresets.name" _ _ eq_refl eq_refl)
      |apply (Hrepo "spec.autolinksPresets.name" _ _ eq_refl eq_refl)];
      intros repo; unfold repo_refs; rewrite !elem_of_app, !elem_of_pair_fmap, elem_of_nil; naive_solver.
  - intros find. unfold organization_watch. case_bool_decide; [|done]. intros [= <-]. subst kind.
    pose proof (requests_of_spec cached_organizations o_Meta organization_fields orgs "spec.codeSecurityConfigurationAttachments.name" _
      (Name object) w organizations_by_field eq_refl) as H.
    unfold findOrganizationsForCodeSecurityConfiguration. destruct (run (requests_of _ _) w) as [keys w']. destruct H as [-> H]. split; [done|].
    destruct H as [[[err He] ->]|H]; [left; split; [by exists "spec.codeSecurityConfigurationAttachments.name", err|done]|right].
    intros key. rewrite H. unfold org_refs.
    setoid_rewrite elem_of_pair_fmap. naive_solver.
Qed.

(** C40: an organization is never let go: the deletion lists its teams by a field that no controller registers, so
    that it fails for every organization, also for one without repositories and teams. *)
Theorem organization_never_deleted org w :
  team_fields "spec.organizationRefs.name" = None ∧ ∃ err, run (ReconcileOrgDeletion org) w = (Some err, w).
Proof.
  split; [done|].
  unfold ReconcileOrgDeletion, checkForExistingRepos, checkForExistingTeams, getReferencingK8sRepos. rewrite !run_bind.
  pose proof (repositories_by_field (Some (Namespace (o_Meta org))) "spec.organizationRef.name" (Name (o_Meta org)) w) as Hr.
  cbn [ListRepositories ListTeams cached_lists]. destruct (run (cached_repositories _ _ _) w) as [[l|err] w1]; destruct Hr as [-> Hr]; [|by eexists].
  cbn [run]. case_bool_decide; [by eexists|]. rewrite !run_bind.
  pose proof (teams_by_field (Some (Namespace (o_Meta org))) "spec.organizationRefs.name" (Name (o_Meta org)) w) as Ht.
  destruct (run (cached_teams _ _ _) w) as [out w1]. destruct Ht as [-> [err ->]]. by eexists.
Qed.
End Theorems.

(** ** A concrete cache *)
Module ToyCache.
Record world := { repos : list Repository; orgs : list Organization; teams : list Team }.
Definition no_index : gerror := EPlain "index does not exist".
Section Listed.
Context {O : Type} (meta : O → ObjectMeta) (fields : string → option (O → list string)) (stored : world → list O).
Definition listed (namespace : option string) (field value : string) : prog world (res (list O)) :=
  gets (λ w, match fields field with
    | Some index => inl (filter (λ x, match namespace with Some ns => bool_decide (Namespace (meta x) = ns) | None => true end = true ∧ value ∈ index x) (stored w))
    | None => inr no_index
    end).
Lemma listed_fields : lists_fields listed meta fields stored.
Proof.
  intros namespace field value w. unfold listed. rewrite run_gets. split; [done|]. destruct (fields field) as [index|]; [|by eexists].
  intros l [= <-] x. rewrite list_elem_of_filter. unfold in_namespace.
  destruct namespace; [rewrite bool_decide_eq_true|]; naive_solver.
Qed.
End Listed.

#[export] Instance cache : CachedClient world := {|
  cached_repositories := listed r_Meta repository_fields repos;
  cached_organizations := listed o_Meta organization_fields orgs;
  cached_teams := listed t_Meta team_fields teams |}.
#[export] Instance laws : CachedClientLaws repos orgs teams.
Proof. split; apply listed_fields. Qed.

(** A repository with a webhook preset, and an organization that nothing refers to. *)
Definition repo (name : string) (presets : list string) : Repository :=
  let r := Samples.repo name [] [] in let s := r_Spec r in
  {| r_Meta := r_Meta r; r_Status := r_Status r; r_Spec := {|
    r_Name := r_Name s; r_CustomProperties := r_CustomProperties s; r_DefaultBranch := r_DefaultBranch s; r_Visibility := r_Visibility s;
    r_HasIssues := r_HasIssues s; r_HasProjects := r_HasProjects s; r_HasWiki := r_HasWiki s; r_HasDownloads := r_HasDownloads s;
    r_IsTemplate := r_IsTemplate s; r_MergeCommitTitle := r_MergeCommitTitle s; r_MergeCommitMessage := r_MergeCommitMessage s;
    r_AllowedMergeStrategies := r_AllowedMergeStrategies s; r_DeleteBranchOnMerge := r_DeleteBranchOnMerge s; r_About := r_About s;
    r_Archived := r_Archived s; r_ActionsEnabled := r_ActionsEnabled s;
    r_AccessLevelForExternalWorkflows := r_AccessLevelForExternalWorkflows s;
    r_AvailableActionsRunnerGroups := r_AvailableActionsRunnerGroups s; r_OrganizationRef := "other";
    r_RulesetPresetList := r_RulesetPresetList s; r_Rulesets := r_Rulesets s; r_WebhookPresetList := presets; r_Webhooks := r_Webhooks s;
    r_WebhookIgnorePresetsList := r_WebhookIgnorePresetsList s; r_WebhookIgnores := r_WebhookIgnores s;
    r_AutolinksPresetList := r_AutolinksPresetList s; r_Autolinks := r_Autolinks s; r_DeployKeyList := r_DeployKeyList s;
    r_AttachedCodeSecurityConfiguration := r_AttachedCodeSecurityConfiguration s |} |}.
Definition cluster : world := {|
  repos := [repo "a" ["ci"; "chat"]; repo "b" ["chat"]]; orgs := [Samples.org Samples.no_actions [] [] []]; teams := [] |}.
End ToyCache.
#[local] Existing Instances ToyCache.cache ToyCache.laws.

Lemma watched_change_requested_witness :
  let keys := (run (findRepositoriesForWebhookPreset (Samples.meta "ci")) ToyCache.cluster).1 in
  keys ≠ [] ∧ Forall (λ key, ∃ repo, repo ∈ ToyCache.repos ToyCache.cluster ∧ key = key_of r_Meta repo ∧
    ("WebhookPreset", "ci") ∈ repo_refs repo) keys.
Proof.
  split; [vm_compute; discriminate|].
  pose proof (proj1 (watched_change_requested ToyCache.repos ToyCache.orgs ToyCache.teams "WebhookPreset" (Samples.meta "ci") ToyCache.cluster)
    _ eq_refl) as H.
  destruct (run (findRepositoriesForWebhookPreset _) _) as [keys w'] eqn:E. cbn [fst]. destruct H as [_ [[_ ->]|H]]; [constructor|].
  apply Forall_forall. intros key Hkey. by apply H.
Defined.

Lemma organization_never_deleted_witness :
  ∃ err, run (ReconcileOrgDeletion (Samples.org Samples.no_actions [] [] [])) ToyCache.cluster = (Some err, ToyCache.cluster).
Proof. exact (proj2 (organization_never_deleted ToyCache.repos ToyCache.orgs ToyCache.teams _ ToyCache.cluster)). Defined.
