(* ===== verification/Events.v ===== *)
(** * Which events wake a controller (internal/controller: SetupWithManager; cmd/main.go)

    How the three controllers are registered with the manager: the field indexes, the watches with their mapping
    functions (Watches.v, PresetIndex.v), the event filters and the options of the work queue.  The manager and what
    controller-runtime does with an event are interfaces. *)
From S2P Require Import Prelude GoErrors Conditions ApiTypes RulesetMerge RulesetResolve PresetIndex OrgRec IdResolver ClientFactory Factory Watches.

(** ** Objects and events of the cache *)
Inductive Object :=
  | OrganizationObject (x : Organization)
  | RepositoryObject (x : Repository)
  | TeamObject (x : Team)
  | RulesetPresetObject (x : RulesetPreset)
  | SubResourceObject (kind : string) (x : ObjectMeta).
Definition ob_kind (x : Object) : string :=
  match x with
  | OrganizationObject _ => "Organization"
  | RepositoryObject _ => "Repository"
  | TeamObject _ => "Team"
  | RulesetPresetObject _ => "RulesetPreset"
  | SubResourceObject kind _ => kind
  end.
Definition ob_meta (x : Object) : ObjectMeta :=
  match x with
  | OrganizationObject x => o_Meta x
  | RepositoryObject x => r_Meta x
  | TeamObject x => t_Meta x
  | RulesetPresetObject x => rp_Meta x
  | SubResourceObject _ x => x
  end.

(** A version of an object, with its annotations. *)
Record Version := { ve_object : Object; ve_annotations : gmap string string }.
Inductive Event :=
  | CreateEvent (object : Version)
  | UpdateEvent (old new : Version)
  | DeleteEvent (object : Version).
Definition versions (ev : Event) : list Object :=
  match ev with
  | CreateEvent x | DeleteEvent x => [ve_object x]
  | UpdateEvent old new => [ve_object old; ve_object new]
  end.
(** The object an event is about. *)
Definition ev_object (ev : Event) : Object :=
  match ev with CreateEvent x | DeleteEvent x | UpdateEvent _ x => ve_object x end.
Definition ev_kind (ev : Event) : string := ob_kind (ev_object ev).
Definition ev_name (ev : Event) : string := Name (ob_meta (ev_object ev)).
Definition ev_namespace (ev : Event) : string := Namespace (ob_meta (ev_object ev)).

(** ** The registration of a controller *)
Inductive Predicate :=
  | GenerationChangedPredicate
  | AnnotationChangedPredicate
  | Or (l : list Predicate).

Record Options := {
  UsePriorityQueue : option bool;
  MaxConcurrentReconciles : Z;  (* 0 if not set *)
  (* of [NewTypedItemExponentialFailureRateLimiter] *)
  BaseDelay : Z;
  MaxDelay : Z
}.

Section Builder.
Context {W : Type}.
Record Builder := {
  b_For : string;
  b_ForPredicates : list Predicate;
  b_Watches : list (string * (Object → prog W (list (string * string))));
  b_EventFilter : list Predicate;
  b_Options : Options;
  b_Named : string
}.

End Builder.
Arguments Builder W : clear implicits.

(** [ctrl.Manager]: the registration of an index for a kind of objects, and that of a controller, which once started
    reads the cluster [W]. *)
Class CtrlManager (V W : Type) := {
  IndexOrganization : string → (Organization → list string) → prog V (option gerror);
  IndexRepository : string → (Repository → list string) → prog V (option gerror);
  IndexTeam : string → (Team → list string) → prog V (option gerror);
  IndexRulesetPreset : string → (RulesetPreset → list string) → prog V (option gerror);
  Complete : Builder W → prog V (option gerror)
}.

Section Setup.
Context {W : Type} {C : CachedClient W} {I : PresetReader W}.

(** Mapping functions on objects: a type assertion on another kind would panic; a watch only maps objects of its
    kind. *)
Definition on_meta (find : ObjectMeta → prog W (list (string * string))) (x : Object) := find (ob_meta x).
Definition on_preset (find : RulesetPreset → prog W (list (string * string))) (x : Object) : prog W (list (string * string)) :=
  match x with RulesetPresetObject p => find p | _ => Ret [] end.

Definition organization_builder : Builder W := {|
  b_For := "Organization"; b_ForPredicates := [Or [GenerationChangedPredicate; AnnotationChangedPredicate]];
  b_Watches := [("CodeSecurityConfiguration", on_meta findOrganizationsForCodeSecurityConfiguration);
    ("RulesetPreset", on_preset OrganizationRequests)];
  b_EventFilter := [];
  b_Options := {| UsePriorityQueue := Some true; MaxConcurrentReconciles := 0; BaseDelay := 1 * Second; MaxDelay := 1000 * Second |};
  b_Named := "organization" |}.

Definition repository_builder : Builder W := {|
  b_For := "Repository"; b_ForPredicates := [];
  b_Watches := [("WebhookPreset", on_meta findRepositoriesForWebhookPreset);
    ("WebhookIgnorePreset", on_meta findRepositoriesForWebhookIgnorePreset);
    ("RulesetPreset", on_preset RepositoryRequests);
    ("AutolinksPreset", on_meta findRepositoriesForAutolinksPreset)];
  b_EventFilter := [Or [GenerationChangedPredicate; AnnotationChangedPredicate]];
  b_Options := {| UsePriorityQueue := Some true; MaxConcurrentReconciles := 20; BaseDelay := 1 * Second; MaxDelay := 1000 * Second |};
  b_Named := "repository" |}.

Definition team_builder : Builder W := {|
  b_For := "Team"; b_ForPredicates := []; b_Watches := [];
  b_EventFilter := [Or [GenerationChangedPredicate; AnnotationChangedPredicate]];
  b_Options := {| UsePriorityQueue := Some true; MaxConcurrentReconciles := 20; BaseDelay := 1 * Second; MaxDelay := 1000 * Second |};
  b_Named := "team" |}.

Context {V : Type} {M : CtrlManager V W}.

Definition SetupRulesetPresetIndex : prog V (option gerror) :=
  check IndexRulesetPreset "spec.extends" indexRulesetPresetExtends in
  check IndexOrganization rulesetPresetsNameIndex indexOrganizationRulesetPresets in
  check IndexRepository rulesetPresetsNameIndex indexRepositoryRulesetPresets in
  Ret None.

Definition OrganizationCtl_SetupWithManager : prog V (option gerror) :=
  check IndexOrganization "spec.codeSecurityConfigurationAttachments.name" (λ org, ar_Name <$> o_CodeSecurityConfigurations (o_Spec org)) in
  Complete organization_builder.

Definition RepositoryCtl_SetupWithManager : prog V (option gerror) :=
  check IndexRepository "spec.organizationRef.name" (λ repo, [r_OrganizationRef (r_Spec repo)]) in
  check IndexRepository "spec.attachedCodeSecurityConfiguration.name" (λ repo,
    match r_AttachedCodeSecurityConfiguration (r_Spec repo) with Some name => [name] | None => [] end) in
  check IndexRepository "spec.webhookPresets.name" (λ repo, r_WebhookPresetList (r_Spec repo)) in
  check IndexRepository "spec.webhookIgnorePresets.name" (λ repo, r_WebhookIgnorePresetsList (r_Spec repo)) in
  check IndexRepository "spec.autolinksPresets.name" (λ repo, r_AutolinksPresetList (r_Spec repo)) in
  Complete repository_builder.

Definition TeamCtl_SetupWithManager : prog V (option gerror) :=
  check IndexTeam "spec.organizationRefs" (λ team, t_OrganizationRefs (t_Spec team)) in
  Complete team_builder.

(** The part of [main] that registers the controllers; an error ends the process. *)
Definition main_controllers : prog V (option gerror) :=
  check SetupRulesetPresetIndex in
  check OrganizationCtl_SetupWithManager in
  check RepositoryCtl_SetupWithManager in
  TeamCtl_SetupWithManager.
End Setup.

(** ** What controller-runtime does with an event *)
Class Runtime (W : Type) := {
  holds : Predicate → Event → bool;
  enqueued : Builder W → Event → prog W (list (string * string))
}.

Definition annotations_changed (ev : Event) : Prop :=
  match ev with UpdateEvent old new => ve_annotations old ≠ ve_annotations new | _ => True end.
Definition generation_changed (ev : Event) : Prop :=
  match ev with UpdateEvent old new => Generation (ob_meta (ve_object old)) ≠ Generation (ob_meta (ve_object new)) | _ => True end.
#[export] Instance annotations_changed_dec ev : Decision (annotations_changed ev).
Proof. destruct ev; apply _. Defined.
#[export] Instance generation_changed_dec ev : Decision (generation_changed ev).
Proof. destruct ev; apply _. Defined.

(** The versions of an update are versions of one object. *)
Definition one_object (ev : Event) : Prop :=
  match ev with
  | UpdateEvent old new => ob_kind (ve_object old) = ob_kind (ve_object new) ∧
      Namespace (ob_meta (ve_object old)) = Namespace (ob_meta (ve_object new)) ∧ Name (ob_meta (ve_object old)) = Name (ob_meta (ve_object new))
  | _ => True
  end.

Section Laws.
Context {W : Type} {R : Runtime W}.

(** The mapping functions of a registration only read. *)
Definition read_only (b : Builder W) : Prop := ∀ kind find x, (kind, find) ∈ b_Watches b → keeps id (find x).

(** The documentation of the builder and of the predicates: an event of the kind of [For] enqueues the object if the
    filters of all watches and its own let it pass; one of a watched kind enqueues what the mapping function returns
    for its versions, if the filters of all watches do. *)
Class RuntimeLaws : Prop := {
  holds_generation ev : holds GenerationChangedPredicate ev = bool_decide (generation_changed ev);
  holds_annotation ev : holds AnnotationChangedPredicate ev = bool_decide (annotations_changed ev);
  holds_or l ev : holds (Or l) ev = existsb (λ p, holds p ev) l;
  enqueued_spec b ev w : read_only b → ∃ keys, run (enqueued b ev) w = (keys, w) ∧
    ∀ key, key ∈ keys ↔
      (b_For b = ev_kind ev ∧ forallb (λ p, holds p ev) (b_EventFilter b ++ b_ForPredicates b) = true ∧ key = (ev_namespace ev, ev_name ev)) ∨
      (forallb (λ p, holds p ev) (b_EventFilter b) = true ∧
        ∃ find x, (ev_kind ev, find) ∈ b_Watches b ∧ x ∈ versions ev ∧ key ∈ (run (find x) w).1)
}.
Context {L : RuntimeLaws}.

Definition requested (b : Builder W) (ev : Event) (w : W) : list (string * string) := (run (enqueued b ev) w).1.

(** The filter that all three controllers use. *)
Lemma filter_passes ev :
  forallb (λ p, holds p ev) [Or [GenerationChangedPredicate; AnnotationChangedPredicate]] = true ↔ generation_changed ev ∨ annotations_changed ev.
Proof.
  cbn [forallb]. rewrite andb_true_r, holds_or. cbn [existsb]. rewrite orb_false_r, orb_true_iff, holds_generation, holds_annotation.
  by rewrite !bool_decide_eq_true.
Qed.

Lemma elem_of_requested b ev w key : read_only b →
  key ∈ requested b ev w ↔
    (b_For b = ev_kind ev ∧ forallb (λ p, holds p ev) (b_EventFilter b ++ b_ForPredicates b) = true ∧ key = (ev_namespace ev, ev_name ev)) ∨
    (forallb (λ p, holds p ev) (b_EventFilter b) = true ∧
      ∃ find x, (ev_kind ev, find) ∈ b_Watches b ∧ x ∈ versions ev ∧ key ∈ (run (find x) w).1).
Proof. intros Hro. unfold requested. destruct (enqueued_spec b ev w Hro) as (keys & -> & Hk). apply Hk. Qed.
End Laws.

(** ** What wakes the controllers of the operator *)
(** The preset index reads with the cached client of the manager, too; the list of the presets by [spec.extends] is a
    parameter. *)
Definition index_reader {W} {C : CachedClient W} (children : string → string → prog W (res (list RulesetPreset))) : PresetReader W := {|
  ListPresetsExtending := children;
  ListOrganizationsUsing namespace := cached_organizations (Some namespace) rulesetPresetsNameIndex;
  ListRepositoriesUsing namespace := cached_repositories (Some namespace) rulesetPresetsNameIndex |}.

Section Theorems.
Context {W : Type} {C : CachedClient W} {R : Runtime W} {RL : RuntimeLaws}.
Context (repos : W → list Repository) (orgs : W → list Organization) (teams : W → list Team).
Context {CL : CachedClientLaws repos orgs teams}.
Context (children : string → string → prog W (res (list RulesetPreset))) (lookup : string → string → res RulesetPreset).
#[local] Instance reader : PresetReader W := index_reader children.
Context {LP : PresetIndexLaws lookup}.

Lemma lists_fields_keeps {O} (list_by : option string → string → string → prog W (res (list O))) (meta : O → ObjectMeta) fields stored ns field value :
  lists_fields list_by meta fields stored → keeps id (list_by ns field value).
Proof. intros Hl w. specialize (Hl ns field value w). destruct (run (list_by ns field value) w). by destruct Hl as [-> _]. Qed.

Lemma requests_of_keeps {O} (list_by : option string → string → string → prog W (res (list O))) (meta : O → ObjectMeta) fields stored ns field value :
  lists_fields list_by meta fields stored → keeps id (requests_of meta (list_by ns field value)).
Proof.
  intros Hl. apply keeps_bind; [|intros; apply keeps_ret]. by eapply lists_fields_keeps.
Qed.

Lemma walk_levels_keeps ns : ∀ depth level names seen, keeps id (walk_levels depth ns level names seen).
Proof.
  induction depth as [|depth IH]; intros level names seen; [apply keeps_ret|]. destruct level as [|p level]; [apply keeps_ret|].
  cbn [walk_levels]. apply keeps_bind; [|intros [s []]; [apply IH|apply keeps_ret]].
  generalize (p :: level) {| wk_names := names; wk_seen := seen; wk_next := [] |}. intros l. induction l as [|q l IHl]; intros s; [apply keeps_ret|].
  cbn [walk_level]. apply keeps_bind; [intros w; by destruct (list_extending lookup ns q w) as (? & -> & _)|]. intros [cs|e]; [apply IHl|apply keeps_ret].
Qed.

Lemma requests_keeps {O} (list_using : string → string → prog W (res (list O))) (meta : O → ObjectMeta) p :
  (∀ ns name, keeps id (list_using ns name)) → keeps id (requests list_using meta p).
Proof.
  intros Hl. apply keeps_bind; [apply walk_levels_keeps|]. intros names. generalize ([] : list (string * string), ∅ : gset (string * string)).
  induction names as [|n names IH]; intros s; [apply keeps_ret|]. cbn [request_names]. apply keeps_bind; [apply Hl|]. intros [l|e]; apply IH.
Qed.

Lemma builders_read_only : read_only (organization_builder (W := W)) ∧ read_only (repository_builder (W := W)) ∧ read_only (team_builder (W := W)).
Proof.
  split_and!; intros kind find x Hin; cbn [b_Watches organization_builder repository_builder team_builder] in Hin;
    repeat (apply elem_of_cons in Hin as [[= -> ->]|Hin]); try by apply not_elem_of_nil in Hin.
  1: exact (requests_of_keeps _ _ _ _ _ _ _ (organizations_by_field repos orgs teams)).
  2, 3, 5: exact (requests_of_keeps _ _ _ _ _ _ _ (repositories_by_field repos orgs teams)).
  all: destruct x; try apply keeps_ret; apply requests_keeps; intros ns n.
  - exact (lists_fields_keeps _ _ _ _ _ _ _ (organizations_by_field repos orgs teams)).
  - exact (lists_fields_keeps _ _ _ _ _ _ _ (repositories_by_field repos orgs teams)).
Qed.

(** *** The own writes of the operator *)
(** Status, labels, finalizers: neither the generation nor an annotation changes. *)
Definition own_write (ev : Event) : Prop := ¬ generation_changed ev ∧ ¬ annotations_changed ev.

Lemma own_write_filtered ev : own_write ev →
  forallb (λ p, holds p ev) [Or [GenerationChangedPredicate; AnnotationChangedPredicate]] = false.
Proof. intros [H1 H2]. apply not_true_is_false. rewrite filter_passes. tauto. Qed.

(** C28: the operator does not wake itself: an update that changes neither the generation nor an annotation of the
    object, as its own writes of status, labels and finalizers do, requests no reconciliation of any repository or
    team, whatever kind of object it is about, and none of the organization it is about.  Every other event of a
    repository, a team or an organization requests this one resource, and it alone. *)
Theorem events_of_resources ev w :
  (own_write ev →
    requested repository_builder ev w = [] ∧ requested team_builder ev w = [] ∧
    (ev_kind ev = "Organization" → requested organization_builder ev w = [])) ∧
  (¬ own_write ev → ∀ b, b ∈ [organization_builder; repository_builder; team_builder (W := W)] → b_For b = ev_kind ev →
    ∀ key, key ∈ requested b ev w ↔ key = (ev_namespace ev, ev_name ev)).
Proof.
  destruct builders_read_only as (Ho & Hr & Ht). split.
  - intros Hown%own_write_filtered.
    assert (∀ l : list (string * string), (∀ key, key ∈ l → False) → l = []) as Hnil.
    { intros [|key l] H; [done|]. destruct (H key). apply list_elem_of_here. }
    split_and!; [..|intros Hk]; apply Hnil; intros key; rewrite elem_of_requested by done; cbn [b_For b_ForPredicates b_EventFilter
      b_Watches organization_builder repository_builder team_builder app]; rewrite Hown.
    1, 2: naive_solver.
    intros [(_ & ? & _)|(_ & find & x & Hin & _)]; [done|]. rewrite Hk in Hin.
    by repeat (apply elem_of_cons in Hin as [[=]|Hin]); apply not_elem_of_nil in Hin.
  - intros Hev b Hb Hfor key.
    assert (forallb (λ p, holds p ev) [Or [GenerationChangedPredicate; AnnotationChangedPredicate]] = true) as Hpass.
    { apply not_false_is_true. intros Hf. apply Hev. unfold own_write. destruct (decide (generation_changed ev ∨ annotations_changed ev)) as [Hd|]; [|tauto].
      apply filter_passes in Hd. congruence. }
    repeat (apply elem_of_cons in Hb as [->|Hb]); [..|by apply not_elem_of_nil in Hb];
      rewrite elem_of_requested by done; cbn [b_For b_ForPredicates b_EventFilter b_Watches organization_builder repository_builder
      team_builder app] in *; rewrite ?Hpass; (split; [|by auto]); (intros [(_ & _ & ?)|(_ & find & x & Hin & _)]; [done|]);
      rewrite <-Hfor in Hin; by repeat (apply elem_of_cons in Hin as [[=]|Hin]); apply not_elem_of_nil in Hin.
Qed.

(** *** Changes of sub-resources *)
Lemma watches_unique b kind find find' :
  b ∈ [organization_builder; repository_builder; team_builder (W := W)] → (kind, find) ∈ b_Watches b → (kind, find') ∈ b_Watches b → find = find'.
Proof.
  intros Hb H1 H2. repeat (apply elem_of_cons in Hb as [->|Hb]); [..|by apply not_elem_of_nil in Hb];
    cbn [b_Watches organization_builder repository_builder team_builder] in H1, H2;
    repeat (apply elem_of_cons in H1 as [[= -> ->]|H1]); try by apply not_elem_of_nil in H1.
  all: repeat (apply elem_of_cons in H2 as [[= ->]|H2]); first [done|by apply not_elem_of_nil in H2].
Qed.

(** An event that passes is answered with what the mapping function returns for the versions. *)
Lemma elem_of_mapped b ev w find key :
  b ∈ [organization_builder; repository_builder; team_builder (W := W)] → (ev_kind ev, find) ∈ b_Watches b → b_For b ≠ ev_kind ev →
  b_EventFilter b = [] ∨ ¬ own_write ev →
  key ∈ requested b ev w ↔ ∃ x, x ∈ versions ev ∧ key ∈ (run (find x) w).1.
Proof.
  intros Hb Hin Hfor Hpass. destruct builders_read_only as (Ho & Hr & Ht).
  assert (forallb (λ p, holds p ev) (b_EventFilter b) = true) as Hf.
  { destruct Hpass as [->|Hev]; [done|]. repeat (apply elem_of_cons in Hb as [->|Hb]); [done|..|by apply not_elem_of_nil in Hb];
      cbn [b_EventFilter repository_builder team_builder]; apply filter_passes;
      unfold own_write in Hev; destruct (decide (generation_changed ev)); [tauto| |tauto|];
      destruct (decide (annotations_changed ev)); tauto. }
  assert (read_only b) as Hro by (repeat (apply elem_of_cons in Hb as [->|Hb]); [done..|by apply not_elem_of_nil in Hb]).
  rewrite elem_of_requested, Hf by done. split.
  - intros [(? & _)|(_ & find' & x & Hin' & Hx & Hk)]; [done|]. rewrite (watches_unique b _ find find' Hb Hin Hin'). by exists x.
  - intros (x & Hx & Hk). right. split; [done|]. by exists find, x.
Qed.

Lemma ev_object_version ev : ev_object ev ∈ versions ev.
Proof. destruct ev; simpl; set_solver. Qed.
Lemma version_name ev x : one_object ev → x ∈ versions ev → Name (ob_meta x) = ev_name ev.
Proof. destruct ev; unfold ev_name; simpl; [set_solver| |set_solver]. intros (_ & _ & He). set_solver. Qed.

(** A list of the users of a sub-resource, for each of its versions. *)
Lemma mapped_by_field {O} (list_by : option string → string → string → prog W (res (list O))) (meta : O → ObjectMeta) fields stored
    b ev w find field index (kind : string) (refs : O → list (string * string)) :
  lists_fields list_by meta fields stored → fields field = Some index →
  (∀ obj, ev_name ev ∈ index obj ↔ (kind, ev_name ev) ∈ refs obj) →
  find = on_meta (λ m, requests_of meta (list_by None field (Name m))) →
  b ∈ [organization_builder; repository_builder; team_builder (W := W)] → (ev_kind ev, find) ∈ b_Watches b → b_For b ≠ ev_kind ev →
  b_EventFilter b = [] ∨ ¬ own_write ev → one_object ev →
  (∃ err, (run (list_by None field (ev_name ev)) w).1 = inr err) ∨
  ∀ key, key ∈ requested b ev w ↔ ∃ obj, obj ∈ stored w ∧ key = key_of meta obj ∧ (kind, ev_name ev) ∈ refs obj.
Proof.
  intros Hl Hf Hi -> Hb Hin Hfor Hpass Hone.
  pose proof (requests_of_spec list_by meta fields stored field index (ev_name ev) w Hl Hf) as H.
  destruct (run (requests_of meta (list_by None field (ev_name ev))) w) as [keys w'] eqn:Hrun.
  destruct H as [_ [[[err Herr] _]|H]]; [left; by exists err|right].
  assert (∀ key, key ∈ requested b ev w ↔ key ∈ keys) as Hk.
  { intros key. rewrite elem_of_mapped by done. unfold on_meta. split.
    - intros (x & Hx & Hkey). rewrite (version_name ev x Hone Hx), Hrun in Hkey. done.
    - intros Hkey. exists (ev_object ev). split; [apply ev_object_version|]. by rewrite (version_name ev _ Hone (ev_object_version ev)), Hrun. }
  intros key. rewrite Hk, H. by setoid_rewrite Hi.
Qed.

(** What answers the lists of the preset index. *)
Lemma lists_by_preset {O} (list_by : option string → string → string → prog W (res (list O))) (meta : O → ObjectMeta) fields stored index :
  lists_fields list_by meta fields stored → fields rulesetPresetsNameIndex = Some index →
  (∀ ns name w err, (run (list_by (Some ns) rulesetPresetsNameIndex name) w).1 ≠ inr err) →
  lists_by_index (λ ns, list_by (Some ns) rulesetPresetsNameIndex) meta (λ w obj, obj ∈ stored w) index.
Proof.
  intros Hl Hf Hok ns name w. specialize (Hl (Some ns) rulesetPresetsNameIndex name w). rewrite Hf in Hl. specialize (Hok ns name w).
  destruct (run (list_by _ _ _) w) as [[l|err] w']; destruct Hl as [-> Hl]; [|by destruct (Hok err)].
  exists l. split; [done|]. intros obj. rewrite (Hl l eq_refl). unfold in_namespace. naive_solver.
Qed.

(** The users of a preset, also through presets that extend it. *)
Lemma preset_user_requested {O} (list_by : option string → string → string → prog W (res (list O))) (meta : O → ObjectMeta) fields stored
    (refs : O → list string) (inline : O → list RulesetSpec) b ev w p obj :
  lists_fields list_by meta fields stored →
  fields rulesetPresetsNameIndex = Some (λ obj, referencedRulesetPresetNames (refs obj) (inline obj)) →
  (∀ ns name w err, (run (list_by (Some ns) rulesetPresetsNameIndex name) w).1 ≠ inr err) →
  b ∈ [organization_builder; repository_builder; team_builder (W := W)] →
  (ev_kind ev, on_preset (requests (λ ns, list_by (Some ns) rulesetPresetsNameIndex) meta)) ∈ b_Watches b → b_For b ≠ ev_kind ev →
  b_EventFilter b = [] ∨ ¬ own_write ev → ev_object ev = RulesetPresetObject p →
  (∀ ns q, lookup ns "" ≠ inl q) → ev_name ev ≠ "" →
  obj ∈ stored w → Namespace (meta obj) = ev_namespace ev → depends lookup (ev_namespace ev) (refs obj) (inline obj) (ev_name ev) →
  key_of meta obj ∈ requested b ev w.
Proof.
  intros Hl Hf Hok Hb Hin Hfor Hpass Hp Hempty Hname Hobj Hns Hdep. unfold ev_namespace, ev_name in *. rewrite Hp in *.
  apply (elem_of_mapped _ _ _ _ _ Hb Hin Hfor Hpass). exists (ev_object ev). split; [apply ev_object_version|]. rewrite Hp.
  apply (dependents_requested lookup _ meta (λ w obj, obj ∈ stored w) refs inline); try done. by eapply lists_by_preset.
Qed.

(** The field that tells who names a sub-resource of a kind. *)
Definition watched_field (kind : string) : string :=
  if bool_decide (kind = "WebhookPreset") then "spec.webhookPresets.name"
  else if bool_decide (kind = "WebhookIgnorePreset") then "spec.webhookIgnorePresets.name"
  else if bool_decide (kind = "AutolinksPreset") then "spec.autolinksPresets.name"
  else "spec.codeSecurityConfigurationAttachments.name".

(** C27: a change of a watched sub-resource is acted upon at once and not only at the next drift detection, although
    the controllers filter events.  If it is created or deleted, or if its generation or one of its annotations changed (a
    change of its labels or its status alone is none of these; it requests no repository), then of a webhook preset,
    webhook ignore preset or autolinks preset exactly the repositories with a reference of this kind and name are
    requested; for a code security configuration exactly the organizations that attach it; for a ruleset preset at
    least every repository and organization of its namespace whose rulesets depend on it, also through presets that
    extend it.  Only a failure to list the users loses the event. *)
Theorem changed_subresource_requested ev w :
  ¬ own_write ev → one_object ev →
  (ev_kind ev ∈ ["WebhookPreset"; "WebhookIgnorePreset"; "AutolinksPreset"] →
    (∃ err, (run (cached_repositories None (watched_field (ev_kind ev)) (ev_name ev)) w).1 = inr err) ∨
    ∀ key, key ∈ requested repository_builder ev w ↔
      ∃ repo, repo ∈ repos w ∧ key = key_of r_Meta repo ∧ (ev_kind ev, ev_name ev) ∈ repo_refs repo) ∧
  (ev_kind ev = "CodeSecurityConfiguration" →
    (∃ err, (run (cached_organizations None (watched_field (ev_kind ev)) (ev_name ev)) w).1 = inr err) ∨
    ∀ key, key ∈ requested organization_builder ev w ↔
      ∃ org, org ∈ orgs w ∧ key = key_of o_Meta org ∧ (ev_kind ev, ev_name ev) ∈ org_refs org) ∧
  (∀ p, ev_object ev = RulesetPresetObject p → (∀ ns q, lookup ns "" ≠ inl q) → ev_name ev ≠ "" →
    ((∀ ns name w err, (run (cached_repositories (Some ns) rulesetPresetsNameIndex name) w).1 ≠ inr err) →
      ∀ repo, repo ∈ repos w → Namespace (r_Meta repo) = ev_namespace ev →
      depends lookup (ev_namespace ev) (r_RulesetPresetList (r_Spec repo)) (r_Rulesets (r_Spec repo)) (ev_name ev) →
      key_of r_Meta repo ∈ requested repository_builder ev w) ∧
    ((∀ ns name w err, (run (cached_organizations (Some ns) rulesetPresetsNameIndex name) w).1 ≠ inr err) →
      ∀ org, org ∈ orgs w → Namespace (o_Meta org) = ev_namespace ev →
      depends lookup (ev_namespace ev) (o_RulesetPresetList (o_Spec org)) (o_Rulesets (o_Spec org)) (ev_name ev) →
      key_of o_Meta org ∈ requested organization_builder ev w)).
Proof.
  intros Hev Hone. split_and!.
  - intros Hk. set (kind := ev_kind ev) in *.
    assert (∀ field index find, repository_fields field = Some index →
      find = on_meta (λ m, requests_of r_Meta (cached_repositories None field (Name m))) →
      (∀ repo, ev_name ev ∈ index repo ↔ (kind, ev_name ev) ∈ repo_refs repo) → (kind, find) ∈ b_Watches repository_builder → "Repository" ≠ kind →
      (∃ err, (run (cached_repositories None field (ev_name ev)) w).1 = inr err) ∨
      ∀ key, key ∈ requested repository_builder ev w ↔ ∃ repo, repo ∈ repos w ∧ key = key_of r_Meta repo ∧ (kind, ev_name ev) ∈ repo_refs repo) as H.
    { intros field index find Hf Hfind Hi Hin Hne. apply (mapped_by_field cached_repositories r_Meta repository_fields repos _ ev w find field index);
        try done; [exact (repositories_by_field repos orgs teams)|set_solver|by right]. }
    repeat (apply elem_of_cons in Hk as [Hk|Hk]); [..|by apply not_elem_of_nil in Hk]; clearbody kind; subst kind;
      [apply (H "spec.webhookPresets.name" _ _ eq_refl eq_refl)|apply (H "spec.webhookIgnorePresets.name" _ _ eq_refl eq_refl)
      |apply (H "spec.autolinksPresets.name" _ _ eq_refl eq_refl)]; try (cbn [b_Watches repository_builder]; set_solver);
      try done; intros repo; unfold repo_refs; rewrite !elem_of_app, !elem_of_pair_fmap, elem_of_nil; naive_solver.
  - intros Hk. assert (watched_field (ev_kind ev) = "spec.codeSecurityConfigurationAttachments.name") as -> by (by rewrite Hk).
    apply (mapped_by_field cached_organizations o_Meta organization_fields orgs organization_builder ev w
      (on_meta findOrganizationsForCodeSecurityConfiguration) "spec.codeSecurityConfigurationAttachments.name"
      (λ org, ar_Name <$> o_CodeSecurityConfigurations (o_Spec org))); try done; rewrite ?Hk; try set_solver.
    exact (organizations_by_field repos orgs teams).
  - intros p Hp Hempty Hname.
    assert (ev_kind ev = "RulesetPreset") as Hk by (unfold ev_kind; by rewrite Hp).
    split; intros Hok obj Hobj Hobjns Hdep.
    + apply (preset_user_requested cached_repositories r_Meta repository_fields repos (λ r, r_RulesetPresetList (r_Spec r))
        (λ r, r_Rulesets (r_Spec r)) repository_builder ev w p); try done;
        [exact (repositories_by_field repos orgs teams)|set_solver|rewrite Hk; cbn [b_Watches repository_builder]; set_solver|by rewrite Hk|by right].
    + apply (preset_user_requested cached_organizations o_Meta organization_fields orgs (λ r, o_RulesetPresetList (o_Spec r))
        (λ r, o_Rulesets (o_Spec r)) organization_builder ev w p); try done;
        [exact (organizations_by_field repos orgs teams)|set_solver|rewrite Hk; cbn [b_Watches organization_builder]; set_solver|by rewrite Hk|by left].
Qed.
End Theorems.

(** ** The registration itself *)
Section Registered.
Context {V W : Type} {C : CachedClient W} {I : PresetReader W} {M : CtrlManager V W}.
Record Registrations := {
  of_organizations : string → option (Organization → list string);
  of_repositories : string → option (Repository → list string);
  of_teams : string → option (Team → list string);
  of_presets : string → option (RulesetPreset → list string);
  controllers : list (Builder W)
}.
Definition with_index {O} (field : string) (index : O → list string) (old : string → option (O → list string)) : string → option (O → list string) :=
  λ f, if bool_decide (f = field) then Some index else old f.
Definition nothing_registered : Registrations :=
  {| of_organizations _ := None; of_repositories _ := None; of_teams _ := None; of_presets _ := None; controllers := [] |}.

Context (registry : V → Registrations).
(** A registration without an error is made, and nothing else. *)
Definition registers (p : prog V (option gerror)) (f : Registrations → Registrations) : Prop :=
  ∀ w w', run p w = (None, w') → registry w' = f (registry w).
Class ManagerLaws : Prop := {
  index_organization field index : registers (IndexOrganization field index) (λ r, {|
    of_organizations := with_index field index (of_organizations r); of_repositories := of_repositories r; of_teams := of_teams r;
    of_presets := of_presets r; controllers := controllers r |});
  index_repository field index : registers (IndexRepository field index) (λ r, {|
    of_organizations := of_organizations r; of_repositories := with_index field index (of_repositories r); of_teams := of_teams r;
    of_presets := of_presets r; controllers := controllers r |});
  index_team field index : registers (IndexTeam field index) (λ r, {|
    of_organizations := of_organizations r; of_repositories := of_repositories r; of_teams := with_index field index (of_teams r);
    of_presets := of_presets r; controllers := controllers r |});
  index_preset field index : registers (IndexRulesetPreset field index) (λ r, {|
    of_organizations := of_organizations r; of_repositories := of_repositories r; of_teams := of_teams r;
    of_presets := with_index field index (of_presets r); controllers := controllers r |});
  complete b : registers (Complete b) (λ r, {|
    of_organizations := of_organizations r; of_repositories := of_repositories r; of_teams := of_teams r;
    of_presets := of_presets r; controllers := controllers r ++ [b] |})
}.
Context {L : ManagerLaws}.

Lemma check_none (p k : prog V (option gerror)) w w' : run (check p in k) w = (None, w') → ∃ w1, run p w = (None, w1) ∧ run k w1 = (None, w').
Proof. rewrite run_bind. destruct (run p w) as [[err|] w1]; [done|]. intros H. by exists w1. Qed.

(** When [main] gets past the registration of the controllers, the fields by which the cache answers are exactly
    those that the model of the cache has for each kind: every list call of the watches, of the ruleset presets and of
    the code security configurations finds its index, but the one of the deletion of an organization, by the teams
    that refer to it, does not; and exactly the three controllers have been started. *)
Theorem controllers_registered w w' :
  registry w = nothing_registered → run main_controllers w = (None, w') →
  let r := registry w' in
  (∀ field, of_organizations r field = organization_fields field) ∧
  (∀ field, of_repositories r field = repository_fields field) ∧
  (∀ field, of_teams r field = team_fields field) ∧
  (∀ field, of_presets r field = if bool_decide (field = "spec.extends") then Some indexRulesetPresetExtends else None) ∧
  of_teams r "spec.organizationRefs.name" = None ∧
  controllers r = [organization_builder; repository_builder; team_builder].
Proof.
  intros Hw Hrun.
  unfold main_controllers, SetupRulesetPresetIndex, OrganizationCtl_SetupWithManager, RepositoryCtl_SetupWithManager, TeamCtl_SetupWithManager in Hrun.
  repeat match goal with H : run (bind _ _) _ = _ |- _ => apply check_none in H as (? & ? & H) end.
  repeat match goal with H : run (Ret _) _ = _ |- _ => injection H as <- end.
  repeat match goal with
  | H : run (IndexOrganization _ _) _ = _ |- _ => apply index_organization in H
  | H : run (IndexRepository _ _) _ = _ |- _ => apply index_repository in H
  | H : run (IndexTeam _ _) _ = _ |- _ => apply index_team in H
  | H : run (IndexRulesetPreset _ _) _ = _ |- _ => apply index_preset in H
  | H : run (Complete _) _ = _ |- _ => apply complete in H
  end.
  (* from the first registration to the last *)
  unfold nothing_registered in Hw.
  repeat match goal with H : registry ?x = ?r, H' : registry _ = ?r' |- _ =>
    lazymatch r with context [registry _] => fail | _ => idtac end; lazymatch r' with context [registry x] => idtac end;
    rewrite H in H'; cbn [of_organizations of_repositories of_teams of_presets controllers app] in H'; clear H
  end.
  match goal with H : registry w' = _ |- _ => rewrite H end.
  split_and!; try done; intros field; cbn [of_organizations of_repositories of_teams of_presets];
    unfold with_index, organization_fields, repository_fields, team_fields; repeat case_bool_decide; by subst.
Qed.
End Registered.

(** ** A concrete manager, cache and cluster *)
Module ToyEvents.
Import ToyCache.

(** A manager that registers everything. *)
#[export] Instance manager : CtrlManager (Registrations (W := world)) world := {|
  IndexOrganization field index := call (λ r, (None, {|
    of_organizations := with_index field index (of_organizations r); of_repositories := of_repositories r; of_teams := of_teams r;
    of_presets := of_presets r; controllers := controllers r |}));
  IndexRepository field index := call (λ r, (None, {|
    of_organizations := of_organizations r; of_repositories := with_index field index (of_repositories r); of_teams := of_teams r;
    of_presets := of_presets r; controllers := controllers r |}));
  IndexTeam field index := call (λ r, (None, {|
    of_organizations := of_organizations r; of_repositories := of_repositories r; of_teams := with_index field index (of_teams r);
    of_presets := of_presets r; controllers := controllers r |}));
  IndexRulesetPreset field index := call (λ r, (None, {|
    of_organizations := of_organizations r; of_repositories := of_repositories r; of_teams := of_teams r;
    of_presets := with_index field index (of_presets r); controllers := controllers r |}));
  Complete b := call (λ r, (None, {|
    of_organizations := of_organizations r; of_repositories := of_repositories r; of_teams := of_teams r; of_presets := of_presets r;
    controllers := controllers r ++ [b] |})) |}.
#[export] Instance manager_laws : ManagerLaws (M := manager) id.
Proof. split; [intros ? ? w w'..|intros ? w w']; intros H; by injection H as <-. Qed.

(** The library, as its documentation says. *)
Fixpoint passes (p : Predicate) (ev : Event) : bool :=
  match p with
  | GenerationChangedPredicate => bool_decide (generation_changed ev)
  | AnnotationChangedPredicate => bool_decide (annotations_changed ev)
  | Or l => existsb (λ p, passes p ev) l
  end.
Definition all_pass (l : list Predicate) (ev : Event) : bool := forallb (λ p, passes p ev) l.
Definition mapped (b : Builder world) (ev : Event) (w : world) : list (string * string) :=
  '(kind, find) ← b_Watches b; if bool_decide (kind = ev_kind ev) then x ← versions ev; (run (find x) w).1 else [].
#[export] Instance runtime : Runtime world := {|
  holds := passes;
  enqueued b ev := gets (λ w,
    (if bool_decide (b_For b = ev_kind ev) && all_pass (b_EventFilter b ++ b_ForPredicates b) ev then [(ev_namespace ev, ev_name ev)] else []) ++
    (if all_pass (b_EventFilter b) ev then mapped b ev w else [])) |}.

Lemma elem_of_mapped_toy b ev w key :
  key ∈ mapped b ev w ↔ ∃ find x, (ev_kind ev, find) ∈ b_Watches b ∧ x ∈ versions ev ∧ key ∈ (run (find x) w).1.
Proof.
  unfold mapped. rewrite list_elem_of_bind. split.
  - intros ([kind find] & Hk & Hin). case_bool_decide as Hkind; [|by apply not_elem_of_nil in Hk]. subst kind.
    apply list_elem_of_bind in Hk as (x & Hk & Hx). by exists find, x.
  - intros (find & x & Hin & Hx & Hk). exists (ev_kind ev, find). split; [|done]. rewrite bool_decide_eq_true_2 by done.
    apply list_elem_of_bind. by exists x.
Qed.
#[export] Instance runtime_laws : RuntimeLaws (R := runtime).
Proof.
  split; try done. intros b ev w _. eexists. split; [reflexivity|]. intros key. rewrite elem_of_app.
  change (λ p, holds p ev) with (λ p, passes p ev). fold (all_pass (b_EventFilter b ++ b_ForPredicates b) ev) (all_pass (b_EventFilter b) ev).
  destruct (all_pass (b_EventFilter b) ev); [rewrite elem_of_mapped_toy|rewrite elem_of_nil];
    (destruct (bool_decide_reflect (b_For b = ev_kind ev)), (all_pass (b_EventFilter b ++ b_ForPredicates b) ev));
    cbn [andb]; rewrite ?list_elem_of_singleton, ?elem_of_nil; naive_solver.
Qed.

Definition children (_ parent : string) : prog world (res (list RulesetPreset)) :=
  Ret (inl (filter (λ p, parent ∈ indexRulesetPresetExtends p) [ToyCluster.base; ToyCluster.mid])).
#[export] Instance preset_laws : PresetIndexLaws (A := index_reader children) ToyCluster.lookup.
Proof. destruct ToyCluster.laws as [Hname Hlist]. split; [done|]. intros ns parent w. destruct (Hlist ns parent tt) as (l & Hl & H). injection Hl as <-. by eexists. Qed.

(** An update of the preset "ci" of its specification, and one of a label. *)
Definition version (generation : Z) : Version := {|
  ve_object := SubResourceObject "WebhookPreset" {| Name := "ci"; Namespace := "ns"; Generation := generation; DeletionTimestamp := None |};
  ve_annotations := ∅ |}.
Definition edited : Event := UpdateEvent (version 1) (version 2).
Definition labelled : Event := UpdateEvent (version 1) (version 1).
(** The preset "base", which "mid" extends, and a repository that uses it by "mid". *)
Definition base_deleted : Event := DeleteEvent {| ve_object := RulesetPresetObject ToyCluster.base; ve_annotations := ∅ |}.
Definition with_rulesets : world := {| repos := [ToyCluster.repo]; orgs := []; teams := [] |}.
End ToyEvents.

Section Witnesses.
Import ToyCache ToyEvents.
#[local] Instance toy_reader : PresetReader world := index_reader children.

Lemma events_of_resources_witness :
  requested repository_builder labelled cluster = [] ∧
  ∀ key, key ∈ requested repository_builder (DeleteEvent {| ve_object := RepositoryObject ToyCluster.repo; ve_annotations := ∅ |}) cluster ↔
    key = ("ns", "r").
Proof.
  split.
  - destruct (events_of_resources repos orgs teams children ToyCluster.lookup labelled cluster) as [[H _] _]; [|exact H].
    split; intros H; by apply H.
  - destruct (events_of_resources repos orgs teams children ToyCluster.lookup
      (DeleteEvent {| ve_object := RepositoryObject ToyCluster.repo; ve_annotations := ∅ |}) cluster) as [_ H].
    apply (H (λ H0, proj1 H0 I) repository_builder); [set_solver|done].
Defined.

Lemma changed_subresource_requested_witness :
  (∀ key, key ∈ requested repository_builder edited cluster → ∃ repo, repo ∈ repos cluster ∧ key = key_of r_Meta repo ∧
    ("WebhookPreset", "ci") ∈ repo_refs repo) ∧
  requested repository_builder edited cluster ≠ [] ∧
  ("ns", "r") ∈ requested repository_builder base_deleted with_rulesets.
Proof.
  refine (conj _ (conj _ _)).
  - destruct (changed_subresource_requested repos orgs teams children ToyCluster.lookup edited cluster) as [H _]; [by intros [H _]; apply H|by split_and!|].
    destruct H as [[err Hf]|H]; [set_solver|discriminate Hf|intros key Hk; by apply H].
  - vm_compute. discriminate.
  - destruct (changed_subresource_requested repos orgs teams children ToyCluster.lookup base_deleted with_rulesets) as (_ & _ & H);
      [by intros [H _]; apply H|done|].
    destruct (H ToyCluster.base eq_refl) as [Hr _]; [done|done|].
    apply (Hr (λ ns name w err, ltac:(by intros [=])) ToyCluster.repo); [apply list_elem_of_here|done|].
    right; right. exists (ToyCluster.spec "mine" "mid"), [("mid", ToyCluster.mid)].
    split_and!; [apply list_elem_of_here|done| |simpl; unfold MaxExtendsDepth; lia].
    by apply (path_snoc ToyCluster.lookup "ns" "mid" [] "mid" ToyCluster.mid (path_nil _ _ _)).
Defined.

Lemma controllers_registered_witness :
  controllers (run main_controllers (nothing_registered (W := world))).2 = [organization_builder; repository_builder; team_builder].
Proof.
  assert ((run main_controllers (nothing_registered (W := world))).1 = None) as Hnone by reflexivity.
  destruct (run main_controllers (nothing_registered (W := world))) as [e r] eqn:E. cbn [fst snd] in *. subst e.
  apply (controllers_registered (M := manager) id nothing_registered r eq_refl E).
Defined.
End Witnesses.
