(* ===== verification/Wrapper.v ===== *)
(** * The wrapper of the GitHub client (internal/ghclient/wrapper.go)

    [GitHubClientWrapper] calls the services of the go-github package, which are an interface here, and turns what
    they return into a result or an error.  Most methods do only that ([with_result], [with_error]); modelled by name
    are the methods that do more: paging through a list, looking up roles and groups, deleting a runner group.
    A method that fails returns an error, and what it returns beside the error is not used. *)
From S2P Require Import Prelude GoErrors Csc IdResolver.

(** ** go-github *)
Class GoGitHub := {
  http_Response : Type;
  (* github.CheckResponse: nil for the codes of success *)
  CheckResponse : http_Response → option gerror;
  (* errors.As with *ghinstallation.HTTPError: its response *)
  HTTPError_Response : gerror → option http_Response
}.
Record github_Response {G : GoGitHub} := { Response : option http_Response; NextPage : Z; LastPage : Z }.
(** What a call returns: a value, a response that may be nil, an error. *)
Definition answer {G : GoGitHub} (A : Type) : Type := A * option github_Response * option gerror.
Definition bare_answer {G : GoGitHub} : Type := option github_Response * option gerror.

Class GitHubServices (W : Type) {G : GoGitHub} := {
  (* by page; the values are pointers, [None] is nil *)
  Organizations_ListInstallations : string → Z → prog W (answer (option (list Installation)));
  Actions_ListEnabledReposInOrg : string → Z → prog W (answer (option (list Z)));
  Organizations_ListRoles : string → prog W (answer (option (list RoleEntry)));
  (* the slugs of the teams; GetSlug is the empty string for nil *)
  Organizations_ListTeamsAssignedToOrgRole : string → Z → prog W (answer (list string));
  Teams_ListExternalGroups : string → prog W (answer (option (list (option string * option Z))));
  (* the groups are their names and ids *)
  Teams_ListExternalGroupsForTeamBySlug : string → string → prog W (answer (option (list (option string * option Z))));
  Actions_ListRunnerGroupRunners : string → Z → prog W (answer (option (list Z)));
  Actions_RemoveRunnerGroupRunners : string → Z → Z → prog W bare_answer;
  Actions_DeleteOrganizationRunnerGroup : string → Z → prog W bare_answer;
  Actions_AddEnabledReposInOrg : string → Z → prog W bare_answer;
  Actions_RemoveEnabledReposInOrg : string → Z → prog W bare_answer;
  Actions_ListOrganizationRunnerGroups : string → prog W (answer (option (list Z)));
  Actions_ListRepositoryAccessRunnerGroup : string → Z → prog W (answer (option (list Z)))
}.

(** ** Errors *)
Section Errors.
Context {G : GoGitHub}.

Definition _getHTTPResponse (response : option github_Response) (err : option gerror) : option http_Response :=
  match response with
  | Some response => Response response
  | None => err ≫= HTTPError_Response
  end.

Definition _handleErrorResponse (response : option github_Response) (err : option gerror) : option gerror :=
  match response with
  | None => err
  | Some _ =>
    match _getHTTPResponse response err with
    | None => err
    | Some httpResponse =>
      match CheckResponse httpResponse, err with
      | Some ghErr, Some err => Some (EJoin [ghErr; err])
      | _, _ => err
      end
    end
  end.

Definition return_result {A} (a : answer A) : res A :=
  let '(result, response, err) := a in
  match _handleErrorResponse response err with Some err => inr err | None => inl result end.
Definition return_error (a : bare_answer) : option gerror := let '(response, err) := a in _handleErrorResponse response err.

(** A failed call is a failure, and its error can be found in the error returned; a call that succeeded is none. *)
Lemma _handleErrorResponse_spec response err :
  match _handleErrorResponse response err with
  | Some e => ∃ err', err = Some err' ∧ (e = err' ∨ ∃ ghErr, e = EJoin [ghErr; err'])
  | None => err = None
  end.
Proof.
  unfold _handleErrorResponse. destruct response as [r|]; [|destruct err; by eauto].
  destruct (_getHTTPResponse _ _) as [h|]; [|destruct err; by eauto].
  destruct (CheckResponse h), err; by eauto 6.
Qed.

Lemma _handleErrorResponse_None response : _handleErrorResponse response None = None.
Proof. pose proof (_handleErrorResponse_spec response None) as H. by destruct (_handleErrorResponse _ _); naive_solver. Qed.

(** The response of a failed token request is never looked at: without a response of GitHub the function has
    returned before. *)
Lemma token_response_ignored err : _handleErrorResponse None err = err.
Proof. done. Qed.
End Errors.

Section Wrapper.
Context {W : Type} {G : GoGitHub} {S : GitHubServices W}.

(** The methods that only pass on a call: [return result, _handleErrorResponse(response, err)]. *)
Definition with_result {A} (m : prog W (answer A)) : prog W (res A) := let! a := m in Ret (return_result a).
Definition with_error (m : prog W bare_answer) : prog W (option gerror) := let! a := m in Ret (return_error a).

(** ** Paging *)
Section Paging.
Context {A : Type} (list_page : Z → prog W (answer (option (list A)))).
(** How a page is appended: a nil result is skipped, or dereferenced. *)
Context (append_page : list A → option (list A) → res (list A)).

(** The loop [for nextPage != 0 && nextPage <= response.LastPage]; [None] if the fuel does not suffice. *)
Fixpoint more_pages (fuel : nat) (nextPage lastPage : Z) (items : list A) : prog W (option (res (list A))) :=
  if (nextPage =? 0) || (lastPage <? nextPage) then Ret (Some (inl items)) else
  match fuel with
  | O => Ret None
  | Datatypes.S fuel =>
    let! page := list_page nextPage in
    let '(result, response, err) := page in
    match err, response with
    | Some _, _ => Ret (Some (match _handleErrorResponse response err with Some err => inr err | None => inl [] end))
    | None, None => Ret (Some (inr nil_dereference))
    | None, Some response =>
      match append_page items result with
      | inr err => Ret (Some (inr err))
      | inl items => more_pages fuel (NextPage response) (LastPage response) items
      end
    end
  end.

(** The first page, without a page number. *)
Definition all_pages (fuel : nat) : prog W (option (res (list A))) :=
  let! page := list_page 0 in
  let '(result, response, err) := page in
  match err, result with
  | Some _, _ => Ret (Some (match _handleErrorResponse response err with Some err => inr err | None => inl [] end))
  | None, None => Ret (Some (inl []))
  | None, Some items =>
    match response with
    | None => Ret (Some (inr nil_dereference))
    | Some response => more_pages fuel (NextPage response) (LastPage response) items
    end
  end.
End Paging.

Definition append_checked {A} (items : list A) (result : option (list A)) : res (list A) :=
  inl (items ++ WithDefault result []).
Definition append_unchecked {A} (items : list A) (result : option (list A)) : res (list A) :=
  match result with Some l => inl (items ++ l) | None => inr nil_dereference end.

Definition GetGitHubAppsInstallations (fuel : nat) (org : string) : prog W (option (res (list Installation))) :=
  all_pages (Organizations_ListInstallations org) append_checked fuel.
Definition GetActionsEnabledRepositoriesForOrg (fuel : nat) (org : string) : prog W (option (res (list Z))) :=
  all_pages (Actions_ListEnabledReposInOrg org) append_unchecked fuel.

(** ** Roles, groups, runner groups *)

(** The loop of [getRoleIDForRoleName]: a role without a name or, if it has the name, without an id is dereferenced. *)
Fixpoint find_role (role : string) (roles : list RoleEntry) : res Z :=
  match roles with
  | [] => inl 0
  | currentRole :: roles =>
    match re_Name currentRole with
    | None => inr nil_dereference
    | Some name =>
      if bool_decide (name = role) then match re_RoleID currentRole with Some id => inl id | None => inr nil_dereference end
      else find_role role roles
    end
  end.
Definition getRoleIDForRoleName (org role : string) : prog W (res Z) :=
  let! answered := Organizations_ListRoles org in
  let '(roles, _, err) := answered in
  Ret (match err, roles with
  | Some err, _ => inr err
  | None, None => inr nil_dereference
  | None, Some roles =>
    match find_role role roles with
    | inr err => inr err
    | inl roleID => if roleID =? 0 then inr (EPlain ("role " +:+ role +:+ " not found for organization " +:+ org)) else inl roleID
    end
  end).

Definition GetAllTeamsAssignedToOrgRole (org roleName : string) : prog W (res (list string)) :=
  let? roleID := getRoleIDForRoleName org roleName in
  with_result (Organizations_ListTeamsAssignedToOrgRole org roleID).

Definition GetAllOrgRoles (org : string) : prog W (res (list RoleEntry)) :=
  let! answered := with_result (Organizations_ListRoles org) in
  Ret (match answered with
  | inr err => inr err
  | inl (Some roles) => inl roles
  | inl None => inr nil_dereference
  end).

Definition GetRoleByName (org roleName : string) : prog W (res RoleEntry) :=
  let? roles := GetAllOrgRoles org in
  Ret (match list_find (λ role, WithDefault (re_Name role) "" = roleName) roles with
  | Some (_, role) => inl role
  | None => inr (EPlain ("failed to find role named " +:+ roleName +:+ " in organization " +:+ org))
  end).

Definition add_group (groupNamesToId : gmap string Z) (group : option string * option Z) : gmap string Z :=
  match group with (Some name, Some id) => <[name := id]> groupNamesToId | _ => groupNamesToId end.
Definition GetExternalGroupNamesToIDForOrg (org : string) : prog W (res (gmap string Z)) :=
  let! answered := with_result (Teams_ListExternalGroups org) in
  Ret (match answered with
  | inr err => inr err
  | inl (Some groups) => inl (foldl add_group ∅ groups)
  | inl None => inr nil_dereference
  end).

Definition GetExternalGroupsForTeamBySlug (org slug : string) : prog W (res (list (option string * option Z))) :=
  let! answered := with_result (Teams_ListExternalGroupsForTeamBySlug org slug) in
  Ret (match answered with
  | inr err => inr err
  | inl (Some groups) => inl groups
  | inl None => inr nil_dereference
  end).

Fixpoint remove_runners (org : string) (groupID : Z) (runners : list Z) : prog W (option gerror) :=
  match runners with
  | [] => Ret None
  | runner :: runners =>
    let! removed := Actions_RemoveRunnerGroupRunners org groupID runner in
    match removed.2 with
    | Some err => Ret (_handleErrorResponse None (Some err))
    | None => remove_runners org groupID runners
    end
  end.
Definition DeleteRunnerGroupForOrg (org : string) (groupID : Z) : prog W (option gerror) :=
  let! answered := Actions_ListRunnerGroupRunners org groupID in
  let '(runnersList, _, err) := answered in
  match err, runnersList with
  | Some err, _ => Ret (_handleErrorResponse None (Some err))
  | None, None => Ret (Some nil_dereference)
  | None, Some runners =>
    check remove_runners org groupID runners in
    with_error (Actions_DeleteOrganizationRunnerGroup org groupID)
  end.

Definition SetActionsEnabledForRepo (owner : string) (repoID : Z) (enabled : bool) : prog W (option gerror) :=
  with_error (if enabled then Actions_AddEnabledReposInOrg owner repoID else Actions_RemoveEnabledReposInOrg owner repoID).

(** A nil list of groups or repositories is empty. *)
Definition GetRunnerGroupsForOrg (org : string) : prog W (res (list Z)) :=
  let? result := with_result (Actions_ListOrganizationRunnerGroups org) in Ret (inl (WithDefault result [])).
Definition GetSelectedRepositoriesForRunnerGroup (resource : string) (groupID : Z) : prog W (res (list Z)) :=
  let? result := with_result (Actions_ListRepositoryAccessRunnerGroup resource groupID) in Ret (inl (WithDefault result [])).

(** The filter of [GetAllOrganizationRulesets]: the rulesets of the organization itself. *)
Section Rulesets.
Context {R : Type} (SourceType : R → option string) (ListAllRepositoryRulesets : string → prog W (answer (list R))).
Definition GetAllOrganizationRulesets (org : string) (includeParents : bool) : prog W (res (list R)) :=
  let? rulesets := with_result (ListAllRepositoryRulesets org) in
  Ret (inl (if includeParents then rulesets else filter (λ ruleset, SourceType ruleset = Some "Organization") rulesets)).
End Rulesets.

(** ** Paging collects everything *)
Section PagingSpec.
Context {A : Type} (list_page : Z → prog W (answer (option (list A)))) (append_page : list A → option (list A) → res (list A)).
Context (append_some : ∀ items l, append_page items (Some l) = inl (items ++ l)).

(** GitHub's answers for a list of pages: each but the last one links to the next and to the last page, the last one to
    none; page 0 is page 1.  A page may also fail, with or without a response and with any value: [inr err] is what the
    wrapper makes of the error and the response. *)
Definition page_links (pages : list (res (list A))) (i : nat) (response : github_Response) : Prop :=
  if bool_decide (Datatypes.S i < length pages)%nat
  then NextPage response = Z.of_nat (Datatypes.S (Datatypes.S i)) ∧ LastPage response = Z.of_nat (length pages)
  else NextPage response = 0 ∧ LastPage response = 0.
Definition answers_page (pages : list (res (list A))) (page : Z) (i : nat) : Prop :=
  ∀ w, match pages !! i with
  | Some (inl items) => ∃ response, run (list_page page) w = ((Some items, Some response, None), w) ∧ page_links pages i response
  | Some (inr err) => ∃ value response err', run (list_page page) w = ((value, response, Some err'), w) ∧
      _handleErrorResponse response (Some err') = Some err
  | None => True
  end.
Definition serves_pages (pages : list (res (list A))) : Prop :=
  answers_page pages 0 0 ∧ ∀ i, answers_page pages (Z.of_nat (Datatypes.S i)) i.

(** The items of all pages, or the error of the first page that fails. *)
Fixpoint join_pages (pages : list (res (list A))) (items : list A) : res (list A) :=
  match pages with
  | [] => inl items
  | inl page :: pages => join_pages pages (items ++ page)
  | inr err :: _ => inr err
  end.

Lemma more_pages_done fuel items (response : github_Response) pages i :
  page_links pages i response → (length pages ≤ Datatypes.S i)%nat →
  more_pages list_page append_page fuel (NextPage response) (LastPage response) items = Ret (Some (inl items)).
Proof. unfold page_links. intros H Hi. rewrite bool_decide_eq_false_2 in H by lia. destruct H as [-> ->]. by destruct fuel. Qed.

Lemma more_pages_spec pages w : serves_pages pages → ∀ fuel i items response,
  page_links pages i response → (length pages ≤ fuel + Datatypes.S i)%nat →
  run (more_pages list_page append_page fuel (NextPage response) (LastPage response) items) w =
    (Some (join_pages (drop (Datatypes.S i) pages) items), w).
Proof.
  intros [_ Hs]. induction fuel as [|fuel IH]; intros i items response Hl Hlen.
  { rewrite (more_pages_done _ _ _ pages i) by (done || lia). by rewrite drop_ge by lia. }
  destruct (decide (Datatypes.S i < length pages)%nat) as [Hlt|Hge].
  2: { rewrite (more_pages_done _ _ _ pages i) by (done || lia). by rewrite drop_ge by lia. }
  pose proof Hl as Hlinks. unfold page_links in Hlinks. rewrite bool_decide_eq_true_2 in Hlinks by done. destruct Hlinks as [Hn Hla].
  cbn [more_pages]. rewrite Hn, Hla, (proj2 (Z.eqb_neq _ _)), (proj2 (Z.ltb_ge _ _)) by lia. cbn [orb].
  destruct (lookup_lt_is_Some_2 pages (Datatypes.S i) Hlt) as [page Hp]. rewrite (drop_S _ _ _ Hp), run_bind.
  specialize (Hs (Datatypes.S i) w). rewrite Hp in Hs. destruct page as [l|err].
  - destruct Hs as (next & -> & Hnext). step_run. rewrite append_some. cbn [join_pages]. apply IH; [done|lia].
  - destruct Hs as (value & resp & err' & -> & He). step_run. by rewrite He.
Qed.

Lemma all_pages_spec pages fuel w :
  serves_pages pages → pages ≠ [] → (length pages ≤ Datatypes.S fuel)%nat →
  run (all_pages list_page append_page fuel) w = (Some (join_pages pages []), w).
Proof.
  intros Hs Hne Hlen. destruct pages as [|page rest] eqn:Hpages; [done|]. rewrite <-Hpages in *. unfold all_pages. rewrite run_bind.
  pose proof (proj1 Hs w) as H0. assert (pages !! 0%nat = Some page) as Hp by by rewrite Hpages. rewrite Hp in H0.
  destruct page as [l|err].
  - destruct H0 as (response & -> & Hl). step_run. rewrite (more_pages_spec pages w Hs fuel 0 l response Hl) by lia. by rewrite Hpages.
  - destruct H0 as (value & resp & err' & -> & He). step_run. by rewrite He, Hpages.
Qed.
End PagingSpec.

(** C29: the lists that the wrapper pages through itself are complete, and the loops end: if GitHub serves a list in any
    number of pages, the installations of an organization and its repositories enabled for actions are those of all
    pages in order, after as many requests as there are pages; or, if the call for a page fails, with or without a
    response and whatever else it returns, the error of the first page that fails, joined with what its response says.  A
    part of the list is never taken for all of it.  (The pages do not change while they are read.) *)
Theorem paging_complete org fuel w :
  (∀ pages, serves_pages (Organizations_ListInstallations org) pages → pages ≠ [] → (length pages ≤ Datatypes.S fuel)%nat →
    run (GetGitHubAppsInstallations fuel org) w = (Some (join_pages pages []), w)) ∧
  (∀ pages, serves_pages (Actions_ListEnabledReposInOrg org) pages → pages ≠ [] → (length pages ≤ Datatypes.S fuel)%nat →
    run (GetActionsEnabledRepositoriesForOrg fuel org) w = (Some (join_pages pages []), w)).
Proof. split; intros pages Hs Hne Hlen; by apply all_pages_spec. Qed.
End Wrapper.

(** ** Three pages *)
Module ToyPages.
#[export] Instance go_github : GoGitHub := {|
  http_Response := Z;
  CheckResponse code := if code =? 200 then None else Some (EGitHub (Build_ErrorResponse (Some code) "" []));
  HTTPError_Response _ := None |}.
Definition installation (id : Z) : Installation := {| in_AppSlug := None; in_AppID := Some id |}.
Definition pages : list (res (list Installation)) := [inl [installation 1; installation 2]; inl [installation 3]; inl [installation 4]].
Definition linked (i : nat) : github_Response :=
  if bool_decide (Datatypes.S i < length pages)%nat
  then {| Response := Some 200; NextPage := Z.of_nat (Datatypes.S (Datatypes.S i)); LastPage := Z.of_nat (length pages) |}
  else {| Response := Some 200; NextPage := 0; LastPage := 0 |}.
Definition page_answer (page : Z) : answer (option (list Installation)) :=
  let i := Nat.pred (Z.to_nat page) in
  match pages !! i with Some (inl l) => (Some l, Some (linked i), None) | _ => (None, None, Some (EPlain "no page")) end.
(** Two pages of repositories; the second one is answered with 403, and a value. *)
Definition forbidden : gerror := EGitHub (Build_ErrorResponse (Some 403) "" []).
Definition repo_pages : list (res (list Z)) := [inl [1; 2]; inr (EJoin [forbidden; forbidden])].
Definition repo_answer (page : Z) : answer (option (list Z)) :=
  match Nat.pred (Z.to_nat page) with
  | O => (Some [1; 2], Some {| Response := Some 200; NextPage := 2; LastPage := 2 |}, None)
  | _ => (Some [3], Some {| Response := Some 403; NextPage := 0; LastPage := 0 |}, Some forbidden)
  end.
Definition unused {A} : answer (option A) := (None, None, Some (EPlain "unused")).
Definition unused_bare : bare_answer := (None, Some (EPlain "unused")).
#[export] Instance services : GitHubServices unit := {|
  Organizations_ListInstallations _ page := Ret (page_answer page);
  Actions_ListEnabledReposInOrg _ page := Ret (repo_answer page); Organizations_ListRoles _ := Ret unused;
  Organizations_ListTeamsAssignedToOrgRole _ _ := Ret ([], None, None); Teams_ListExternalGroups _ := Ret unused; Teams_ListExternalGroupsForTeamBySlug _ _ := Ret unused;
  Actions_ListRunnerGroupRunners _ _ := Ret unused; Actions_RemoveRunnerGroupRunners _ _ _ := Ret unused_bare;
  Actions_DeleteOrganizationRunnerGroup _ _ := Ret unused_bare; Actions_AddEnabledReposInOrg _ _ := Ret unused_bare;
  Actions_RemoveEnabledReposInOrg _ _ := Ret unused_bare; Actions_ListOrganizationRunnerGroups _ := Ret unused;
  Actions_ListRepositoryAccessRunnerGroup _ _ := Ret unused |}.

Lemma linked_links i : page_links pages i (linked i).
Proof. unfold page_links, linked. by case_bool_decide. Qed.
Lemma served : serves_pages (Organizations_ListInstallations "acme") pages.
Proof.
  assert (∀ page i, Nat.pred (Z.to_nat page) = i → answers_page (Organizations_ListInstallations "acme") pages page i) as H.
  { intros page i Hi []. change (Organizations_ListInstallations "acme" page) with (Ret (W := unit) (page_answer page)).
    unfold page_answer. rewrite Hi. destruct i as [|[|[|i]]]; try (eexists; split; [reflexivity|apply linked_links]). done. }
  split; [by apply H|]. intros i. apply H. lia.
Qed.
Lemma repos_served : serves_pages (Actions_ListEnabledReposInOrg "acme") repo_pages.
Proof.
  assert (∀ page i, Nat.pred (Z.to_nat page) = i → answers_page (Actions_ListEnabledReposInOrg "acme") repo_pages page i) as H.
  { intros page i Hi []. change (Actions_ListEnabledReposInOrg "acme" page) with (Ret (W := unit) (repo_answer page)).
    unfold repo_answer. rewrite Hi. destruct i as [|[|i]]; simpl; [|by eexists _, _, _|done]. eexists. split; [reflexivity|]. done. }
  split; [by apply H|]. intros i. apply H. lia.
Qed.
End ToyPages.
#[local] Existing Instances ToyPages.go_github ToyPages.services.

Lemma paging_complete_witness :
  run (GetGitHubAppsInstallations 2 "acme") tt = (Some (inl (ToyPages.installation <$> [1; 2; 3; 4])), tt) ∧
  run (GetActionsEnabledRepositoriesForOrg 1 "acme") tt = (Some (inr (EJoin [ToyPages.forbidden; ToyPages.forbidden])), tt).
Proof.
  destruct (paging_complete "acme" 2 tt) as [H _]. destruct (paging_complete "acme" 1 tt) as [_ H'].
  split; [exact (H ToyPages.pages ToyPages.served ltac:(discriminate) ltac:(simpl; lia))|].
  exact (H' ToyPages.repo_pages ToyPages.repos_served ltac:(discriminate) ltac:(simpl; lia)).
Defined.
