(* ===== verification/Services.v ===== *)
(** * The calls of the GitHub API that are passed on (internal/ghclient/wrapper.go)

    Every method of [GitHubClientWrapper] of the form [result, response, err := service.Method(...)] followed by
    [return result, _handleErrorResponse(response, err)], over the services of go-github; the types of that package are
    abstract.  The constant arguments of a call (nil options, an empty membership request) are left out, and a request
    that only carries a number or a list is that number or list.  What a caller does with an error depends on its
    type only, and the theorem of this file shows how that follows from the error of the package and the response. *)
From S2P Require Import Prelude GoErrors Csc IdResolver Wrapper.

(** ** The types of go-github *)
Class GoGitHubTypes := {
  gh_ActionsAllowed : Type; gh_ActionsPermissions : Type; gh_ArtifactPeriod : Type; gh_Autolink : Type;
  gh_Branch : Type; gh_CodeSecurityConfiguration : Type;
  gh_CodeSecurityConfigurationWithDefaultForNewRepos : Type; gh_CreateAutolinkRequest : Type;
  gh_CreateDeployKeyRequest : Type; gh_CreateRepositoryRequest : Type; gh_CreateRunnerGroupRequest : Type;
  gh_CreateTeamRequest : Type; gh_CustomProperty : Type; gh_CustomPropertyValue : Type;
  gh_DefaultWorkflowPermissionOrganization : Type; gh_Hook : Type; gh_Key : Type; gh_ListOptions : Type;
  gh_Organization : Type; gh_RateLimits : Type; gh_Repository : Type; gh_RepositoryActionsAccessLevel : Type;
  gh_RepositoryAttachment : Type; gh_RepositoryRuleset : Type; gh_RunnerGroup : Type;
  gh_SelfHostedRunnersSettingsOrganization : Type; gh_SelfHostedRunnersSettingsOrganizationOpt : Type;
  gh_Team : Type; gh_UpdateConnectedExternalGroupRequest : Type; gh_UpdateRunnerGroupRequest : Type;
  gh_UpdateTeamRequest : Type; gh_User : Type
}.

(** ** Its services *)
Class RestServices (W : Type) {G : GoGitHub} {T : GoGitHubTypes} := {
  Organizations_Get : string → prog W (answer (option gh_Organization));
  Organizations_Edit : string → gh_Organization → prog W (answer (option gh_Organization));
  Organizations_CreateOrUpdateCustomProperties : string → list gh_CustomProperty → prog W (answer (list gh_CustomProperty));
  Organizations_GetAllCustomProperties : string → prog W (answer (list gh_CustomProperty));
  Organizations_ListMembers : string → prog W (answer (list gh_User));
  Repositories_ListByOrg : string → prog W (answer (list gh_Repository));
  Repositories_Get : string → string → prog W (answer (option gh_Repository));
  Repositories_GetByID : Z → prog W (answer (option gh_Repository));
  Repositories_Create : string → gh_CreateRepositoryRequest → prog W (answer (option gh_Repository));
  Repositories_Edit : string → string → gh_Repository → prog W (answer (option gh_Repository));
  Repositories_GetBranch : string → string → string → Z → prog W (answer (option gh_Branch));
  Repositories_Delete : string → string → prog W bare_answer;
  Repositories_GetAllCustomPropertyValues : string → string → prog W (answer (list gh_CustomPropertyValue));
  Repositories_CreateOrUpdateCustomProperties : string → string → list gh_CustomPropertyValue → prog W bare_answer;
  Repositories_ListAllTopics : string → string → prog W (answer (list string));
  Repositories_ReplaceAllTopics : string → string → list string → prog W bare_answer;
  Repositories_ListAutolinks : string → string → prog W (answer (list gh_Autolink));
  Repositories_DeleteAutolink : string → string → Z → prog W bare_answer;
  Repositories_CreateAutolink : string → string → gh_CreateAutolinkRequest → prog W bare_answer;
  Repositories_ListKeys : string → string → prog W (answer (list gh_Key));
  Repositories_DeleteKey : string → string → Z → prog W bare_answer;
  Repositories_CreateKey : string → string → gh_CreateDeployKeyRequest → prog W bare_answer;
  Repositories_ListHooks : string → string → gh_ListOptions → prog W (answer (list gh_Hook));
  Repositories_CreateHook : string → string → gh_Hook → prog W (answer (option gh_Hook));
  Repositories_DeleteHook : string → string → Z → prog W bare_answer;
  Repositories_GetRuleset : string → string → Z → bool → prog W (answer (option gh_RepositoryRuleset));
  Repositories_GetAllRulesets : string → string → bool → prog W (answer (list gh_RepositoryRuleset));
  Repositories_CreateRuleset : string → string → gh_RepositoryRuleset → prog W (answer (option gh_RepositoryRuleset));
  Repositories_UpdateRuleset : string → string → Z → gh_RepositoryRuleset → prog W (answer (option gh_RepositoryRuleset));
  Repositories_DeleteRuleset : string → string → Z → prog W bare_answer;
  Organizations_GetRepositoryRuleset : string → Z → prog W (answer (option gh_RepositoryRuleset));
  Organizations_CreateRepositoryRuleset : string → gh_RepositoryRuleset → prog W (answer (option gh_RepositoryRuleset));
  Organizations_UpdateRepositoryRuleset : string → Z → gh_RepositoryRuleset → prog W (answer (option gh_RepositoryRuleset));
  Organizations_DeleteRepositoryRuleset : string → Z → prog W bare_answer;
  Organizations_ListCodeSecurityConfigurations : string → prog W (answer (list gh_CodeSecurityConfiguration));
  Organizations_UpdateCodeSecurityConfiguration : string → Z → gh_CodeSecurityConfiguration → prog W (answer (option gh_CodeSecurityConfiguration));
  Organizations_CreateCodeSecurityConfiguration : string → gh_CodeSecurityConfiguration → prog W (answer (option gh_CodeSecurityConfiguration));
  Organizations_DeleteCodeSecurityConfiguration : string → Z → prog W bare_answer;
  Organizations_SetDefaultCodeSecurityConfiguration : string → Z → string → prog W bare_answer;
  Organizations_ListDefaultCodeSecurityConfigurations : string → prog W (answer (list gh_CodeSecurityConfigurationWithDefaultForNewRepos));
  Organizations_AttachCodeSecurityConfigurationToRepositories : string → Z → string → list Z → prog W bare_answer;
  Organizations_ListCodeSecurityConfigurationRepositories : string → Z → prog W (answer (list gh_RepositoryAttachment));
  Organizations_AssignOrgRoleToTeam : string → string → Z → prog W bare_answer;
  Organizations_RemoveOrgRoleFromTeam : string → string → Z → prog W bare_answer;
  Teams_ListTeams : string → prog W (answer (list gh_Team));
  Teams_GetTeamBySlug : string → string → prog W (answer (option gh_Team));
  Teams_UpdateTeamBySlug : string → string → gh_UpdateTeamRequest → prog W (answer (option gh_Team));
  Teams_CreateTeam : string → gh_CreateTeamRequest → prog W (answer (option gh_Team));
  Teams_DeleteTeamBySlug : string → string → prog W bare_answer;
  Teams_ListTeamMembersBySlug : string → string → prog W (answer (list gh_User));
  Teams_AddTeamMembershipBySlug : string → string → string → prog W bare_answer;
  Teams_RemoveTeamMembershipBySlug : string → string → string → prog W bare_answer;
  Teams_UpdateConnectedExternalGroup : string → string → gh_UpdateConnectedExternalGroupRequest → prog W bare_answer;
  Actions_GetActionsPermissions : string → prog W (answer (option gh_ActionsPermissions));
  Actions_UpdateActionsPermissions : string → gh_ActionsPermissions → prog W (answer (option gh_ActionsPermissions));
  Actions_GetArtifactAndLogRetentionPeriodInOrganization : string → prog W (answer (option gh_ArtifactPeriod));
  Actions_UpdateArtifactAndLogRetentionPeriodInOrganization : string → Z → prog W bare_answer;
  Actions_GetActionsAllowed : string → prog W (answer (option gh_ActionsAllowed));
  Actions_UpdateActionsAllowed : string → gh_ActionsAllowed → prog W (answer (option gh_ActionsAllowed));
  Actions_GetDefaultWorkflowPermissionsInOrganization : string → prog W (answer (option gh_DefaultWorkflowPermissionOrganization));
  Actions_UpdateDefaultWorkflowPermissionsInOrganization : string → gh_DefaultWorkflowPermissionOrganization → prog W (answer (option gh_DefaultWorkflowPermissionOrganization));
  Actions_GetSelfHostedRunnersSettingsInOrganization : string → prog W (answer (option gh_SelfHostedRunnersSettingsOrganization));
  Actions_UpdateSelfHostedRunnersSettingsInOrganization : string → gh_SelfHostedRunnersSettingsOrganizationOpt → prog W bare_answer;
  Actions_SetEnabledReposInOrg : string → list Z → prog W bare_answer;
  Repositories_GetActionsAccessLevel : string → string → prog W (answer (option gh_RepositoryActionsAccessLevel));
  Repositories_EditActionsAccessLevel : string → string → gh_RepositoryActionsAccessLevel → prog W bare_answer;
  Actions_CreateOrganizationRunnerGroup : string → gh_CreateRunnerGroupRequest → prog W (answer (option gh_RunnerGroup));
  Actions_UpdateOrganizationRunnerGroup : string → Z → gh_UpdateRunnerGroupRequest → prog W (answer (option gh_RunnerGroup));
  Actions_SetRepositoryAccessRunnerGroup : string → Z → list Z → prog W bare_answer;
  RateLimit_Get : prog W (answer (option gh_RateLimits))
}.

Section Services.
Context {W : Type} {G : GoGitHub} {T : GoGitHubTypes} {S : RestServices W}.

Definition GetOrganization (org : string) : prog W (res (option gh_Organization)) :=
  with_result (Organizations_Get org).
Definition EditOrganization (org : string) (organization : gh_Organization) : prog W (res (option gh_Organization)) :=
  with_result (Organizations_Edit org organization).
Definition CreateOrUpdateOrganizationCustomProperties (org : string) (properties : list gh_CustomProperty) : prog W (res (list gh_CustomProperty)) :=
  with_result (Organizations_CreateOrUpdateCustomProperties org properties).
Definition GetAllCustomPropertiesForOrganization (org : string) : prog W (res (list gh_CustomProperty)) :=
  with_result (Organizations_GetAllCustomProperties org).
Definition ListMembers (org : string) : prog W (res (list gh_User)) :=
  with_result (Organizations_ListMembers org).
Definition GetOrgRepositories (org : string) : prog W (res (list gh_Repository)) :=
  with_result (Repositories_ListByOrg org).
Definition GetRepository (owner : string) (repo : string) : prog W (res (option gh_Repository)) :=
  with_result (Repositories_Get owner repo).
Definition GetRepositoryByID (id : Z) : prog W (res (option gh_Repository)) :=
  with_result (Repositories_GetByID id).
Definition CreateRepository (org : string) (repo : gh_CreateRepositoryRequest) : prog W (res (option gh_Repository)) :=
  with_result (Repositories_Create org repo).
Definition EditRepository (owner : string) (repo : string) (repository : gh_Repository) : prog W (res (option gh_Repository)) :=
  with_result (Repositories_Edit owner repo repository).
Definition GetBranch (owner : string) (repo : string) (branch : string) : prog W (res (option gh_Branch)) :=
  with_result (Repositories_GetBranch owner repo branch 0).
Definition DeleteRepository (owner : string) (repo : string) : prog W (option gerror) :=
  with_error (Repositories_Delete owner repo).
Definition GetAllCustomPropertyValues (org : string) (repo : string) : prog W (res (list gh_CustomPropertyValue)) :=
  with_result (Repositories_GetAllCustomPropertyValues org repo).
Definition CreateOrUpdateRepositoryCustomProperties (org : string) (name : string) (values : list gh_CustomPropertyValue) : prog W (option gerror) :=
  with_error (Repositories_CreateOrUpdateCustomProperties org name values).
Definition GetAllTopics (owner : string) (repo : string) : prog W (res (list string)) :=
  with_result (Repositories_ListAllTopics owner repo).
Definition ReplaceAllTopics (owner : string) (repo : string) (topics : list string) : prog W (option gerror) :=
  with_error (Repositories_ReplaceAllTopics owner repo topics).
Definition ListAllAutolinks (owner : string) (repo : string) : prog W (res (list gh_Autolink)) :=
  with_result (Repositories_ListAutolinks owner repo).
Definition DeleteAutolink (owner : string) (repo : string) (id : Z) : prog W (option gerror) :=
  with_error (Repositories_DeleteAutolink owner repo id).
Definition CreateAutolink (owner : string) (repo : string) (autolink : gh_CreateAutolinkRequest) : prog W (option gerror) :=
  with_error (Repositories_CreateAutolink owner repo autolink).
Definition ListAllDeployKeys (owner : string) (repo : string) : prog W (res (list gh_Key)) :=
  with_result (Repositories_ListKeys owner repo).
Definition DeleteDeployKey (owner : string) (repo : string) (id : Z) : prog W (option gerror) :=
  with_error (Repositories_DeleteKey owner repo id).
Definition CreateDeployKey (owner : string) (repo : string) (request : gh_CreateDeployKeyRequest) : prog W (option gerror) :=
  with_error (Repositories_CreateKey owner repo request).
Definition ListHooks (owner : string) (repo : string) (opts : gh_ListOptions) : prog W (res (list gh_Hook)) :=
  with_result (Repositories_ListHooks owner repo opts).
Definition CreateHook (owner : string) (repo : string) (hook : gh_Hook) : prog W (res (option gh_Hook)) :=
  with_result (Repositories_CreateHook owner repo hook).
Definition DeleteHook (owner : string) (repo : string) (id : Z) : prog W (option gerror) :=
  with_error (Repositories_DeleteHook owner repo id).
Definition GetRepositoryRuleset (owner : string) (repo : string) (rulesetID : Z) (includesParents : bool) : prog W (res (option gh_RepositoryRuleset)) :=
  with_result (Repositories_GetRuleset owner repo rulesetID includesParents).
Definition GetAllRepositoryRulesets (owner : string) (repo : string) (includesParents : bool) : prog W (res (list gh_RepositoryRuleset)) :=
  with_result (Repositories_GetAllRulesets owner repo includesParents).
Definition CreateRepositoryRuleset (owner : string) (repo : string) (ruleset : gh_RepositoryRuleset) : prog W (res (option gh_RepositoryRuleset)) :=
  with_result (Repositories_CreateRuleset owner repo ruleset).
Definition UpdateRepositoryRuleset (owner : string) (repo : string) (rulesetID : Z) (ruleset : gh_RepositoryRuleset) : prog W (res (option gh_RepositoryRuleset)) :=
  with_result (Repositories_UpdateRuleset owner repo rulesetID ruleset).
Definition DeleteRepositoryRuleset (owner : string) (repo : string) (rulesetID : Z) : prog W (option gerror) :=
  with_error (Repositories_DeleteRuleset owner repo rulesetID).
Definition GetOrganizationRuleset (org : string) (rulesetID : Z) : prog W (res (option gh_RepositoryRuleset)) :=
  with_result (Organizations_GetRepositoryRuleset org rulesetID).
Definition CreateOrganizationRuleset (org : string) (ruleset : gh_RepositoryRuleset) : prog W (res (option gh_RepositoryRuleset)) :=
  with_result (Organizations_CreateRepositoryRuleset org ruleset).
Definition UpdateOrganizationRuleset (org : string) (rulesetID : Z) (ruleset : gh_RepositoryRuleset) : prog W (res (option gh_RepositoryRuleset)) :=
  with_result (Organizations_UpdateRepositoryRuleset org rulesetID ruleset).
Definition DeleteOrganizationRuleset (org : string) (rulesetID : Z) : prog W (option gerror) :=
  with_error (Organizations_DeleteRepositoryRuleset org rulesetID).
Definition GetCodeSecurityConfigurationsForOrg (org : string) : prog W (res (list gh_CodeSecurityConfiguration)) :=
  with_result (Organizations_ListCodeSecurityConfigurations org).
Definition UpdateCodeSecurityConfigurationForOrg (org : string) (configId : Z) (config : gh_CodeSecurityConfiguration) : prog W (res (option gh_CodeSecurityConfiguration)) :=
  with_result (Organizations_UpdateCodeSecurityConfiguration org configId config).
Definition CreateCodeSecurityConfigurationForOrg (org : string) (config : gh_CodeSecurityConfiguration) : prog W (res (option gh_CodeSecurityConfiguration)) :=
  with_result (Organizations_CreateCodeSecurityConfiguration org config).
Definition DeleteCodeSecurityConfigurationForOrg (org : string) (configId : Z) : prog W (option gerror) :=
  with_error (Organizations_DeleteCodeSecurityConfiguration org configId).
Definition SetCodeSecurityConfigurationAsDefaultForOrg (org : string) (configId : Z) (newReposParam : string) : prog W (option gerror) :=
  with_error (Organizations_SetDefaultCodeSecurityConfiguration org configId newReposParam).
Definition GetDefaultCodeSecurityConfigurationsForOrg (org : string) : prog W (res (list gh_CodeSecurityConfigurationWithDefaultForNewRepos)) :=
  with_result (Organizations_ListDefaultCodeSecurityConfigurations org).
Definition AttachCodeSecurityConfigurations (org : string) (cscID : Z) (scope : string) (repoIDs : list Z) : prog W (option gerror) :=
  with_error (Organizations_AttachCodeSecurityConfigurationToRepositories org cscID scope repoIDs).
Definition GetRepositoriesAttachedToCodeSecurityConfiguration (org : string) (cscID : Z) : prog W (res (list gh_RepositoryAttachment)) :=
  with_result (Organizations_ListCodeSecurityConfigurationRepositories org cscID).
Definition AddOrgRoleAssignmentForTeam (org : string) (team : string) (roleID : Z) : prog W (option gerror) :=
  with_error (Organizations_AssignOrgRoleToTeam org team roleID).
Definition RemoveOrgRoleAssignmentForTeam (org : string) (team : string) (roleID : Z) : prog W (option gerror) :=
  with_error (Organizations_RemoveOrgRoleFromTeam org team roleID).
Definition GetAllTeamsForOrg (org : string) : prog W (res (list gh_Team)) :=
  with_result (Teams_ListTeams org).
Definition GetTeamBySlug (org : string) (slug : string) : prog W (res (option gh_Team)) :=
  with_result (Teams_GetTeamBySlug org slug).
Definition EditTeamBySlug (org : string) (slug : string) (request : gh_UpdateTeamRequest) : prog W (res (option gh_Team)) :=
  with_result (Teams_UpdateTeamBySlug org slug request).
Definition CreateTeam (org : string) (request : gh_CreateTeamRequest) : prog W (res (option gh_Team)) :=
  with_result (Teams_CreateTeam org request).
Definition DeleteTeamBySlug (org : string) (slug : string) : prog W (option gerror) :=
  with_error (Teams_DeleteTeamBySlug org slug).
Definition GetAllTeamMembers (org : string) (slug : string) : prog W (res (list gh_User)) :=
  with_result (Teams_ListTeamMembersBySlug org slug).
Definition AddTeamMember (org : string) (slug : string) (username : string) : prog W (option gerror) :=
  with_error (Teams_AddTeamMembershipBySlug org slug username).
Definition RemoveTeamMember (org : string) (slug : string) (username : string) : prog W (option gerror) :=
  with_error (Teams_RemoveTeamMembershipBySlug org slug username).
Definition AddExternalGroupToTeamBySlug (org : string) (slug : string) (group : gh_UpdateConnectedExternalGroupRequest) : prog W (option gerror) :=
  with_error (Teams_UpdateConnectedExternalGroup org slug group).
Definition GetActionsPermissionsForOrg (org : string) : prog W (res (option gh_ActionsPermissions)) :=
  with_result (Actions_GetActionsPermissions org).
Definition SetActionsPermissionsForOrg (org : string) (permissions : gh_ActionsPermissions) : prog W (res (option gh_ActionsPermissions)) :=
  with_result (Actions_UpdateActionsPermissions org permissions).
Definition GetActionsRetentionForOrg (org : string) : prog W (res (option gh_ArtifactPeriod)) :=
  with_result (Actions_GetArtifactAndLogRetentionPeriodInOrganization org).
Definition SetActionsRetentionForOrg (org : string) (retentionInDays : Z) : prog W (option gerror) :=
  with_error (Actions_UpdateArtifactAndLogRetentionPeriodInOrganization org retentionInDays).
Definition GetActionsAllowedForOrg (org : string) : prog W (res (option gh_ActionsAllowed)) :=
  with_result (Actions_GetActionsAllowed org).
Definition SetActionsAllowedForOrg (org : string) (allowedActions : gh_ActionsAllowed) : prog W (res (option gh_ActionsAllowed)) :=
  with_result (Actions_UpdateActionsAllowed org allowedActions).
Definition GetActionsDefaultWorkflowPermissionsForOrg (org : string) : prog W (res (option gh_DefaultWorkflowPermissionOrganization)) :=
  with_result (Actions_GetDefaultWorkflowPermissionsInOrganization org).
Definition SetActionsDefaultWorkflowPermissionsForOrg (org : string) (permissions : gh_DefaultWorkflowPermissionOrganization) : prog W (res (option gh_DefaultWorkflowPermissionOrganization)) :=
  with_result (Actions_UpdateDefaultWorkflowPermissionsInOrganization org permissions).
Definition GetSelfHostedRunnersSettingsForOrg (org : string) : prog W (res (option gh_SelfHostedRunnersSettingsOrganization)) :=
  with_result (Actions_GetSelfHostedRunnersSettingsInOrganization org).
Definition SetSelfHostedRunnersSettingsForOrg (org : string) (settings : gh_SelfHostedRunnersSettingsOrganizationOpt) : prog W (option gerror) :=
  with_error (Actions_UpdateSelfHostedRunnersSettingsInOrganization org settings).
Definition SetActionsEnabledRepositoriesForOrg (org : string) (repoIds : list Z) : prog W (option gerror) :=
  with_error (Actions_SetEnabledReposInOrg org repoIds).
Definition GetAccessLevelForExternalWorkflowsForRepo (owner : string) (repo : string) : prog W (res (option gh_RepositoryActionsAccessLevel)) :=
  with_result (Repositories_GetActionsAccessLevel owner repo).
Definition SetAccessLevelForExternalWorkflowsForRepo (owner : string) (repo : string) (accessLevel : gh_RepositoryActionsAccessLevel) : prog W (option gerror) :=
  with_error (Repositories_EditActionsAccessLevel owner repo accessLevel).
Definition CreateRunnerGroupForOrg (org : string) (createRequest : gh_CreateRunnerGroupRequest) : prog W (res (option gh_RunnerGroup)) :=
  with_result (Actions_CreateOrganizationRunnerGroup org createRequest).
Definition UpdateRunnerGroupForOrg (org : string) (groupID : Z) (updateRequest : gh_UpdateRunnerGroupRequest) : prog W (res (option gh_RunnerGroup)) :=
  with_result (Actions_UpdateOrganizationRunnerGroup org groupID updateRequest).
Definition SetSelectedRepositoriesForRunnerGroup (resource : string) (groupID : Z) (selectedRepositoryIDs : list Z) : prog W (option gerror) :=
  with_error (Actions_SetRepositoryAccessRunnerGroup resource groupID selectedRepositoryIDs).
Definition GetRateLimit : prog W (res (option gh_RateLimits)) :=
  with_result RateLimit_Get.
End Services.

(** ** What the error of a failed call says *)

(** What the response says: the error that [github.CheckResponse] makes of it. *)
Definition response_error {G : GoGitHub} (response : option github_Response) : option gerror :=
  match response with Some r => Response r ≫= CheckResponse | None => None end.

(** The error [e'] of the wrapper for the error [e] of the package and the error [said] of the response: what [errors.As]
    finds in [said] or else in [e], and the classification of the reconcilers and of the requeue policy. *)
Definition both_say (said : option gerror) (e e' : gerror) : Prop :=
  (∀ A (f : gerror → option A), (∀ es, f (EJoin es) = None) →
     as_type f e' = match said ≫= as_type f with Some a => Some a | None => as_type f e end) ∧
  RequiresUserAction e' = (from_option RequiresUserAction true said && RequiresUserAction e) ∧
  AwaitsGitHubChange e' = (from_option AwaitsGitHubChange false said || AwaitsGitHubChange e).

Section Classification.
Context {W : Type} {G : GoGitHub}.

Lemma _handleErrorResponse_class response e :
  ∃ e', _handleErrorResponse response (Some e) = Some e' ∧ both_say (response_error response) e e'.
Proof.
  assert (both_say None e e) as Hsame by done.
  unfold _handleErrorResponse, _getHTTPResponse, response_error. destruct response as [r|]; [|by eauto].
  destruct (Response r) as [h|]; simpl; [|by eauto]. destruct (CheckResponse h) as [said|]; [|by eauto].
  eexists. split; [done|]. split_and!.
  - intros A f Hf. rewrite as_type_unwrap, Hf. cbn [unwrap first_some mbind option_bind]. destruct (as_type f said); [done|]. by destruct (as_type f e).
  - simpl. by rewrite !andb_true_r.
  - simpl. by rewrite orb_false_r.
Qed.

(** C35: a call of GitHub through the wrapper makes the same request and is a success exactly if the call of go-github
    is one, with its value; and the error of a failed call says what the package and the response say: [errors.As] finds
    what the error that [CheckResponse] makes of the response holds (also if the package returned a plain error with it,
    as for the 404 of a missing branch), else what the error of the package holds, and nothing else; it requires a user
    action if both do, and awaits a change on GitHub if one does.  So it keeps its class if the response says the same as
    the package, or nothing. *)
Theorem errors_keep_class w :
  (∀ A (m : prog W (answer A)) value response err w', run m w = ((value, response, err), w') →
    match err with
    | None => run (with_result m) w = (inl value, w')
    | Some e => ∃ e', run (with_result m) w = (inr e', w') ∧ both_say (response_error response) e e'
    end) ∧
  (∀ (m : prog W bare_answer) response err w', run m w = ((response, err), w') →
    match err with
    | None => run (with_error m) w = (None, w')
    | Some e => ∃ e', run (with_error m) w = (Some e', w') ∧ both_say (response_error response) e e'
    end).
Proof.
  split.
  - intros A m value response err w' Hm. unfold with_result. rewrite run_bind, Hm. cbn [run return_result].
    destruct err as [e|]; [|by rewrite _handleErrorResponse_None]. destruct (_handleErrorResponse_class response e) as (e' & -> & He). by eauto.
  - intros m response err w' Hm. unfold with_error. rewrite run_bind, Hm. cbn [run return_error].
    destruct err as [e|]; [|by rewrite _handleErrorResponse_None]. destruct (_handleErrorResponse_class response e) as (e' & -> & He). by eauto.
Qed.
End Classification.

(** ** A repository that does not exist, and a request that was accepted *)
Module ToyServices.
#[export] Instance go_github : GoGitHub := {|
  http_Response := Z;
  CheckResponse status := if status <? 300 then if status =? 202 then Some EAccepted else None
    else Some (EGitHub (Build_ErrorResponse (Some status) "" []));
  HTTPError_Response _ := None |}.
(** A call of the service that has the error from the response, and one that returns an error of its own. *)
Definition response (status : Z) : option github_Response := Some {| Response := Some status; NextPage := 0; LastPage := 0 |}.
Definition answered (status : Z) : bare_answer := (response status, CheckResponse status).
Definition missing_branch : bare_answer := (response 404, Some (EPlain "unexpected status code: 404 Not Found")).
End ToyServices.
Import ToyServices.

Lemma errors_keep_class_witness :
  match (run (with_error (Ret missing_branch)) tt).1, (run (with_error (Ret (answered 202))) tt).1 with
  | Some notFound, Some accepted => isNotFoundResponse notFound = true ∧
      errors_is (λ e, match e with EAccepted => true | _ => false end) accepted = true
  | _, _ => False
  end.
Proof.
  destruct (errors_keep_class (W := unit) tt) as [_ H].
  destruct (H (Ret missing_branch) _ _ tt eq_refl) as (notFound & -> & Hn & _ & _).
  destruct (H (Ret (answered 202)) _ _ tt eq_refl) as (accepted & -> & Ha & _ & _).
  cbn [fst]. unfold isNotFoundResponse, errors_is. rewrite Hn, Ha by done. by split.
Defined.
