(* ===== verification/Logging.v ===== *)
(** * The mapper of log fields (internal/logging/logmapper.go)

    The core of the operator's logger: it renames the fields of controller-runtime to those of the Elastic Common
    Schema, drops fields that repeat others and adds constants.  The core it wraps is one of go.uber.org/zap, which is
    an interface here. *)
From S2P Require Import Prelude GoErrors.

(** ** zapcore *)
Class Zap := {
  FieldType : Type;
  FieldType_eq_dec :: EqDecision FieldType;
  StringType : FieldType;
  ReflectType : FieldType;
  (* the Integer, String and Interface of a field *)
  FieldValue : Type;
  string_value : string → FieldValue;
  Level : Type;
  Entry : Type;
  Entry_Level : Entry → Level;
  Core : Type;
  core_With : Core → list (string * FieldType * FieldValue) → Core;
  core_Enabled : Core → Level → bool
}.
Abbreviation Field := (string * FieldType * FieldValue)%type.
Class ZapWriter (W : Type) {Z : Zap} := { core_Write : Core → Entry → list (string * FieldType * FieldValue) → prog W (option gerror) }.

Section LogMapper.
Context {Z : Zap}.
Definition Key (f : Field) : string := f.1.1.
Definition Type_ (f : Field) : FieldType := f.1.2.
Definition String (key value : string) : Field := (key, StringType, string_value value).

Record LogMapperConfig := {
  KeyMappings : gmap string string;
  DroppedKeysIfTypeMatches : gmap string FieldType;
  Constants : gmap string string
}.
Record LogMapper := { mapper_Core : Core; mapper_config : LogMapperConfig }.

Definition DefaultLogMapperConfig : LogMapperConfig := {|
  KeyMappings := list_to_map [
    ("apiVersion", "orchestrator.api_version"); ("controllerKind", "orchestrator.resource.type");
    ("namespace", "orchestrator.namespace"); ("name", "orchestrator.resource.name"); ("reconcileID", "trace.id");
    ("github.organization", "custom.github.organization"); ("github.repository", "custom.github.repository");
    ("github.team", "custom.github.team")];
  DroppedKeysIfTypeMatches := list_to_map [
    ("controller", StringType); ("controllerGroup", StringType); ("ecs.version", StringType);
    ("Repository", ReflectType); ("Team", ReflectType); ("Organization", ReflectType)];
  Constants := list_to_map [("ecs.version", "9.3.0")] |}.

(** A nil configuration is the default one. *)
Definition NewLogMapper (core : Core) (config : option LogMapperConfig) : LogMapper :=
  {| mapper_Core := core; mapper_config := WithDefault config DefaultLogMapperConfig |}.

(** One field: dropped, renamed, or as it is. *)
Definition shouldDrop (c : LogMapperConfig) (f : Field) : bool :=
  match DroppedKeysIfTypeMatches c !! Key f with Some fieldType => bool_decide (Type_ f = fieldType) | None => false end.
Definition rename (c : LogMapperConfig) (f : Field) : Field :=
  match KeyMappings c !! Key f with Some newKey => (newKey, f.1.2, f.2) | None => f end.
Fixpoint remapFields (c : LogMapperConfig) (fields : list Field) : list Field :=
  match fields with
  | [] => []
  | f :: fields => if shouldDrop c f then remapFields c fields else rename c f :: remapFields c fields
  end.

Definition With_ (m : LogMapper) (fields : list Field) : LogMapper :=
  {| mapper_Core := core_With (mapper_Core m) (remapFields (mapper_config m) fields); mapper_config := mapper_config m |}.

(** [Check]: the entry is added to those to write if the level is enabled. *)
Definition Check_ {CheckedEntry} (AddCore : CheckedEntry → Entry → LogMapper → CheckedEntry) (m : LogMapper) (ent : Entry) (ce : CheckedEntry)
    : CheckedEntry :=
  if core_Enabled (mapper_Core m) (Entry_Level ent) then AddCore ce ent m else ce.

Definition constant_fields (o : MapOrder) (c : LogMapperConfig) : list Field := (λ '(k, v), String k v) <$> range o (Constants c).
Definition Write_ {W} {A : ZapWriter W} (o : MapOrder) (m : LogMapper) (ent : Entry) (fields : list Field) : prog W (option gerror) :=
  core_Write (mapper_Core m) ent (remapFields (mapper_config m) fields ++ constant_fields o (mapper_config m)).
End LogMapper.

(** ** Theorems *)
Section Theorems.
Context {Z : Zap}.
Implicit Types (c : LogMapperConfig) (f : Field) (fields : list Field).

Lemma remapFields_app c fields fields' : remapFields c (fields ++ fields') = remapFields c fields ++ remapFields c fields'.
Proof. induction fields as [|f fields IH]; [done|]. simpl. rewrite IH. by destruct (shouldDrop c f). Qed.

Lemma remapFields_filter c fields : remapFields c fields = rename c <$> filter (λ f, shouldDrop c f = false) fields.
Proof.
  induction fields as [|f fields IH]; [done|]. simpl. rewrite IH, filter_cons.
  destruct (shouldDrop c f); [by rewrite decide_False|by rewrite decide_True].
Qed.

(** New keys that are neither renamed nor dropped. *)
Definition settled c (key : string) : Prop := KeyMappings c !! key = None ∧ DroppedKeysIfTypeMatches c !! key = None.
Definition closed c : Prop := ∀ key newKey, KeyMappings c !! key = Some newKey → settled c newKey.

Lemma default_closed : closed DefaultLogMapperConfig.
Proof.
  intros key newKey H%elem_of_list_to_map_2. repeat (apply elem_of_cons in H as [[= -> ->]|H]; [by split; vm_compute|]).
  by apply elem_of_nil in H.
Qed.

Lemma rename_settled c f : closed c → shouldDrop c f = false → shouldDrop c (rename c f) = false ∧ rename c (rename c f) = rename c f.
Proof.
  intros Hc Hf. unfold rename. destruct (KeyMappings c !! Key f) as [newKey|] eqn:Hk; [|by rewrite Hk].
  destruct (Hc _ _ Hk) as [Hn Hd]. unfold shouldDrop. change (Key (newKey, _, _)) with newKey. by rewrite Hn, Hd.
Qed.

Lemma remapFields_again c fields : closed c → remapFields c (remapFields c fields) = remapFields c fields.
Proof.
  intros Hc. induction fields as [|f fields IH]; [done|]. simpl. destruct (shouldDrop c f) eqn:Hf; [done|]. simpl.
  destruct (rename_settled c f Hc Hf) as [-> ->]. by rewrite IH.
Qed.

Lemma With_all m added :
  foldl With_ m added = {| mapper_Core := foldl core_With (mapper_Core m) (remapFields (mapper_config m) <$> added); mapper_config := mapper_config m |}.
Proof. revert m. induction added as [|fields added IH]; intros m; [by destruct m|]. simpl. by rewrite IH. Qed.

Lemma remapFields_concat c added : concat (remapFields c <$> added) = remapFields c (concat added).
Proof. induction added as [|fields added IH]; [done|]. rewrite fmap_cons. cbn [concat]. by rewrite IH, remapFields_app. Qed.

(** What a log line of the operator carries.  Whatever fields are added to the logger, in however many steps, and
    to the line: the wrapped core gets those that are not dropped, in their order, with their values and each under
    its new key, and none of them would be changed or dropped by another mapper; and the line has in addition just
    the constants. *)
Theorem line_fields {W} {A : ZapWriter W} o core added ent fields w :
  let c := DefaultLogMapperConfig in
  let sent := concat (remapFields c <$> added) ++ remapFields c fields in
  run (Write_ o (foldl With_ (NewLogMapper core None) added) ent fields) w =
    run (core_Write (foldl core_With core (remapFields c <$> added)) ent (remapFields c fields ++ [String "ecs.version" "9.3.0"])) w ∧
  sent = rename c <$> filter (λ f, shouldDrop c f = false) (concat added ++ fields) ∧
  remapFields c sent = sent ∧ snd <$> sent = snd <$> filter (λ f, shouldDrop c f = false) (concat added ++ fields).
Proof.
  cbv zeta. rewrite remapFields_concat, <-remapFields_app. split_and!.
  - rewrite With_all. unfold Write_. cbn [mapper_Core mapper_config NewLogMapper WithDefault].
    unfold constant_fields. assert (range o (Constants DefaultLogMapperConfig) = [("ecs.version", "9.3.0")]) as ->; [|done].
    apply Permutation_singleton_r. rewrite (range_perm o). by vm_compute.
  - apply remapFields_filter.
  - apply remapFields_again, default_closed.
  - rewrite remapFields_filter, <-list_fmap_compose. apply list_fmap_ext. intros i f _. unfold rename. simpl. by destruct (_ !! _).
Qed.
End Theorems.
