(* ===== verification/Main.v ===== *)
(** * The process (cmd/main.go)

    How the operator is put together from its configuration: the namespaces it watches, the format of its log, and the
    components of the core with what they share.  The servers, the manager and the flags are left to libraries. *)
From Stdlib Require Import Ascii.
From S2P Require Import Prelude GoErrors GoStrings Config Spreading RateLimit Conditions Executor Requeue ClientFactory.

(** ** Namespaces *)
(** One iteration over the parts of WATCH_NAMESPACE. *)
Definition add_namespace (defaultNamespaces : gset string) (ns : string) : gset string :=
  let cleaned := strings_TrimSpace ns in
  if bool_decide (cleaned = "") then defaultNamespaces else {[ cleaned ]} ∪ defaultNamespaces.
(** [setupCacheNamespaces]: the keys of [DefaultNamespaces]. *)
Definition setupCacheNamespaces (namespaces : string) : res (gset string) :=
  let defaultNamespaces := foldl add_namespace ∅ (strings_Split namespaces ",") in
  if bool_decide (defaultNamespaces = ∅) then inr (EPlain ("WATCH_NAMESPACE resolved to zero valid namespaces (input: " +:+ namespaces +:+ ")"))
  else inl defaultNamespaces.

(** ** Log format *)
Definition logFormatJSON : string := "json".
Definition logFormatECS : string := "ecs".
Definition logFormatConsole : string := "console".

(** The letters of ASCII are those whose lower case is compared: no other rune has one of the letters of the two
    formats as its lower case. *)
Definition lower_byte (c : ascii) : ascii :=
  let n := nat_of_ascii c in if (65 <=? n)%nat && (n <=? 90)%nat then ascii_of_nat (n + 32) else c.
Fixpoint lower (s : string) : string :=
  match s with EmptyString => "" | String c s => String (lower_byte c) (lower s) end.
Definition parseLogFormat (value : string) : string :=
  let value := lower (strings_TrimSpace value) in
  if bool_decide (value = logFormatECS) then logFormatECS
  else if bool_decide (value = logFormatConsole) then logFormatConsole
  else logFormatJSON.

(** ** The components *)
Section Operator.
Context {P : CryptoPackages} {G : GitHubPackage}.

Record Operator := {
  op_Namespaces : gset string;
  op_LogFormat : string;
  op_orgRegistry : Registry;
  op_clientManager : CachingGitHubClientFactory;
  op_spreadingManager : Manager;
  op_requeuePolicy : RequeuePolicy;
  op_Config : Config
}.

(** [clientConfig]: the defaults and the feature flag. *)
Definition main_clientConfig (cfg : Config) : ClientConfig := {|
  cc_Timeout := cc_Timeout DefaultClientConfig; cc_EnableRetry := cc_EnableRetry DefaultClientConfig;
  cc_EnableMetrics := cc_EnableMetrics DefaultClientConfig; cc_EnableLogging := cc_EnableLogging DefaultClientConfig;
  cc_MaxRetries := cc_MaxRetries DefaultClientConfig; cc_RetryBaseDelay := cc_RetryBaseDelay DefaultClientConfig;
  cc_RetryMaxDelay := cc_RetryMaxDelay DefaultClientConfig; cc_ResponseCacheTTL := cc_ResponseCacheTTL DefaultClientConfig;
  cc_ResilientAuth := EnableResilientGitHubAuth (cfg_Features cfg) |}.

(** The part of [main] between the configuration and the start of the manager, at the time [now]; an error ends the
    process. *)
Definition main_setup (cfg : Config) (appCredentialsSecretName : string) (now : Z) : res Operator :=
  match setupCacheNamespaces (WatchNamespace cfg) with
  | inr err => inr err
  | inl namespaces => inl {|
      op_Namespaces := namespaces; op_LogFormat := parseLogFormat (LogFormat cfg);
      op_orgRegistry := NewOrgRateLimitRegistryFromConfig cfg;
      op_clientManager := NewGitHubCachingClientFactory (Some (main_clientConfig cfg)) appCredentialsSecretName;
      op_spreadingManager := NewManager cfg now; op_requeuePolicy := NewRequeuePolicy cfg; op_Config := cfg |}
  end.

(** [Start] of the spreading manager, when the process becomes the leader. *)
Definition Start (op : Operator) (now : Z) : Operator := {|
  op_Namespaces := op_Namespaces op; op_LogFormat := op_LogFormat op; op_orgRegistry := op_orgRegistry op;
  op_clientManager := op_clientManager op; op_spreadingManager := ResetStartTime (op_spreadingManager op) now;
  op_requeuePolicy := op_requeuePolicy op; op_Config := op_Config op |}.
End Operator.

(** ** What the operator starts with *)
Lemma elem_of_add_namespaces ns parts : ∀ acc,
  ns ∈ foldl add_namespace acc parts ↔ ns ∈ acc ∨ ns ≠ "" ∧ ns ∈ strings_TrimSpace <$> parts.
Proof.
  induction parts as [|part parts IH]; intros acc; cbn [foldl]; [rewrite elem_of_nil; naive_solver|].
  rewrite IH, fmap_cons, elem_of_cons. unfold add_namespace. case_bool_decide as Hb; [rewrite <-Hb; naive_solver|].
  rewrite elem_of_union, elem_of_singleton. naive_solver.
Qed.

Lemma setupCacheNamespaces_spec namespaces :
  match setupCacheNamespaces namespaces with
  | inl l => l ≠ ∅ ∧ ∀ ns, ns ∈ l ↔ ns ≠ "" ∧ ns ∈ strings_TrimSpace <$> strings_Split namespaces ","
  | inr _ => ∀ part, part ∈ strings_Split namespaces "," → strings_TrimSpace part = ""
  end.
Proof.
  unfold setupCacheNamespaces. pose proof (elem_of_add_namespaces) as Hn. case_bool_decide as Hb.
  - intros part Hpart. destruct (decide (strings_TrimSpace part = "")) as [|Hne]; [done|]. exfalso.
    apply (not_elem_of_empty (C := gset string) (strings_TrimSpace part)). rewrite <-Hb, Hn. right. split; [done|].
    by apply list_elem_of_fmap_2.
  - split; [done|]. intros ns. rewrite Hn. set_solver.
Qed.

Lemma only_core_stalls cfg cat t :
  CategoryThresholds (reg_config (NewOrgRateLimitRegistryFromConfig cfg)) !! cat = Some t ↔
  cat = CategoryCore ∧ t = StallThresholdCore (cfg_RateLimitConfig cfg) ∧ 0 < t.
Proof.
  cbn [CategoryThresholds reg_config NewOrgRateLimitRegistryFromConfig NewOrgRateLimitRegistry].
  rewrite map_lookup_filter_Some. unfold ConfiguredThresholds. cbn [list_to_map foldr fst snd].
  rewrite !lookup_insert. repeat case_decide; subst; rewrite ?lookup_empty; naive_solver lia.
Qed.

Section Start.
Context {P : CryptoPackages} {G : GitHubPackage}.

(** The operator starts if some namespace is configured, watches just the configured ones, and what it starts with
    satisfies what the components rely on: the registry of rate limits and the manager of the clients are consistent,
    only the quota of the category "core" can stall an organization, and only with a positive threshold; the spread
    window begins when the process becomes the leader, and a resource that was reconciled is not due again before the
    length of a spread interval has passed. *)
Theorem main_setup_spec cfg appCredentialsSecretName now leader :
  match main_setup cfg appCredentialsSecretName now with
  | inr _ => ∀ part, part ∈ strings_Split (WatchNamespace cfg) "," → strings_TrimSpace part = ""
  | inl op =>
    let op := Start op leader in
    (∀ ns, ns ∈ op_Namespaces op ↔ ns ≠ "" ∧ ns ∈ strings_TrimSpace <$> strings_Split (WatchNamespace cfg) ",") ∧
    reg_ok (op_orgRegistry op) ∧ factory_ok (op_clientManager op) ∧
    (∀ cat t, CategoryThresholds (reg_config (op_orgRegistry op)) !! cat = Some t ↔
      cat = CategoryCore ∧ t = StallThresholdCore (cfg_RateLimitConfig cfg) ∧ 0 < t) ∧
    StartTime (op_spreadingManager op) = leader ∧
    (0 ≤ SpreadIntervalMinutes cfg ≤ max_interval_minutes → interval_ok (op_spreadingManager op) ∧
      ∀ rnd, rand_ok rnd → sc_SpreadInterval (op_spreadingManager op) ≤ RequeueAfter (OnSuccess rnd (op_requeuePolicy op)))
  end.
Proof.
  unfold main_setup. pose proof (setupCacheNamespaces_spec (WatchNamespace cfg)) as Hns.
  destruct (setupCacheNamespaces _) as [namespaces|err]; [|done]. destruct Hns as [_ Hns]. cbn.
  split_and!; [done|apply map_Forall_empty|split; [apply map_Forall_empty|apply map_Forall_empty|done]|apply only_core_stalls|done|].
  intros Hc. split.
  - unfold interval_ok. cbn. unfold SpreadInterval. rewrite wrap64_minutes by done. unfold Minute, Second in *. lia.
  - intros rnd Hr. destruct (SuccessRequeueJitter_bounds cfg Hc) as [Hj Hin].
    destruct (randomJitter_bounds rnd (NewRequeuePolicy cfg) Hr eq_refl) as [Hlo Hhi]. cbn in Hhi.
    change (SpreadInterval cfg) with (SuccessRequeueInterval cfg).
    rewrite wrap64_id; [lia|]. unfold in_int64, SuccessRequeueInterval, SpreadInterval in *. rewrite wrap64_minutes in * by done.
    unfold min_int64, max_int64, Minute, Second in *. lia.
Qed.
End Start.
