(* ===== verification/Ready.v ===== *)
(** * What Ready means

    The executor (internal/reconciler/executor.go) around the reconciliations of a repository (reporec/reconciler.go) and
    of an organization (orgrec/reconciler.go): when the status of a resource says that everything is synced, every part
    of it has been reconciled successfully in that run. *)
From S2P Require Import Prelude GoErrors Conditions Executor ApiTypes RepoRec CustomProps Webhooks RulesetRec RepoLists OrgRec OrgActions Csc IdResolver Parallel Shared SharedResolver Groups.

(** ** The executor *)
Section Executor.
Context {W V : Type} {KH : K8sHelpers} {KL : K8sHelpersLaws KH} {HE : Env W} {EL : EnvLaws HE}.
(** A part of the world that the executor itself leaves alone. *)
Context (part : W → V).
Class Undisturbed : Prop := {
  set_resource_part r w : part (set_resource r w) = part w;
  apply_status_part w : part (apply_status_config w).2 = part w;
  apply_metadata_part ls fs w : part (apply_metadata_config ls fs w).2 = part w
}.
Context {U : Undisturbed}.

Lemma update_resource_part g w : part (update_resource g w) = part w.
Proof. apply set_resource_part. Qed.

Lemma start_world_part w : part (start_world w) = part w.
Proof.
  unfold start_world, updateStartCondition, applyStatus. rewrite run_modify, run_call. cbn [snd].
  by rewrite apply_status_part, update_resource_part.
Qed.

Lemma applyMetadata_part x fin w : part (run (applyMetadata x fin) w).2 = part w.
Proof.
  unfold applyMetadata. rewrite run_bind, run_call.
  pose proof (apply_metadata_part (MergeLabels managed_by (GetAdditionalLabels x)) (if fin then [FinalizerName x] else []) w) as H.
  destruct (apply_metadata_config _ _ w) as [[e|] w1]; cbn [snd] in H; [done|]. rewrite run_bind, run_modify. cbn [run snd].
  by rewrite update_resource_part.
Qed.

Lemma record_results_ready current rs err w :
  let w' := (run (record_results current rs err) w).2 in
  part w' = part w ∧ ∃ c, ready w' = Some c ∧ same_condition c (readyCondition (GetGeneration (resource w)) (now w) rs).
Proof.
  cbv zeta. unfold record_results. rewrite run_bind. destruct (ready_updateConditions rs w) as (c & Hready & Hsame).
  assert (part (run (updateConditionsFromResults rs) w).2 = part w) as Hp.
  { unfold updateConditionsFromResults. rewrite run_modify. cbn [snd]. apply update_resource_part. }
  destruct (run (updateConditionsFromResults rs) w) as [? w1]. cbn [snd] in *. step_run. rewrite run_bind, run_modify. step_run.
  set (w2 := update_resource (set_observed current) w1).
  assert ((run (check applyStatus in match err with Some e => Ret (Some (withReadableMessage e)) | None => Ret None end) w2).2
    = (apply_status_config w2).2) as ->.
  { rewrite run_bind. unfold applyStatus. rewrite run_call. by destruct (apply_status_config w2) as [[e|] w3], err. }
  rewrite apply_status_part. split; [unfold w2; by rewrite update_resource_part|]. exists c. split; [|done].
  unfold ready. rewrite apply_status_resource. unfold w2. rewrite resource_update. exact Hready.
Qed.

Lemma readyCondition_all_synced gen t0 rs c t :
  same_condition c (readyCondition gen t0 rs) → c_Status c = ConditionTrue → c_Message c = MsgAllSynced t →
  omap rr_Error rs = [] ∧ Forall (λ r, Stop r = None) rs.
Proof.
  intros (_ & Hs & _ & Hm & _) Ht Hmsg. rewrite Hs in Ht. rewrite Hm in Hmsg. clear Hs Hm. unfold readyCondition in *.
  destruct (results_all_ready rs) eqn:Hr; [|by destruct (results_all_user_action rs)]. apply all_ready_iff in Hr. split; [done|].
  destruct (results_stop rs) eqn:Hstop; [done|]. clear Hr Ht Hmsg. induction rs as [|r rs IH]; [constructor|].
  cbn [results_stop] in Hstop. destruct (Stop r) eqn:E; [done|]. constructor; [done|by apply IH].
Qed.

(** The Ready condition says that everything is synced. *)
Definition says_all_synced (w : W) : Prop :=
  ∃ c t, ready w = Some c ∧ c_Status c = ConditionTrue ∧ c_Message c = MsgAllSynced t.

Definition all_synced_at (c : option Condition) : option Z :=
  match c with
  | Some c => match c_Status c, c_Message c with ConditionTrue, MsgAllSynced t => Some t | _, _ => None end
  | None => None
  end.
Lemma all_synced_at_Some w t : all_synced_at (ready w) = Some t → says_all_synced w.
Proof.
  unfold all_synced_at, says_all_synced. destruct (ready w) as [c|]; [|done]. destruct (c_Status c) eqn:?, (c_Message c) eqn:?; try done.
  intros [= <-]. by eexists _, _.
Qed.

(** A run after which the resource is Ready because everything is synced. *)
Lemma Reconcile_all_synced scheds x w ret w' :
  GetDeletionTimestamp (resource w) = None → run (Reconcile scheds x) w = (ret, w') → says_all_synced w' →
  ∃ w1 rs w2, part w1 = part w ∧ run (runReconciliations scheds x) w1 = ((rs, None), w2) ∧ Forall (λ r, Stop r = None) rs ∧ part w' = part w2.
Proof.
  intros Hdel Hrun (c & t & Hready & Hst & Hmsg). rewrite Reconcile_start, Hdel, run_bind in Hrun.
  pose proof (applyMetadata_part x true (start_world w)) as Hp. rewrite start_world_part in Hp.
  destruct (run (applyMetadata x true) (start_world w)) as [[e|] w1] eqn:Hmeta.
  { injection Hrun as _ <-. destruct (applyMetadata_failed _ _ _ _ _ Hmeta) as (c' & Hc' & Hs & _). congruence. }
  cbn [snd] in Hp. revert Hrun. step_run. rewrite run_bind. destruct (run (runReconciliations scheds x) w1) as [[rs err] w2] eqn:Hrs. step_run.
  intros Hrun. destruct (record_results_ready (CurrentSubResourceGenerations x) rs err w2) as (Hp2 & c' & Hc & Hsame).
  unfold record_results in Hp2, Hc. rewrite Hrun in Hp2, Hc. cbn [snd] in *. rewrite Hready in Hc. injection Hc as <-.
  destruct (readyCondition_all_synced _ _ _ _ _ Hsame Hst Hmsg) as [Hnone Hstop].
  apply run_groups_error in Hrs as Herr; [|done]. rewrite Hnone in Herr. cbn in Herr. subst err.
  exists w1, rs, w2. by split_and!.
Qed.
End Executor.

(** ** Repositories *)
Section Repository.
Context {Base Props Hooks Rules Actions Topics Links Keys E : Type}.
Context {GP : GoPackages} {DV : DefaultValues} (ToKebab : string → string) (o : MapOrder).
Context {AB : RepoApi Base} {AP : RepoPropertiesApi Props} {AH : WebhookApi Hooks} {AR : RulesetsApi Rules}
  {AA : RepoActionsApi Actions} {AT : TopicApi Topics} {AL : AutolinkApi Links} {AK : DeployKeyApi Keys}.
Context {KH : K8sHelpers} {KL : K8sHelpersLaws KH} {HE : Env E} {EL : EnvLaws HE}.
Context (name_of : Base → string) (features : bool) (generations : option (gmap string Z)) (r : GitHubRepoReconciler).
Let repo := RepoResource r.
Let spec := r_Spec repo.
Let W := RepoWorld Base Props Hooks Rules Actions Topics Links Keys E.

#[export] Instance repo_env_laws : EnvLaws (repo_env (Base := Base) (Props := Props) (Hooks := Hooks) (Rules := Rules)
  (Actions := Actions) (Topics := Topics) (Links := Links) (Keys := Keys) (HE := HE)).
Proof.
  split.
  - intros x w. exact (resource_set (HE := HE) x (rw_env w)).
  - intros w. simpl. pose proof (apply_status_resource (rw_env w)). by destruct (apply_status_config (rw_env w)).
  - intros ls fs w. simpl. pose proof (apply_metadata_resource ls fs (rw_env w)). by destruct (apply_metadata_config ls fs (rw_env w)).
Qed.

(** Everything but the surroundings of the executor. *)
Definition on_github (w : W) := (rw_base w, rw_props w, rw_hooks w, rw_rules w, rw_actions w, rw_topics w, rw_links w, rw_keys w).
#[export] Instance on_github_undisturbed : Undisturbed on_github.
Proof.
  split; [done|..].
  - intros w. simpl. by destruct (apply_status_config (rw_env w)).
  - intros ls fs w. simpl. by destruct (apply_metadata_config ls fs (rw_env w)).
Qed.

(** C1: what the status of a repository promises: if after a run of the executor the Ready condition is True because
    all is synced, then in this run the repository itself and then, with the name this gave it, its custom
    properties, webhooks, rulesets, actions settings, topics, autolinks and deploy keys have all been reconciled, each
    as if its reconciliation had run alone and successfully, whatever the order in which the goroutines ran and
    whichever writes of the status failed. *)
Theorem ready_repository_synced scheds w ret w' :
  GetDeletionTimestamp (resource w) = None →
  run (Reconcile scheds (RepositoryReconciler ToKebab o name_of features generations r)) w = (ret, w') → says_all_synced w' →
  ∃ b, run (reconcileRepository r) (rw_base w) = (None, b) ∧
    run (reconcileRepoCustomProperties repo) (rw_props w) = (None, rw_props w') ∧
    run (reconcileWebhooks o (Owner r) (name_of b) repo) (rw_hooks w) = (None, rw_hooks w') ∧
    run (reconcileRuleSets o features (Owner r) (name_of b) repo) (rw_rules w) = (None, rw_rules w') ∧
    run (reconcileRepoActionsSettings repo) (rw_actions w) = (None, rw_actions w') ∧
    run (reconcileTopics ToKebab (ab_Topics (r_About spec))) (rw_topics w) = (None, rw_topics w') ∧
    run (reconcileAutolinks o (Namespace (r_Meta repo)) (r_AutolinksPresetList spec) (r_Autolinks spec)) (rw_links w)
      = (None, rw_links w') ∧
    run (reconcileDeployKeys o (r_DeployKeyList spec)) (rw_keys w) = (None, rw_keys w').
Proof.
  intros Hdel Hrun Hsays.
  destruct (Reconcile_all_synced on_github _ _ _ _ _ Hdel Hrun Hsays) as (w1 & rs & w2 & H1 & Hrs & Hstop & H2).
  unfold on_github in H1, H2. injection H1 as <- <- <- <- <- <- <- <-. injection H2 as _ -> -> -> -> -> -> ->.
  exact (repository_reconciled _ _ _ _ _ _ _ _ _ _ Hrs Hstop).
Qed.
End Repository.

(** ** Organizations *)
Section Organization.
Context {Settings Props Rules Cscs Actions Res E : Type} {DV : DefaultValues} (o : MapOrder) (ko : KeyOrder) (slack : nat).
Context {AS : OrgApi Settings} {AP : OrgPropertiesApi Props} {AR : RulesetsApi Rules} {AC : CscApi Cscs} {LC : ListApi Cscs}
  {AA : ActionsApi Actions} {LA : ListApi Actions} {RS : ResolverApi Res}.
Context {KH : K8sHelpers} {KL : K8sHelpersLaws KH} {HE : Env E} {EL : EnvLaws HE}.
Context (features : bool) (generations : option (gmap string Z)) (org : Organization).
Let W := OrgWorld Settings Props Rules Cscs Actions Res E.

#[export] Instance org_env_laws : EnvLaws (org_env (Settings := Settings) (Props := Props) (Rules := Rules) (Cscs := Cscs)
  (Actions := Actions) (Res := Res) (HE := HE)).
Proof.
  split.
  - intros x w. exact (resource_set (HE := HE) x (ow_env w)).
  - intros w. simpl. pose proof (apply_status_resource (ow_env w)). by destruct (apply_status_config (ow_env w)).
  - intros ls fs w. simpl. pose proof (apply_metadata_resource ls fs (ow_env w)). by destruct (apply_metadata_config ls fs (ow_env w)).
Qed.

Definition org_on_github (w : W) := (ow_settings w, ow_props w, ow_rules w, ow_cscs w, ow_actions w, ow_resolver w).
#[export] Instance org_on_github_undisturbed : Undisturbed org_on_github.
Proof.
  split; [done|..].
  - intros w. simpl. by destruct (apply_status_config (ow_env w)).
  - intros ls fs w. simpl. by destruct (apply_metadata_config ls fs (ow_env w)).
Qed.

(** C2: what the status of an organization promises: Ready because all is synced means that its settings, custom
    properties, rulesets, code security configurations and actions settings have all been reconciled successfully in this run,
    whatever the order in which the goroutines ran.  The first two and the last end as if they had run alone.  The
    reconciliations of the rulesets and of the code security configurations share one resolver of names, whose maps each
    of them may replace at any time: their parts on GitHub end as each may end alone if between any two of its calls
    the resolver may change arbitrarily.  If GitHub's directory does not change meanwhile, and the maps and caches of
    the resolver agree with it (they know its apps, and nothing of its teams and roles that is not so, and repositories
    are answered the same every time), these two also end as if each had run alone with the ids of this directory. *)
Theorem ready_organization_synced scheds w ret w' :
  GetDeletionTimestamp (resource w) = None →
  run (Reconcile scheds (OrganizationReconciler o ko slack features generations org)) w = (ret, w') → says_all_synced w' →
  run (reconcileOrganization org) (ow_settings w) = (None, ow_settings w') ∧
  run (reconcileOrgCustomProperties org) (ow_props w) = (None, ow_props w') ∧
  run (reconcileOrgActionsSettings ko org) (ow_actions w) = (None, ow_actions w') ∧
  amidst (λ _, True) (org_reconcileRulesets o features org) (ow_rules w) None (ow_rules w') ∧
  amidst (λ _, True) (org_reconcileCscs o slack org) (ow_cscs w) None (ow_cscs w') ∧
  ∀ repos D J, StableDirectory (GetLogin org) repos D J → J (ow_resolver w) →
    run (reconcileRulesets (A := answered_rulesets (directory_answer (GetLogin org) repos D)) o features (GetLogin org) org)
      (ow_rules w) = (None, ow_rules w') ∧
    run (reconcileCodeSecurityConfigurations (A := answered_cscs (directory_reviewers (GetLogin org) D)) o org slack)
      (ow_cscs w) = (None, ow_cscs w').
Proof.
  intros Hdel Hrun Hsays.
  destruct (Reconcile_all_synced org_on_github _ _ _ _ _ Hdel Hrun Hsays) as (w1 & rs & w2 & H1 & Hrs & Hstop & H2).
  unfold org_on_github in H1, H2. injection H1 as <- <- <- <- <- <-. injection H2 as -> -> -> -> -> _.
  exact (organization_reconciled _ _ _ _ _ _ _ _ _ _ Hrs Hstop).
Qed.
End Organization.

(** ** Concrete runs *)
Section Witnesses.
Import SimpleHelpers ToyGroups ToyProperties ToyWebhooks ToyRulesets ToyActions ToyRepo ToyOrg ToyCsc ToyRepository ToyResolver ToyShared ToyWorld.

Definition repo_done := run (Reconcile turns ToyGroups.repo_reconciler) repo_world.
Definition org_done := run (Reconcile turns ToyGroups.org_reconciler) org_world.

Lemma ready_repository_synced_witness :
  run (reconcileTopics id []) ["old"] = (None, rw_topics repo_done.2) ∧
  run (reconcileDeployKeys default_order []) keys_before = (None, rw_keys repo_done.2).
Proof.
  destruct (ready_repository_synced (AR := ToyRulesets.api) (AA := repo_actions) id default_order tw_name true None (reconciler "main" "")
    turns repo_world repo_done.1 repo_done.2) as (b & _ & _ & _ & _ & _ & Ht & _ & Hk).
  - reflexivity.
  - vm_compute. reflexivity.
  - apply (all_synced_at_Some _ 100). vm_compute. reflexivity.
  - split; [exact Ht|exact Hk].
Defined.

Lemma ready_organization_synced_witness :
  run (reconcileOrgActionsSettings toy_order org_declared) ToyActions.before = (None, ow_actions org_done.2) ∧
  run (reconcileRulesets (A := answered_rulesets (AR := ToyRulesets.api) (directory_answer "acme" repos_now directory_now))
    default_order true "acme" org_declared) ∅ = (None, ow_rules org_done.2) ∧
  ToyRulesets.names (ow_rules org_done.2) = ["main"].
Proof.
  destruct (ready_organization_synced (AR := ToyRulesets.api) (RS := shared_api) default_order toy_order 0 true None org_declared turns org_world
    org_done.1 org_done.2) as (_ & _ & Ha & _ & _ & Hr).
  - reflexivity.
  - vm_compute. reflexivity.
  - apply (all_synced_at_Some _ 100). vm_compute. reflexivity.
  - split; [exact Ha|]. destruct (Hr repos_now directory_now agreed stable no_teams_agreed) as [Hrules _].
    split; [exact Hrules|vm_compute; reflexivity].
Defined.
End Witnesses.
