(* ===== verification/Stored.v ===== *)
(** * From one run to the next, across a restart

    The status a run of the executor (internal/reconciler/executor.go) leaves in the cluster is all that the next
    process knows of it.  This file follows it: what the stored status says after a run, whichever of its writes
    failed, and how startup spreading (spreading.go, factory.go) reads it after a restart.  The in-memory resource and
    the stored status are parts of the world; repositories and organizations are two instances of one interface. *)
From S2P Require Import Prelude GoErrors Config Spreading Conditions Executor Requeue ApiTypes RulesetMerge RulesetResolve IdResolver ClientFactory Rely Factory Startup Apply.

(** ** Resources whose status is written back *)
Class StatusObject (R Status AC : Type) {KH : K8sHelpers} := {
  so_Meta : R → ObjectMeta;
  so_Status : R → Status;
  so_Conditions : Status → list Condition;
  so_Observed : Status → option (gmap string Z);
  so_BuildStatusApplyConfig : R → ResourceApplyConfiguration AC;
  so_read : AC → Status;
  so_spreadable : R → SpreadableResource;
  (* what is sent, and what spreading looks at *)
  sent_status r : ∃ ac, rac_Status (so_BuildStatusApplyConfig r) = Some ac ∧ so_Conditions (so_read ac) = so_Conditions (so_Status r) ∧
    so_Observed (so_read ac) = stored_generations (so_Observed (so_Status r));
  spreadable_status r : so_spreadable r = {|
    Spreading.GetGeneration := Generation (so_Meta r); GetObservedGeneration := conditions_generation (so_Conditions (so_Status r));
    GetObservedSubResourceGenerations := so_Observed (so_Status r); IsHealthy := conditions_healthy (so_Conditions (so_Status r));
    Deleted := bool_decide (is_Some (DeletionTimestamp (so_Meta r))) |}
}.

#[export] Program Instance repository_status {KH : K8sHelpers} : StatusObject Repository RepositoryStatus RepositoryStatusApplyConfiguration := {|
  so_Meta := r_Meta; so_Status := r_Status; so_Conditions := rst_Conditions; so_Observed := rst_ObservedSubResourceGenerations;
  so_BuildStatusApplyConfig := repo_BuildStatusApplyConfig; so_read := read_RepositoryStatus; so_spreadable := spreadable_repo |}.
Next Obligation.
  intros KH r. pose proof (repo_status_read r) as H. destruct (rac_Status _) as [ac|]; [|done]. injection H as _ Hc _ Ho. by exists ac.
Qed.
Next Obligation. done. Qed.

#[export] Program Instance organization_status {KH : K8sHelpers} : StatusObject Organization OrganizationStatus OrganizationStatusApplyConfiguration := {|
  so_Meta := o_Meta; so_Status := o_Status; so_Conditions := ost_Conditions; so_Observed := ost_ObservedSubResourceGenerations;
  so_BuildStatusApplyConfig := org_BuildStatusApplyConfig; so_read := read_OrganizationStatus; so_spreadable := spreadable_org |}.
Next Obligation.
  intros KH r. pose proof (org_status_read r) as H. destruct (rac_Status _) as [ac|]; [|done]. injection H as Hc Ho. by exists ac.
Qed.
Next Obligation. done. Qed.

(** ** The world of a run: the resource in memory, and its status in the cluster *)
Section Store.
Context {W R Status AC : Type} {KH : K8sHelpers} {KL : K8sHelpersLaws KH} {SO : StatusObject R Status AC} {HE : Env W} {EL : EnvLaws HE}.

Class StatusStore := {
  memory : W → R;
  stored : W → Status;
  memory_conditions w : GetConditions (resource w) = so_Conditions (so_Status (memory w));
  memory_observed w : ObservedSubResourceGeneration (resource w) = so_Observed (so_Status (memory w));
  (* an accepted write replaces the stored status by what was sent, a rejected one changes nothing *)
  status_applied w w' : apply_status_config w = (None, w') →
    ∃ ac, rac_Status (so_BuildStatusApplyConfig (memory w)) = Some ac ∧ stored w' = so_read ac;
  status_rejected w err w' : apply_status_config w = (Some err, w') → stored w' = stored w;
  metadata_stored ls fs w : stored (apply_metadata_config ls fs w).2 = stored w;
  set_resource_stored r w : stored (set_resource r w) = stored w
}.
Context {SS : StatusStore}.

Lemma applied_status w w' :
  apply_status_config w = (None, w') →
  so_Conditions (stored w') = GetConditions (resource w) ∧
  so_Observed (stored w') = stored_generations (ObservedSubResourceGeneration (resource w)).
Proof.
  intros (ac & Hac & Hst)%status_applied. destruct (sent_status (memory w)) as (ac' & Hac' & Hc & Ho).
  rewrite Hac in Hac'. injection Hac' as <-. by rewrite Hst, memory_conditions, memory_observed.
Qed.

(** *** Nothing but the writes of the executor changes what is stored *)
Lemma update_resource_stored f w : stored (update_resource f w) = stored w.
Proof. apply set_resource_stored. Qed.

Lemma applyMetadata_stored x fin w : stored (run (applyMetadata x fin) w).2 = stored w.
Proof.
  unfold applyMetadata. rewrite run_bind, run_call.
  pose proof (metadata_stored (MergeLabels managed_by (GetAdditionalLabels x)) (if fin then [FinalizerName x] else []) w) as H.
  destruct (apply_metadata_config _ _ w) as [[e|] w1]; cbn [snd] in H; [done|]. rewrite run_bind, run_modify. cbn [run snd].
  by rewrite update_resource_stored.
Qed.

(** *** What the stored status says *)
Definition says_synced (st : Status) (generation : Z) (observed : option (gmap string Z)) : Prop :=
  conditions_healthy (so_Conditions st) = true ∧ conditions_generation (so_Conditions st) = generation ∧
  so_Observed st = stored_generations observed.
Definition says_unsynced (st : Status) : Prop := conditions_healthy (so_Conditions st) = false.

(** The write with which a run begins is accepted. *)
Definition start_written (w : W) : Prop := (apply_status_config (run updateStartCondition w).2).1 = None.

Lemma start_status w :
  start_written w → says_unsynced (stored (start_world w)).
Proof.
  unfold start_written, start_world, applyStatus. rewrite run_call.
  set (w1 := (run updateStartCondition w).2). destruct (apply_status_config w1) as [e w2] eqn:Happ. cbn [fst snd]. intros ->.
  apply applied_status in Happ as [Hc _]. unfold says_unsynced, conditions_healthy. rewrite Hc. unfold w1, updateStartCondition.
  rewrite run_modify. cbn [snd]. rewrite resource_update. cbn [GetConditions set_conditions].
  destruct (find_set_eq (GetConditions (resource w)) (startCondition (now w))) as (c & Hfind & _ & Hs & _).
  change TypeReady with (c_Type (startCondition (now w))). rewrite Hfind, Hs. by apply bool_decide_eq_false.
Qed.

(** The last part of a run: the results are stored, or the write fails, the run with it, and nothing is stored. *)
Lemma record_results_stored current rs w ret w' :
  run (record_results current rs (errors_join (Some <$> omap rr_Error rs))) w = (ret, w') →
  match ret with
  | None => says_synced (stored w') (GetGeneration (resource w')) current
  | Some _ => says_unsynced (stored w') ∨ stored w' = stored w
  end.
Proof.
  unfold record_results. rewrite run_bind. destruct (ready_updateConditions rs w) as (c & Hready & Hsame).
  pose proof (readyCondition_agrees (GetGeneration (resource w)) (now w) rs) as [Hagree _].
  set (err := errors_join _) in *.
  assert (GetGeneration (resource (run (updateConditionsFromResults rs) w).2) = GetGeneration (resource w) ∧
    stored (run (updateConditionsFromResults rs) w).2 = stored w) as [Hgen Hst].
  { unfold updateConditionsFromResults. rewrite run_modify. cbn [snd]. by rewrite resource_update, update_resource_stored. }
  destruct (run (updateConditionsFromResults rs) w) as [? w1]. cbn [snd] in *. step_run. rewrite run_bind, run_modify. step_run.
  rewrite run_bind. unfold applyStatus. rewrite run_call. set (w2 := update_resource (set_observed current) w1).
  destruct (apply_status_config w2) as [[e|] w3] eqn:Happ.
  { intros [= <- <-]. right. apply status_rejected in Happ. by rewrite Happ; unfold w2; rewrite update_resource_stored. }
  pose proof (apply_status_resource w2) as Hres. rewrite Happ in Hres. cbn [snd] in Hres.
  apply applied_status in Happ as [Hc Ho]. unfold w2 in Hc, Ho, Hres. rewrite resource_update in Hc, Ho, Hres.
  cbn [GetConditions ObservedSubResourceGeneration set_observed] in Hc, Ho.
  assert (FindStatusCondition (so_Conditions (stored w3)) TypeReady = Some c) as Hfind by (by rewrite Hc).
  destruct Hsame as (_ & Hs & _ & _ & Hg).
  destruct err as [e|] eqn:Herr; intros [= <- <-].
  - left. unfold says_unsynced, conditions_healthy. rewrite Hfind, Hs. apply bool_decide_eq_false. intros H. by apply Hagree in H.
  - split_and!; [|unfold conditions_generation; rewrite Hfind, Hg|done].
    + unfold conditions_healthy. rewrite Hfind, Hs. apply bool_decide_eq_true. by apply Hagree.
    + rewrite Hres. unfold readyCondition. by split_cases.
Qed.

(** A run that returns no error has stored it, with the generations of the sub-resources; any other one, if its first
    write was accepted, leaves a status that is not healthy. *)
Lemma Reconcile_stored scheds x w ret w' :
  GetDeletionTimestamp (resource w) = None → run (Reconcile scheds x) w = (ret, w') →
  match ret with
  | None => says_synced (stored w') (GetGeneration (resource w')) (CurrentSubResourceGenerations x)
  | Some _ => leaves_all stored (RequiredReconciliations x) → start_written w → says_unsynced (stored w')
  end.
Proof.
  intros Hdel. rewrite Reconcile_start, Hdel, run_bind. pose proof (applyMetadata_stored x true (start_world w)) as Hm.
  destruct (run (applyMetadata x true) (start_world w)) as [[e|] w1]; cbn [snd] in Hm.
  { intros [= <- <-] _ Hs. rewrite Hm. by apply start_status. }
  step_run. rewrite run_bind.
  pose proof (run_groups_leaves stored scheds (RequiredReconciliations x) 0%nat [] w1) as Hg. fold (runReconciliations scheds x) in Hg.
  destruct (run (runReconciliations scheds x) w1) as [[rs err] w2] eqn:Hrs. cbn [snd] in Hg. step_run.
  apply run_groups_error in Hrs as ->; [|done].
  intros Hrun. pose proof (record_results_stored (CurrentSubResourceGenerations x) rs w2 ret w') as H. unfold record_results in H.
  specialize (H Hrun). destruct ret as [e|]; [|done]. intros Hl Hs. destruct H as [H|H]; [done|].
  rewrite H, Hg, Hm by done. by apply start_status.
Qed.
End Store.
Arguments StatusStore W R Status AC {KH SO HE}.

(** ** A restart after a run *)
Section Restart.
Context {W Client : Type} {KH : K8sHelpers} {KL : K8sHelpersLaws KH} {A : FactoryApi W Client} {HE : Env W}.
Context (IsNotFound : gerror → bool) (rand_IntN rand_N : Z → Z) (cfg : Config).
Context (orgs : string → string → res Organization) (repos : string → string → res Repository) (teams : string → string → res Team).
Context (presets : string → string → res RulesetPreset) (subs : string → string → string → res ObjectMeta).
Context {L : StoreLaws orgs repos teams presets subs}.
Context (ctx_canceled : W → bool) (scheds : nat → list nat) (policy : RequeuePolicy).

(** What the factory and the controller do about a resource of a kind. *)
Class RestartedKind (R Status AC : Type) {SO : StatusObject R Status AC} := {
  rk_reconciler_type : Type;
  rk_get : string → string → res R;
  rk_same : R → R → Prop;
  rk_generations : R → prog W (res (option (gmap string Z)));
  rk_create : string → string → prog W (res (option rk_reconciler_type));
  rk_reconciler : R → option (gmap string Z) → prog W (res (option rk_reconciler_type));
  rk_Reconcile : prog W (res (option (Reconciler W))) → prog W (Result * option gerror);
  rk_same_generations r r0 : rk_same r r0 → rk_generations r0 = rk_generations r;
  rk_create_run ns n r w : rk_get ns n = inl r → ∃ fetched, (∀ v, run (rk_generations r) v = (fetched, v)) ∧
    (∀ g, fetched = inl g → g ≠ Some ∅) ∧
    run (rk_create ns n) w = match fetched with
      | inr err => (inr err, w)
      | inl g => match Spread rand_IntN (fa_spreading w) (fa_now w) (so_spreadable r) g with
        | Some err => (inr err, w)
        | None => run (rk_reconciler r g) w
        end
      end;
  rk_refused m err w w' : run m w = (inr err, w') → run (rk_Reconcile m) w = run (onFactoryError ctx_canceled err) w'
}.

#[export] Program Instance repository_kind : RestartedKind Repository RepositoryStatus RepositoryStatusApplyConfiguration := {|
  rk_get := repos;
  rk_same repo repo0 := r_Spec repo0 = r_Spec repo ∧ Namespace (r_Meta repo0) = Namespace (r_Meta repo);
  rk_generations := fetchSubResourceGenerationsForRepo IsNotFound;
  rk_create := CreateForRepo IsNotFound rand_IntN cfg;
  rk_reconciler := repo_reconciler cfg;
  rk_Reconcile m := RepositoryCtl_Reconcile rand_N IsNotFound ctx_canceled m scheds policy |}.
Next Obligation. intros repo repo0 [Hs Hn]. by apply fetch_repo_same. Qed.
Next Obligation.
  intros ns n repo w Hr. destruct (CreateForRepo_run IsNotFound rand_IntN cfg orgs repos teams presets subs ns n repo w Hr) as (fetched & Hf & Hok & Hrun).
  exists fetched. split_and!; [done| |done]. intros g ->. apply Hok.
Qed.
Next Obligation. intros m err w w' Hm. unfold RepositoryCtl_Reconcile. by rewrite run_bind, Hm. Qed.

#[export] Program Instance organization_kind : RestartedKind Organization OrganizationStatus OrganizationStatusApplyConfiguration := {|
  rk_get := orgs;
  rk_same org org0 := o_Spec org0 = o_Spec org ∧ Namespace (o_Meta org0) = Namespace (o_Meta org);
  rk_generations := fetchSubResourceGenerationsForOrg IsNotFound;
  rk_create := CreateForOrg IsNotFound rand_IntN cfg;
  rk_reconciler := org_reconciler cfg;
  rk_Reconcile m := OrganizationCtl_Reconcile rand_N IsNotFound ctx_canceled m scheds policy |}.
Next Obligation. intros org org0 [Hs Hn]. by apply fetch_org_same. Qed.
Next Obligation.
  intros ns n org w Ho. destruct (CreateForOrg_run IsNotFound rand_IntN cfg orgs repos teams presets subs ns n org w Ho) as (fetched & Hf & Hok & Hrun).
  exists fetched. split_and!; [done| |done]. intros g ->. apply Hok.
Qed.
Next Obligation. intros m err w w' Hm. unfold OrganizationCtl_Reconcile. by rewrite run_bind, Hm. Qed.

Section Kind.
Context {R Status AC Wr : Type} {SO : StatusObject R Status AC} {K : RestartedKind R Status AC}.
Context {HEr : Env Wr} {EL : EnvLaws HEr} {SS : StatusStore Wr R Status AC}.
Context (executor : rk_reconciler_type → Reconciler W).

(** What startup spreading sees of a resource that was left by a run. *)
Lemma spread_after_run (x : Reconciler Wr) scheds0 e ret e' (r : R) g m now :
  GetDeletionTimestamp (resource e) = None → run (Reconcile scheds0 x) e = (ret, e') →
  CurrentSubResourceGenerations x = g → g ≠ Some ∅ →
  so_Status r = stored e' → Generation (so_Meta r) = GetGeneration (resource e') → DeletionTimestamp (so_Meta r) = None →
  Enabled m = true → sat64 (now - StartTime m) ≤ sc_SpreadPeriod m →
  let d := calculateSpreadDelay rand_IntN m now in
  match ret with
  | None => 0 < d → Spread rand_IntN (Some m) now (so_spreadable r) g = Some (ERequiresSpread d)
  | Some _ => leaves_all stored (RequiredReconciliations x) → start_written e → Spread rand_IntN (Some m) now (so_spreadable r) g = None
  end.
Proof.
  intros Hdel Hrun Hg Hne Hst Hgen Hnd He Hp d. pose proof (Reconcile_stored scheds0 x e ret e' Hdel Hrun) as Hsays.
  rewrite spreadable_status, Hst, Hgen, Hnd. destruct ret as [err|].
  - intros Hl Hs. specialize (Hsays Hl Hs). unfold Spread. rewrite He, (proj2 (Z.ltb_ge _ _)) by done.
    cbn [IsHealthy Spreading.GetGeneration GetObservedGeneration]. rewrite Hsays. by destruct (_ =? _).
  - destruct Hsays as (Hh & Hog & Hobs). rewrite Hg, stored_generations_id in Hobs by done. intros Hd.
    pose proof (Spread_delays rand_IntN m now {|
      Spreading.GetGeneration := GetGeneration (resource e'); GetObservedGeneration := conditions_generation (so_Conditions (stored e'));
      GetObservedSubResourceGenerations := so_Observed (stored e'); IsHealthy := conditions_healthy (so_Conditions (stored e'));
      Deleted := bool_decide (is_Some (@None Z)) |} He Hp) as Hspread.
    cbn [Spreading.GetGeneration GetObservedGeneration GetObservedSubResourceGenerations IsHealthy Deleted] in Hspread.
    rewrite Hobs in Hspread |- *. apply Hspread; [by rewrite Hog|done|by apply bool_decide_eq_false; intros [? ?]|done].
Qed.

(** C19: what a restarted operator does about a repository or an organization that has not changed since its last run
    depends on how that run, in the process before, ended.  If it returned no error, then the status it stored says
    so: inside the spread window the resource is not reconciled at once with all others, but requeued without any
    request for a moment before period and interval are over.  If it failed, at whatever point and even if its last
    write of the status was rejected, then the resource is reconciled at once, provided that the status had been
    written when the run began. *)
Theorem restart_after_run ns n (r r0 : R) g w0 w1 (x : Reconciler Wr) scheds0 e ret e' m w :
  (* the last run, with the generations the factory collected *)
  run (rk_generations r0) w0 = (inl g, w1) → CurrentSubResourceGenerations x = g →
  GetDeletionTimestamp (resource e) = None → run (Reconcile scheds0 x) e = (ret, e') →
  (* what the cluster has of the resource after it *)
  rk_get ns n = inl r → rk_same r r0 →
  so_Status r = stored e' → Generation (so_Meta r) = GetGeneration (resource e') → DeletionTimestamp (so_Meta r) = None →
  (* the restarted operator *)
  fa_spreading w = Some m → Enabled m = true → rand_ok rand_IntN → interval_ok m →
  sat64 (fa_now w - StartTime m) ≤ sc_SpreadPeriod m → ctx_canceled w = false →
  let d := calculateSpreadDelay rand_IntN m (fa_now w) in
  match ret with
  | None => 0 < d →
    run (rk_Reconcile (created executor (rk_create ns n))) w = ((requeue_after d, None), w) ∧
    fa_now w + d < StartTime m + sc_SpreadPeriod m + sc_SpreadInterval m
  | Some _ => leaves_all stored (RequiredReconciliations x) → start_written e →
    run (rk_create ns n) w = run (rk_reconciler r g) w
  end.
Proof.
  intros Hf0 Hg Hdel Hrun Hr Hsame Hst Hgen Hnd Hm He Hrand Hint Hp Hc d.
  destruct (rk_create_run ns n r w Hr) as (fetched & Hf & Hok & Hcreate).
  rewrite (rk_same_generations r r0 Hsame), Hf in Hf0. injection Hf0 as -> <-. rewrite Hm in Hcreate.
  pose proof (spread_after_run x scheds0 e ret e' r g m (fa_now w) Hdel Hrun Hg (Hok g eq_refl) Hst Hgen Hnd He Hp) as Hs.
  destruct ret as [err|].
  - intros Hl Hw. by rewrite Hcreate, Hs.
  - intros Hd. rewrite Hs in Hcreate by done. split; [|by apply (calculateSpreadDelay_target rand_IntN m (fa_now w) d Hrand Hint eq_refl Hd)].
    rewrite (rk_refused _ (ERequiresSpread d) w w) by (unfold created; by rewrite run_bind, Hcreate).
    unfold onFactoryError. by rewrite run_gets, Hc.
Qed.
End Kind.
End Restart.

(** ** A concrete cluster: one run, a restart, and the unchanged repository *)
Module ToyStored.
Import SimpleHelpers ToyWorld ToyStartup.

(** The in-memory repository, its labels and finalizers, and the status in the cluster, which may reject a write. *)
Record world := {
  kw_object : Repository; kw_labels : gmap string string; kw_finalizers : list string; kw_stored : RepositoryStatus; kw_rejects : option gerror }.
Definition with_stored (st : RepositoryStatus) (w : world) : world := {|
  kw_object := kw_object w; kw_labels := kw_labels w; kw_finalizers := kw_finalizers w; kw_stored := st; kw_rejects := kw_rejects w |}.

#[export] Instance kube_env : Env world := {|
  resource w := {|
    GetGeneration := Generation (r_Meta (kw_object w)); GetDeletionTimestamp := DeletionTimestamp (r_Meta (kw_object w));
    GetConditions := rst_Conditions (r_Status (kw_object w));
    ObservedSubResourceGeneration := rst_ObservedSubResourceGenerations (r_Status (kw_object w));
    GetLabels := kw_labels w; Finalizers := kw_finalizers w |};
  set_resource r w :=
    let o := kw_object w in {|
    kw_object := {|
      r_Meta := {| Name := Name (r_Meta o); Namespace := Namespace (r_Meta o); Generation := GetGeneration r; DeletionTimestamp := GetDeletionTimestamp r |};
      r_Spec := r_Spec o;
      r_Status := {| rst_Webhooks := rst_Webhooks (r_Status o); rst_Conditions := GetConditions r; rst_ID := rst_ID (r_Status o);
        rst_ObservedSubResourceGenerations := ObservedSubResourceGeneration r |} |};
    kw_labels := GetLabels r; kw_finalizers := Finalizers r; kw_stored := kw_stored w; kw_rejects := kw_rejects w |};
  now _ := 100;
  apply_status_config w :=
    match kw_rejects w, rac_Status (repo_BuildStatusApplyConfig (kw_object w)) with
    | None, Some ac => (None, with_stored (read_RepositoryStatus ac) w)
    | Some err, _ => (Some err, w)
    | None, None => (None, w)
    end;
  apply_metadata_config _ _ w := (None, w) |}.
#[export] Instance kube_laws : EnvLaws kube_env.
Proof. split; try done. - by intros [] w. - intros w. simpl. by destruct (kw_rejects w). Qed.

#[export] Program Instance store : StatusStore world Repository RepositoryStatus RepositoryStatusApplyConfiguration :=
  {| memory := kw_object; stored := kw_stored |}.
Next Obligation. done. Qed.
Next Obligation. done. Qed.
Next Obligation. intros w w'. simpl. destruct (kw_rejects w); [done|]. intros [= <-]. by eexists. Qed.
Next Obligation. intros w err w'. simpl. destruct (kw_rejects w); [|done]. by intros [= _ <-]. Qed.
Next Obligation. done. Qed.
Next Obligation. done. Qed.

Definition synced (c : string) : Reconciliation world := {| Function := Ret None; rec_Condition := c |}.
(** The last write of the status is rejected: the cluster is gone when the reconciliations are done. *)
Definition cut_off (c : string) : Reconciliation world := {|
  Function := let! _ := modify (λ w, {| kw_object := kw_object w; kw_labels := kw_labels w; kw_finalizers := kw_finalizers w;
    kw_stored := kw_stored w; kw_rejects := Some (EPlain "unavailable") |}) in Ret None; rec_Condition := c |}.
Definition reconciler (r : Reconciliation world) : Reconciler world := {|
  RequiredReconciliations := [[synced "A"]; [r]]; FinalizerName := "f"; ReconcileDeletion := Ret None; GetAdditionalLabels := ∅;
  CurrentSubResourceGenerations := Some current |}.
Definition unobserved : world := {| kw_object := repository None; kw_labels := ∅; kw_finalizers := []; kw_stored := r_Status (repository None); kw_rejects := None |}.
Definition last_run (r : Reconciliation world) := run (Reconcile (λ _, []) (reconciler r)) unobserved.

(** What the cluster has after the run, and the factory of the process after that. *)
Definition left_by (r : Reconciliation world) : Repository :=
  {| r_Meta := meta "r" 4; r_Spec := r_Spec (repository None); r_Status := kw_stored (last_run r).2 |}.
Section Cluster.
Context (r : Reconciliation world).
Definition repos_after : string → string → res Repository := stored_in {[ "r" := left_by r ]}.
Definition factory_after : FactoryApi ToyWorld.world string := {|
  fa_GetOrganization ns n := Ret (orgs ns n); fa_GetRepository ns n := Ret (repos_after ns n); fa_GetTeam ns n := Ret (teams ns n);
  fa_GetRulesetPreset ns n w := (presets ns n, w); fa_GetSubResource kind ns n := Ret (subs kind ns n); fa_manager := manager;
  fa_resolver _ := resolver; fa_now := ToyWorld.tw_now; fa_spreading _ := Some fresh_manager |}.
Lemma laws_after : StoreLaws (A := factory_after) orgs repos_after teams presets subs.
Proof. by destruct (store_laws None). Qed.
End Cluster.

Definition repository_kind_after (r : Reconciliation world) :=
  repository_kind (A := factory_after r) is_not_found rnd (λ n, n - 1) default_config orgs (repos_after r) teams presets subs
    (L := laws_after r) (λ _, false) (λ _, []) (NewRequeuePolicy default_config).

Definition controller (r : Reconciliation world) : prog ToyWorld.world (Result * option gerror) :=
  RepositoryCtl_Reconcile (λ n, n - 1) is_not_found (λ _, false)
    (created (λ _, ToyWorld.example) (CreateForRepo (A := factory_after r) is_not_found rnd default_config "ns" "r")) (λ _, []) (NewRequeuePolicy default_config).
End ToyStored.
Import SimpleHelpers ToyWorld ToyStartup ToyStored.

Lemma restart_after_run_witness :
  run (controller (synced "B")) started = ((requeue_after 11030000000000, None), started) ∧
  run (CreateForRepo (A := factory_after (cut_off "B")) is_not_found rnd default_config "ns" "r") started =
    run (repo_reconciler (A := factory_after (cut_off "B")) default_config (left_by (cut_off "B")) (Some current)) started.
Proof.
  pose proof (λ r, restart_after_run (A := factory_after r) rnd (λ _, false) (K := repository_kind_after r) (λ _, ToyWorld.example) "ns" "r"
    (left_by r) (repository None) (Some current) started started (reconciler r) (λ _, []) unobserved) as H.
  assert (rand_ok rnd) as Hr by (intros n Hn; unfold rnd; lia).
  split.
  - refine (proj1 (H (synced "B") None (last_run (synced "B")).2 fresh_manager started _ _ _ _ _ _ _ _ _ _ _ Hr _ _ _ _));
      first [vm_compute; reflexivity|split; reflexivity|vm_compute; split; discriminate|vm_compute; discriminate].
  - refine (H (cut_off "B") (Some (EPlain "unavailable")) (last_run (cut_off "B")).2 fresh_manager started _ _ _ _ _ _ _ _ _ _ _ Hr _ _ _ _ _);
      try first [vm_compute; reflexivity|split; reflexivity|vm_compute; split; discriminate|vm_compute; discriminate].
    repeat constructor; unfold leaves; simpl; by split_and!.
Defined.
