(* ===== verification/Slug.v ===== *)
(** * Slugs of team names (internal/mapper/github_team_mapper.go)

    [TeamNameToSlug], which follows what GitHub makes of a team's name.  Strings are lists of runes here.  The tables of
    Unicode and the canonical decomposition (golang.org/x/text) are an interface; what they say about ASCII is fixed. *)
From S2P Require Import Prelude.

(** ** Runes *)
Definition is_upper (r : Z) : bool := (65 <=? r) && (r <=? 90).
Definition is_lower (r : Z) : bool := (97 <=? r) && (r <=? 122).
Definition is_digit (r : Z) : bool := (48 <=? r) && (r <=? 57).
Definition space : Z := 32.
Definition hyphen : Z := 45.

Class Unicode := {
  unicode_ToLower : Z → Z;
  unicode_IsLetter : Z → bool;
  unicode_IsDigit : Z → bool;
  unicode_IsMn : Z → bool;
  NFD : Z → list Z
}.
Class UnicodeLaws (U : Unicode) : Prop := {
  ascii_ToLower r : 0 ≤ r < 128 → unicode_ToLower r = if is_upper r then r + 32 else r;
  ascii_IsLetter r : 0 ≤ r < 128 → unicode_IsLetter r = is_upper r || is_lower r;
  ascii_IsDigit r : 0 ≤ r < 128 → unicode_IsDigit r = is_digit r;
  ascii_IsMn r : 0 ≤ r < 128 → unicode_IsMn r = false;
  ascii_NFD r : 0 ≤ r < 128 → NFD r = [r]
}.

(** ** The functions of strings, for hyphens *)
(** [strings.Contains(s, "--")]. *)
Fixpoint contains_two (l : list Z) : bool :=
  match l with
  | a :: (b :: _) as rest => bool_decide (a = hyphen) && bool_decide (b = hyphen) || contains_two rest
  | _ => false
  end.
(** [strings.ReplaceAll(s, "--", "-")]: the matches do not overlap. *)
Fixpoint replace_two (l : list Z) : list Z :=
  match l with
  | a :: (b :: rest) as tail => if bool_decide (a = hyphen) && bool_decide (b = hyphen) then hyphen :: replace_two rest else a :: replace_two tail
  | _ => l
  end.
(** [strings.Trim(s, "-")]. *)
Fixpoint trim_left_hyphens (l : list Z) : list Z :=
  match l with a :: rest => if bool_decide (a = hyphen) then trim_left_hyphens rest else l | [] => [] end.
Definition trim_hyphens (l : list Z) : list Z := reverse (trim_left_hyphens (reverse (trim_left_hyphens l))).

(** ** The code *)
Section Slug.
Context {U : Unicode}.

Definition slug_char (r : Z) : bool := is_lower r || is_digit r || bool_decide (r = hyphen).
(** What is written for one rune. *)
Definition write_rune (r : Z) : list Z :=
  if unicode_IsLetter r || unicode_IsDigit r || bool_decide (r = hyphen)
  then filter (λ nr, negb (unicode_IsMn nr) && slug_char nr) (NFD r) else [].
Definition lowered (name : list Z) : list Z :=
  (λ r, if bool_decide (r = space) then hyphen else r) <$> (unicode_ToLower <$> name).
Definition result_runes (name : list Z) : list Z := mjoin (write_rune <$> lowered name).

(** The loop [for strings.Contains(cleanedSlug, "--")]; [None] if the fuel does not suffice. *)
Fixpoint collapse (fuel : nat) (cleanedSlug : list Z) : option (list Z) :=
  if contains_two cleanedSlug then
    match fuel with O => None | S fuel => collapse fuel (replace_two cleanedSlug) end
  else Some cleanedSlug.

Definition TeamNameToSlug (name : list Z) : option (list Z) :=
  let result := result_runes name in
  trim_hyphens <$> collapse (length result) result.
End Slug.

(** ** What a slug is: the words of the name, joined by single hyphens *)
Definition cons_word (w : list Z) (ws : list (list Z)) : list (list Z) := if bool_decide (w = []) then ws else w :: ws.
(** The word a list begins with, and those after its first hyphen. *)
Definition add_rune (r : Z) (s : list Z * list (list Z)) : list Z * list (list Z) :=
  if bool_decide (r = hyphen) then ([], cons_word s.1 s.2) else (r :: s.1, s.2).
Definition split_words (l : list Z) : list Z * list (list Z) := foldr add_rune ([], []) l.
Definition words (l : list Z) : list (list Z) := cons_word (split_words l).1 (split_words l).2.
Definition join_words (ws : list (list Z)) : list Z :=
  match ws with [] => [] | w :: ws => w ++ mjoin ((λ w, hyphen :: w) <$> ws) end.

Lemma replace_two_ind (P : list Z → Prop) :
  P [] → (∀ a, P [a]) → (∀ rest, P rest → P (hyphen :: hyphen :: rest)) →
  (∀ a b rest, ¬ (a = hyphen ∧ b = hyphen) → P (b :: rest) → P (a :: b :: rest)) → ∀ l, P l.
Proof.
  intros H0 H1 H2 H3 l. remember (length l) as n eqn:Hn. assert (length l ≤ n)%nat as Hl by lia. clear Hn. revert l Hl.
  induction n as [|n IH]; intros [|a [|b rest]] Hl; simpl in Hl; try done; try lia.
  destruct (decide (a = hyphen ∧ b = hyphen)) as [[-> ->]|Hn]; [apply H2, IH; lia|]. apply H3; [done|]. apply IH. simpl. lia.
Qed.

Lemma replace_two_hyphens rest : replace_two (hyphen :: hyphen :: rest) = hyphen :: replace_two rest.
Proof. done. Qed.
Lemma replace_two_other a b rest : ¬ (a = hyphen ∧ b = hyphen) → replace_two (a :: b :: rest) = a :: replace_two (b :: rest).
Proof. intros H. cbn [replace_two]. repeat case_bool_decide; simpl; try done. naive_solver. Qed.

Lemma split_words_replace l : split_words (replace_two l) = split_words l.
Proof.
  induction l as [|a|rest IH|a b rest H IH] using replace_two_ind; [done..| |].
  - rewrite replace_two_hyphens. unfold split_words in *. cbn [foldr]. by rewrite IH.
  - rewrite replace_two_other by done. unfold split_words in *. cbn [foldr] in *. by rewrite IH.
Qed.

Lemma replace_two_shorter l : (length (replace_two l) ≤ length l)%nat ∧ (contains_two l = true → length (replace_two l) < length l)%nat.
Proof.
  induction l as [|a|rest IH|a b rest H IH] using replace_two_ind; [simpl; split; [lia|done]..| |].
  - rewrite replace_two_hyphens. simpl. destruct IH. lia.
  - rewrite replace_two_other by done. simpl length. destruct IH as [Hle Hlt]. simpl in Hle, Hlt. split; [simpl; lia|].
    intros Hc. cbn [contains_two] in Hc. apply orb_true_iff in Hc as [Hc|Hc]; [|specialize (Hlt Hc); simpl; lia].
    apply andb_true_iff in Hc as [?%bool_decide_eq_true ?%bool_decide_eq_true]. naive_solver.
Qed.

Lemma collapse_spec fuel : ∀ l, (length l ≤ fuel)%nat →
  ∃ l', collapse fuel l = Some l' ∧ contains_two l' = false ∧ split_words l' = split_words l ∧ (∀ P, Forall P l → P hyphen → Forall P l').
Proof.
  induction fuel as [|fuel IH]; intros l Hl; cbn [collapse].
  - destruct l; [|simpl in Hl; lia]. by exists [].
  - destruct (contains_two l) eqn:Hc; [|by exists l]. destruct (replace_two_shorter l) as [_ Hlt]. specialize (Hlt Hc).
    destruct (IH (replace_two l)) as (l' & -> & Hc' & Hw & HP); [lia|]. exists l'. rewrite Hw, split_words_replace. split_and!; [done..|].
    intros P Hf Hh. apply HP; [|done]. clear -Hf Hh. induction l as [|a|rest IH|a b rest H IH] using replace_two_ind; [done..| |].
    + rewrite replace_two_hyphens. rewrite !Forall_cons in *. naive_solver.
    + rewrite replace_two_other by done. rewrite (Forall_cons _ a) in *. naive_solver.
Qed.

Lemma contains_two_spec l : contains_two l = true ↔ ∃ p q, l = p ++ hyphen :: hyphen :: q.
Proof.
  induction l as [|a [|b rest] IH]; cbn [contains_two].
  - split; [done|]. by intros ([] & ? & ?).
  - split; [done|]. by intros ([|? []] & ? & ?).
  - rewrite orb_true_iff, andb_true_iff, !bool_decide_eq_true, IH. split.
    + intros [[-> ->]|(p & q & ->)]; [by exists [], rest|by exists (a :: p), q].
    + intros ([|c p] & q & [= -> ->]); [by left|right; by eauto].
Qed.

Lemma contains_two_infix p l q : contains_two (p ++ l ++ q) = false → contains_two l = false.
Proof.
  rewrite <-!not_true_iff_false, !contains_two_spec. intros H (p' & q' & ->). apply H. exists (p ++ p'), (q' ++ q). by rewrite <-!app_assoc.
Qed.

Lemma trim_left_spec l : ∃ p, l = p ++ trim_left_hyphens l ∧ Forall (λ r, r = hyphen) p ∧ head (trim_left_hyphens l) ≠ Some hyphen.
Proof.
  induction l as [|a rest (p & Hl & Hp & Hh)]; cbn [trim_left_hyphens]; [by exists []|].
  case_bool_decide as Ha; [exists (a :: p)|exists []; split_and!; [done|constructor|by intros [= ?]]].
  split_and!; [simpl; congruence|by constructor|done].
Qed.

Lemma trim_hyphens_spec l : ∃ p q, l = p ++ trim_hyphens l ++ q ∧ Forall (λ r, r = hyphen) p ∧ Forall (λ r, r = hyphen) q ∧
  head (trim_hyphens l) ≠ Some hyphen ∧ last (trim_hyphens l) ≠ Some hyphen.
Proof.
  unfold trim_hyphens. destruct (trim_left_spec l) as (p & Hl & Hp & Hhead). set (l1 := trim_left_hyphens l) in *.
  destruct (trim_left_spec (reverse l1)) as (q & Hr & Hq & Hlast). set (l2 := trim_left_hyphens (reverse l1)) in *.
  assert (l1 = reverse l2 ++ reverse q) as H1 by (rewrite <-reverse_app, <-Hr; by rewrite reverse_involutive).
  exists p, (reverse q). split_and!; [by rewrite <-H1|done|by apply Forall_reverse| |].
  - rewrite H1 in Hhead. by destruct (reverse l2).
  - by rewrite last_reverse.
Qed.

Lemma words_hyphens p l : Forall (λ r, r = hyphen) p → words (p ++ l) = words l.
Proof. induction 1 as [|a p -> _ IH]; [done|]. rewrite <-IH. done. Qed.
Lemma words_trailing l q : Forall (λ r, r = hyphen) q → words (l ++ q) = words l.
Proof.
  intros Hq. unfold words, split_words. rewrite foldr_app. assert (foldr add_rune ([], []) q = ([], [])) as ->; [|done].
  induction Hq as [|a q -> _ IH]; [done|]. simpl. by rewrite IH.
Qed.

Lemma split_joined l : contains_two l = false → last l ≠ Some hyphen →
  l = (split_words l).1 ++ mjoin ((λ w, hyphen :: w) <$> (split_words l).2) ∧ ((split_words l).1 = [] → head l = None ∨ head l = Some hyphen).
Proof.
  induction l as [|a rest IH]; [by split; [|left]|]. intros Hc Hl.
  assert (contains_two rest = false) as Hc' by (apply (contains_two_infix [a] rest []); by rewrite app_nil_r).
  destruct rest as [|b rest].
  { simpl in *. unfold split_words. cbn [foldr add_rune]. unfold add_rune. case_bool_decide; [by subst|]. by split. }
  destruct (IH Hc') as [Hj Hs]; [by rewrite last_cons_cons in Hl|]. unfold split_words in *. cbn [foldr] in *. set (sw := add_rune b _) in *.
  unfold add_rune. case_bool_decide as Ha; cbn [fst snd]; [|by split; [rewrite Hj at 1|]].
  subst a. split; [|by right]. unfold cons_word. case_bool_decide as Hn.
  - destruct (Hs Hn) as [|[= ->]]; [done|]. cbn [contains_two] in Hc. by rewrite !bool_decide_eq_true_2 in Hc.
  - rewrite Hj at 1. done.
Qed.

Lemma join_words_id l : contains_two l = false → head l ≠ Some hyphen → last l ≠ Some hyphen → join_words (words l) = l.
Proof.
  intros Hc Hh Hl. destruct (split_joined l Hc Hl) as [Hj Hs]. unfold words, cons_word. case_bool_decide as Hn.
  - destruct (Hs Hn) as [H|H]; [|done]. by destruct l.
  - unfold join_words. by rewrite <-Hj.
Qed.

Lemma cleaned_spec l l' : contains_two l' = false → split_words l' = split_words l → trim_hyphens l' = join_words (words l).
Proof.
  intros Hc Hw. destruct (trim_hyphens_spec l') as (p & q & Hl & Hp & Hq & Hhead & Hlast).
  replace (words l) with (words l') by (unfold words; by rewrite Hw).
  rewrite Hl at 2. rewrite words_hyphens, words_trailing by done. symmetry. apply join_words_id; [|done..].
  rewrite Hl in Hc. by apply contains_two_infix in Hc.
Qed.

(** ** Theorems *)
Section Theorems.
Context {U : Unicode} {UL : UnicodeLaws U}.

Lemma slug_char_ascii r : slug_char r = true → 0 ≤ r < 128 ∧ is_upper r = false ∧ r ≠ space ∧ (is_lower r || is_digit r = true ∨ r = hyphen).
Proof.
  unfold slug_char. rewrite !orb_true_iff, bool_decide_eq_true. unfold is_lower, is_digit, is_upper, space, hyphen.
  rewrite !andb_true_iff, andb_false_iff, !Z.leb_le, !Z.leb_gt. lia.
Qed.

Lemma result_runes_slug name : Forall (λ r, slug_char r = true) (result_runes name).
Proof.
  unfold result_runes. apply Forall_join, Forall_fmap, Forall_true. intros r. unfold compose, write_rune.
  case_match; [|constructor]. apply Forall_forall. intros nr [Hk _]%list_elem_of_filter. apply Is_true_eq_true in Hk.
  by apply andb_true_iff in Hk as [_ Hk].
Qed.

(** Nothing is left to do for the runes of a slug. *)
Lemma result_runes_id l : Forall (λ r, slug_char r = true) l → result_runes l = l.
Proof.
  induction 1 as [|r l Hr _ IH]; [done|].
  change (write_rune (if bool_decide (unicode_ToLower r = space) then hyphen else unicode_ToLower r) ++ result_runes l = [r] ++ l).
  rewrite IH. f_equal. destruct (slug_char_ascii r Hr) as (Ha & Hu & Hs & Hk). rewrite ascii_ToLower, Hu by done.
  rewrite bool_decide_eq_false_2 by done. unfold write_rune.
  rewrite ascii_IsLetter, ascii_IsDigit, ascii_NFD, Hu by done. cbn [orb].
  assert (is_lower r || is_digit r || bool_decide (r = hyphen) = true) as -> by (destruct Hk as [->|Hk]; [done|by rewrite Hk, orb_true_r]).
  rewrite filter_cons, decide_True; [done|]. rewrite ascii_IsMn, Hr by done. done.
Qed.

(** C38: the slug of a team's name: the loop that removes double hyphens ends, and the result is the lower-case
    letters, digits and hyphens that the runes of the name decompose into, as words joined by single hyphens; so it
    neither begins nor ends with one, and the slug of a slug is the slug itself. *)
Theorem TeamNameToSlug_spec name :
  TeamNameToSlug name = Some (join_words (words (result_runes name))) ∧
  Forall (λ r, slug_char r = true) (join_words (words (result_runes name))) ∧
  TeamNameToSlug (join_words (words (result_runes name))) = Some (join_words (words (result_runes name))).
Proof.
  assert (∀ l, ∃ l', collapse (length l) l = Some l' ∧ trim_hyphens l' = join_words (words l) ∧ contains_two (trim_hyphens l') = false ∧
    (∀ P, Forall P l → P hyphen → Forall P (trim_hyphens l'))) as Hcollapse.
  { intros l. destruct (collapse_spec (length l) l) as (l' & Hl' & Hc & Hw & HP); [lia|]. exists l'. split_and!; [done|by apply cleaned_spec| |].
    - destruct (trim_hyphens_spec l') as (p & q & Hl & _). rewrite Hl in Hc. by apply contains_two_infix in Hc.
    - intros P Hf Hh. specialize (HP P Hf Hh). destruct (trim_hyphens_spec l') as (p & q & Hl & _).
      rewrite Hl, !Forall_app in HP. apply HP. }
  destruct (Hcollapse (result_runes name)) as (l' & Hl' & Hslug & Hc & HP).
  specialize (HP _ (result_runes_slug name) eq_refl). rewrite Hslug in Hc, HP.
  set (slug := join_words _) in *. split_and!; [unfold TeamNameToSlug; by rewrite Hl'; simpl; rewrite Hslug|done|].
  unfold TeamNameToSlug. rewrite result_runes_id by done. destruct (Hcollapse slug) as (l2 & Hl2 & Hslug2 & _).
  rewrite Hl2. simpl. rewrite Hslug2. f_equal. destruct (trim_hyphens_spec l') as (p & q & _ & _ & _ & Hh & Hla). rewrite Hslug in Hh, Hla.
  by apply join_words_id.
Qed.
End Theorems.

(** ** A table of ASCII and the letter "ä" *)
Module ToyUnicode.
#[export] Instance table : Unicode := {|
  unicode_ToLower r := if is_upper r then r + 32 else r;
  unicode_IsLetter r := is_upper r || is_lower r || (r =? 228);
  unicode_IsDigit := is_digit;
  unicode_IsMn r := r =? 776;
  NFD r := if r =? 228 then [97; 776] else [r] |}.
#[export] Instance table_laws : UnicodeLaws table.
Proof.
  split; intros r Hr; cbn; [done| |done| |];
    [by rewrite (proj2 (Z.eqb_neq r 228)), orb_false_r by lia|apply Z.eqb_neq; lia|by rewrite (proj2 (Z.eqb_neq r 228)) by lia].
Qed.
(** "My TEam  Näme!" and "my-team-name". *)
Definition name : list Z := [77; 121; 32; 84; 69; 97; 109; 32; 32; 78; 228; 109; 101; 33].
Definition slug : list Z := [109; 121; 45; 116; 101; 97; 109; 45; 110; 97; 109; 101].
End ToyUnicode.
Import ToyUnicode.

Lemma TeamNameToSlug_spec_witness :
  TeamNameToSlug name = Some slug ∧ TeamNameToSlug slug = Some slug.
Proof.
  destruct (TeamNameToSlug_spec (UL := table_laws) name) as (H1 & _ & H2).
  assert (join_words (words (result_runes name)) = slug) as Hs by (vm_compute; reflexivity).
  rewrite Hs in H1, H2. split; [exact H1|exact H2].
Defined.
