(* ===== verification/TeamGroups.v ===== *)
(** * The reconciliations of a team together

    [RequiredReconciliations] of internal/reconciler/teamrec/reconciler.go under the executor.  As for repositories
    (Groups), the world is a record of the parts that the reconciliations work on: the settings of the team in its
    current organizations, the team in former ones, its members, its roles and its external groups.  The slug of the
    team is determined by the first group and not changed by the second one. *)
From S2P Require Import Prelude GoErrors Conditions Executor ApiTypes TeamRec Parallel Groups Rely Ready.

Record TeamWorld (Base Refs Members Roles Idp E : Type) := {
  tg_base : Base; tg_refs : Refs; tg_members : Members; tg_roles : Roles; tg_idp : Idp; tg_env : E }.
Arguments tg_base {_ _ _ _ _ _}. Arguments tg_refs {_ _ _ _ _ _}. Arguments tg_members {_ _ _ _ _ _}.
Arguments tg_roles {_ _ _ _ _ _}. Arguments tg_idp {_ _ _ _ _ _}. Arguments tg_env {_ _ _ _ _ _}.

(** The same calls, with a slug that is known. *)
Definition at_slug {V} (A : TeamApi V) (slug : option string) : TeamApi V := {|
  TeamSlug := Ret slug; setSlugs := setSlugs; setPreviousOrganizationRefs := setPreviousOrganizationRefs;
  GetTeamBySlug := GetTeamBySlug; GetAllTeamsForOrg := GetAllTeamsForOrg; CreateTeam := CreateTeam; EditTeamBySlug := EditTeamBySlug;
  DeleteTeamBySlug := DeleteTeamBySlug; GetAllTeamMembers := GetAllTeamMembers; ListMembers := ListMembers; AddTeamMember := AddTeamMember;
  RemoveTeamMember := RemoveTeamMember; GetAllOrgRoles := GetAllOrgRoles; GetAllTeamsAssignedToOrgRole := GetAllTeamsAssignedToOrgRole;
  AddOrgRoleAssignmentForTeam := AddOrgRoleAssignmentForTeam; RemoveOrgRoleAssignmentForTeam := RemoveOrgRoleAssignmentForTeam;
  GetExternalGroupsForTeamBySlug := GetExternalGroupsForTeamBySlug; GetExternalGroupNamesToIDForOrg := GetExternalGroupNamesToIDForOrg;
  AddExternalGroupToTeamBySlug := AddExternalGroupToTeamBySlug; TeamRec.GetOrganization := TeamRec.GetOrganization |}.

Section Team.
Context {Base Refs Members Roles Idp E : Type} (o : MapOrder).
Context {AB : TeamApi Base} {AR : TeamApi Refs} {AM : TeamApi Members} {AO : TeamApi Roles} {AI : TeamApi Idp} {HE : Env E}.
(** [t.Team.Slug], which [reconcileTeam] sets. *)
Context (slug_of : Base → option string).
Let W := TeamWorld Base Refs Members Roles Idp E.

Definition team_base : Lens W Base := {| view := tg_base; put v w := {|
  tg_base := v; tg_refs := tg_refs w; tg_members := tg_members w; tg_roles := tg_roles w; tg_idp := tg_idp w; tg_env := tg_env w |}; view_put v w := eq_refl |}.
Definition team_refs : Lens W Refs := {| view := tg_refs; put v w := {|
  tg_base := tg_base w; tg_refs := v; tg_members := tg_members w; tg_roles := tg_roles w; tg_idp := tg_idp w; tg_env := tg_env w |}; view_put v w := eq_refl |}.
Definition team_members : Lens W Members := {| view := tg_members; put v w := {|
  tg_base := tg_base w; tg_refs := tg_refs w; tg_members := v; tg_roles := tg_roles w; tg_idp := tg_idp w; tg_env := tg_env w |}; view_put v w := eq_refl |}.
Definition team_roles : Lens W Roles := {| view := tg_roles; put v w := {|
  tg_base := tg_base w; tg_refs := tg_refs w; tg_members := tg_members w; tg_roles := v; tg_idp := tg_idp w; tg_env := tg_env w |}; view_put v w := eq_refl |}.
Definition team_idp : Lens W Idp := {| view := tg_idp; put v w := {|
  tg_base := tg_base w; tg_refs := tg_refs w; tg_members := tg_members w; tg_roles := tg_roles w; tg_idp := v; tg_env := tg_env w |}; view_put v w := eq_refl |}.
Definition team_surroundings : Lens W E := {| view := tg_env; put v w := {|
  tg_base := tg_base w; tg_refs := tg_refs w; tg_members := tg_members w; tg_roles := tg_roles w; tg_idp := tg_idp w; tg_env := v |}; view_put v w := eq_refl |}.

#[export] Instance team_env : Env W := {|
  resource w := resource (tg_env w);
  set_resource r w := put team_surroundings (set_resource r (tg_env w)) w;
  now w := now (tg_env w);
  apply_status_config w := let '(e, v) := apply_status_config (tg_env w) in (e, put team_surroundings v w);
  apply_metadata_config ls fs w := let '(e, v) := apply_metadata_config ls fs (tg_env w) in (e, put team_surroundings v w) |}.

(** A reconciliation that uses the slug of the team. *)
Definition with_slug {V A} (l : Lens W V) (p : option string → prog V A) : prog W A :=
  let! slug := gets (λ w, slug_of (tg_base w)) in lift l (p slug).

Context (r : GitHubTeamReconciler).

Definition TeamFirstGroup : list (Reconciliation W) :=
  [{| Function := lift team_base (reconcileTeam r); rec_Condition := TypeBaseSettingsSynced |}].
Definition TeamSecondGroup : list (Reconciliation W) := [
  {| Function := with_slug team_refs (λ slug, reconcileRemovedOrgRefs (A := at_slug AR slug) r); rec_Condition := TypeOutdatedOrganizationRefsSynced |};
  {| Function := with_slug team_members (λ slug, reconcileTeamMembers o (A := at_slug AM slug) r); rec_Condition := TypeTeamMembersSynced |};
  {| Function := with_slug team_roles (λ slug, reconcileTeamRoleAssignments (A := at_slug AO slug) r); rec_Condition := TypeTeamRoleAssignmentsSynced |};
  {| Function := with_slug team_idp (λ slug, reconcileIDPGroup (A := at_slug AI slug) r); rec_Condition := TypeIDPTeamGroupSettingsSynced |} ].

(** A team has no sub-resources. *)
Definition TeamReconciler : Reconciler W := {|
  RequiredReconciliations := [TeamFirstGroup; TeamSecondGroup];
  FinalizerName := "team.github.interhyp.de/finalizer";
  ReconcileDeletion := lift team_base (ReconcileTeamDeletion r);
  GetAdditionalLabels := ∅;
  CurrentSubResourceGenerations := None |}.

(** ** The second group *)
Definition team_parts (i : nat) : relation W :=
  match i with
  | 0 => agree (λ w, (slug_of (tg_base w), tg_refs w)) | 1 => agree (λ w, (slug_of (tg_base w), tg_members w))
  | 2 => agree (λ w, (slug_of (tg_base w), tg_roles w)) | 3 => agree (λ w, (slug_of (tg_base w), tg_idp w)) | _ => agree (λ _, tt)
  end%nat.
#[local] Instance team_parts_equivalence i : Equivalence (team_parts i).
Proof. unfold team_parts. repeat case_match; apply _. Qed.

Ltac solve_team_parts :=
  unfold team_parts, agree; intros;
  repeat match goal with |- context [match ?j with O => _ | S _ => _ end] => destruct j end; simpl in *; congruence.

Lemma alike_with_slug {V A} i (l : Lens W V) (p : option string → prog V A) :
  (∀ w1 w2, team_parts i w1 w2 → slug_of (tg_base w1) = slug_of (tg_base w2)) →
  (∀ slug, alike team_parts eq i (lift l (p slug)) (lift l (p slug))) →
  alike team_parts eq i (with_slug l p) (with_slug l p).
Proof. intros Hslug Hp. simpl. split_and!; [reflexivity|done|]. intros w1 w2 Hw. by rewrite (Hslug w1 w2 Hw). Qed.

Lemma TeamSecondGroup_alike i rec :
  TeamSecondGroup !! i = Some rec → alike team_parts eq i (Function rec) (Function rec).
Proof.
  intros Hi. unfold TeamSecondGroup in Hi.
  do 4 (destruct i as [|i]; [injection Hi as <-; cbn [Function];
    apply alike_with_slug; [solve_team_parts|intros slug]; apply alike_lift; solve_team_parts|]). done.
Qed.

Lemma leaves_lift {V X A} (f : W → X) (l : Lens W V) (p : prog V A) : (∀ v w, f (put l v w) = f w) → leaves f (lift l p).
Proof.
  intros Hl. induction p as [a|B op k IH]; intros w; [apply leaves_ret|]. cbn [lift guards]. intros w' Hw _.
  destruct (op (view l w')) as [b v]. split_and!; [done|apply Hl|apply IH].
Qed.

Lemma TeamSecondGroup_base : Forall (λ rec, leaves tg_base (Function rec)) TeamSecondGroup.
Proof.
  unfold TeamSecondGroup. repeat (apply Forall_cons; split; [cbn [Function]; apply leaves_bind; [apply leaves_gets|intros slug; by apply leaves_lift]|]).
  constructor.
Qed.

(** A part that the first group does not work on. *)
Lemma base_keeps {V A} (l : Lens W V) (p : prog Base A) w :
  (∀ v w, view l (put team_base v w) = view l w) → view l (run (lift team_base p) w).2 = view l w.
Proof.
  intros Hl. revert w. induction p as [a|B op k IH]; intros w; [done|]. cbn [lift run].
  destruct (op (view team_base w)) as [b v]. by rewrite IH.
Qed.

Lemma team_reconciled scheds w rs w' :
  run (runReconciliations scheds TeamReconciler) w = ((rs, None), w') → Forall (λ res, Stop res = None) rs →
  let b := tg_base w' in
  run (reconcileTeam r) (tg_base w) = (None, b) ∧
    run (reconcileRemovedOrgRefs (A := at_slug AR (slug_of b)) r) (tg_refs w) = (None, tg_refs w') ∧
    run (reconcileTeamMembers o (A := at_slug AM (slug_of b)) r) (tg_members w) = (None, tg_members w') ∧
    run (reconcileTeamRoleAssignments (A := at_slug AO (slug_of b)) r) (tg_roles w) = (None, tg_roles w') ∧
    run (reconcileIDPGroup (A := at_slug AI (slug_of b)) r) (tg_idp w) = (None, tg_idp w').
Proof.
  intros Hrun Hstop. unfold runReconciliations in Hrun. cbn [RequiredReconciliations TeamReconciler] in Hrun.
  apply run_groups_clean in Hrun as (grs1 & w1 & Hg1 & Hclean1 & Hrun); [|done].
  apply run_groups_clean in Hrun as (grs2 & w2 & Hg2 & Hclean2 & Hrun); [|done]. injection Hrun as _ <-.
  destruct (single_reconciliation (scheds 0%nat)
    {| Function := lift team_base (reconcileTeam r); rec_Condition := TypeBaseSettingsSynced |} w) as (res & Hres & Herr).
  unfold TeamFirstGroup in Hg1. rewrite Hg1 in Hres. injection Hres as -> Hw1. cbn [Function] in Herr, Hw1.
  assert (rr_Error res = None) as Hnone by (by apply Forall_cons in Hclean1 as [? _]). rewrite Hnone in Herr.
  destruct (run_lift team_base (reconcileTeam r) w) as [H1 H2]. rewrite <-Hw1 in H2. rewrite H1 in Herr.
  pose proof (group_leaves (W := W) tg_base (scheds 1%nat) TeamSecondGroup w1 TeamSecondGroup_base) as Hb. rewrite Hg2 in Hb. cbn [snd] in Hb.
  cbv zeta. rewrite Hb. split.
  { change (run (reconcileTeam r) (view team_base w) = (None, view team_base w1)). rewrite H2, Herr. by destruct (run _ (view team_base w)). }
  pose proof (λ V i rec (l : Lens W V) p, group_part team_parts (scheds 1%nat) TeamSecondGroup w1 grs2 w2 i rec l p TeamSecondGroup_alike Hg2 Hclean2) as Hpart.
  pose proof (base_keeps team_refs (reconcileTeam r) w (λ _ _, eq_refl)) as E0. pose proof (base_keeps team_members (reconcileTeam r) w (λ _ _, eq_refl)) as E1.
  pose proof (base_keeps team_roles (reconcileTeam r) w (λ _ _, eq_refl)) as E2. pose proof (base_keeps team_idp (reconcileTeam r) w (λ _ _, eq_refl)) as E3.
  rewrite <-Hw1 in E0, E1, E2, E3. cbn [view team_refs team_members team_roles team_idp] in *. rewrite <-E0, <-E1, <-E2, <-E3.
  split_and!; [eapply (Hpart _ 0%nat _ team_refs)|eapply (Hpart _ 1%nat _ team_members)|eapply (Hpart _ 2%nat _ team_roles)|eapply (Hpart _ 3%nat _ team_idp)];
    first [reflexivity|solve_team_parts].
Qed.
End Team.

(** ** What Ready means for a team *)
Section Ready.
Context {Base Refs Members Roles Idp E : Type} (o : MapOrder).
Context {AB : TeamApi Base} {AR : TeamApi Refs} {AM : TeamApi Members} {AO : TeamApi Roles} {AI : TeamApi Idp}.
Context {KH : K8sHelpers} {KL : K8sHelpersLaws KH} {HE : Env E} {EL : EnvLaws HE}.
(** What GitHub has of teams, of those in former organizations, of members, of roles and of external groups. *)
Context (slug_of : Base → option string) (teams_of : Base → string → gmap string gh_Team) (slugify : string → string).
Context (former_teams_of : Refs → string → gmap string gh_Team) (previous_of : Refs → list string).
Context (members_of people_of : Members → string → gset string).
Context (roles_of : Roles → string → list OrgRole) (assigned_of : Roles → string → gset Z).
Context (linked_of : Idp → string → gset string) (available_of : Idp → string → gmap string Z).
Context {LT : TeamLaws slug_of teams_of slugify}.
Context (r : GitHubTeamReconciler).
Let W := TeamWorld Base Refs Members Roles Idp E.
Let team := TeamResource r.

#[export] Instance team_env_laws : EnvLaws (team_env (Base := Base) (Refs := Refs) (Members := Members) (Roles := Roles) (Idp := Idp) (HE := HE)).
Proof.
  split.
  - intros x w. exact (resource_set (HE := HE) x (tg_env w)).
  - intros w. simpl. pose proof (apply_status_resource (tg_env w)). by destruct (apply_status_config (tg_env w)).
  - intros ls fs w. simpl. pose proof (apply_metadata_resource ls fs (tg_env w)). by destruct (apply_metadata_config ls fs (tg_env w)).
Qed.

Definition team_on_github (w : W) := (tg_base w, tg_refs w, tg_members w, tg_roles w, tg_idp w).
#[export] Instance team_on_github_undisturbed : Undisturbed team_on_github.
Proof.
  split; [done|..].
  - intros w. simpl. by destruct (apply_status_config (tg_env w)).
  - intros ls fs w. simpl. by destruct (apply_metadata_config ls fs (tg_env w)).
Qed.

(** C3: what the status of a team promises: if after a run of the executor the Ready condition is True because all is
    synced, then, whatever the order in which the goroutines ran, in every current organization the team exists with
    the declared settings and has, of the roles of the organization, exactly the declared ones; the organizations it left
    no longer have it under its slug, and the current ones are recorded as those to leave one day.  A team without an
    external group has in every current organization exactly those declared members that GitHub knows.  A team with
    an external group keeps its members as they are, and is linked to the group in every current organization that offers
    it, if the cluster has an organization of the enterprise plan whose Kubernetes name is the login of this one. *)
Theorem ready_team_synced (k8s : string → res Organization) scheds w ret w' :
  GetDeletionTimestamp (resource w) = None →
  run (Reconcile scheds (TeamReconciler o slug_of r)) w = (ret, w') → says_all_synced w' →
  let slug := slug_of (tg_base w') in
  TeamDeletionLaws (A := at_slug AR slug) (λ _, slug) former_teams_of previous_of →
  MembersLaws (A := at_slug AM slug) (λ _, slug) members_of people_of →
  (∀ name v, run (TeamRec.GetOrganization (TeamApi := AM) (Namespace (t_Meta team)) name) v = (k8s name, v)) →
  GroupLaws (A := at_slug AI slug) (λ _, slug) linked_of available_of →
  (∀ name v, run (TeamRec.GetOrganization (TeamApi := AI) (Namespace (t_Meta team)) name) v = (k8s name, v)) →
  RoleLaws (A := at_slug AO slug) (λ _, slug) roles_of assigned_of →
  (∀ org, org ∈ Current r →
    team_synced r slug_of teams_of slugify (tg_base w') org ∧
    match t_IDPGroup (t_Spec team) with
    | None => ∃ suffix, suffix_of r k8s org suffix ∧ ∀ m, m ∈ members_of (tg_members w') org ↔
        (∃ ref, ref ∈ t_Members (t_Spec team) ∧ m = ref +:+ suffix) ∧ (m ∈ members_of (tg_members w) org ∨ m ∈ people_of (tg_members w) org)
    | Some group => tg_members w' = tg_members w ∧
        ((∃ k8sOrg, k8s org = inl k8sOrg ∧ GetPlan k8sOrg = PlanEnterprise) →
          group ∈ linked_of (tg_idp w') org ↔ group ∈ linked_of (tg_idp w) org ∨ is_Some (available_of (tg_idp w) org !! group))
    end ∧
    ∀ x name, x ∈ roles_of (tg_roles w) org → or_Name x = Some name →
      (or_ID x ∈ assigned_of (tg_roles w') org ↔ name ∈ t_OrganizationRoles (t_Spec team))) ∧
  (∀ org, org ∈ Previous r → org ∉ Current r → former_teams_of (tg_refs w') org !! WithDefault slug "" = None) ∧
  previous_of (tg_refs w') = t_OrganizationRefs (t_Spec team).
Proof.
  intros Hdel Hrun Hsays slug LR LM Hk8s LI Hk8s' LO.
  destruct (Reconcile_all_synced team_on_github _ _ _ _ _ Hdel Hrun Hsays) as (w1 & rs & w2 & H1 & Hrs & Hstop & H2).
  unfold team_on_github in H1, H2. injection H1 as E1 E2 E3 E4 E5. injection H2 as Hb Hr Hm Ho Hi.
  apply team_reconciled in Hrs as (Hteam & Hrefs & Hmem & Hroles & Hidp); [|done].
  rewrite <-Hb, E1, ?E2, ?E3, ?E4, ?E5 in *. fold slug in Hrefs, Hmem, Hroles, Hidp.
  rewrite <-Hr in Hrefs. rewrite <-Hm in Hmem. rewrite <-Ho in Hroles. rewrite <-Hi in Hidp.
  apply (reconcileTeam_spec r slug_of teams_of slugify) in Hteam as [Hteam _].
  pose proof (reconcileRemovedOrgRefs_spec (A := at_slug AR slug) r (λ _, slug) former_teams_of previous_of (tg_refs w)) as Hformer.
  rewrite Hrefs in Hformer. destruct Hformer as [Hformer Hprev].
  apply (reconcileTeamRoleAssignments_spec (A := at_slug AO slug) r (λ _, slug) roles_of assigned_of) in Hroles as [Hroles _].
  split_and!; [|intros org Hp Hc; rewrite Hformer, decide_True by done; apply lookup_delete_eq|done].
  intros org Hc. split_and!; [by apply Hteam| |intros x name Hx Hn; by apply (Hroles org)].
  destruct (t_IDPGroup (t_Spec team)) as [group|] eqn:Hg.
  - split.
    + unfold reconcileTeamMembers, IsIDPTeam in Hmem. fold team in Hmem. rewrite Hg, bool_decide_eq_true_2 in Hmem by by eexists.
      by injection Hmem.
    + apply (reconcileIDPGroup_spec (A := at_slug AI slug) r (λ _, slug) linked_of available_of k8s group) in Hidp as [Hidp _]; [by apply Hidp|done..].
  - apply (reconcileTeamMembers_spec (A := at_slug AM slug) o r (λ _, slug) members_of people_of k8s) in Hmem as [Hmem _];
      [by apply Hmem|done|]. unfold IsIDPTeam. fold team. by rewrite Hg.
Qed.
End Ready.

(** ** A concrete run *)
Module ToyTeamGroups.
Import SimpleHelpers ToyTeams ToyWorld.

(** The team goes by its slug in the list of the teams with a role. *)
Definition roles_api : TeamApi ToyTeams.world := {|
  TeamSlug := TeamSlug; setSlugs := setSlugs; setPreviousOrganizationRefs := setPreviousOrganizationRefs;
  GetTeamBySlug := GetTeamBySlug; GetAllTeamsForOrg := GetAllTeamsForOrg; CreateTeam := CreateTeam; EditTeamBySlug := EditTeamBySlug;
  DeleteTeamBySlug := DeleteTeamBySlug; GetAllTeamMembers := GetAllTeamMembers; ListMembers := ListMembers; AddTeamMember := AddTeamMember;
  RemoveTeamMember := RemoveTeamMember; GetAllOrgRoles := GetAllOrgRoles;
  GetAllTeamsAssignedToOrgRole org name := gets (λ w,
    inl (if held w org name then ["platform"] else []));
  AddOrgRoleAssignmentForTeam := AddOrgRoleAssignmentForTeam; RemoveOrgRoleAssignmentForTeam := RemoveOrgRoleAssignmentForTeam;
  GetExternalGroupsForTeamBySlug := GetExternalGroupsForTeamBySlug; GetExternalGroupNamesToIDForOrg := GetExternalGroupNamesToIDForOrg;
  AddExternalGroupToTeamBySlug := AddExternalGroupToTeamBySlug; TeamRec.GetOrganization := TeamRec.GetOrganization |}.

Lemma refs_laws slug : TeamDeletionLaws (A := at_slug ToyTeams.api slug) (λ _, slug) teams_of tw_previous.
Proof.
  split; [done| |done]. intros w org s. destruct (team_delete slug_of teams_of tw_previous w org s) as (_ & ? & ? & ?). by split_and!.
Qed.
Lemma roles_laws : RoleLaws (A := at_slug roles_api (Some "platform")) (λ _, Some "platform") roles assigned_of.
Proof.
  split; try done; try exact (role_names slug_of roles assigned_of); try exact (role_ids slug_of roles assigned_of);
    unfold succeeds, effect, assigned_become.
  - intros w org r name Hr Hn. cbn [GetAllTeamsAssignedToOrgRole at_slug roles_api]. rewrite run_gets. split; [done|]. by apply role_held.
  - intros w org id. simpl. unfold assigned_of. simpl. split_and!; [apply at_org_insert| |done|done]. intros. by apply at_org_insert_ne.
  - intros w org id. simpl. unfold assigned_of. simpl. split_and!; [apply at_org_insert| |done|done]. intros. by apply at_org_insert_ne.
Qed.

(** The organizations have a Kubernetes resource of the name of their login, and offer the group "idp". *)
Definition k8s (name : string) : res Organization := inl (Samples.org Samples.no_actions [] [] []).
Definition with_cluster {V} (A : TeamApi V) (groups : string → prog V (res (list (option string))))
    (add : string → prog V (option gerror)) : TeamApi V := {|
  TeamSlug := TeamSlug; setSlugs := setSlugs; setPreviousOrganizationRefs := setPreviousOrganizationRefs;
  GetTeamBySlug := GetTeamBySlug; GetAllTeamsForOrg := GetAllTeamsForOrg; CreateTeam := CreateTeam; EditTeamBySlug := EditTeamBySlug;
  DeleteTeamBySlug := DeleteTeamBySlug; GetAllTeamMembers := GetAllTeamMembers; ListMembers := ListMembers; AddTeamMember := AddTeamMember;
  RemoveTeamMember := RemoveTeamMember; GetAllOrgRoles := GetAllOrgRoles; GetAllTeamsAssignedToOrgRole := GetAllTeamsAssignedToOrgRole;
  AddOrgRoleAssignmentForTeam := AddOrgRoleAssignmentForTeam; RemoveOrgRoleAssignmentForTeam := RemoveOrgRoleAssignmentForTeam;
  GetExternalGroupsForTeamBySlug org _ := groups org; GetExternalGroupNamesToIDForOrg _ := Ret (inl {[ "idp" := 5 ]});
  AddExternalGroupToTeamBySlug org _ _ := add org; TeamRec.GetOrganization _ name := Ret (k8s name) |}.
Definition members_api : TeamApi ToyTeams.world := with_cluster ToyTeams.api (λ _, Ret (inl [])) (λ _, Ret None).
Lemma members_laws slug : MembersLaws (A := at_slug members_api slug) (λ _, slug) members_of people.
Proof.
  split; [done| | | |]; intros w org; unfold succeeds, effect, members_become; simpl.
  - by rewrite logins_elements.
  - by rewrite logins_elements.
  - intros m. unfold members_of. simpl. split_and!; [apply at_org_insert| |done|done]. intros. by apply at_org_insert_ne.
  - intros m. unfold members_of. simpl. split_and!; [apply at_org_insert| |done|done]. intros. by apply at_org_insert_ne.
Qed.
(** The part of the world is the set of the organizations where the group is linked. *)
Definition idle : TeamApi (gset string) := {|
  TeamSlug := Ret None; setSlugs _ := Ret tt; setPreviousOrganizationRefs _ := Ret tt;
  GetTeamBySlug _ _ := Ret (inr notFoundStatus); GetAllTeamsForOrg _ := Ret (inl []); CreateTeam _ _ := Ret (inr notFoundStatus);
  EditTeamBySlug _ _ _ := Ret (inr notFoundStatus); DeleteTeamBySlug _ _ := Ret None; GetAllTeamMembers _ _ := Ret (inl []);
  ListMembers _ := Ret (inl []); AddTeamMember _ _ _ := Ret None; RemoveTeamMember _ _ _ := Ret None; GetAllOrgRoles _ := Ret (inl []);
  GetAllTeamsAssignedToOrgRole _ _ := Ret (inl []); AddOrgRoleAssignmentForTeam _ _ _ := Ret None;
  RemoveOrgRoleAssignmentForTeam _ _ _ := Ret None; GetExternalGroupsForTeamBySlug _ _ := Ret (inl []);
  GetExternalGroupNamesToIDForOrg _ := Ret (inl ∅); AddExternalGroupToTeamBySlug _ _ _ := Ret None;
  TeamRec.GetOrganization _ _ := Ret (inr notFoundStatus) |}.
Definition linked_of (w : gset string) (org : string) : gset string := if bool_decide (org ∈ w) then {[ "idp" ]} else ∅.
Definition available_of (_ : gset string) (_ : string) : gmap string Z := {[ "idp" := 5 ]}.
Definition groups_api : TeamApi (gset string) := with_cluster idle
  (λ org, gets (λ w, inl (if bool_decide (org ∈ w) then [Some "idp"] else []))) (λ org, call (λ w, (None, {[ org ]} ∪ w))).

Lemma groups_laws slug : GroupLaws (A := at_slug groups_api slug) (λ _, slug) linked_of available_of.
Proof.
  split; [done|..]; unfold succeeds, effect, linked_of, available_of; simpl.
  - intros w org. split; [done|]. case_bool_decide; [|done]. unfold logins. simpl. set_solver.
  - done.
  - intros w org group id. rewrite lookup_singleton_Some. intros [<- _]. split_and!; [|intros org' Hne|done..].
    + rewrite bool_decide_eq_true_2 by set_solver. set_solver.
    + by rewrite (bool_decide_ext (org' ∈ {[ org ]} ∪ w) (org' ∈ w)) by set_solver.
Qed.

Definition team_world := {|
  tg_base := TeamRec.start; tg_refs := TeamRec.start; tg_members := TeamRec.start; tg_roles := TeamRec.start; tg_idp := (∅ : gset string); tg_env := ToyWorld.start None |}.
Definition team_reconciler := TeamReconciler (E := ToyWorld.world) (AB := ToyTeams.api) (AR := ToyTeams.api) (AM := members_api) (AO := roles_api) (AI := groups_api)
  default_order slug_of.
Definition turns (_ : nat) : list nat := concat (replicate 20 [3; 2; 1; 0]%nat).
Definition team_done := run (Reconcile turns (team_reconciler with_suffix)) team_world.

(** The same team with an external group. *)
Definition idp_team : GitHubTeamReconciler := {| Current := ["acme"; "beta"]; Previous := ["gone"]; MemberSuffix := "_x";
  TeamResource := {| t_Meta := t_Meta platform; t_Status := t_Status platform; t_Spec := {| t_Name := "platform"; t_Members := [];
    t_IDPGroup := Some "idp"; t_Description := "d"; t_Privacy := ""; t_Permission := ""; t_NotificationSetting := "";
    t_OrganizationRoles := ["reader"]; t_OrganizationRefs := ["acme"; "beta"] |} |} |}.
Definition idp_done := run (Reconcile turns (team_reconciler idp_team)) team_world.
End ToyTeamGroups.

Section Witness.
Import SimpleHelpers ToyTeams ToyWorld ToyTeamGroups.

(** The team was called "old"; the role with the id 2 is declared, the one with the id 1 is not; with an external group
    the member "dora" stays, and the group is linked. *)
Lemma ready_team_synced_witness :
  team_synced with_suffix slug_of teams_of slugify (tg_base team_done.2) "acme" ∧
  ("dora" ∈ members_of (tg_members team_done.2) "acme" → False) ∧
  (2 ∈ assigned_of (tg_roles team_done.2) "acme" ∧ 1 ∉ assigned_of (tg_roles team_done.2) "acme") ∧
  teams_of (tg_refs team_done.2) "gone" !! "platform" = None ∧
  tg_members idp_done.2 = TeamRec.start ∧ "idp" ∈ linked_of (tg_idp idp_done.2) "beta".
Proof.
  assert (slug_of (tg_base team_done.2) = Some "platform") as Hslug by (vm_compute; reflexivity).
  assert (slug_of (tg_base idp_done.2) = Some "platform") as Hslug' by (vm_compute; reflexivity).
  destruct (ready_team_synced (AB := ToyTeams.api) (AR := ToyTeams.api) (AM := members_api) (AO := roles_api) (AI := groups_api) default_order
    slug_of teams_of slugify teams_of tw_previous members_of people roles assigned_of linked_of available_of with_suffix k8s turns team_world
    team_done.1 team_done.2) as (H & Hf & _);
    [reflexivity|vm_compute; reflexivity|apply (all_synced_at_Some _ 100); vm_compute; reflexivity|apply refs_laws|apply members_laws|done
    |apply groups_laws|done|rewrite Hslug; apply roles_laws|].
  destruct (ready_team_synced (AB := ToyTeams.api) (AR := ToyTeams.api) (AM := members_api) (AO := roles_api) (AI := groups_api) default_order
    slug_of teams_of slugify teams_of tw_previous members_of people roles assigned_of linked_of available_of idp_team k8s turns team_world
    idp_done.1 idp_done.2) as (Hidp & _);
    [reflexivity|vm_compute; reflexivity|apply (all_synced_at_Some _ 100); vm_compute; reflexivity|apply refs_laws|apply members_laws|done
    |apply groups_laws|done|rewrite Hslug'; apply roles_laws|].
  rewrite Hslug in Hf. clear Hslug Hslug'. revert H Hf Hidp. generalize (team_done.2) (idp_done.2). intros w' w2 H Hf Hidp.
  destruct (H "acme") as (Ht & (suffix & Hsuf & Hmem) & Hro); [apply list_elem_of_here|].
  destruct (Hidp "beta") as (_ & (Hsame & Hlinked) & _); [apply list_elem_of_further, list_elem_of_here|].
  refine (conj Ht (conj _ (conj (conj _ _) (conj _ (conj Hsame _))))).
  - intros Hd. apply Hmem in Hd as [(ref & Hr & Heq) _]. destruct Hsuf as [[_ ->]|[Hx _]]; [|done].
    repeat (apply elem_of_cons in Hr as [->|Hr]; [done|]). by apply elem_of_nil in Hr.
  - apply (Hro {| or_Name := Some "reader"; or_ID := 2 |} "reader"); [set_solver|done|apply list_elem_of_here].
  - intros Hi. apply (Hro {| or_Name := Some "admin"; or_ID := 1 |} "admin") in Hi; [set_solver|set_solver|done].
  - apply (Hf "gone"); set_solver.
  - apply Hlinked; [eexists; split; reflexivity|right; eexists; reflexivity].
Defined.
End Witness.
