(* ===== verification/Process.v ===== *)
(** * From the command line to the running manager (cmd/main.go)

    The flags with their defaults, the options of the servers and of the logger that follow from them, and [main]: the
    order in which the parts of the operator are created, registered and started.  The libraries that do it are an
    interface. *)
From Stdlib Require Import Ascii.
From S2P Require Import Prelude GoErrors GoStrings Config Spreading Conditions ApiTypes PresetIndex Executor Requeue ClientFactory Factory Watches Events Main.

(** ** Flags *)
Record Flags := {
  metricsAddr : string;
  probeAddr : string;
  enableLeaderElection : bool;
  secureMetrics : bool;
  webhookCertPath : string;
  webhookCertName : string;
  webhookCertKey : string;
  webhookPort : Z;
  metricsCertPath : string;
  metricsCertName : string;
  metricsCertKey : string;
  appCredentialsSecretName : string;
  enableHTTP2 : bool;
  envFile : string
}.
Definition default_flags : Flags := {|
  metricsAddr := "0"; probeAddr := ":8081"; enableLeaderElection := false; secureMetrics := true;
  webhookCertPath := ""; webhookCertName := "tls.crt"; webhookCertKey := "tls.key"; webhookPort := 9443;
  metricsCertPath := ""; metricsCertName := "tls.crt"; metricsCertKey := "tls.key";
  appCredentialsSecretName := "git-hubby-app-credentials"; enableHTTP2 := false; envFile := ".env" |}.

(** ** Options of the servers *)
(** The part of [tls.Config] that is set. *)
Record TLSConfig := { NextProtos : list string }.
Definition disableHTTP2 (_ : TLSConfig) : TLSConfig := {| NextProtos := ["http/1.1"] |}.
Definition tlsOpts (f : Flags) : list (TLSConfig → TLSConfig) := if enableHTTP2 f then [] else [disableHTTP2].

Record ServerOptions := {
  so_TLSOpts : list (TLSConfig → TLSConfig);
  so_BindAddress : string;
  so_Port : Z;
  so_Secure : bool;             (* SecureServing, and the filter for authentication and authorization *)
  so_CertDir : string;
  so_CertName : string;
  so_KeyName : string
}.
Definition webhookServerOptions (f : Flags) : ServerOptions :=
  let cert := bool_decide (0 < Z.of_nat (String.length (webhookCertPath f))) in {|
  so_TLSOpts := tlsOpts f; so_BindAddress := ""; so_Port := webhookPort f; so_Secure := false;
  so_CertDir := if cert then webhookCertPath f else ""; so_CertName := if cert then webhookCertName f else "";
  so_KeyName := if cert then webhookCertKey f else "" |}.
Definition metricsServerOptions (f : Flags) : ServerOptions :=
  let cert := bool_decide (0 < Z.of_nat (String.length (metricsCertPath f))) in {|
  so_TLSOpts := tlsOpts f; so_BindAddress := metricsAddr f; so_Port := 0; so_Secure := secureMetrics f;
  so_CertDir := if cert then metricsCertPath f else ""; so_CertName := if cert then metricsCertName f else "";
  so_KeyName := if cert then metricsCertKey f else "" |}.

Record ManagerOptions := {
  mo_Metrics : ServerOptions;
  mo_WebhookServer : ServerOptions;
  mo_HealthProbeBindAddress : string;
  mo_LeaderElection : bool;
  mo_LeaderElectionID : string;
  mo_LeaderElectionReleaseOnCancel : bool;
  mo_Namespaces : gset string
}.
Definition mgrOptions (f : Flags) (namespaces : gset string) : ManagerOptions := {|
  mo_Metrics := metricsServerOptions f; mo_WebhookServer := webhookServerOptions f; mo_HealthProbeBindAddress := probeAddr f;
  mo_LeaderElection := enableLeaderElection f; mo_LeaderElectionID := "6cee1c41.interhyp.de";
  mo_LeaderElectionReleaseOnCancel := true; mo_Namespaces := namespaces |}.

(** The configuration of a server when its options have been applied. *)
Definition tls_of (o : ServerOptions) (c : TLSConfig) : TLSConfig := foldl (λ c f, f c) c (so_TLSOpts o).

(** ** The logger *)
Section Logger.
(** Levels, and their names as zap reads them. *)
Context {Level : Type} (InfoLevel : Level) (UnmarshalText : string → res Level).
Definition parseLogLevel (value : string) : Level * bool :=
  let value := strings_TrimSpace (lower value) in
  if bool_decide (value = "") then (InfoLevel, false)
  else match UnmarshalText value with inr _ => (InfoLevel, false) | inl level => (level, true) end.
End Logger.

Inductive LoggerOpt :=
  | UseFlagOptions              (* the level of the flags, or of LOG_LEVEL *)
  | WrapLogMapper               (* Logging.NewLogMapper with its default configuration *)
  | JSONEncoder (ecs : bool)
  | WrapECSCore
  | ConsoleEncoder.
Definition buildLoggerOpts (format : string) : list LoggerOpt :=
  [UseFlagOptions; WrapLogMapper] ++
  (if bool_decide (format = logFormatECS) then [JSONEncoder true; WrapECSCore]
   else if bool_decide (format = logFormatConsole) then [ConsoleEncoder]
   else [JSONEncoder false]).

(** ** [main] *)
Class ProcessApi (V : Type) := {
  Level : Type;
  InfoLevel : Level;
  UnmarshalText : string → res Level;
  godotenv_Load : list string → prog V (option gerror);
  is_ErrNotExist : gerror → bool;
  config_Parse : prog V (res Config);
  time_Now : prog V Z;
  SetLogger : option Level → list LoggerOpt → prog V unit;
  ctrl_NewManager : ManagerOptions → prog V (option gerror);
  NewDirectClient : prog V (option gerror);
  mgr_Add : Manager → prog V (option gerror);
  CompleteWebhook : string → prog V (option gerror);
  AddHealthzCheck : string → prog V (option gerror);
  AddReadyzCheck : string → prog V (option gerror);
  mgr_Start : prog V (option gerror)
}.

Section Main.
Context {P : CryptoPackages} {G : GitHubPackage} {V W : Type} {C : CachedClient W} {I : PresetReader W}.
Context {M : CtrlManager V W} {A : ProcessApi V}.

Definition SetupOrganizationWebhookWithManager : prog V (option gerror) := CompleteWebhook "Organization".
Definition SetupRepositoryWebhookWithManager : prog V (option gerror) := CompleteWebhook "Repository".

(** The environment; a missing env file is no error. *)
Definition load_env (f : Flags) : prog V (option gerror) :=
  let! err := godotenv_Load (strings_Split (envFile f) ","%char) in
  Ret (match err with Some e => if is_ErrNotExist e then None else Some e | None => None end).

Definition set_logger (cfg : Config) : prog V unit :=
  let '(level, ok) := parseLogLevel InfoLevel UnmarshalText (LogLevel cfg) in
  SetLogger (if ok then Some level else None) (buildLoggerOpts (parseLogFormat (LogFormat cfg))).

(** [main]; an error ends the process. *)
Definition main (f : Flags) : prog V (option gerror) :=
  check load_env f in
  let! parsed := config_Parse in
  match parsed with
  | inr err => Ret (Some err)
  | inl cfg =>
    let! _ := set_logger cfg in
    match setupCacheNamespaces (WatchNamespace cfg) with
    | inr err => Ret (Some err)
    | inl namespaces =>
      check ctrl_NewManager (mgrOptions f namespaces) in
      check NewDirectClient in
      let! now := time_Now in
      check mgr_Add (NewManager cfg now) in
      check main_controllers in
      check (if EnableWebhooks (cfg_Features cfg) then check SetupOrganizationWebhookWithManager in SetupRepositoryWebhookWithManager
        else Ret None) in
      check AddHealthzCheck "healthz" in
      check AddReadyzCheck "readyz" in
      check (if EnableWebhooks (cfg_Features cfg) then AddReadyzCheck "webhook" else Ret None) in
      mgr_Start
    end
  end.

(** ** What is done in which order *)
Inductive StartAct :=
  | ActManager (o : ManagerOptions) | ActClient | ActSpreading (m : Manager) | ActIndex (field : string) | ActController (name : string)
  | ActWebhook (kind : string) | ActHealthz | ActReadyz (name : string) | ActStart.

(** The acts of the past; a failed one counts. *)
Context (log : V → list StartAct).
Definition does {B} (p : prog V B) (a : list StartAct) : Prop := ∀ v, log (run p v).2 = log v ++ a.
Class ProcessLaws : Prop := {
  does_load paths : does (godotenv_Load paths) [];
  does_parse : does config_Parse [];
  does_now : does time_Now [];
  does_logger level opts : does (SetLogger level opts) [];
  does_manager o : does (ctrl_NewManager o) [ActManager o];
  does_client : does NewDirectClient [ActClient];
  does_add m : does (mgr_Add m) [ActSpreading m];
  does_index_organization field index : does (IndexOrganization field index) [ActIndex field];
  does_index_repository field index : does (IndexRepository field index) [ActIndex field];
  does_index_team field index : does (IndexTeam field index) [ActIndex field];
  does_index_preset field index : does (IndexRulesetPreset field index) [ActIndex field];
  does_complete b : does (Complete b) [ActController (b_Named b)];
  does_webhook kind : does (CompleteWebhook kind) [ActWebhook kind];
  does_healthz name : does (AddHealthzCheck name) [ActHealthz];
  does_readyz name : does (AddReadyzCheck name) [ActReadyz name];
  does_start : does mgr_Start [ActStart]
}.
Context {L : ProcessLaws}.

(** A program does a list of acts in its order, up to the first that fails. *)
Definition performs (p : prog V (option gerror)) (l : list StartAct) : Prop := ∀ v,
  ∃ done, done `prefix_of` l ∧ log (run p v).2 = log v ++ done ∧ ((run p v).1 = None → done = l).

Lemma performs_one p a : does p [a] → performs p [a].
Proof. intros Hp v. by exists [a]. Qed.
Lemma performs_none : performs (Ret None) [].
Proof. intros v. exists []. by rewrite app_nil_r. Qed.
Lemma performs_check p q l1 l2 : performs p l1 → performs q l2 → performs (check p in q) (l1 ++ l2).
Proof.
  intros Hp Hq v. rewrite run_bind. destruct (Hp v) as (d1 & H1 & Hl1 & He1).
  destruct (run p v) as [[err|] v1]; cbn [fst snd] in *.
  - exists d1. split_and!; [by apply prefix_app_r|done|done].
  - rewrite (He1 eq_refl) in Hl1. destruct (Hq v1) as (d2 & H2 & Hl2 & He2). exists (l1 ++ d2).
    split_and!; [by apply prefix_app|by rewrite Hl2, Hl1, app_assoc|]. intros H. by rewrite (He2 H).
Qed.
Definition controllers_sequence : list StartAct :=
  [ActIndex "spec.extends"; ActIndex rulesetPresetsNameIndex; ActIndex rulesetPresetsNameIndex;
   ActIndex "spec.codeSecurityConfigurationAttachments.name"; ActController "organization";
   ActIndex "spec.organizationRef.name"; ActIndex "spec.attachedCodeSecurityConfiguration.name"; ActIndex "spec.webhookPresets.name";
   ActIndex "spec.webhookIgnorePresets.name"; ActIndex "spec.autolinksPresets.name"; ActController "repository";
   ActIndex "spec.organizationRefs"; ActController "team"].

Lemma performs_controllers : performs main_controllers controllers_sequence.
Proof.
  unfold main_controllers, SetupRulesetPresetIndex, OrganizationCtl_SetupWithManager, RepositoryCtl_SetupWithManager, TeamCtl_SetupWithManager.
  apply (performs_check _ _ [ActIndex "spec.extends"; ActIndex rulesetPresetsNameIndex; ActIndex rulesetPresetsNameIndex]).
  { repeat first [apply (performs_check _ _ [_])|apply performs_one|apply performs_none];
      first [apply does_index_preset|apply does_index_organization|apply does_index_repository]. }
  apply (performs_check _ _ [_; _]).
  { apply (performs_check _ _ [_]); apply performs_one; [apply does_index_organization|apply does_complete]. }
  apply (performs_check _ _ [_; _; _; _; _; _]).
  { repeat apply (performs_check _ _ [_]); apply performs_one; first [apply does_index_repository|apply does_complete]. }
  apply (performs_check _ _ [_]); apply performs_one; [apply does_index_team|apply does_complete].
Qed.

(** What a start does: the acts before the last one. *)
Definition components_sequence (cfg : Config) (now : Z) : list StartAct :=
  [ActSpreading (NewManager cfg now)] ++ controllers_sequence ++
  (if EnableWebhooks (cfg_Features cfg) then [ActWebhook "Organization"; ActWebhook "Repository"] else []) ++
  [ActHealthz] ++ [ActReadyz "readyz"] ++ (if EnableWebhooks (cfg_Features cfg) then [ActReadyz "webhook"] else []).
Definition start_sequence (f : Flags) (cfg : Config) (namespaces : gset string) (now : Z) : list StartAct :=
  ActManager (mgrOptions f namespaces) :: ActClient :: components_sequence cfg now.

Lemma components_no_start cfg now : ActStart ∉ components_sequence cfg now.
Proof.
  unfold components_sequence, controllers_sequence. rewrite !elem_of_app.
  destruct (EnableWebhooks (cfg_Features cfg)); rewrite ?elem_of_cons, ?elem_of_nil; naive_solver.
Qed.
Lemma prefix_start (l done : list StartAct) : ActStart ∉ l → done `prefix_of` l ++ [ActStart] → ActStart ∈ done → done = l ++ [ActStart].
Proof.
  intros Hl [rest Hp] Hin. destruct rest as [|a rest _] using rev_ind; [by rewrite app_nil_r in Hp|].
  rewrite app_assoc in Hp. apply app_inj_tail in Hp as [-> _]. destruct Hl. apply elem_of_app. by left.
Qed.

Lemma performs_components cfg now : performs
  (check mgr_Add (NewManager cfg now) in
   check main_controllers in
   check (if EnableWebhooks (cfg_Features cfg) then check SetupOrganizationWebhookWithManager in SetupRepositoryWebhookWithManager
     else Ret None) in
   check AddHealthzCheck "healthz" in
   check AddReadyzCheck "readyz" in
   check (if EnableWebhooks (cfg_Features cfg) then AddReadyzCheck "webhook" else Ret None) in
   mgr_Start) (components_sequence cfg now ++ [ActStart]).
Proof.
  unfold components_sequence. rewrite <-!app_assoc.
  repeat apply performs_check; try (apply performs_one; first [apply does_add|apply does_healthz|apply does_readyz|apply does_start]).
  - apply performs_controllers.
  - destruct (EnableWebhooks _); [|apply performs_none]. apply (performs_check _ _ [_]); apply performs_one; apply does_webhook.
  - destruct (EnableWebhooks _); [|apply performs_none]. apply performs_one, does_readyz.
Qed.

(** A silent program changes nothing of the past. *)
Lemma does_nothing {B} (p : prog V B) v b v' : does p [] → run p v = (b, v') → log v' = log v.
Proof. intros Hp Hrun. specialize (Hp v). rewrite Hrun, app_nil_r in Hp. exact Hp. Qed.

(** The manager starts last: when it is started, its options are those that follow from the flags and the configured
    namespaces, and the spreading manager, then every index and controller, the webhooks if they are enabled, and the
    checks have been registered before, and nothing else; and [main] returns without an error only after that. *)
Theorem main_starts_last f v :
  let '(ret, v') := run (main f) v in
  ∃ done, log v' = log v ++ done ∧ (ret = None → ActStart ∈ done) ∧
    (ActStart ∈ done → ∃ cfg namespaces now, setupCacheNamespaces (WatchNamespace cfg) = inl namespaces ∧
      done = start_sequence f cfg namespaces now ++ [ActStart]).
Proof.
  assert (does (load_env f) []) as Henv.
  { intros v0. unfold load_env. rewrite run_bind. pose proof (does_load (strings_Split (envFile f) ","%char) v0) as H.
    by destruct (run (godotenv_Load _) v0). }
  assert (∀ cfg, does (set_logger cfg) []) as Hlogger.
  { intros cfg v0. unfold set_logger. destruct (parseLogLevel _ _ _). apply does_logger. }
  assert (∀ v1 (e : gerror), log v1 = log v → ∃ done, log v1 = log v ++ done ∧ (Some e = None → ActStart ∈ done) ∧
    (ActStart ∈ done → ∃ cfg namespaces now, setupCacheNamespaces (WatchNamespace cfg) = inl namespaces ∧
      done = start_sequence f cfg namespaces now ++ [ActStart])) as Hnothing.
  { intros v1 e Hv. exists []. rewrite app_nil_r. split_and!; [done|done|by intros ?%not_elem_of_nil]. }
  unfold main. rewrite run_bind. destruct (run (load_env f) v) as [[err|] v1] eqn:E1; apply (does_nothing _ _ _ _ Henv) in E1; [by apply Hnothing|].
  rewrite run_bind. destruct (run config_Parse v1) as [[cfg|err] v2] eqn:E2; apply (does_nothing _ _ _ _ does_parse) in E2; [|by apply Hnothing; etrans].
  rewrite run_bind. destruct (run (set_logger cfg) v2) as [u v3] eqn:E3. apply (does_nothing _ _ _ _ (Hlogger cfg)) in E3.
  destruct (setupCacheNamespaces (WatchNamespace cfg)) as [namespaces|err] eqn:Hns; [|apply Hnothing; congruence].
  rewrite run_bind. pose proof (does_manager (mgrOptions f namespaces) v3) as E4.
  destruct (run (ctrl_NewManager _) v3) as [[err|] v4]; cbn [snd] in E4.
  { exists [ActManager (mgrOptions f namespaces)]. split_and!; [cbn [run]; congruence|done|set_solver]. }
  rewrite run_bind. pose proof (does_client v4) as E5. destruct (run NewDirectClient v4) as [[err|] v5]; cbn [snd] in E5.
  { exists [ActManager (mgrOptions f namespaces); ActClient]. split_and!; [cbn [run]; rewrite E5, E4, <-app_assoc; cbn [app]; congruence|done|set_solver]. }
  rewrite run_bind. destruct (run time_Now v5) as [now v6] eqn:E6. apply (does_nothing _ _ _ _ does_now) in E6.
  destruct (performs_components cfg now v6) as (done & Hpre & Hlog & Hret). destruct (run _ v6) as [ret v7]. cbn [fst snd] in *.
  exists (ActManager (mgrOptions f namespaces) :: ActClient :: done). split_and!.
  - rewrite Hlog, E6, E5, E4, <-!app_assoc. cbn [app]. congruence.
  - intros H. rewrite (Hret H). set_solver.
  - intros [[=]|[[=]|Hin]%elem_of_cons]%elem_of_cons. exists cfg, namespaces, now. split; [done|].
    by rewrite (prefix_start _ _ (components_no_start cfg now) Hpre Hin).
Qed.
End Main.

(** ** A process in which every call succeeds *)
Module ToyProcess.
Import ToyCache.
Definition act (a : StartAct) : prog (list StartAct) (option gerror) := call (λ past, (None, past ++ [a])).
Definition silent {B} (b : B) : prog (list StartAct) B := gets (λ _, b).
#[export] Instance manager : CtrlManager (list StartAct) world := {|
  IndexOrganization field _ := act (ActIndex field); IndexRepository field _ := act (ActIndex field);
  IndexTeam field _ := act (ActIndex field); IndexRulesetPreset field _ := act (ActIndex field);
  Complete b := act (ActController (b_Named b)) |}.
#[export] Instance api (cfg : Config) : ProcessApi (list StartAct) := {|
  Level := string; InfoLevel := "info"; UnmarshalText level := inl level;
  godotenv_Load _ := silent None; is_ErrNotExist _ := false; config_Parse := silent (inl cfg); time_Now := silent 0;
  SetLogger _ _ := silent (); ctrl_NewManager o := act (ActManager o); NewDirectClient := act ActClient;
  mgr_Add m := act (ActSpreading m); CompleteWebhook kind := act (ActWebhook kind);
  AddHealthzCheck _ := act ActHealthz; AddReadyzCheck name := act (ActReadyz name); mgr_Start := act ActStart |}.
#[export] Instance laws cfg : ProcessLaws (A := api cfg) id.
Proof. split; intros; intros v; unfold id; cbn; by rewrite ?app_nil_r. Qed.
End ToyProcess.

Section Witnesses.
Import ToyCache ToyProcess.
Let reader : PresetReader world := index_reader (λ _ _, Ret (inl [])).

(** Every call succeeds, so that everything has been registered before the manager is started. *)
Lemma main_starts_last_witness :
  ∃ cfg namespaces now, (run (main (I := reader) (A := api default_config) default_flags) []).2 =
    start_sequence default_flags cfg namespaces now ++ [ActStart].
Proof.
  pose proof (main_starts_last (I := reader) (A := api default_config) id default_flags []) as H.
  assert ((run (main (I := reader) (A := api default_config) default_flags) []).1 = None) as Hret by reflexivity.
  destruct (run _ _) as [ret past]. cbn [fst snd] in *. destruct H as (done & Hlog & Hdone & Hstart).
  destruct (Hstart (Hdone Hret)) as (cfg & namespaces & now & _ & Heq). exists cfg, namespaces, now.
  unfold id in Hlog. cbn [app] in Hlog. congruence.
Defined.
End Witnesses.

(** ** The servers *)
(** Without the flag for HTTP/2 both servers only speak HTTP/1.1; the metrics are served with authentication exactly if
    they are secured, which is the default. *)
Lemma servers_hardened f c :
  (enableHTTP2 f = false → NextProtos (tls_of (webhookServerOptions f) c) = ["http/1.1"] ∧
    NextProtos (tls_of (metricsServerOptions f) c) = ["http/1.1"]) ∧
  so_Secure (metricsServerOptions f) = secureMetrics f ∧ secureMetrics default_flags = true ∧ enableHTTP2 default_flags = false.
Proof. split_and!; [|done..]. intros H. unfold tls_of. cbn. unfold tlsOpts. by rewrite H. Qed.
